(* ===== verification/_CoqProject ===== *)
-Q . S2P
Prelude.v
Errors.v
Config.v
Async.v
Operation.v
Settle.v
Phases.v
Cancellation.v
Glob.v
HostKey.v
TofuSpec.v
Auth.v
SecretMemory.v
System.v
Session.v
Timeouts.v
Loopback.v
Secrecy.v
Pinning.v
Channel.v
Forwarding.v
Setup.v
Terminal.v
Sftp.v
Net.v
Socks5.v
SocksService.v
Socks5Pool.v
Relay.v
RelayTunnels.v
Streams.v
Doubles.v
Statistics.v
UnitTests.v
SessionTests.v
AsyncTests.v
RelayTests.v
ServerTests.v
Demo.v
LoopbackDemo.v
