(* ===== verification/Prelude.v ===== *)
(** * xssh: a verified model of an asynchronous SSH client library

    This development models the Rust crate under [src/] (modules [core], [terminal] and
    [sftp]) and proves what makes its parts correct.

    ** The program

    [core/error.rs] and [core/config.rs] define structured errors and validated
    settings.  [core/operation.rs] bounds every remote operation by a deadline and a
    cancellation token.  [core/host_key.rs] parses [known_hosts] data and decides which
    server keys are trusted.  [core/auth.rs] holds secrets and authentication plans.
    [core/session.rs] connects (directly or through a jump host), checks the host key in
    the handshake, authenticates, and offers raw channel and forwarding requests;
    [core/channel.rs] turns these into channels, streams and forwards.  On top of them
    [core/relay.rs] and [core/socks5.rs] serve local clients, [terminal/] opens a remote
    shell and [sftp/] wraps an SFTP client.

    ** Files

    - [Prelude]: results and the [?] operator, wrap-around integers, the string
      functions of Rust's standard library the crate uses ([trim], [split], [lines],
      UTF-8 decoding, ...).
    - [Errors] ([error.rs]), [Config] ([config.rs]): data, setters, [validate].
    - [Async]: the meaning of [async fn].  A future is a tree [fut] of suspension
      points; [poll] is one [Future::poll], [exec] an executor that polls again after
      each [turn] of the environment (time passes, tokens are cancelled, libraries
      answer).  [Scope] is a [select!] of cancellation, timeout and a body that is
      dropped when another branch wins; its branches are polled in an arbitrary order.
      [wp] is a program logic over the history of calls and answers, sound for every
      environment, schedule and point of interruption ([wp_adequacy]).
    - [Operation] ([OperationContext]): [run], [run_with], [run_with_timeout] as such
      trees, and [guarded], the compositional reason why what runs under a context ends
      with it.  [Settle]: the total counterpart of [wp] for one environment, a future whose
      calls are answered at once returns.  [Phases]: futures made of phases, each with a
      deadline of its own, are over when the time of every phase has passed; what waits for
      a call that is never answered ends with its context, and with its error.
    - [Cancellation] ([CancellationToken]): one level below, the atomic accesses of
      [cancel] and [cancelled] as steps of any number of threads, and the latch they
      refine.
    - [Glob], [HostKey] ([host_key.rs]): the wildcard dynamic program and the language
      it decides; known_hosts entries, patterns, [KnownHostKeyVerifier], and
      [TofuHostKeyVerifier] with its mutex.  The trait is the class [HostKeyVerifier].
      [TofuSpec]: the contract of trust on first use, a store and a map of pins, and the
      proof that the verifier refines it.
    - [Auth] ([auth.rs]).  [SecretMemory]: its [SecretString] one level below, as an
      allocation that is cleared before it is freed.
    - [System]: the signature of all calls made on [russh], [russh-sftp] and [tokio],
      and the types passed to them; the class [SemaphoreLib] of tokio's semaphore.
    - [Session] ([session.rs]), [Channel] ([channel.rs]), [Terminal] ([terminal/]),
      [Sftp] ([sftp/]), [Net] (address texts and the relaying [select!]), [Socks5]
      ([socks5.rs]), [Relay] ([relay.rs]): one definition per function, named after it;
      where a file declares two functions of the same name the definition carries a
      prefix ([stream_read], [terminal_write], ...).  The accept loop of [Relay] and the
      tasks it spawns are a step relation over their shared counters and semaphore.
    - [Timeouts]: the timeouts [Session] sets for the two phases of connecting.
    - [Loopback]: [Session] against a server: the classes [Peer] and [Serves] say how the
      two libraries connect the client to a server's own handler (what it accepts is the
      handler's), and a connection attempt is followed from the call to its result.
    - [Secrecy]: [Session] run twice, with plans that differ only in passwords that the
      server answers alike.
    - [Pinning]: connection attempts that share one [TofuHostKeyVerifier], and the keys
      their servers proved.
    - [Forwarding]: the handler of [Session] and the receiving side of [Channel] joined by
      tokio's bounded queue (the class [MpscQueue]), and the FIFO they implement.
    - [Setup]: a session channel and a fixed series of requests on it, shared by
      [Terminal] and [Sftp].
    - [RelayTunnels]: the events of a relay's connections, and which streams they serve.
    - [SocksService]: a client of [Socks5] that has sent its bytes, and what it gets.
    - [Socks5Pool]: the accept loop of [Socks5] with the tasks it spawns, which hold
      permits of a real semaphore.
    - [Streams] ([SshChannelStream] of [channel.rs], [CountingStream] of [relay.rs]): the
      [AsyncRead] and [AsyncWrite] implementations, as instances of two classes.
    - [Doubles]: IEEE 754 double arithmetic as the standard library specifies it, with the
      rounding error of each operation.  [Statistics]: the throughput of a relay on such
      doubles, its accuracy, and the types of all numbers a relay reports.
    - [UnitTests], [SessionTests], [AsyncTests], [RelayTests], [ServerTests]: the crate's own
      tests as programs, the servers they start, [unwrap]s
      and assertions included, and the proofs that they pass: for every key, every port and
      every environment that behaves as the test's, where the test suite tries one.
    - [Demo], [LoopbackDemo]: instances of the interfaces and an execution for every theorem that has
      hypotheses.

    ** Theorems

    - Host keys: patterns and globs decide their languages; the verdict of a check as a
      function of the matching entries; a session's server has proved the key first pinned
      for its host; for plain host names and encodable keys trust on first use refines its
      contract; rendering and parsing are inverse on entries that fit on a line; replacing
      a key leaves all other entries as they are.
    - Secrets: the memory model refines the values the other files use, and no allocation
      of a dropped secret keeps a byte of it.
    - Cancellation and deadlines: no lost wake-up; a token refines a latch; [run] returns once stopped, returns
      only what it may, and does nothing under a cancelled context.
    - Sessions: a session is returned only after its host key was trusted and access
      granted, and against a server that answers it is returned exactly when the verifier
      trusts the server's key and the server accepts one of the plan's methods; credentials go only to completed handshakes; errors report the attempts
      and the place of the failure; connecting and the keyboard-interactive loop end;
      nothing but its own request and the server's answer depends on a password; no
      server can hold an attempt up beyond its two timeouts.
    - Channels, terminals, SFTP: arguments are validated before anything is sent,
      operations happen in order, at most once, and the [async] ones end within their
      timeouts; forwarded connections pass through the queue in order, each exactly once,
      and are handed over with the peer's own data.
    - SOCKS5: the byte sequences accepted are exactly those of RFC 1928 and RFC 1929,
      and a tunnel is opened only for an admitted client's own request; never more than
      [max_connections] connections are served at once; a client that speaks the protocol
      is served, with exactly the prescribed replies.
    - Relay: permits, tasks, connections and bytes counted balance under every interleaving; dispatch
      follows the access policy; a connection is one stream from an admitted peer, and all
      it does is ask for the configured target and copy to and from that channel; the streams are transparent and their byte counters
      exact; every number reported is of its type, and the throughput is the rate of the
      bytes the tasks read, up to a relative error of 2^-47.

    ** Third-party code

    What is not under [src/] is a parameter: classes [SshKeys], [AuthKeys], [Libraries]
    and [SemaphoreLib] for its types and pure functions, and [Env] for the futures and
    calls it answers, about which nothing is assumed.  The laws of [SemaphoreLib] and
    [MpscQueue] are those documented for tokio's semaphore and bounded channel;
    [KnownHostsFormat] is the documented format of a [known_hosts] line, as [ssh-key] reads
    its fields; the law [Zeroizes] is the documented effect of the zeroize crate; [Peer] and
    [Serves], used where a server is on the other end, are those of an SSH connection whose
    two ends speak the protocol.  [host_key_checked], used by [connect_checks_host_key], and
    [proved_keys_checked_among], used by [sessions_pinned_to_first_key], say that a handshake
    completes only if the handler's [check_server_key] accepted a key of the server; the
    latter names the key the server of each connection proved.

    ** Bounds and fuel

    Ports, lengths and counters are [N], kept at their widths by [u16_try_from],
    [u64_wrapping_add] and the like.  A [Duration] is its nanoseconds, an [Instant] those
    since the clock's origin; adding past [INSTANT_MAX] panics, as in the code.  Three
    loops take fuel because nothing but the peer ends them: the keyboard-interactive loop
    (each round answers one request of the server: [keyboard_interactive_terminates]), and
    the proxy's accept loop (each iteration accepts one connection:
    [socks_serve_permits]); hexadecimal digits of a 16-bit segment need four steps.

    ** Not modelled

    [Debug] output other than of secrets and methods; the wakers of [Context] (a poll is
    repeated, not scheduled); data races beyond the atomic accesses (the counters are
    relaxed atomic additions, one step each); copies of a secret that the SSH library or
    the allocator makes (a [String] that grows before it becomes a secret).  Of the tests:
    the SSH server library, random keys, the certificate builder and the sockets of the far
    side (parameters and hypotheses on the environment stand for them), and what the two
    relay tests and the SOCKS5 test do with a connection once it is relayed.  Accessors that
    return a field are the projections of the records. *)

From Stdlib Require Export Strings.String Strings.Ascii Strings.Byte NArith.
From stdpp Require Export base tactics list strings gmap sets pretty decidable.

#[global] Arguments Ascii.eqb : simpl never.
#[global] Arguments String.append !_ _ : simpl nomatch.

(** ** Results and the [?] operator *)

Inductive result (E T : Type) : Type :=
| Ok (t : T)
| Err (e : E).
Arguments Ok {E T} t.
Arguments Err {E T} e.

#[export] Instance result_ret E : MRet (result E) := fun _ x => Ok x.
#[export] Instance result_bind E : MBind (result E) := fun _ _ f r =>
  match r with Ok x => f x | Err e => Err e end.
#[export] Instance result_fmap E : FMap (result E) := fun _ _ f r =>
  match r with Ok x => Ok (f x) | Err e => Err e end.

(** [Result::map_err]. *)
Definition map_err {E F T} (f : E -> F) (r : result E T) : result F T :=
  match r with Ok x => Ok x | Err e => Err (f e) end.

Definition is_ok {E T} (r : result E T) : bool :=
  match r with Ok _ => true | Err _ => false end.

Definition is_err {E T} (r : result E T) : bool := negb (is_ok r).

(** [Result::ok]. *)
Definition result_ok {E T} (r : result E T) : option T :=
  match r with Ok x => Some x | Err _ => None end.

#[export] Instance result_eq_dec E T `{EqDecision E, EqDecision T} :
  EqDecision (result E T).
Proof. solve_decision. Defined.

(** A guard of the form [if bad { return Err(e) }]. *)
Definition ensure {E} (good : bool) (e : E) : result E unit :=
  if good then Ok tt else Err e.

(** ** Characters and UTF-8

    A Rust [String] or [&str] is the [string] of its UTF-8 bytes; [chars]
    decodes it the way [core::str]'s iterator does. *)

Definition bytes_of_string (s : string) : list N :=
  N_of_ascii <$> list_ascii_of_string s.

Definition string_of_bytes (l : list N) : string :=
  string_of_list_ascii (ascii_of_N <$> l).

(** Number of continuation bytes announced by a leading byte. *)
Definition utf8_extra (lead : N) : nat :=
  if (lead <? 128)%N then 0
  else if (lead <? 224)%N then 1
  else if (lead <? 240)%N then 2
  else 3.

Definition utf8_payload (lead : N) : N :=
  if (lead <? 128)%N then lead
  else if (lead <? 224)%N then (lead mod 32)%N
  else if (lead <? 240)%N then (lead mod 16)%N
  else (lead mod 8)%N.

Definition utf8_push (acc b : N) : N := (acc * 64 + b mod 64)%N.

(** The characters of a byte sequence, each with the bytes it occupies. *)
Fixpoint char_slices (need : nat) (acc : N) (cur : list N) (l : list N)
  : list (N * list N) :=
  match l with
  | [] => match cur with [] => [] | _ => [(acc, rev cur)] end
  | b :: l' =>
      match need with
      | 0 => match utf8_extra b with
             | 0 => (b, [b]) :: char_slices 0 0 [] l'
             | S n => char_slices (S n) (utf8_payload b) [b] l'
             end
      | 1 => (utf8_push acc b, rev (b :: cur)) :: char_slices 0 0 [] l'
      | S n => char_slices n (utf8_push acc b) (b :: cur) l'
      end
  end.

Definition str_char_slices (s : string) : list (N * list N) :=
  char_slices 0 0 [] (bytes_of_string s).

Definition chars (s : string) : list N := fst <$> str_char_slices s.

(** [char::is_whitespace]: the Unicode [White_Space] property. *)
Definition is_whitespace (c : N) : bool :=
  ((9 <=? c) && (c <=? 13) || (c =? 32) || (c =? 133) || (c =? 160) ||
   (c =? 5760) || ((8192 <=? c) && (c <=? 8202)) || (c =? 8232) ||
   (c =? 8233) || (c =? 8239) || (c =? 8287) || (c =? 12288))%N.

Fixpoint drop_while {A} (p : A -> bool) (l : list A) : list A :=
  match l with
  | [] => []
  | x :: l' => if p x then drop_while p l' else l
  end.

(** [str::trim]. *)
Definition trim (s : string) : string :=
  let ws := fun cs : N * list N => is_whitespace (fst cs) in
  string_of_bytes (concat (snd <$>
    rev (drop_while ws (rev (drop_while ws (str_char_slices s)))))).

(** Well-formed UTF-8, the table [core::str::from_utf8] checks. *)
Definition cont (b : N) : bool := ((128 <=? b) && (b <=? 191))%N.

Definition second_ok (lead b : N) : bool :=
  (if lead =? 224 then (160 <=? b) && (b <=? 191)
   else if lead =? 237 then (128 <=? b) && (b <=? 159)
   else if lead =? 240 then (144 <=? b) && (b <=? 191)
   else if lead =? 244 then (128 <=? b) && (b <=? 143)
   else (128 <=? b) && (b <=? 191))%N.

Fixpoint utf8_valid (l : list N) : bool :=
  match l with
  | [] => true
  | a :: l1 =>
      if (a <? 128)%N then utf8_valid l1
      else if ((194 <=? a) && (a <=? 223))%N then
        match l1 with
        | b :: l2 => cont b && utf8_valid l2
        | _ => false
        end
      else if ((224 <=? a) && (a <=? 239))%N then
        match l1 with
        | b :: c :: l3 => second_ok a b && cont c && utf8_valid l3
        | _ => false
        end
      else if ((240 <=? a) && (a <=? 244))%N then
        match l1 with
        | b :: c :: d :: l4 => second_ok a b && cont c && cont d && utf8_valid l4
        | _ => false
        end
      else false
  end.

(** [String::from_utf8] on bytes. *)
Definition string_from_utf8 (l : list byte) : option string :=
  let ns := Byte.to_N <$> l in
  if utf8_valid ns then Some (string_of_bytes ns) else None.

(** ** [str] functions *)

Definition str_is_empty (s : string) : bool :=
  match s with EmptyString => true | _ => false end.

(** [str::strip_prefix]. *)
Fixpoint strip_prefix (p s : string) : option string :=
  match p, s with
  | EmptyString, _ => Some s
  | String a p', String b s' => if Ascii.eqb a b then strip_prefix p' s' else None
  | String _ _, EmptyString => None
  end.

Definition starts_with (p s : string) : bool :=
  match strip_prefix p s with Some _ => true | None => false end.

(** [str::strip_suffix] for a one-byte (ASCII) suffix. *)
Fixpoint strip_suffix_char (c : ascii) (s : string) : option string :=
  match s with
  | EmptyString => None
  | String a EmptyString => if Ascii.eqb a c then Some EmptyString else None
  | String a s' => String a <$> strip_suffix_char c s'
  end.

(** [str::contains] for an ASCII character. *)
Fixpoint contains_char (c : ascii) (s : string) : bool :=
  match s with
  | EmptyString => false
  | String a s' => Ascii.eqb a c || contains_char c s'
  end.

(** [str::contains] for a substring. *)
Fixpoint contains_str (p s : string) : bool :=
  starts_with p s ||
  match s with EmptyString => false | String _ s' => contains_str p s' end.

(** [str::split_once] for an ASCII character. *)
Fixpoint split_once (c : ascii) (s : string) : option (string * string) :=
  match s with
  | EmptyString => None
  | String a s' =>
      if Ascii.eqb a c then Some (EmptyString, s')
      else '(l, r) ← split_once c s'; Some (String a l, r)
  end.

(** [str::split] for an ASCII character: never empty. *)
Fixpoint split_char (c : ascii) (s : string) : list string :=
  match s with
  | EmptyString => [EmptyString]
  | String a s' =>
      if Ascii.eqb a c then EmptyString :: split_char c s'
      else match split_char c s' with
           | [] => [String a EmptyString]
           | x :: l => String a x :: l
           end
  end.

Definition newline : ascii := ascii_of_N 10.
Definition carriage_return : ascii := ascii_of_N 13.

(** [str::lines]: split on LF, a trailing empty piece is not a line, and one
    CR before the LF belongs to the terminator. *)
Definition strip_cr (s : string) : string :=
  match strip_suffix_char carriage_return s with Some s' => s' | None => s end.

Fixpoint line_pieces (pieces : list string) : list string :=
  match pieces with
  | [] => []
  | [p] => if str_is_empty p then [] else [p]
  | p :: rest => strip_cr p :: line_pieces rest
  end.

Definition lines (s : string) : list string := line_pieces (split_char newline s).

(** [slice::join]. *)
Fixpoint join (sep : string) (l : list string) : string :=
  match l with
  | [] => ""
  | [x] => x
  | x :: l' => x +:+ sep +:+ join sep l'
  end.

(** [str::to_ascii_lowercase]. *)
Definition ascii_lower (a : ascii) : ascii :=
  let n := N_of_ascii a in
  if ((65 <=? n) && (n <=? 90))%N then ascii_of_N (n + 32) else a.

Fixpoint to_ascii_lowercase (s : string) : string :=
  match s with
  | EmptyString => EmptyString
  | String a s' => String (ascii_lower a) (to_ascii_lowercase s')
  end.

(** Decimal [Display] of an unsigned integer and [Debug] of a vector of them. *)
Definition show (n : N) : string := pretty n.

Definition debug_vec (l : list N) : string := "[" +:+ join ", " (show <$> l) +:+ "]".

(** ** Machine integers *)

Definition u8_max : N := 255.
Definition u16_max : N := 65535.
Definition u64_modulus : N := (2 ^ 64)%N.

(** [u16::try_from(u32)]. *)
Definition u16_try_from (n : N) : option N :=
  if (n <=? u16_max)%N then Some n else None.

(** [AtomicU64::fetch_add]/[fetch_sub] wrap around. *)
Definition u64_wrapping_add (a b : N) : N := ((a + b) mod u64_modulus)%N.
Definition u64_wrapping_sub (a b : N) : N :=
  ((a + (u64_modulus - b mod u64_modulus)) mod u64_modulus)%N.

(** [u64::saturating_add]. *)
Definition u64_saturating_add (a b : N) : N := N.min (a + b) (u64_modulus - 1).

(** [u16::from_be_bytes]. *)
Definition u16_from_be_bytes (hi lo : byte) : N := (Byte.to_N hi * 256 + Byte.to_N lo)%N.

(** ** Lemmas *)

Lemma ensure_Ok {E} b (e : E) u : ensure b e = Ok u <-> b = true.
Proof. destruct u, b; split; cbn; congruence. Qed.

Lemma ensure_Err {E} b (e e' : E) : ensure b e = Err e' <-> b = false /\ e' = e.
Proof. destruct b; cbn; split; intuition congruence. Qed.

Lemma result_bind_Ok {E A B} (r : result E A) (f : A -> result E B) y :
  (x ← r; f x) = Ok y <-> exists x, r = Ok x /\ f x = Ok y.
Proof.
  destruct r as [x|e']; cbn; split.
  - intros H. by exists x.
  - by intros (x' & [= ->] & H).
  - done.
  - by intros (x' & H & _).
Qed.

Lemma result_bind_Err {E A B} (r : result E A) (f : A -> result E B) e :
  (x ← r; f x) = Err e <-> r = Err e \/ exists x, r = Ok x /\ f x = Err e.
Proof.
  destruct r as [x|e']; cbn; split.
  - intros H. right. by exists x.
  - by intros [H|(x' & [= ->] & H)].
  - intros [= ->]. by left.
  - by intros [[= ->]|(x' & H & _)].
Qed.

Lemma map_err_Ok {E F T} (f : E -> F) (r : result E T) x :
  map_err f r = Ok x <-> r = Ok x.
Proof. destruct r; cbn; split; congruence. Qed.

Lemma u16_try_from_Some n p :
  u16_try_from n = Some p <-> n = p /\ (p <= u16_max)%N.
Proof.
  unfold u16_try_from. destruct (N.leb_spec n u16_max); split.
  - by intros [= ->].
  - by intros [-> _].
  - done.
  - intros [-> Hle]. lia.
Qed.

Lemma u16_from_be_bytes_bound hi lo : (u16_from_be_bytes hi lo <= u16_max)%N.
Proof.
  unfold u16_from_be_bytes, u16_max.
  pose proof (Byte.to_N_bounded hi). pose proof (Byte.to_N_bounded lo). lia.
Qed.

Lemma u64_add_sub a b :
  (a < u64_modulus)%N -> (b <= a)%N -> u64_wrapping_sub a b = (a - b)%N.
Proof.
  unfold u64_wrapping_sub. intros Ha Hb.
  rewrite (N.mod_small b) by lia.
  replace (a + (u64_modulus - b))%N with (a - b + 1 * u64_modulus)%N by lia.
  rewrite N.Div0.mod_add. apply N.mod_small. lia.
Qed.

Lemma u64_modulus_pos : (0 < u64_modulus)%N.
Proof. done. Qed.

#[global] Arguments u64_modulus : simpl never.

(** A counter holds its true count modulo 2^64. *)
Lemma u64_wrapping_add_mod a b :
  u64_wrapping_add (a mod u64_modulus) b = ((a + b) mod u64_modulus)%N.
Proof. unfold u64_wrapping_add. apply N.Div0.add_mod_idemp_l. Qed.

Lemma u64_wrapping_sub_mod a b :
  (b <= a)%N -> u64_wrapping_sub (a mod u64_modulus) b = ((a - b) mod u64_modulus)%N.
Proof.
  intros Hb. pose proof u64_modulus_pos as Hm. unfold u64_wrapping_sub.
  rewrite N.Div0.add_mod_idemp_l.
  pose proof (N.mod_le b u64_modulus ltac:(lia)) as Hle.
  pose proof (N.Div0.div_mod b u64_modulus) as Hdiv.
  pose proof (N.mod_lt b u64_modulus ltac:(lia)) as Hlt.
  set (q := (b / u64_modulus)%N) in *. set (x := (b mod u64_modulus)%N) in *.
  replace (a + (u64_modulus - x))%N with (a - b + (q + 1) * u64_modulus)%N by nia.
  apply N.Div0.mod_add.
Qed.

Lemma starts_with_app p s : starts_with p (p +:+ s) = true.
Proof.
  unfold starts_with. induction p as [|a p IH]; [done|].
  cbn. by rewrite Ascii.eqb_refl.
Qed.

Lemma strip_prefix_app p s : strip_prefix p (p +:+ s) = Some s.
Proof. induction p as [|a p IH]; cbn; [done|]. by rewrite Ascii.eqb_refl. Qed.

Lemma strip_prefix_Some p s s' : strip_prefix p s = Some s' <-> s = p +:+ s'.
Proof.
  revert s. induction p as [|a p IH]; intros s; cbn; [naive_solver|].
  destruct s as [|b s]; [naive_solver|].
  destruct (Ascii.eqb_spec a b) as [->|Hne].
  - rewrite IH. split; [intros ->; done|by intros [= ->]].
  - split; [done|congruence].
Qed.

Lemma drop_while_all {A} (p : A -> bool) l : drop_while p l = [] <-> forallb p l = true.
Proof. induction l as [|x l IH]; cbn; [done|]. by destruct (p x). Qed.

(** [Option::is_some]. *)
Definition is_some {A} (o : option A) : bool := match o with Some _ => true | None => false end.

Lemma filter_comm {A} (p q : A -> bool) l :
  List.filter p (List.filter q l) = List.filter q (List.filter p l).
Proof.
  induction l as [|x l IH]; [done|]. cbn.
  destruct (q x) eqn:Hq, (p x) eqn:Hp; cbn; rewrite ?Hq, ?Hp, ?IH; done.
Qed.

Lemma filter_none {A} (p : A -> bool) l :
  (forall x, In x l -> p x = false) -> List.filter p l = [].
Proof.
  induction l as [|x l IH]; [done|]. cbn. intros H.
  rewrite (H x) by auto. apply IH. auto.
Qed.

Lemma filter_all {A} (p : A -> bool) l :
  (forall x, In x l -> p x = true) -> List.filter p l = l.
Proof.
  induction l as [|x l IH]; [done|]. cbn. intros H.
  rewrite (H x) by auto. f_equal. apply IH. auto.
Qed.

Lemma str_app_assoc (a b c : string) : (a +:+ b) +:+ c = a +:+ (b +:+ c).
Proof. induction a as [|x a IH]; [done|]. cbn. by rewrite IH. Qed.

Lemma str_app_nil_r (a : string) : a +:+ "" = a.
Proof. induction a as [|x a IH]; [done|]. cbn. by rewrite IH. Qed.

Lemma str_nonempty_iff s : negb (str_is_empty s) = true <-> s <> "".
Proof. by destruct s. Qed.

Lemma contains_char_app c s t :
  contains_char c (s +:+ t) = contains_char c s || contains_char c t.
Proof. induction s as [|a s IH]; [done|]. cbn. by rewrite IH, orb_assoc. Qed.

Lemma split_once_app c s t :
  contains_char c s = false -> split_once c (s +:+ String c t) = Some (s, t).
Proof.
  induction s as [|a s IH]; cbn; [by rewrite Ascii.eqb_refl|].
  intros [Ha Hs]%orb_false_iff. rewrite Ha. by rewrite IH.
Qed.

Lemma strip_suffix_char_none c s : contains_char c s = false -> strip_suffix_char c s = None.
Proof.
  induction s as [|a s IH]; [done|]. intros [Ha Hs]%orb_false_iff. cbn.
  destruct s; [by rewrite Ha|]. by rewrite IH.
Qed.

Lemma string_of_bytes_of_string s : string_of_bytes (bytes_of_string s) = s.
Proof. induction s as [|a s IH]; [done|]. cbn. rewrite ascii_N_embedding. f_equal. exact IH. Qed.

Lemma string_of_bytes_length l : String.length (string_of_bytes l) = length l.
Proof. induction l as [|n l IH]; [done|]. cbn. f_equal. exact IH. Qed.

Lemma bytes_of_string_length s : length (bytes_of_string s) = String.length s.
Proof. induction s as [|a s IH]; [done|]. cbn. f_equal. exact IH. Qed.

Lemma bytes_of_string_app s t : bytes_of_string (s +:+ t) = bytes_of_string s ++ bytes_of_string t.
Proof. induction s as [|a s IH]; [done|]. cbn. f_equal. exact IH. Qed.

(** *** Trimming

    Decoding loses no byte, so [trim] keeps a text exactly when neither its first nor its
    last character is white space. *)

Definition slice_bytes (l : list (N * list N)) : list N := concat (snd <$> l).

Lemma slice_bytes_app l1 l2 : slice_bytes (l1 ++ l2) = slice_bytes l1 ++ slice_bytes l2.
Proof. unfold slice_bytes. by rewrite fmap_app, concat_app. Qed.

Lemma slice_bytes_rev l : length (slice_bytes (rev l)) = length (slice_bytes l).
Proof.
  induction l as [|x l IH]; [done|]. cbn [rev].
  change (x :: l) with ([x] ++ l). rewrite !slice_bytes_app, !length_app, IH. lia.
Qed.

Lemma char_slices_bytes l : forall need acc cur,
  (need = 0 -> cur = []) -> slice_bytes (char_slices need acc cur l) = rev cur ++ l.
Proof.
  unfold slice_bytes. induction l as [|b l IH]; intros need acc cur Hn; cbn [char_slices].
  - rewrite app_nil_r. destruct cur; [done|]. cbn. by rewrite app_nil_r.
  - destruct need as [|[|n]].
    + rewrite (Hn eq_refl). destruct (utf8_extra b); cbn; by rewrite IH.
    + cbn. rewrite IH by done. by rewrite <-app_assoc.
    + rewrite IH by done. cbn. by rewrite <-app_assoc.
Qed.

Lemma str_char_slices_bytes s : slice_bytes (str_char_slices s) = bytes_of_string s.
Proof. unfold str_char_slices. by rewrite char_slices_bytes. Qed.

Lemma char_slices_nonempty l : forall need acc cur,
  Forall (fun cs => snd cs <> []) (char_slices need acc cur l).
Proof.
  induction l as [|b l IH]; intros need acc cur; cbn [char_slices].
  - destruct cur as [|c cur]; constructor; [|constructor]. cbn. by destruct (rev cur).
  - destruct need as [|[|n]]; [destruct (utf8_extra b)|..]; try apply IH;
      (constructor; [|apply IH]); cbn; [done|by destruct (rev cur)].
Qed.

Lemma drop_while_bytes p l :
  Forall (fun cs : N * list N => snd cs <> []) l ->
  length (slice_bytes (drop_while p l)) <= length (slice_bytes l) /\
  (length (slice_bytes (drop_while p l)) = length (slice_bytes l) -> drop_while p l = l).
Proof.
  induction 1 as [|[c [|b bs]] l Hx _ [IH _]]; [done|done|]. cbn [drop_while].
  destruct (p (c, b :: bs)); [|done]. unfold slice_bytes in *. cbn. rewrite length_app.
  split; [lia|]. intros. lia.
Qed.

(** The last character of a text [trim] keeps is not white space. *)
Lemma trim_fixed_last s :
  trim s = s ->
  drop_while (fun cs => is_whitespace (fst cs)) (rev (str_char_slices s)) = rev (str_char_slices s).
Proof.
  set (ws := fun cs : N * list N => is_whitespace (fst cs)). intros Ht.
  set (l := str_char_slices s). pose proof (char_slices_nonempty (bytes_of_string s) 0 0 []) as Hne.
  change (char_slices 0 0 [] (bytes_of_string s)) with l in Hne.
  assert (length (slice_bytes (drop_while ws (rev (drop_while ws l)))) = length (slice_bytes l)) as Hl.
  { unfold l at 2. rewrite str_char_slices_bytes, bytes_of_string_length.
    rewrite <-Ht. unfold trim. fold ws l. rewrite string_of_bytes_length.
    symmetry. apply slice_bytes_rev. }
  destruct (drop_while_bytes ws l Hne) as [Hle Heq].
  assert (Forall (fun cs => snd cs <> []) (rev (drop_while ws l))) as Hne'.
  { apply Forall_rev. clear -Hne. induction Hne; cbn; [done|]. destruct (ws x); [done|by constructor]. }
  destruct (drop_while_bytes ws _ Hne') as [Hle' Heq'].
  rewrite slice_bytes_rev in Hle', Heq'.
  assert (drop_while ws l = l) as E by (apply Heq; lia).
  rewrite E in *. apply Heq'. lia.
Qed.

Lemma char_slices_ascii_app l l' :
  Forall (fun n => (n < 128)%N) l ->
  char_slices 0 0 [] (l ++ l') = ((fun n => (n, [n])) <$> l) ++ char_slices 0 0 [] l'.
Proof.
  induction 1 as [|n l Hn _ IH]; [done|]. cbn. unfold utf8_extra.
  rewrite (proj2 (N.ltb_lt _ _) Hn). by rewrite IH.
Qed.

Lemma drop_while_fixed_app {X} (p : X -> bool) l l' :
  l <> [] -> drop_while p l = l -> drop_while p (l ++ l') = l ++ l'.
Proof.
  destruct l as [|x l]; [done|]. intros _ H. cbn in *. destruct (p x); [exfalso|done].
  assert (length (drop_while p l) <= length l) as Hle.
  { clear. induction l as [|y l IH]; cbn; [lia|]. case_match; cbn; lia. }
  rewrite H in Hle. cbn in Hle. lia.
Qed.

(** Text put before a trimmed one stays. *)
Lemma trim_prepend a s t :
  Forall (fun n => (n < 128)%N) (bytes_of_string (String a s)) ->
  is_whitespace (N_of_ascii a) = false -> trim t = t -> t <> "" ->
  trim (String a s +:+ t) = String a s +:+ t.
Proof.
  intros Ha Hw Ht Hne. pose proof (str_char_slices_bytes (String a s +:+ t)) as Hall.
  pose proof (char_slices_ascii_app _ (bytes_of_string t) Ha) as Hl.
  rewrite <-bytes_of_string_app in Hl.
  change (char_slices 0 0 [] (bytes_of_string (String a s +:+ t)))
    with (str_char_slices (String a s +:+ t)) in Hl.
  change (char_slices 0 0 [] (bytes_of_string t)) with (str_char_slices t) in Hl.
  assert (rev (str_char_slices t) <> []) as Hn.
  { intros Hr. apply Hne. pose proof (str_char_slices_bytes t) as Hb.
    rewrite <-(rev_involutive (str_char_slices t)), Hr in Hb. by destruct t. }
  unfold trim. rewrite <-(string_of_bytes_of_string (String a s +:+ t)) at 2.
  f_equal. rewrite <-Hall. unfold slice_bytes. do 2 f_equal. rewrite Hl.
  assert (forall r, drop_while (fun cs : N * list N => is_whitespace (fst cs))
    (((fun n => (n, [n])) <$> bytes_of_string (String a s)) ++ r) =
    ((fun n => (n, [n])) <$> bytes_of_string (String a s)) ++ r) as ->
    by (intros r; cbn; by rewrite Hw).
  rewrite rev_app_distr, drop_while_fixed_app by (done || by apply trim_fixed_last).
  by rewrite <-rev_app_distr, rev_involutive.
Qed.

Lemma split_once_none c s : contains_char c s = false -> split_once c s = None.
Proof.
  induction s as [|a s IH]; [done|]. cbn. intros [Ha Hs]%orb_false_iff. rewrite Ha. by rewrite IH.
Qed.

#[global] Arguments strip_prefix : simpl never.
#[global] Arguments split_once : simpl never.
