(* ===== verification/Errors.v ===== *)
(** * Errors: structured failures ([src/core/error.rs]) and the observations
    they carry (data types of [src/core/host_key.rs] and [src/core/auth.rs]). *)

From S2P Require Export Prelude.

(** ** Observations *)

(** [HostKeyDecision]. *)
Inductive HostKeyDecision := Trusted | Unknown | Changed | Revoked.

#[global] Instance HostKeyDecision_eq_dec : EqDecision HostKeyDecision.
Proof. solve_decision. Defined.

(** [HostKeyObservation]. *)
Record HostKeyObservation := {
  hko_host : string;
  hko_port : N;
  decision : HostKeyDecision;
  presented_fingerprint : string;
  expected_fingerprints : list string;
  matched_lines : list N
}.

#[global] Instance HostKeyObservation_eq_dec : EqDecision HostKeyObservation.
Proof. solve_decision. Defined.

(** [ServerAuthMethod]. *)
Inductive ServerAuthMethod :=
| SrvNone | SrvPassword | SrvPublicKey | SrvHostBased | SrvKeyboardInteractive.

#[global] Instance ServerAuthMethod_eq_dec : EqDecision ServerAuthMethod.
Proof. solve_decision. Defined.

(** [AuthMethodKind]. *)
Inductive AuthMethodKind :=
| KPassword | KPrivateKey | KOpenSshCertificate | KKeyboardInteractive | KAgent.

#[global] Instance AuthMethodKind_eq_dec : EqDecision AuthMethodKind.
Proof. solve_decision. Defined.

(** [AuthenticationAttempt]. *)
Record AuthenticationAttempt := {
  at_method : AuthMethodKind;
  at_accepted : bool;
  at_partial_success : bool;
  at_remaining_methods : list ServerAuthMethod;
  at_error : option string
}.

#[global] Instance AuthenticationAttempt_eq_dec : EqDecision AuthenticationAttempt.
Proof. solve_decision. Defined.

(** [AuthenticationObservation] and its [Default]. *)
Record AuthenticationObservation := {
  attempts : list AuthenticationAttempt;
  ob_remaining_methods : list ServerAuthMethod;
  ob_partial_success : bool
}.

#[global] Instance AuthenticationObservation_eq_dec : EqDecision AuthenticationObservation.
Proof. solve_decision. Defined.

Definition empty_observation : AuthenticationObservation :=
  {| attempts := []; ob_remaining_methods := []; ob_partial_success := false |}.

(** ** Errors *)

Module ErrorKind.

(** [ErrorKind]. *)
Inductive ErrorKind :=
| Configuration | Connection | Handshake | HostKey | Authentication
| Channel | Protocol | Timeout | Cancelled | Internal.

#[global] Instance ErrorKind_eq_dec : EqDecision ErrorKind.
Proof. solve_decision. Defined.

(** [is_retryable_kind]. *)
Definition is_retryable_kind (k : ErrorKind) : bool :=
  match k with
  | Connection | Handshake | Channel | Timeout => true
  | _ => false
  end.

(** [Debug for ErrorKind]. *)
Definition show_kind (k : ErrorKind) : string :=
  match k with
  | Configuration => "Configuration" | Connection => "Connection"
  | Handshake => "Handshake" | HostKey => "HostKey"
  | Authentication => "Authentication" | Channel => "Channel"
  | Protocol => "Protocol" | Timeout => "Timeout"
  | Cancelled => "Cancelled" | Internal => "Internal"
  end.

End ErrorKind.

Abbreviation ErrorKind := ErrorKind.ErrorKind.

Module SshError.

Import ErrorKind.

(** [ErrorContext]. *)
Record ErrorContext := {
  ctx_operation : option string;
  ctx_host : option string;
  ctx_port : option N;
  ctx_path : option string;
  ctx_host_key_observation : option HostKeyObservation;
  ctx_authentication_observation : option AuthenticationObservation
}.

#[global] Instance ErrorContext_eq_dec : EqDecision ErrorContext.
Proof. solve_decision. Defined.

Definition empty_context : ErrorContext :=
  {| ctx_operation := None; ctx_host := None; ctx_port := None; ctx_path := None;
     ctx_host_key_observation := None; ctx_authentication_observation := None |}.

(** The accessors of an [ErrorContext]. *)
Definition context_operation (c : ErrorContext) : option string := ctx_operation c.
Definition context_host (c : ErrorContext) : option string := ctx_host c.
Definition context_port (c : ErrorContext) : option N := ctx_port c.
Definition context_path (c : ErrorContext) : option string := ctx_path c.
Definition context_host_key_observation (c : ErrorContext) : option HostKeyObservation :=
  ctx_host_key_observation c.
Definition context_authentication_observation (c : ErrorContext)
  : option AuthenticationObservation :=
  ctx_authentication_observation c.

(** [SshError]. The boxed source error is kept as its [Display] text. *)
Record SshError := {
  kind : ErrorKind;
  message : string;
  context : ErrorContext;
  retryable : bool;
  source : option string
}.

(** [SshError::new] and the per-kind constructors. *)
Definition new (k : ErrorKind) (msg : string) : SshError :=
  {| kind := k; message := msg; context := empty_context;
     retryable := is_retryable_kind k; source := None |}.

Definition reclassify (e : SshError) (k : ErrorKind) : SshError :=
  {| kind := k; message := message e; context := context e;
     retryable := is_retryable_kind k; source := source e |}.

Definition configuration (msg : string) : SshError := new Configuration msg.
Definition host_key (msg : string) : SshError := new HostKey msg.
Definition authentication (msg : string) : SshError := new Authentication msg.
Definition protocol (msg : string) : SshError := new Protocol msg.
Definition channel (msg : string) : SshError := new Channel msg.
Definition timeout (msg : string) : SshError := new Timeout msg.
Definition cancelled (msg : string) : SshError := new Cancelled msg.

Definition from_source (k : ErrorKind) (msg : string) (src : string) : SshError :=
  let error := new k msg in
  {| kind := kind error; message := message error; context := context error;
     retryable := retryable error; source := Some src |}.

Definition set_context (f : ErrorContext -> ErrorContext) (e : SshError) : SshError :=
  {| kind := kind e; message := message e; context := f (context e);
     retryable := retryable e; source := source e |}.

Definition with_operation (op : string) : SshError -> SshError :=
  set_context (fun c =>
    {| ctx_operation := Some op; ctx_host := ctx_host c; ctx_port := ctx_port c;
       ctx_path := ctx_path c;
       ctx_host_key_observation := ctx_host_key_observation c;
       ctx_authentication_observation := ctx_authentication_observation c |}).

Definition with_endpoint (host : string) (port : N) : SshError -> SshError :=
  set_context (fun c =>
    {| ctx_operation := ctx_operation c; ctx_host := Some host; ctx_port := Some port;
       ctx_path := ctx_path c;
       ctx_host_key_observation := ctx_host_key_observation c;
       ctx_authentication_observation := ctx_authentication_observation c |}).

Definition with_path (path : string) : SshError -> SshError :=
  set_context (fun c =>
    {| ctx_operation := ctx_operation c; ctx_host := ctx_host c; ctx_port := ctx_port c;
       ctx_path := Some path;
       ctx_host_key_observation := ctx_host_key_observation c;
       ctx_authentication_observation := ctx_authentication_observation c |}).

Definition with_host_key_observation (o : HostKeyObservation) : SshError -> SshError :=
  set_context (fun c =>
    {| ctx_operation := ctx_operation c; ctx_host := ctx_host c; ctx_port := ctx_port c;
       ctx_path := ctx_path c;
       ctx_host_key_observation := Some o;
       ctx_authentication_observation := ctx_authentication_observation c |}).

Definition with_authentication_observation (o : AuthenticationObservation)
  : SshError -> SshError :=
  set_context (fun c =>
    {| ctx_operation := ctx_operation c; ctx_host := ctx_host c; ctx_port := ctx_port c;
       ctx_path := ctx_path c;
       ctx_host_key_observation := ctx_host_key_observation c;
       ctx_authentication_observation := Some o |}).

Definition with_retryable (r : bool) (e : SshError) : SshError :=
  {| kind := kind e; message := message e; context := context e;
     retryable := r; source := source e |}.

(** Accessors. *)
Definition operation (e : SshError) : option string := context_operation (context e).
Definition host (e : SshError) : option string := context_host (context e).
Definition port (e : SshError) : option N := context_port (context e).
Definition path (e : SshError) : option string := context_path (context e).
Definition host_key_observation (e : SshError) : option HostKeyObservation :=
  context_host_key_observation (context e).
Definition authentication_observation (e : SshError) : option AuthenticationObservation :=
  context_authentication_observation (context e).
Definition is_retryable (e : SshError) : bool := retryable e.

(** [Clone for SshError]; the source is shared. *)
Definition clone (e : SshError) : SshError :=
  {| kind := kind e; message := message e; context := context e;
     retryable := retryable e; source := source e |}.

(** [std::error::Error::source]. *)
Definition error_source (e : SshError) : option string := source e.

(** [PartialEq for SshError]: the source is not compared. *)
Definition SshError_eqb (a b : SshError) : bool :=
  bool_decide (kind a = kind b) && bool_decide (message a = message b) &&
  bool_decide (context a = context b) && bool_decide (retryable a = retryable b).

(** [Display for SshError]. *)
Definition display (e : SshError) : string :=
  show_kind (kind e) +:+ ": " +:+ message e +:+
  (match operation e with
   | Some op => " (operation: " +:+ op +:+ ")" | None => "" end) +:+
  (match host e with
   | Some h => " [" +:+ h +:+ ":" +:+ show (default 22%N (port e)) +:+ "]"
   | None => "" end) +:+
  (match path e with Some p => " [path: " +:+ p +:+ "]" | None => "" end).

(** ** The equivalence [==] and the builders *)

#[global] Instance SshError_equiv : Equiv SshError := fun a b => SshError_eqb a b = true.

Lemma SshError_equiv_iff (a b : SshError) :
  a ≡ b <-> kind a = kind b /\ message a = message b /\
            context a = context b /\ retryable a = retryable b.
Proof.
  unfold equiv, SshError_equiv, SshError_eqb.
  rewrite !andb_true_iff, !bool_decide_eq_true. tauto.
Qed.

#[global] Instance SshError_equivalence : Equivalence (≡@{SshError}).
Proof.
  split.
  - intros a. by apply SshError_equiv_iff.
  - intros a b. rewrite !SshError_equiv_iff. intuition congruence.
  - intros a b c. rewrite !SshError_equiv_iff. intuition congruence.
Qed.

#[global] Instance SshError_eqb_dec (a b : SshError) : Decision (a ≡ b).
Proof. unfold equiv, SshError_equiv. apply _. Defined.

#[global] Instance kind_proper : Proper ((≡) ==> (=)) kind.
Proof. intros a b H. by apply SshError_equiv_iff in H as (? & _). Qed.

#[global] Instance set_context_proper f : Proper ((≡) ==> (≡)) (set_context f).
Proof.
  intros a b H%SshError_equiv_iff. apply SshError_equiv_iff.
  destruct H as (? & ? & Hc & ?). cbn. by rewrite Hc.
Qed.

#[global] Instance reclassify_proper : Proper ((≡) ==> (=) ==> (≡)) reclassify.
Proof.
  intros a b H%SshError_equiv_iff k ? <-. apply SshError_equiv_iff.
  cbn. intuition congruence.
Qed.

#[global] Instance display_proper : Proper ((≡) ==> (=)) display.
Proof.
  intros a b H%SshError_equiv_iff. destruct H as (Hk & Hm & Hc & _).
  unfold display, operation, host, port, path. by rewrite Hk, Hm, Hc.
Qed.

(** An error as it leaves its constructor: its retry flag is the one its
    kind prescribes. *)
Definition canonical_retry (e : SshError) : Prop :=
  retryable e = is_retryable_kind (kind e).

Lemma SshError_new_canonical k msg : canonical_retry (new k msg).
Proof. done. Qed.

Lemma from_source_canonical k msg src : canonical_retry (from_source k msg src).
Proof. done. Qed.

Lemma reclassify_canonical e k : canonical_retry (reclassify e k).
Proof. done. Qed.

Lemma set_context_canonical f e : canonical_retry e -> canonical_retry (set_context f e).
Proof. done. Qed.

Lemma kind_with_operation op e : kind (with_operation op e) = kind e.
Proof. done. Qed.

Lemma kind_with_endpoint h p e : kind (with_endpoint h p e) = kind e.
Proof. done. Qed.

End SshError.

Abbreviation SshError := SshError.SshError.

Create HintDb errors.
#[export] Hint Resolve SshError.SshError_new_canonical SshError.from_source_canonical
  SshError.reclassify_canonical SshError.set_context_canonical : errors.
