(* ===== verification/Config.v ===== *)
(** * Config: connection settings ([src/core/config.rs]). *)

From S2P Require Export Errors.

(** A [Duration] is its number of nanoseconds. *)
Abbreviation Duration := N (only parsing).

Definition duration_from_secs (s : N) : Duration := (s * 1000000000)%N.

(** [Duration::is_zero]. *)
Definition is_zero (d : Duration) : bool := (d =? 0)%N.

(** [SshConfig]. *)
Record SshConfig := {
  cfg_host : string;
  cfg_port : N;
  cfg_username : string;
  connect_timeout : Duration;
  authentication_timeout : Duration;
  operation_timeout : Duration;
  keepalive_interval : option Duration
}.

#[export] Instance SshConfig_eq_dec : EqDecision SshConfig.
Proof. solve_decision. Defined.

(** [SshConfig::validate], guard by guard. *)
Definition validate (c : SshConfig) : result SshError unit :=
  ensure (negb (str_is_empty (trim (cfg_host c))))
    (SshError.configuration "SSH host must not be empty");;
  ensure (negb (str_is_empty (trim (cfg_username c))))
    (SshError.configuration "SSH username must not be empty");;
  ensure (negb (cfg_port c =? 0)%N)
    (SshError.configuration "SSH port must be between 1 and 65535");;
  ensure (negb (is_zero (connect_timeout c)))
    (SshError.configuration "SSH connect timeout must be positive");;
  ensure (negb (is_zero (authentication_timeout c)))
    (SshError.configuration "SSH authentication timeout must be positive");;
  ensure (negb (is_zero (operation_timeout c)))
    (SshError.configuration "SSH operation timeout must be positive");;
  ensure (negb (match keepalive_interval c with
                | Some interval => is_zero interval
                | None => false
                end))
    (SshError.configuration "SSH keepalive interval must be positive when configured").

(** [SshConfig::new]. *)
Definition SshConfig_new (host username : string) : result SshError SshConfig :=
  let config :=
    {| cfg_host := host; cfg_port := 22; cfg_username := username;
       connect_timeout := duration_from_secs 15;
       authentication_timeout := duration_from_secs 15;
       operation_timeout := duration_from_secs 30;
       keepalive_interval := Some (duration_from_secs 30) |} in
  validate config;; mret config.

(** [SshConfig::socket_address]. *)
Definition socket_address (c : SshConfig) : string :=
  if contains_char ":" (cfg_host c) && negb (starts_with "[" (cfg_host c))
  then "[" +:+ cfg_host c +:+ "]:" +:+ show (cfg_port c)
  else cfg_host c +:+ ":" +:+ show (cfg_port c).

(** ** What [validate] promises *)

Record valid_config (c : SshConfig) : Prop := {
  vc_host : trim (cfg_host c) <> "";
  vc_username : trim (cfg_username c) <> "";
  vc_port : (0 < cfg_port c)%N;
  vc_connect : (0 < connect_timeout c)%N;
  vc_authentication : (0 < authentication_timeout c)%N;
  vc_operation : (0 < operation_timeout c)%N;
  vc_keepalive : forall d, keepalive_interval c = Some d -> (0 < d)%N
}.

Lemma is_zero_false d : negb (is_zero d) = true <-> (0 < d)%N.
Proof. unfold is_zero. destruct (N.eqb_spec d 0); cbn; split; (done || lia). Qed.

(** The accepting branch of a chain of [ensure]s is the conjunction of its guards. *)
Lemma ensure_bind_Ok {T} b e (r : result SshError T) x :
  (ensure b e;; r) = Ok x <-> b = true /\ r = Ok x.
Proof. destruct b; cbn; intuition congruence. Qed.

Lemma ensure_bind_Err {T} b e (r : result SshError T) e' :
  (ensure b e;; r) = Err e' <-> (b = false /\ e' = e) \/ (b = true /\ r = Err e').
Proof. destruct b; cbn; intuition congruence. Qed.

Lemma validate_Ok_iff c : validate c = Ok tt <-> valid_config c.
Proof.
  unfold validate.
  rewrite !ensure_bind_Ok, !str_nonempty_iff, !is_zero_false, ensure_Ok.
  rewrite negb_true_iff, N.eqb_neq.
  split.
  - intros (? & ? & ? & ? & ? & ? & Hk). split; try done; [lia|].
    intros d Hd. rewrite Hd in Hk. by apply is_zero_false.
  - intros [? ? ? ? ? ? Hk]. repeat split; try done; [lia|].
    destruct (keepalive_interval c) as [d|]; [|done].
    apply is_zero_false. by apply Hk.
Qed.

Lemma validate_Err_kind c e :
  validate c = Err e -> SshError.kind e = ErrorKind.Configuration.
Proof.
  unfold validate. rewrite !ensure_bind_Err, ensure_Err.
  intros H. repeat destruct H as [[_ ->]|[_ H]]; try done. by destruct H as [_ ->].
Qed.

(** ** Properties *)

(** [validate] accepts exactly the configurations whose host and username
    are not blank, whose port and timeouts are positive and whose keepalive, when
    configured, is positive; every rejection is a non-retryable [Configuration]
    error. *)
Lemma config_validate_correct c :
  (validate c = Ok tt <-> valid_config c) /\
  (forall e, validate c = Err e ->
     SshError.kind e = ErrorKind.Configuration /\ SshError.is_retryable e = false).
Proof.
  split; [apply validate_Ok_iff|]. intros e He. split; [by eapply validate_Err_kind|].
  unfold validate in He. rewrite !ensure_bind_Err, ensure_Err in He.
  repeat destruct He as [[_ ->]|[_ He]]; try done. by destruct He as [_ ->].
Qed.
