(* ===== verification/Async.v ===== *)
(** * Async: poll-level semantics of the crate's [async fn]s.

    A future is a tree of suspension points; [poll] advances it the way one
    [Future::poll] call does, and [exec] is an executor that re-polls a pending
    future after each turn of the environment.  The environment owns the clock,
    the cancellation flags and the state of every third-party object. *)

From Stdlib Require Import FunctionalExtensionality.
From S2P Require Export Prelude.

(** A [CancellationToken] is a name of a shared flag, an [Instant] its number
    of nanoseconds since the clock's origin. *)
Abbreviation token := N (only parsing).
Abbreviation Instant := N (only parsing).

(** ** Interfaces to third-party code

    [op] are the foreign futures the code awaits, [query] the foreign
    functions it calls without suspending. *)
Class Sig := {
  op : Type;
  answer : op -> Type;
  query : Type;
  reply : query -> Type
}.

(** How a scope ended: [run]'s [select!] over cancellation and [timeout]. *)
Inductive scope_result (T : Type) :=
| Completed (x : T)
| Interrupted
| Elapsed.
Arguments Completed {T} x.
Arguments Interrupted {T}.
Arguments Elapsed {T}.

Section Futures.
Context {Σ : Sig}.

Inductive fut (A : Type) : Type :=
| Ret (a : A)
| Panic (why : string)
| OutOfFuel
| GetNow (k : Instant -> fut A)
| IsCancelled (t : token) (k : bool -> fut A)
| FreshToken (k : token -> fut A)
| Query (q : query) (k : reply q -> fut A)
| Await (id : option N) (o : op) (k : answer o -> fut A)
| Scope (T : Type) (timer : option Instant) (t : token) (body : fut T)
    (k : scope_result T -> fut A).

End Futures.

Arguments Ret {Σ A} a.
Arguments Panic {Σ A} why.
Arguments OutOfFuel {Σ A}.
Arguments GetNow {Σ A} k.
Arguments IsCancelled {Σ A} t k.
Arguments FreshToken {Σ A} k.
Arguments Query {Σ A} q k.
Arguments Await {Σ A} id o k.
Arguments Scope {Σ A} T timer t body k.

#[export] Instance fut_ret {Σ : Sig} : MRet fut := fun A x => Ret x.

#[export] Instance fut_bind {Σ : Sig} : MBind fut := fun A B f =>
  fix go (t : fut A) : fut B :=
  match t with
  | Ret a => f a
  | Panic why => Panic why
  | OutOfFuel => OutOfFuel
  | GetNow k => GetNow (fun n => go (k n))
  | IsCancelled c k => IsCancelled c (fun b => go (k b))
  | FreshToken k => FreshToken (fun c => go (k c))
  | Query q k => Query q (fun r => go (k r))
  | Await id o k => Await id o (fun a => go (k a))
  | Scope T timer c body k => Scope T timer c body (fun r => go (k r))
  end.

#[export] Instance fut_fmap {Σ : Sig} : FMap fut := fun A B f t => t ≫= (fun x => Ret (f x)).

(** Binds associate; continuations are compared pointwise. *)
Lemma fut_bind_assoc {Σ : Sig} {A B C} (t : fut A) (f : A -> fut B) (g : B -> fut C) :
  (t ≫= f) ≫= g = t ≫= (fun x => f x ≫= g).
Proof.
  induction t; cbn; try done; f_equal; apply functional_extensionality; auto.
Qed.

(** The continuation of a bind may be bound first. *)
Lemma fut_bind_then {Σ : Sig} {A B C} (t : fut A) (f : A -> fut B) (g : B -> fut C) (h : A -> fut C) :
  (forall a, f a ≫= g = h a) -> (t ≫= f) ≫= g = t ≫= h.
Proof. intros Hh. rewrite fut_bind_assoc. f_equal. by apply functional_extensionality. Qed.

Lemma fut_map_bind {Σ : Sig} {A B C} (f : A -> B) (t : fut A) (g : B -> fut C) :
  (f <$> t) ≫= g = t ≫= (fun x => g (f x)).
Proof. apply fut_bind_assoc. Qed.

(** [x ←? m; k]: await [m] and return early on [Err] (the [?] operator). *)
Notation "x ←? m ; k" :=
  (m ≫= (fun r => match r with Ok x => k | Err e => mret (Err e) end))
  (at level 20, m at level 100, k at level 200, only parsing) : stdpp_scope.

Notation "m ;;? k" :=
  (m ≫= (fun r => match r with Ok _ => k | Err e => mret (Err e) end))
  (at level 100, k at level 200, right associativity, only parsing) : stdpp_scope.

Section Machine.
Context {Σ : Sig}.

Definition now : fut Instant := GetNow Ret.
Definition await (o : op) : fut (answer o) := Await None o Ret.
Definition ask (q : query) : fut (reply q) := Query q Ret.

(** Suspends at no point: the [Ok]/[Err] of a synchronous computation. *)
Definition lift {E A} (r : result E A) : fut (result E A) := Ret r.

(** ** Events *)

(** What a run of a future does to the outside world, in order. *)
Inductive event :=
| Issued (o : op)
| Answered (o : op) (a : answer o)
| Asked (q : query) (r : reply q).

(** ** The environment *)

(** [env_poll o id s]: one poll of the foreign future [o], started as call
    number [id], in foreign state [s]; [env_query] is a synchronous call. *)
Class Env (S : Type) := {
  env_poll : forall o : op, N -> S -> S * option (answer o);
  env_query : forall q : query, S -> S * reply q
}.

Record world (S : Type) := World {
  w_now : Instant;
  w_cancelled : gset N;
  w_next_token : token;
  w_next_call : N;
  w_coins : list bool;
  w_ext : S;
  w_log : list event
}.
Arguments World {S}.
Arguments w_now {S}.
Arguments w_cancelled {S}.
Arguments w_next_token {S}.
Arguments w_next_call {S}.
Arguments w_coins {S}.
Arguments w_ext {S}.
Arguments w_log {S}.

Context {S : Type} {E : Env S}.
Implicit Types w : world S.

Definition record_event (e : event) w : world S :=
  World (w_now w) (w_cancelled w) (w_next_token w) (w_next_call w) (w_coins w)
    (w_ext w) (w_log w ++ [e]).

Definition set_ext (s : S) w : world S :=
  World (w_now w) (w_cancelled w) (w_next_token w) (w_next_call w) (w_coins w)
    s (w_log w).

(** First poll of a foreign future: it is numbered and logged. *)
Definition issue (o : op) w : N * world S :=
  (w_next_call w,
   World (w_now w) (w_cancelled w) (w_next_token w) (w_next_call w + 1)%N
     (w_coins w) (w_ext w) (w_log w ++ [Issued o])).

Definition fresh w : token * world S :=
  (w_next_token w,
   World (w_now w) (w_cancelled w) (w_next_token w + 1)%N (w_next_call w)
     (w_coins w) (w_ext w) (w_log w)).

(** [select!] polls its branches in an order drawn at random. *)
Definition toss w : bool * world S :=
  match w_coins w with
  | [] => (false, w)
  | b :: cs => (b, World (w_now w) (w_cancelled w) (w_next_token w) (w_next_call w)
                     cs (w_ext w) (w_log w))
  end.

Definition is_set (t : token) w : bool := bool_decide (t ∈ w_cancelled w).

Definition timer_fired (timer : option Instant) w : bool :=
  match timer with Some d => (d <=? w_now w)%N | None => false end.

(** ** Polling *)

Definition is_pending {A} (t : fut A) : bool :=
  match t with Ret _ | Panic _ | OutOfFuel => false | _ => true end.

(** One poll.  In a scope the cancellation branch and the body are polled in
    a random order; the timer is looked at when the body is still pending. *)
Fixpoint poll {A} (t : fut A) w {struct t} : world S * fut A :=
  match t with
  | Ret a => (w, Ret a)
  | Panic why => (w, Panic why)
  | OutOfFuel => (w, OutOfFuel)
  | GetNow k => poll (k (w_now w)) w
  | IsCancelled c k => poll (k (is_set c w)) w
  | FreshToken k => let '(c, w1) := fresh w in poll (k c) w1
  | Query q k =>
      let '(s, r) := env_query q (w_ext w) in
      poll (k r) (record_event (Asked q r) (set_ext s w))
  | Await id o k =>
      let '(n, w1) := match id with Some n => (n, w) | None => issue o w end in
      let '(s, r) := env_poll o n (w_ext w1) in
      match r with
      | Some a => poll (k a) (record_event (Answered o a) (set_ext s w1))
      | None => (set_ext s w1, Await (Some n) o k)
      end
  | Scope T timer c body k =>
      let '(cancel_first, w1) := toss w in
      if cancel_first && is_set c w1 then poll (k Interrupted) w1
      else
        let '(w2, body') := poll body w1 in
        match body' with
        | Ret x => poll (k (Completed x)) w2
        | Panic why => (w2, Panic why)
        | OutOfFuel => (w2, OutOfFuel)
        | _ =>
            if timer_fired timer w2 then poll (k Elapsed) w2
            else if is_set c w2 then poll (k Interrupted) w2
            else (w2, Scope T timer c body' k)
        end
  end.

(** ** Executing *)

(** What happens between two polls: time passes, other tasks cancel tokens,
    the foreign state moves, fresh randomness is drawn. *)
Record turn := Turn {
  t_advance : N;
  t_cancel : gset N;
  t_coins : list bool;
  t_env : S -> S
}.

Definition take_turn (u : turn) w : world S :=
  World (w_now w + t_advance u)%N (w_cancelled w ∪ t_cancel u) (w_next_token w)
    (w_next_call w) (w_coins w ++ t_coins u) (t_env u (w_ext w)) (w_log w).

Fixpoint exec {A} (turns : list turn) (t : fut A) w : world S * fut A :=
  let '(w', t') := poll t w in
  if is_pending t' then
    match turns with
    | [] => (w', t')
    | u :: us => exec us t' (take_turn u w')
    end
  else (w', t').

End Machine.

Arguments World {Σ S}.
Arguments w_now {Σ S}.
Arguments w_cancelled {Σ S}.
Arguments w_next_token {Σ S}.
Arguments w_next_call {Σ S}.
Arguments w_coins {Σ S}.
Arguments w_ext {Σ S}.
Arguments w_log {Σ S}.
Arguments Turn {S}.

(** ** A program logic over histories

    [wp t Q I h]: started with history [h] in any environment and under any
    schedule, [t] only returns values satisfying [Q], and [I] holds of the
    history at every point where it can be suspended (so also where an enclosing
    scope can drop it).  The [Budget] says with which histories it may panic,
    and with which a loop modelled with fuel may run out of it. *)
Class Budget {Σ : Sig} := {
  panicked : list event -> Prop;
  exhausted : list event -> Prop
}.

(** Nothing is claimed of a run that panics or runs out of fuel. *)
Definition any_budget {Σ : Sig} : Budget :=
  {| panicked _ := True; exhausted _ := True |}.

(** A property of histories that also holds there. *)
Definition always {Σ : Sig} (J : list event -> Prop) : Budget :=
  {| panicked := J; exhausted := J |}.

Section Logic.
Context {Σ : Sig} {F : Budget}.

Fixpoint wp {A} (t : fut A) (Q : A -> list event -> Prop) (I : list event -> Prop)
    (h : list event) {struct t} : Prop :=
  match t with
  | Ret a => Q a h
  | Panic _ => panicked h
  | OutOfFuel => exhausted h
  | GetNow k => forall n, wp (k n) Q I h
  | IsCancelled _ k => forall b, wp (k b) Q I h
  | FreshToken k => forall c, wp (k c) Q I h
  | Query q k => forall r, wp (k r) Q I (h ++ [Asked q r])
  | Await id o k =>
      let h1 := match id with Some _ => h | None => h ++ [Issued o] end in
      I h1 /\ forall a, wp (k a) Q I (h1 ++ [Answered o a])
  | Scope _ timer _ body k =>
      let stopped h' := I h' /\ wp (k Interrupted) Q I h' /\
                        (timer <> None -> wp (k Elapsed) Q I h') in
      wp body (fun x h' => wp (k (Completed x)) Q I h') stopped h /\
      wp (k Interrupted) Q I h
  end.

(** What [wp] says about a state of an execution. *)
Definition wp_state {A} (t : fut A) (Q : A -> list event -> Prop)
    (I : list event -> Prop) (h : list event) : Prop :=
  wp t Q I h /\ (is_pending t = true -> I h).

Lemma wp_mono {A} (t : fut A) (Q Q' : A -> list event -> Prop) (I I' : list event -> Prop) h :
  (forall a h', Q a h' -> Q' a h') -> (forall h', I h' -> I' h') ->
  wp t Q I h -> wp t Q' I' h.
Proof.
  intros HQ HI. revert Q Q' I I' HQ HI h.
  induction t as [A a|A why|A|A k IH|A c k IH|A k IH|A q k IH|A id o k IH
                 |A T timer c body IHb k IH]; intros Q Q' I I' HQ HI h; cbn.
  - apply HQ.
  - done.
  - done.
  - intros H n. eapply IH; eauto.
  - intros H n. eapply IH; eauto.
  - intros H n. eapply IH; eauto.
  - intros H n. eapply IH; eauto.
  - intros [Hi Hk]. split; [by apply HI|]. intros a. eapply IH; eauto.
  - intros [Hb Hk]. split; [|by eapply IH; eauto].
    eapply IHb; [| |exact Hb]; cbn.
    + intros x h' Hx. eapply IH; eauto.
    + intros h' (? & ? & He). split_and!; [by apply HI|by eapply IH; eauto|].
      intros Hn. eapply IH; eauto.
Qed.

Lemma wp_bind {A B} (t : fut A) (f : A -> fut B) Q I h :
  wp t (fun a h' => wp (f a) Q I h') I h -> wp (t ≫= f) Q I h.
Proof.
  revert h Q I f.
  induction t as [A a|A why|A|A k IH|A c k IH|A k IH|A q k IH|A id o k IH
                 |A T timer c body IHb k IH]; intros h Q I f; cbn.
  - done.
  - done.
  - done.
  - intros H n. apply IH, H.
  - intros H n. apply IH, H.
  - intros H n. apply IH, H.
  - intros H n. apply IH, H.
  - intros [Hi Hk]. split; [done|]. intros a. apply IH, Hk.
  - intros [Hb Hk]. split; [|by apply IH].
    eapply wp_mono; [| |exact Hb]; cbn.
    + intros x h' Hx. by apply IH.
    + intros h' (? & ? & He). split_and!; [done|by apply IH|].
      intros Hn. apply IH. by apply He.
Qed.

Lemma wp_map_err {X Y T} (f : X -> Y) (t : fut (result X T)) Q (I : list event -> Prop) h :
  wp t (fun r h' => Q (map_err f r) h') I h -> wp (map_err f <$> t) Q I h.
Proof. intros H. by apply wp_bind. Qed.

Lemma wp_ask q (Q : reply q -> list event -> Prop) (I : list event -> Prop) h :
  (forall r, Q r (h ++ [Asked q r])) -> wp (ask q) Q I h.
Proof. done. Qed.

Lemma wp_await o (Q : answer o -> list event -> Prop) (I : list event -> Prop) h :
  I (h ++ [Issued o]) -> (forall a, Q a ((h ++ [Issued o]) ++ [Answered o a])) ->
  wp (await o) Q I h.
Proof. done. Qed.

Context {S : Type} {E : Env S}.

Lemma timer_fired_Some timer (w : world S) : timer_fired timer w = true -> timer <> None.
Proof. by intros H ->. Qed.

(** One poll preserves [wp]; a pending result satisfies [I]. *)
Lemma wp_poll {A} (t : fut A) Q I (w : world S) :
  wp t Q I (w_log w) ->
  wp_state (snd (poll t w)) Q I (w_log (fst (poll t w))).
Proof.
  revert Q I w.
  induction t as [A a|A why|A|A k IH|A c k IH|A k IH|A q k IH|A id o k IH
                 |A T timer c body IHb k IH]; intros Q I w; cbn.
  - done.
  - done.
  - done.
  - intros H. apply IH, H.
  - intros H. apply IH, H.
  - intros H. apply IH. cbn. apply H.
  - intros H. destruct (env_query q (w_ext w)) as [s r]. apply IH. cbn. apply H.
  - destruct id as [n|]; cbn.
    + intros [Hi Hk]. destruct (env_poll o n (w_ext w)) as [s [a|]]; [|done].
      apply IH. cbn. apply Hk.
    + intros [Hi Hk]. destruct (env_poll o _ (w_ext w)) as [s [a|]]; [|done].
      apply IH. cbn. apply Hk.
  - intros [Hb Hk]. unfold toss.
    destruct (match w_coins w with [] => _ | _ => _ end) as [cf w1] eqn:Ht.
    assert (w_log w1 = w_log w) as Hl by (destruct (w_coins w); by simplify_eq/=).
    destruct (cf && is_set c w1); [by apply IH; rewrite Hl|].
    rewrite <-Hl in Hb. specialize (IHb _ _ w1 Hb).
    destruct (poll body w1) as [w2 body']. cbn in IHb. destruct IHb as [Hb' Hp].
    destruct body' as [x|why| |k'|c' k'|k'|q' k'|id' o' k'|T' timer' c' b' k'];
      [by apply IH|done|done|..];
      specialize (Hp eq_refl); destruct Hp as (Hi & Hint & Hel);
      (destruct (timer_fired timer w2) eqn:Hf;
       [apply IH, Hel; by eapply timer_fired_Some|];
       destruct (is_set c w2); [by apply IH|]; split; [by split|done]).
Qed.

(** Adequacy: [wp] speaks about every execution, whatever the environment and
    the schedule do. *)
Theorem wp_adequacy {A} (turns : list turn) (t : fut A) Q I (w : world S) :
  wp t Q I (w_log w) ->
  wp_state (snd (exec turns t w)) Q I (w_log (fst (exec turns t w))).
Proof.
  revert t w. induction turns as [|u us IH]; intros t w H; cbn;
    pose proof (wp_poll t Q I w H) as Hp; destruct (poll t w) as [w' t'];
    cbn in Hp; destruct (is_pending t') eqn:Ht; cbn; try done.
  apply IH. cbn. apply Hp.
Qed.

End Logic.

(** ** Traces

    Reasoning about the events a run adds to a history. *)

Section Traces.
Context {Σ : Sig}.

(** [h] is [h0] and what happened since. *)
Definition extends (h0 h : list event) : Prop := exists l, h = h0 ++ l.

#[export] Instance extends_preorder : PreOrder extends.
Proof.
  split.
  - intros h. exists []. by rewrite app_nil_r.
  - intros a b c [l ->] [l' ->]. exists (l ++ l'). by rewrite (assoc_L (++)).
Qed.

Lemma extends_app h0 h l : extends h0 h -> extends h0 (h ++ l).
Proof. intros [l0 ->]. exists (l0 ++ l). by rewrite (assoc_L (++)). Qed.

(** Some event since [h0] satisfies [P]. *)
Definition since (h0 : list event) (P : event -> Prop) (h : list event) : Prop :=
  exists l, h = h0 ++ l /\ exists e, e ∈ l /\ P e.

Lemma since_here h0 P h e : extends h0 h -> P e -> since h0 P (h ++ [e]).
Proof.
  intros [l ->] He. exists (l ++ [e]). split; [by rewrite (assoc_L (++))|].
  exists e. split; [|done]. apply elem_of_app. right. by constructor.
Qed.

Lemma since_app h0 P h l : since h0 P h -> since h0 P (h ++ l).
Proof.
  intros (l0 & -> & e & He & HP). exists (l0 ++ l).
  split; [by rewrite (assoc_L (++))|]. exists e. split; [|done]. apply elem_of_app. by left.
Qed.

Lemma since_extends h0 P h : since h0 P h -> extends h0 h.
Proof. intros (l & -> & _). by exists l. Qed.

Lemma since_earlier h0 h1 P h : extends h0 h1 -> since h1 P h -> since h0 P h.
Proof.
  intros [l1 ->] (l & -> & e & He & HP). exists (l1 ++ l).
  split; [by rewrite (assoc_L (++))|]. exists e. split; [|done]. apply elem_of_app. by right.
Qed.

(** Every event since [h0] satisfies [P] of the history before it. *)
Definition each (h0 : list event) (P : list event -> event -> Prop) (h : list event) : Prop :=
  extends h0 h /\ forall h1 e h2, h = h1 ++ e :: h2 -> extends h0 h1 -> P h1 e.

Lemma each_refl h0 P : each h0 P h0.
Proof.
  split; [reflexivity|]. intros h1 e h2 Hh [l ->].
  apply (f_equal length) in Hh. rewrite !length_app in Hh. cbn in Hh. lia.
Qed.

(** Reading the events of a history. *)
Lemma each_elim h0 P h : each h0 P h -> exists l, h = h0 ++ l /\
  forall l1 e l2, l = l1 ++ e :: l2 -> P (h0 ++ l1) e.
Proof.
  intros [[l ->] Hp]. exists l. split; [done|]. intros l1 e l2 ->.
  apply (Hp _ _ l2); [by rewrite (assoc_L (++))|]. by exists l1.
Qed.

Lemma each_snoc h0 P h e : each h0 P h -> P h e -> each h0 P (h ++ [e]).
Proof.
  intros [Hx Hp] He. split; [by apply extends_app|]. intros h1 e1 h2 Heq Hh1.
  destruct (decide (h2 = [])) as [->|Hne].
  - apply app_inj_tail in Heq as [<- <-]. exact He.
  - destruct (exists_last Hne) as (h3 & x & ->).
    rewrite app_comm_cons, (assoc_L (++)) in Heq.
    apply app_inj_tail in Heq as [Heq _]. by eapply Hp.
Qed.

(** Every event a future can produce satisfies [P]. *)
Fixpoint emits {A} (P : event -> Prop) (t : fut A) : Prop :=
  match t with
  | Ret _ | Panic _ | OutOfFuel => True
  | GetNow k => forall n, emits P (k n)
  | IsCancelled _ k => forall b, emits P (k b)
  | FreshToken k => forall c, emits P (k c)
  | Query q k => forall r, P (Asked q r) /\ emits P (k r)
  | Await id o k => P (Issued o) /\ forall a, P (Answered o a) /\ emits P (k a)
  | Scope _ _ _ body k => emits P body /\ forall r, emits P (k r)
  end.

Lemma emits_bind {A B} P (t : fut A) (f : A -> fut B) :
  emits P t -> (forall a, emits P (f a)) -> emits P (t ≫= f).
Proof.
  induction t as [A a|A why|A|A k IH|A c k IH|A k IH|A q k IH|A id o k IH
                 |A T timer c body IHb k IH]; cbn.
  - intros _ Hf. apply Hf.
  - done.
  - done.
  - intros Hk Hf n. by apply IH.
  - intros Hk Hf n. by apply IH.
  - intros Hk Hf n. by apply IH.
  - intros Hk Hf r. destruct (Hk r). split; [done|by apply IH].
  - intros [Ho Hk] Hf. split; [done|]. intros a. destruct (Hk a). split; [done|by apply IH].
  - intros [Hb Hk] Hf. split; [done|]. intros r. by apply IH.
Qed.

Lemma emits_mono {A} (P P' : event -> Prop) (t : fut A) :
  (forall e, P e -> P' e) -> emits P t -> emits P' t.
Proof.
  intros HP. induction t; cbn; auto.
  - intros Hk r. destruct (Hk r). auto.
  - intros [Ho Hk]. split; [auto|]. intros a. destruct (Hk a). auto.
  - intros [Hb Hk]. auto.
Qed.

Lemma emits_fmap {A B} P (t : fut A) (f : A -> B) : emits P t -> emits P (f <$> t).
Proof. intros Ht. by apply emits_bind. Qed.

Lemma emits_await P o : P (Issued o) -> (forall a, P (Answered o a)) -> emits P (await o).
Proof. intros Ho Ha. by split. Qed.

Lemma emits_ask P q : (forall r, P (Asked q r)) -> emits P (ask q).
Proof. intros Hr r. by split. Qed.

(** A predicate on histories that the events of [t] preserve holds throughout. *)
Lemma wp_emits {A} (J : list event -> Prop) (P : event -> Prop) (t : fut A) h :
  (forall h e, J h -> P e -> J (h ++ [e])) ->
  emits P t -> J h -> wp (F := always J) t (fun _ => J) J h.
Proof.
  intros HJ.
  enough (forall Q I, (forall a h, J h -> Q a h) -> (forall h, J h -> I h) ->
    forall h, emits P t -> J h -> wp (F := always J) t Q I h) as H
    by (intros; by apply H).
  clear h. induction t as [A a|A why|A|A k IH|A c k IH|A k IH|A q k IH|A id o k IH
                 |A T timer c body IHb k IH]; intros Q I HQ HI h; cbn.
  - intros _. apply HQ.
  - done.
  - done.
  - intros He Hh n. by apply IH.
  - intros He Hh n. by apply IH.
  - intros He Hh n. by apply IH.
  - intros He Hh r. destruct (He r). apply IH; [done..|]. by apply HJ.
  - intros [Ho He] Hh.
    assert (J (match id with Some _ => h | None => h ++ [Issued o] end)) as Hh1.
    { destruct id; [done|by apply HJ]. }
    split; [by apply HI|]. intros a. destruct (He a). apply IH; [done..|]. by apply HJ.
  - intros [Hb He] Hh. split; [|by apply IH].
    apply IHb; [| |done|done].
    + intros x h' Hh'. by apply IH.
    + intros h' Hh'. split_and!; [by apply HI|by apply IH|]. intros _. by apply IH.
Qed.

(** Two facts about the same future; the budget is the first one's. *)
Lemma wp_and {A} (F1 F2 : Budget) (t : fut A) Q1 Q2 (I1 I2 : list event -> Prop) h :
  wp (F := F1) t Q1 I1 h -> wp (F := F2) t Q2 I2 h ->
  wp (F := F1) t (fun a h => Q1 a h /\ Q2 a h) (fun h => I1 h /\ I2 h) h.
Proof.
  revert Q1 Q2 I1 I2 h.
  induction t as [A a|A why|A|A k IH|A c k IH|A k IH|A q k IH|A id o k IH
                 |A T timer c body IHb k IH]; intros Q1 Q2 I1 I2 h; cbn.
  - by intros.
  - by intros.
  - by intros.
  - intros H1 H2 n. by apply IH.
  - intros H1 H2 b. by apply IH.
  - intros H1 H2 x. by apply IH.
  - intros H1 H2 r. by apply IH.
  - intros [Hi1 Hk1] [Hi2 Hk2]. split; [done|]. intros a. by apply IH.
  - intros [Hb1 Hk1] [Hb2 Hk2]. split; [|by apply IH].
    eapply wp_mono; [| |exact (IHb _ _ _ _ _ Hb1 Hb2)]; cbn.
    + intros x h' [H1 H2]. by apply IH.
    + intros h' ((? & ? & He1) & (? & ? & He2)). split_and!; [done|done|by apply IH|].
      intros Hn. apply IH; [by apply He1|by apply He2].
Qed.

Lemma wp_budget {A} (F F' : Budget) (t : fut A) Q I h :
  (forall h, panicked (Budget := F) h -> panicked (Budget := F') h) ->
  (forall h, exhausted (Budget := F) h -> exhausted (Budget := F') h) ->
  wp (F := F) t Q I h -> wp (F := F') t Q I h.
Proof.
  intros Hp He. revert Q I h.
  induction t as [A a|A why|A|A k IH|A c k IH|A k IH|A q k IH|A id o k IH
                 |A T timer c body IHb k IH]; intros Q I h; cbn; auto.
  - intros [Hi Hk]. auto.
  - intros [Hb Hk]. split; [|by apply IH]. apply IHb. eapply wp_mono; [| |exact Hb]; cbn.
    + intros x h'. apply IH.
    + intros h' (? & ? & Hel). split_and!; [done|by apply IH|]. intros Hn. by apply IH, Hel.
Qed.

(** Events that satisfy [P] after histories satisfying the stable [C] keep [each]. *)
Lemma wp_each_under {A} h0 (P : list event -> event -> Prop) (C : list event -> Prop)
    (t : fut A) h :
  (forall h e, C h -> C (h ++ [e])) ->
  emits (fun e => forall h, C h -> P h e) t -> each h0 P h -> C h ->
  wp (F := always (each h0 P)) t (fun _ h => each h0 P h /\ C h) (each h0 P) h.
Proof.
  intros HC He Hh Hc. pose (J := fun h => each h0 P h /\ C h).
  apply (wp_budget (always J)); [by intros ? []..|].
  eapply wp_mono; [| |eapply (wp_emits J); [|exact He|by split]].
  - done.
  - by intros ? [].
  - intros h' e [Hh' Hc'] HP. split; [apply each_snoc; auto|auto].
Qed.

(** Events that satisfy [P] whatever came before. *)
Lemma wp_each {A} h0 (P : list event -> event -> Prop) (t : fut A) h :
  emits (fun e => forall h, P h e) t -> each h0 P h ->
  wp (F := always (each h0 P)) t (fun _ => each h0 P) (each h0 P) h.
Proof.
  intros He Hh. eapply wp_emits; [|exact He|exact Hh]. intros h' e Hh' HP. by apply each_snoc.
Qed.

(** Nothing is claimed of a prefix. *)
Lemma wp_any {A} (t : fut A) h : wp (F := any_budget) t (fun _ _ => True) (fun _ => True) h.
Proof.
  enough (forall Q I, (forall a h, Q a h) -> (forall h, I h) -> forall h,
    wp (F := any_budget) t Q I h) as H by by apply H.
  clear h. induction t as [A a|A why|A|A k IH|A c k IH|A k IH|A q k IH|A id o k IH
                 |A T timer c body IHb k IH]; intros Q I HQ HI h; cbn.
  - apply HQ.
  - done.
  - done.
  - intros n. by apply IH.
  - intros n. by apply IH.
  - intros n. by apply IH.
  - intros r. by apply IH.
  - split; [apply HI|]. intros a. by apply IH.
  - split; [|by apply IH]. apply IHb.
    + intros x h'. by apply IH.
    + intros h'. split_and!; [apply HI|by apply IH|]. intros _. by apply IH.
Qed.

Lemma wp_bind_any {A B} (t : fut A) (f : A -> fut B) Q (I : list event -> Prop) h :
  (forall h, I h) ->
  (forall a h', wp (F := any_budget) (f a) Q I h') -> wp (F := any_budget) (t ≫= f) Q I h.
Proof.
  intros HI Hf. apply wp_bind. eapply wp_mono; [| |apply wp_any]; cbn.
  - intros a h' _. apply Hf.
  - intros h' _. apply HI.
Qed.

End Traces.

(** ** Facts about polls and executions *)

Section Facts.
Context {Σ : Sig} {F : Budget} {S : Type} {E : Env S}.

Definition total_advance (turns : list (turn (S := S))) : N :=
  foldr (fun u n => t_advance u + n)%N 0%N turns.

Definition all_cancelled (turns : list (turn (S := S))) : gset N :=
  foldr (fun u c => t_cancel u ∪ c) ∅ turns.

Lemma toss_clock (w : world S) :
  w_now (snd (toss w)) = w_now w /\ w_cancelled (snd (toss w)) = w_cancelled w.
Proof. unfold toss. by destruct (w_coins w). Qed.

(** A poll takes no time and cancels nothing. *)
Lemma poll_clock {A} (t : fut A) (w : world S) :
  w_now (fst (poll t w)) = w_now w /\ w_cancelled (fst (poll t w)) = w_cancelled w.
Proof.
  revert w.
  induction t as [A a|A why|A|A k IH|A c k IH|A k IH|A q k IH|A id o k IH
                 |A T timer c body IHb k IH]; intros w; cbn; try done.
  - by rewrite !(proj1 (IH _ _)), !(proj2 (IH _ _)).
  - destruct (env_query q (w_ext w)) as [s r]. by rewrite !(proj1 (IH _ _)), !(proj2 (IH _ _)).
  - destruct id as [n|]; cbn;
      destruct (env_poll o _ (w_ext w)) as [s [a|]]; try done;
      by rewrite !(proj1 (IH _ _)), !(proj2 (IH _ _)).
  - destruct (toss_clock w) as [Hn Hc]. destruct (toss w) as [cf w1]. cbn in Hn, Hc.
    rewrite <-Hn, <-Hc.
    destruct (cf && is_set c w1); [apply IH|].
    destruct (IHb w1) as [Hn2 Hc2]. destruct (poll body w1) as [w2 body']. cbn in Hn2, Hc2.
    rewrite <-Hn2, <-Hc2.
    destruct body'; cbn; try done; try apply IH;
      (destruct (timer_fired timer w2); [apply IH|];
       destruct (is_set c w2); [apply IH|done]).
Qed.

(** A pending execution has used every turn. *)
Lemma exec_pending_clock {A} turns (t : fut A) (w : world S) :
  is_pending (snd (exec turns t w)) = true ->
  w_now (fst (exec turns t w)) = (w_now w + total_advance turns)%N /\
  w_cancelled (fst (exec turns t w)) = w_cancelled w ∪ all_cancelled turns.
Proof.
  revert t w. induction turns as [|u us IH]; intros t w; cbn;
    destruct (poll_clock t w) as [Hn Hc]; destruct (poll t w) as [w' t']; cbn in Hn, Hc;
    destruct (is_pending t') eqn:Hp; cbn; rewrite ?Hp; try done.
  - intros _. rewrite Hn, Hc. split; [lia|by rewrite (right_id_L ∅ (∪))].
  - intros H. destruct (IH _ _ H) as [-> ->].
    unfold total_advance, all_cancelled, take_turn. cbn. rewrite Hn, Hc.
    split; [lia|by rewrite (assoc_L (∪))].
Qed.

Lemma exec_not_pending {A} turns (t : fut A) (w : world S) :
  is_pending (snd (poll t w)) = false -> exec turns t w = poll t w.
Proof. intros H. destruct turns; cbn; destruct (poll t w); cbn in *; by rewrite H. Qed.

Lemma poll_not_pending {A} (t : fut A) (w : world S) :
  is_pending t = false -> poll t w = (w, t).
Proof. by destruct t. Qed.

(** A pending scope has seen neither its timer nor its token. *)
Lemma poll_scope_pending {A T} timer c (body : fut T) (k : scope_result T -> fut A)
    (w w' : world S) t' :
  (forall r, is_pending (k r) = false) ->
  poll (Scope T timer c body k) w = (w', t') -> is_pending t' = true ->
  timer_fired timer w' = false /\ is_set c w' = false /\
  exists body', t' = Scope T timer c body' k.
Proof.
  intros Hk. cbn.
  assert (forall r u, poll (k r) u = (w', t') -> is_pending t' = true -> False) as Hno.
  { intros r u Hp Ht. rewrite poll_not_pending in Hp by apply Hk.
    injection Hp as _ <-. by rewrite Hk in Ht. }
  destruct (toss w) as [cf w1].
  destruct (cf && is_set c w1); [intros Hx Hy; by destruct (Hno _ _ Hx Hy)|].
  destruct (poll body w1) as [w2 body'].
  destruct body'; try (intros Hx Hy; by destruct (Hno _ _ Hx Hy)); try (by intros [= <- <-]);
    (destruct (timer_fired timer w2) eqn:Hf; [intros Hx Hy; by destruct (Hno _ _ Hx Hy)|];
     destruct (is_set c w2) eqn:Hs; [intros Hx Hy; by destruct (Hno _ _ Hx Hy)|];
     intros [= <- <-] _; by eauto).
Qed.

Definition anything {X} : X -> Prop := fun _ => True.

(** How one poll of a scope whose continuation is immediate can end. *)
Lemma poll_scope_cases {A T} timer c (body : fut T) (k : scope_result T -> fut A) f (w : world S) :
  (forall r, k r = Ret (f r)) ->
  let w' := fst (poll (Scope T timer c body k) w) in
  let t' := snd (poll (Scope T timer c body k) w) in
  (t' = Ret (f Interrupted) /\ is_set c w' = true) \/
  (t' = Ret (f Elapsed) /\ timer_fired timer w' = true) \/
  (exists x, t' = Ret (f (Completed x)) /\
     forall Q, wp body Q anything (w_log w) -> Q x (w_log w')) \/
  (exists why, t' = Panic why) \/ t' = OutOfFuel \/
  (exists body', t' = Scope T timer c body' k /\
     forall Q, wp body Q anything (w_log w) -> wp body' Q anything (w_log w')).
Proof.
  intros Hk. cbn.
  assert (w_log (snd (toss w)) = w_log w) as Hl by (unfold toss; by destruct (w_coins w)).
  destruct (toss w) as [cf w1]. cbn in Hl.
  destruct (cf && is_set c w1) eqn:Hcf.
  { apply andb_true_iff in Hcf as [_ Hs]. rewrite Hk. by left. }
  pose proof (fun Q => wp_poll body Q anything w1) as Hb. rewrite Hl in Hb.
  destruct (poll body w1) as [w2 body']. unfold wp_state in Hb. cbn in Hb.
  destruct body' as [x|why| |k'|c' k'|k'|q' k'|id' o' k'|T' timer' c' b' k'];
    [right; right; left; exists x; rewrite Hk; cbn; split; [done|]; intros Q HQ; apply (Hb Q HQ)
    |do 3 right; left; by eauto|do 4 right; by left|..];
    (destruct (timer_fired timer w2) eqn:Hf; [rewrite Hk; by right; left|];
     destruct (is_set c w2) eqn:Hs; [rewrite Hk; by left|];
     do 5 right; eexists; split; [reflexivity|]; intros Q HQ; apply (Hb Q HQ)).
Qed.

(** How an execution of such a scope can return. *)
Lemma exec_scope_returns {A T} timer c (k : scope_result T -> fut A) f turns :
  (forall r, k r = Ret (f r)) ->
  forall (body : fut T) (w w' : world S) a,
  exec turns (Scope T timer c body k) w = (w', Ret a) ->
  (a = f Interrupted /\ is_set c w' = true) \/
  (a = f Elapsed /\ timer_fired timer w' = true) \/
  (exists x, a = f (Completed x) /\
     forall Q, wp body Q anything (w_log w) -> Q x (w_log w')).
Proof.
  intros Hk. induction turns as [|u us IH]; intros body w w' a; cbn [exec];
    pose proof (poll_scope_cases timer c body k f w Hk) as Hc; cbn zeta in Hc;
    destruct (poll (Scope T timer c body k) w) as [w1 t1]; cbn [fst snd] in Hc;
    destruct Hc as [[-> Hs]|[[-> Hf]|[(x & -> & Hx)|[[why ->]|[->|(body' & -> & Hb)]]]]];
    cbn [is_pending]; try (intros [= <- <-]; by eauto 6); try done.
  intros He. destruct (IH _ _ _ _ He) as [?|[?|(x & -> & Hx)]]; [by left|by right; left|].
  right; right. exists x. split; [done|]. intros Q HQ. apply Hx. cbn. by apply Hb.
Qed.

(** The same for a whole execution of a scope. *)
Lemma exec_scope_pending {A T} timer c (k : scope_result T -> fut A) turns :
  (forall r, is_pending (k r) = false) ->
  forall (body : fut T) (w : world S),
  is_pending (snd (exec turns (Scope T timer c body k) w)) = true ->
  timer_fired timer (fst (exec turns (Scope T timer c body k) w)) = false /\
  is_set c (fst (exec turns (Scope T timer c body k) w)) = false.
Proof.
  intros Hk. induction turns as [|u us IH]; intros body w; cbn [exec];
    destruct (poll (Scope T timer c body k) w) as [w' t'] eqn:Hp;
    destruct (is_pending t') eqn:Ht; cbn [fst snd]; try congruence;
    destruct (poll_scope_pending _ _ _ _ _ _ _ Hk Hp Ht) as (Hf & Hs & body' & ->).
  - done.
  - apply IH.
Qed.

(** Polling a bind whose first part is ready continues with the second. *)
Lemma poll_bind {A B} (t : fut A) (f : A -> fut B) (w w' : world S) a :
  poll t w = (w', Ret a) -> poll (t ≫= f) w = poll (f a) w'.
Proof.
  revert w w' a f.
  induction t as [A a0|A why|A|A k IH|A c k IH|A k IH|A q k IH|A id o k IH
                 |A T timer c body IHb k IH]; intros w w' a f; cbn.
  - by intros [= <- <-].
  - done.
  - done.
  - apply IH.
  - apply IH.
  - apply IH.
  - destruct (env_query q (w_ext w)) as [s r]. apply IH.
  - destruct id as [m|]; cbn; (destruct (env_poll o _ _) as [s [x|]]; [apply IH|done]).
  - destruct (toss w) as [cf w1]. destruct (cf && is_set c w1); [apply IH|].
    destruct (poll body w1) as [w2 body'].
    destruct body'; try done; try apply IH;
      (destruct (timer_fired timer w2); [apply IH|];
       destruct (is_set c w2); [apply IH|done]).
Qed.

Lemma is_pending_bind {A B} (t : fut A) (f : A -> fut B) :
  is_pending t = true -> is_pending (t ≫= f) = true.
Proof. by destruct t. Qed.

(** A bind is where its first part is, until that returns. *)
Lemma poll_bind_not_ready {A B} (t : fut A) (f : A -> fut B) (w w' : world S) t' :
  poll t w = (w', t') -> (forall a, t' <> Ret a) -> poll (t ≫= f) w = (w', t' ≫= f).
Proof.
  revert w w' t' f.
  induction t as [A a0|A why|A|A k IH|A c k IH|A k IH|A q k IH|A id o k IH
                 |A T timer c body IHb k IH]; intros w w' t' f; cbn.
  - intros [= <- <-] Ha. by destruct (Ha a0).
  - by intros [= <- <-].
  - by intros [= <- <-].
  - apply IH.
  - apply IH.
  - apply IH.
  - destruct (env_query q (w_ext w)) as [s r]. apply IH.
  - destruct id as [m|]; cbn; (destruct (env_poll o _ _) as [s [x|]]; [apply IH|by intros [= <- <-]]).
  - destruct (toss w) as [cf w1]. destruct (cf && is_set c w1); [apply IH|].
    destruct (poll body w1) as [w2 body'].
    destruct body'; try apply IH; try (by intros [= <- <-]);
      (destruct (timer_fired timer w2); [apply IH|];
       destruct (is_set c w2); [apply IH|by intros [= <- <-]]).
Qed.

Lemma poll_bind_pending {A B} (t : fut A) (f : A -> fut B) (w w' : world S) t' :
  poll t w = (w', t') -> is_pending t' = true -> poll (t ≫= f) w = (w', t' ≫= f).
Proof. intros Hp Ht. apply poll_bind_not_ready; [done|]. by intros a ->. Qed.

(** What holds all along [t] holds of the log of its executions. *)
Lemma exec_always {A} (J : list event -> Prop) turns (t : fut A) (w : world S) :
  wp (F := always J) t (fun _ => J) J (w_log w) -> J (w_log (fst (exec turns t w))).
Proof.
  intros Hw. destruct (wp_adequacy (F := always J) turns t _ _ w Hw) as [Hr Hp].
  destruct (exec turns t w) as [w' t']. cbn [fst snd] in *.
  destruct t'; first [exact Hr|exact (Hp eq_refl)].
Qed.

(** What a future can emit is what its executions log. *)
Lemma exec_emits {A} (P : event -> Prop) turns (t : fut A) (w : world S) :
  emits P t -> exists l, w_log (fst (exec turns t w)) = w_log w ++ l /\ Forall P l.
Proof.
  intros He. pose (J := fun h : list event => exists l, h = w_log w ++ l /\ Forall P l).
  apply (exec_always J), (wp_emits J P); [|done|].
  - intros h e (l & -> & Hl) HP. exists (l ++ [e]).
    split; [by rewrite (assoc_L (++))|]. apply Forall_app. by repeat constructor.
  - exists []. by rewrite app_nil_r.
Qed.

(** ** Invariants of the foreign state

    [J] relates the state behind the calls to what has been called: every answer
    and every query of the environment keeps it. *)
Record preserves (J : S -> list event -> Prop) : Prop := {
  pv_issued : forall o s h, J s h -> J s (h ++ [Issued o]);
  pv_poll : forall o n s h, J s h ->
    match env_poll o n s with
    | (s', Some a) => J s' (h ++ [Answered o a])
    | (s', None) => J s' h
    end;
  pv_query : forall q s h, J s h ->
    let '(s', r) := env_query q s in J s' (h ++ [Asked q r])
}.

(** So does what happens between two polls. *)
Definition undisturbed (J : S -> list event -> Prop) (turns : list turn) : Prop :=
  Forall (fun u => forall s h, J s h -> J (t_env u s) h) turns.

Lemma poll_preserves {A} J (t : fut A) (w : world S) :
  preserves J -> J (w_ext w) (w_log w) ->
  J (w_ext (fst (poll t w))) (w_log (fst (poll t w))).
Proof.
  intros [Hi Hp Hq]. revert w.
  induction t as [A a|A why|A|A k IH|A c k IH|A k IH|A q k IH|A id o k IH
                 |A T timer c body IHb k IH]; intros w HJ; cbn; auto.
  - specialize (Hq q _ _ HJ). destruct (env_query q (w_ext w)) as [s r]. by apply IH.
  - assert (exists n w1, (match id with Some n => (n, w) | None => issue o w end) = (n, w1) /\
      J (w_ext w1) (w_log w1)) as (n & w1 & -> & H1).
    { destruct id as [n|]; [by exists n, w|]. eexists _, _. split; [done|]. by apply Hi. }
    specialize (Hp o n _ _ H1). destruct (env_poll o n (w_ext w1)) as [s [a|]]; [by apply IH|done].
  - assert (J (w_ext (snd (toss w))) (w_log (snd (toss w)))) as H1
      by (unfold toss; by destruct (w_coins w)).
    destruct (toss w) as [cf w1]. cbn [snd] in H1.
    destruct (cf && is_set c w1); [by apply IH|].
    specialize (IHb w1 H1). destruct (poll body w1) as [w2 body']. cbn [fst] in IHb.
    destruct body'; try done; try (by apply IH);
      (destruct (timer_fired timer w2); [by apply IH|];
       destruct (is_set c w2); [by apply IH|done]).
Qed.

Lemma exec_preserves {A} J turns (t : fut A) (w : world S) :
  preserves J -> undisturbed J turns -> J (w_ext w) (w_log w) ->
  J (w_ext (fst (exec turns t w))) (w_log (fst (exec turns t w))).
Proof.
  intros Hpv Hu. revert t w. induction Hu as [|u us Hu Hus IH]; intros t w HJ; cbn;
    pose proof (poll_preserves J t w Hpv HJ) as H1; destruct (poll t w) as [w1 t1];
    cbn [fst] in H1; destruct (is_pending t1); try done.
  apply IH. cbn. by apply Hu.
Qed.

End Facts.
