(* ===== verification/Operation.v ===== *)
(** * Operation: deadlines and cancellation of single operations
    ([OperationContext] of [src/core/operation.rs]). *)

From S2P Require Export Config Async.

(** [Instant::now() + timeout] panics past the last representable instant
    (a signed 64-bit count of seconds and a nanosecond part). *)
Definition INSTANT_MAX : N := ((2 ^ 63 - 1) * 1000000000 + 999999999)%N.

(** [OperationContext]. *)
Record OperationContext := {
  deadline : option Instant;
  cancellation : token
}.

Section Contexts.
Context {Σ : Sig}.

(** [OperationContext::new]. *)
Definition OperationContext_new : fut OperationContext :=
  FreshToken (fun c => Ret {| deadline := None; cancellation := c |}).

(** [OperationContext::with_deadline]. *)
Definition with_deadline (d : Instant) : fut OperationContext :=
  FreshToken (fun c => Ret {| deadline := Some d; cancellation := c |}).

(** [OperationContext::with_cancellation]. *)
Definition with_cancellation (c : token) (ctx : OperationContext) : OperationContext :=
  {| deadline := deadline ctx; cancellation := c |}.

(** [OperationContext::with_timeout_from_now]. *)
Definition with_timeout_from_now (timeout : Duration) (ctx : OperationContext)
  : fut OperationContext :=
  now ← now;
  if (INSTANT_MAX <? now + timeout)%N
  then Panic "overflow when adding duration to instant"
  else
    let d := (now + timeout)%N in
    mret {| deadline := match deadline ctx with
                        | Some existing => Some (N.min existing d)
                        | None => Some d
                        end;
            cancellation := cancellation ctx |}.

(** [OperationContext::with_timeout]. *)
Definition with_timeout (timeout : Duration) : fut OperationContext :=
  ctx ← OperationContext_new; with_timeout_from_now timeout ctx.

(** [OperationContext::cancellation_token] and [is_cancelled]. *)
Definition cancellation_token (ctx : OperationContext) : token := cancellation ctx.
Definition is_cancelled (ctx : OperationContext) : fut bool :=
  IsCancelled (cancellation ctx) Ret.

(** The errors [run] and [run_with] raise themselves. *)
Definition cancelled_error (operation : string) : SshError :=
  SshError.with_operation operation
    (SshError.cancelled (operation +:+ " was cancelled")).

Definition timeout_error (operation : string) : SshError :=
  SshError.with_operation operation
    (SshError.timeout (operation +:+ " timed out after the operation deadline")).

(** The instant at which the [timeout] future of [run] fires:
    [deadline.saturating_duration_since(now)] counted from [now]. *)
Definition timer_of (d now : Instant) : Instant := (now + (d - now))%N.

(** What [run] makes of the way its [select!] ended. *)
Definition run_finish {T} (operation : string) (r : scope_result (result SshError T))
  : fut (result SshError T) :=
  match r with
  | Interrupted => Ret (Err (cancelled_error operation))
  | Elapsed => Ret (Err (timeout_error operation))
  | Completed result => Ret (map_err (SshError.with_operation operation) result)
  end.

(** [OperationContext::run]. *)
Definition run {T} (ctx : OperationContext) (operation : string)
    (future : fut (result SshError T)) : fut (result SshError T) :=
  cancelled ← is_cancelled ctx;
  if (cancelled : bool) then mret (Err (cancelled_error operation))
  else
    match deadline ctx with
    | Some d =>
        now ← now;
        Scope (result SshError T) (Some (timer_of d now)) (cancellation ctx) future
          (run_finish operation)
    | None =>
        Scope (result SshError T) None (cancellation ctx) future (run_finish operation)
    end.

(** [OperationContext::run_with_timeout]. *)
Definition run_with_timeout {T} (ctx : OperationContext) (operation : string)
    (timeout : Duration) (future : fut (result SshError T)) : fut (result SshError T) :=
  ctx' ← with_timeout_from_now timeout ctx; run ctx' operation future.

Definition run_with_finish {T E} (from : SshError -> E) (operation : string)
    (r : scope_result (result E T)) : fut (result E T) :=
  match r with
  | Interrupted => Ret (Err (from (cancelled_error operation)))
  | Elapsed => Ret (Err (from (timeout_error operation)))
  | Completed result => Ret result
  end.

(** [OperationContext::run_with]: the caller's error type [E] is built by
    [from] ([E: From<SshError>]); the body's own errors stay untouched. *)
Definition run_with {T E} (from : SshError -> E) (ctx : OperationContext)
    (operation : string) (future : fut (result E T)) : fut (result E T) :=
  cancelled ← is_cancelled ctx;
  if (cancelled : bool) then mret (Err (from (cancelled_error operation)))
  else
    match deadline ctx with
    | Some d =>
        now ← now;
        Scope (result E T) (Some (timer_of d now)) (cancellation ctx) future
          (run_with_finish from operation)
    | None =>
        Scope (result E T) None (cancellation ctx) future (run_with_finish from operation)
    end.

End Contexts.

(** ** Lemmas *)

Section Lemmas.
Context {Σ : Sig} {F : Budget}.

(** The rule for [run]: its body may be dropped wherever it is suspended, and
    the error it returns then is one of its own two. *)
Lemma wp_run {T} ctx op (body : fut (result SshError T)) Q I h :
  wp body (fun r h' => Q (map_err (SshError.with_operation op) r) h')
    (fun h' => I h' /\ Q (Err (cancelled_error op)) h' /\
               (deadline ctx <> None -> Q (Err (timeout_error op)) h')) h ->
  Q (Err (cancelled_error op)) h ->
  wp (run ctx op body) Q I h.
Proof.
  intros Hb Hc. unfold run, is_cancelled, now. cbn. intros [|]; [done|].
  destruct (deadline ctx) as [d|]; cbn; [intros n|]; (split; [|done]);
    (eapply wp_mono; [| |exact Hb]; cbn; [done|]);
    intros h' (? & ? & Ht); split_and!; auto.
Qed.

Lemma wp_run_with {T E} (from : SshError -> E) ctx op (body : fut (result E T)) Q I h :
  wp body (fun r h' => Q r h')
    (fun h' => I h' /\ Q (Err (from (cancelled_error op))) h' /\
               (deadline ctx <> None -> Q (Err (from (timeout_error op))) h')) h ->
  Q (Err (from (cancelled_error op))) h ->
  wp (run_with from ctx op body) Q I h.
Proof.
  intros Hb Hc. unfold run_with, is_cancelled, now. cbn. intros [|]; [done|].
  destruct (deadline ctx) as [d|]; cbn; [intros n|]; (split; [|done]);
    (eapply wp_mono; [| |exact Hb]; cbn; [done|]);
    intros h' (? & ? & Ht); split_and!; auto.
Qed.

Lemma wp_with_timeout_from_now timeout ctx (Q : OperationContext -> list event -> Prop) I h :
  panicked h ->
  (forall d, Q {| deadline := Some d; cancellation := cancellation ctx |} h) ->
  wp (with_timeout_from_now timeout ctx) Q I h.
Proof.
  intros Hp HQ. unfold with_timeout_from_now, now. cbn. intros n.
  case_match; cbn; [done|]. destruct (deadline ctx); apply HQ.
Qed.

Context {S : Type} {E : Env S}.

Definition deadline_passed (ctx : OperationContext) (w : world S) : bool :=
  timer_fired (deadline ctx) w.

Lemma timer_of_fired d n (w : world S) :
  (n <= w_now w)%N ->
  timer_fired (Some (timer_of d n)) w = timer_fired (Some d) w.
Proof.
  intros Hn. cbn. unfold timer_of.
  destruct (N.leb_spec d (w_now w)), (N.leb_spec (n + (d - n)) (w_now w)); (done || lia).
Qed.

Lemma exec_clock_mono {A} turns (t : fut A) (w : world S) :
  (w_now w <= w_now (fst (exec turns t w)))%N.
Proof.
  revert t w. induction turns as [|u us IH]; intros t w; cbn;
    destruct (poll_clock t w) as [Hn _]; destruct (poll t w) as [w' t'];
    cbn in Hn; destruct (is_pending t'); cbn; try lia.
  specialize (IH t' (take_turn u w')). cbn in IH. lia.
Qed.

(** Executing [run] is executing its scope unless the token is already set. *)
Lemma exec_run_unfold {T} turns ctx op (body : fut (result SshError T)) (w : world S) :
  is_set (cancellation ctx) w = false ->
  exists timer,
    exec turns (run ctx op body) w =
      exec turns (Scope (result SshError T) timer (cancellation ctx) body (run_finish op)) w /\
    (forall w' : world S, (w_now w <= w_now w')%N -> timer_fired timer w' = deadline_passed ctx w').
Proof.
  intros Hs. unfold run, is_cancelled, deadline_passed, now.
  destruct (deadline ctx) as [d|] eqn:Hd.
  - exists (Some (timer_of d (w_now w))). split.
    + destruct turns; cbn [exec poll mbind fut_bind]; rewrite Hs; cbn [mbind fut_bind poll];
        reflexivity.
    + intros w' Hw. by apply timer_of_fired.
  - exists None. split; [|done].
    destruct turns; cbn [exec poll mbind fut_bind]; rewrite Hs; cbn [mbind fut_bind poll];
      reflexivity.
Qed.

(** One poll of [run] while nothing stops it: the operation is polled once and its
    result, if any, is the result. *)
Lemma poll_run_ready {T} ctx op (body : fut (result SshError T)) (w w2 : world S) x :
  is_set (cancellation ctx) w = false -> poll body (snd (toss w)) = (w2, Ret x) ->
  poll (run ctx op body) w = (w2, Ret (map_err (SshError.with_operation op) x)).
Proof.
  intros Hs Hb. pose proof (toss_clock w) as [_ Hc]. unfold run, is_cancelled, now.
  destruct (toss w) as [cf w1] eqn:Ht. cbn [snd] in *.
  assert (is_set (cancellation ctx) w1 = false) as Hs1 by (unfold is_set; by rewrite Hc).
  destruct (deadline ctx); cbn; rewrite Hs; cbn; by rewrite Ht, Hs1, andb_false_r, Hb.
Qed.

Lemma poll_run_waits {T} ctx op (body t : fut (result SshError T)) (w w2 : world S) :
  is_set (cancellation ctx) w = false -> deadline_passed ctx w = false ->
  poll body (snd (toss w)) = (w2, t) -> is_pending t = true ->
  exists t', poll (run ctx op body) w = (w2, t') /\ is_pending t' = true.
Proof.
  intros Hs Hd Hb Hp. pose proof (toss_clock w) as [Hn Hc].
  pose proof (poll_clock body (snd (toss w))) as [Hn2 Hc2]. rewrite Hb in Hn2, Hc2.
  unfold run, is_cancelled, now, deadline_passed in *.
  destruct (toss w) as [cf w1] eqn:Ht. cbn [fst snd] in *.
  assert (is_set (cancellation ctx) w1 = false) as Hs1 by (unfold is_set; by rewrite Hc).
  assert (is_set (cancellation ctx) w2 = false) as Hs2 by (unfold is_set; by rewrite Hc2, Hc).
  assert (forall timer : option Instant, timer_fired timer w = false -> timer_fired timer w2 = false)
    as Hf by (intros [u|]; [cbn; by rewrite Hn2, Hn|done]).
  destruct (deadline ctx) as [u|]; cbn; rewrite Hs; cbn; rewrite Ht, Hs1, andb_false_r, Hb.
  - rewrite <-(timer_of_fired u (w_now w)) in Hd by done. apply Hf in Hd. cbn in Hd.
    rewrite Hd, Hs2. destruct t; try done; by eexists.
  - rewrite Hs2. destruct t; try done; by eexists.
Qed.

Lemma poll_run_cancelled {T} ctx op (body : fut (result SshError T)) (w : world S) :
  is_set (cancellation ctx) w = true ->
  poll (run ctx op body) w = (w, Ret (Err (cancelled_error op))).
Proof. intros Hs. unfold run, is_cancelled. cbn. by rewrite Hs. Qed.

Lemma exec_run_cancelled {T} turns ctx op (body : fut (result SshError T)) (w : world S) :
  is_set (cancellation ctx) w = true ->
  exec turns (run ctx op body) w = (w, Ret (Err (cancelled_error op))).
Proof. intros Hs. rewrite exec_not_pending; by rewrite poll_run_cancelled. Qed.

(** How an execution of [run] ends. *)
Lemma run_outcome {T} turns ctx op (body : fut (result SshError T)) (w w' : world S) r :
  exec turns (run ctx op body) w = (w', Ret r) ->
  (r = Err (cancelled_error op) /\ is_set (cancellation ctx) w' = true) \/
  (r = Err (timeout_error op) /\ deadline_passed ctx w' = true) \/
  (exists r0, r = map_err (SshError.with_operation op) r0 /\
     forall Q, wp body Q anything (w_log w) -> Q r0 (w_log w')).
Proof.
  intros He. destruct (is_set (cancellation ctx) w) eqn:Hs.
  { rewrite exec_run_cancelled in He by done. injection He as <- <-. by left. }
  destruct (exec_run_unfold turns ctx op body w Hs) as (timer & Heq & Htimer).
  pose proof (exec_clock_mono turns (run ctx op body) w) as Hmono.
  rewrite He in Hmono. rewrite Heq in He.
  apply (exec_scope_returns _ _ _ (fun r => match r with
    | Interrupted => Err (cancelled_error op)
    | Elapsed => Err (timeout_error op)
    | Completed result => map_err (SshError.with_operation op) result end)) in He;
    [|by intros []].
  destruct He as [?|[[-> Hf]|Hx]]; [by left| |by right; right].
  right; left. split; [done|]. by rewrite <-Htimer.
Qed.

Lemma run_finish_not_pending {T} op (r : scope_result (result SshError T)) :
  is_pending (run_finish op r) = false.
Proof. by destruct r. Qed.

End Lemmas.

(** ** Guarded futures

    [guarded ctx n t]: started at an instant not before [n], every foreign
    future [t] waits for is awaited inside a scope that ends when [ctx] does. *)

Section Guarded.
Context {Σ : Sig}.

Definition within (ctx : OperationContext) (n : Instant) (timer : option Instant) (c : token)
  : Prop :=
  c = cancellation ctx /\
  forall d, deadline ctx = Some d -> exists d', timer = Some d' /\ (d' <= N.max d n)%N.

Fixpoint guarded {A} (ctx : OperationContext) (n : Instant) (t : fut A) : Prop :=
  match t with
  | Ret _ | Panic _ | OutOfFuel => True
  | GetNow k => forall m, (n <= m)%N -> guarded ctx m (k m)
  | IsCancelled _ k => forall b, guarded ctx n (k b)
  | FreshToken k => forall c, guarded ctx n (k c)
  | Query _ k => forall r, guarded ctx n (k r)
  | Await _ _ _ => False
  | Scope _ timer c _ k => within ctx n timer c /\ forall r, guarded ctx n (k r)
  end.

(** [ctx'] stops no later than [ctx]. *)
Definition covers (ctx ctx' : OperationContext) : Prop :=
  cancellation ctx' = cancellation ctx /\
  forall d, deadline ctx = Some d -> exists d', deadline ctx' = Some d' /\ (d' <= d)%N.

#[export] Instance covers_preorder : PreOrder covers.
Proof.
  split.
  - intros ctx. split; [done|]. intros d ->. exists d. split; [done|lia].
  - intros a b c [Hab1 Hab2] [Hbc1 Hbc2]. split; [congruence|].
    intros d (d1 & H1 & L1)%Hab2. destruct (Hbc2 d1 H1) as (d2 & H2 & L2).
    exists d2. split; [done|lia].
Qed.

Lemma guarded_mono {A} ctx n m (t : fut A) :
  (n <= m)%N -> guarded ctx n t -> guarded ctx m t.
Proof.
  revert n m. induction t as [A a|A why|A|A k IH|A c k IH|A k IH|A q k IH|A id o k IH
                 |A T timer c body IHb k IH]; intros n m Hm; cbn; eauto.
  - intros H m' Hm'. apply H. lia.
  - intros [[Hc Hd] Hk]. split; [|by eauto]. split; [done|].
    intros d (d' & -> & ?)%Hd. exists d'. split; [done|lia].
Qed.

Lemma guarded_bind {A B} ctx n (t : fut A) (f : A -> fut B) :
  guarded ctx n t -> (forall a m, (n <= m)%N -> guarded ctx m (f a)) -> guarded ctx n (t ≫= f).
Proof.
  revert n f. induction t as [A a|A why|A|A k IH|A c k IH|A k IH|A q k IH|A id o k IH
                 |A T timer c body IHb k IH]; intros n f Ht Hf; cbn in *.
  - apply Hf. lia.
  - done.
  - done.
  - intros m Hm. apply IH; [by apply Ht|]. intros a m' Hm'. apply Hf. lia.
  - intros b. by apply IH.
  - intros c. by apply IH.
  - intros r. by apply IH.
  - done.
  - destruct Ht as [Hw Hk]. split; [done|]. intros r. by apply IH.
Qed.

Lemma guarded_fmap {A B} ctx n (t : fut A) (f : A -> B) :
  guarded ctx n t -> guarded ctx n (f <$> t).
Proof. intros Ht. by apply guarded_bind. Qed.

Lemma timer_of_max d n : timer_of d n = N.max d n.
Proof. unfold timer_of. lia. Qed.

Lemma guarded_scope_finish {A T} ctx ctx' op n (body : fut T)
    (k : scope_result T -> fut A) :
  (forall r, is_pending (k r) = false) -> covers ctx ctx' ->
  guarded ctx n
    (cancelled ← is_cancelled ctx';
     if (cancelled : bool) then k op
     else match deadline ctx' with
          | Some d => now ← now; Scope _ (Some (timer_of d now)) (cancellation ctx') body k
          | None => Scope _ None (cancellation ctx') body k
          end).
Proof.
  intros Hk [Hc Hd].
  assert (forall r m, guarded ctx m (k r)) as Hg.
  { intros r m. specialize (Hk r). by destruct (k r). }
  cbn. intros [|]; [apply Hg|].
  destruct (deadline ctx') as [d'|] eqn:He; cbn.
  - intros m Hm. split; [|by intros; apply Hg]. split; [done|].
    intros d (d0 & [= ->] & Hle)%Hd. eexists. split; [done|]. rewrite timer_of_max. lia.
  - split; [|by intros; apply Hg]. split; [done|]. by intros d (d0 & ? & _)%Hd.
Qed.

Lemma guarded_run {T} ctx ctx' op n (body : fut (result SshError T)) :
  covers ctx ctx' -> guarded ctx n (run ctx' op body).
Proof.
  intros Hc. exact (guarded_scope_finish ctx ctx' Interrupted n body (run_finish op)
    ltac:(by intros []) Hc).
Qed.

Lemma guarded_run_with {T X} (from : SshError -> X) ctx ctx' op n (body : fut (result X T)) :
  covers ctx ctx' -> guarded ctx n (run_with from ctx' op body).
Proof.
  intros Hc. exact (guarded_scope_finish ctx ctx' Interrupted n body (run_with_finish from op)
    ltac:(by intros []) Hc).
Qed.

Lemma guarded_with_timeout_from_now {A} ctx ctx' timeout n (f : OperationContext -> fut A) :
  covers ctx ctx' ->
  (forall ctx'' m, covers ctx ctx'' -> (n <= m)%N -> guarded ctx m (f ctx'')) ->
  guarded ctx n (with_timeout_from_now timeout ctx' ≫= f).
Proof.
  intros Hc Hf. cbn. intros m Hm.
  destruct (INSTANT_MAX <? m + timeout)%N; cbn; [done|]. apply Hf; [|done].
  transitivity ctx'; [done|]. split; [done|]. cbn.
  destruct (deadline ctx') as [d0|]; intros d [= <-]; eexists; (split; [done|]); lia.
Qed.

Lemma guarded_run_with_timeout {T} ctx ctx' op timeout n (body : fut (result SshError T)) :
  covers ctx ctx' -> guarded ctx n (run_with_timeout ctx' op timeout body).
Proof.
  intros Hc. apply guarded_with_timeout_from_now; [done|].
  intros ctx'' m Hc' _. by apply guarded_run.
Qed.

Context {S : Type} {E : Env S}.

(** The context has been cancelled or its deadline has passed. *)
Definition stopped (ctx : OperationContext) (w : world S) : bool :=
  is_set (cancellation ctx) w || timer_fired (deadline ctx) w.

Lemma poll_guarded {A} ctx n (t : fut A) (w w' : world S) t' :
  guarded ctx n t -> (n <= w_now w)%N -> poll t w = (w', t') ->
  guarded ctx (w_now w) t' /\ (stopped ctx w' = true -> is_pending t' = false).
Proof.
  revert n w w' t'.
  induction t as [A a|A why|A|A k IH|A c k IH|A k IH|A q k IH|A id o k IH
                 |A T timer c body IHb k IH]; intros n w w' t' Hg Hn; cbn in *.
  - by intros [= <- <-].
  - by intros [= <- <-].
  - by intros [= <- <-].
  - apply (IH _ (w_now w)); [by apply Hg|lia].
  - by eapply IH.
  - by eapply (IH _ n (snd (fresh w))).
  - destruct (env_query q (w_ext w)) as [s r].
    by apply (IH _ n (record_event (Asked q r) (set_ext s w))).
  - done.
  - destruct Hg as [[-> Hd] Hk].
    destruct (toss_clock w) as [Hnow Hcan]. destruct (toss w) as [cf w1]. cbn in Hnow, Hcan.
    rewrite <-Hnow in Hn |- *.
    destruct (cf && _) eqn:Hcf; [by eapply IH|].
    destruct (poll_clock body w1) as [Hb1 Hb2]. destruct (poll body w1) as [w2 body'].
    cbn in Hb1, Hb2. rewrite <-Hb1 in Hn |- *.
    assert (guarded ctx (w_now w2) (Scope T timer (cancellation ctx) body' k)) as Hg'.
    { eapply guarded_mono; [exact Hn|]. cbn. by repeat split. }
    destruct body'; try (by eapply IH); try (by intros [= <- <-]);
    (destruct (timer_fired timer w2) eqn:Hf; [by eapply IH|];
     destruct (is_set (cancellation ctx) w2) eqn:Hs; [by eapply IH|];
     intros [= <- <-]; split; [exact Hg'|]; unfold stopped; rewrite Hs; cbn;
     destruct (deadline ctx) as [d|] eqn:He; [|done]; cbn; intros Hle%N.leb_le;
     destruct (Hd d eq_refl) as (d' & -> & Hd'); cbn in Hf; apply N.leb_gt in Hf; lia).
Qed.

(** A guarded future is over once its context has stopped. *)
Lemma exec_guarded {A} ctx turns (t : fut A) n (w : world S) :
  guarded ctx n t -> (n <= w_now w)%N ->
  stopped ctx (fst (exec turns t w)) = true -> is_pending (snd (exec turns t w)) = false.
Proof.
  revert n t w. induction turns as [|u us IH]; intros n t w Hg Hn; cbn;
    destruct (poll t w) as [w' t'] eqn:Hp; pose proof (poll_clock t w) as [Hc _];
    rewrite Hp in Hc; cbn in Hc; destruct (poll_guarded _ _ _ _ _ _ Hg Hn Hp) as [Hg' Hs];
    destruct (is_pending t') eqn:Ht; cbn; try done.
  - intros Hst. by apply Hs in Hst.
  - apply (IH (w_now w)); [done|]. cbn. lia.
Qed.

Lemma stopped_iff ctx (w : world S) :
  stopped ctx w = true <->
  cancellation ctx ∈ w_cancelled w \/ exists d, deadline ctx = Some d /\ (d <= w_now w)%N.
Proof.
  unfold stopped, is_set, timer_fired. rewrite orb_true_iff, bool_decide_eq_true.
  destruct (deadline ctx) as [d|]; [rewrite N.leb_le|]; split; intros [?|H]; auto.
  - right. by exists d.
  - destruct H as (? & [= <-] & ?). auto.
  - done.
  - by destruct H as (? & ? & _).
Qed.

(** Cancelled or past its deadline by the end of [turns]: the outcome is final. *)
Lemma exec_guarded_stops {A} ctx turns (t : fut A) (w : world S) :
  guarded ctx 0 t ->
  cancellation ctx ∈ w_cancelled w ∪ all_cancelled turns \/
  (exists d, deadline ctx = Some d /\ (d <= w_now w + total_advance turns)%N) ->
  is_pending (snd (exec turns t w)) = false.
Proof.
  intros Hg Hstop. apply not_true_is_false. intros Hp.
  destruct (exec_pending_clock turns t w Hp) as [Hn Hc].
  rewrite (exec_guarded ctx turns t 0 w Hg) in Hp; [done|lia|].
  apply stopped_iff. by rewrite Hn, Hc.
Qed.

(** What runs under a timeout of its own has returned (or panicked on an
    unrepresentable deadline) once that much time has elapsed. *)
Lemma exec_with_timeout_bounded {A} (turns : list turn) ctx timeout
    (f : OperationContext -> fut A) (w : world S) :
  (forall ctx', guarded ctx' 0 (f ctx')) -> (timeout <= total_advance turns)%N ->
  is_pending (snd (exec turns (with_timeout_from_now timeout ctx ≫= f) w)) = false.
Proof.
  intros Hf Ht.
  pose (d := match deadline ctx with
             | Some d0 => N.min d0 (w_now w + timeout) | None => (w_now w + timeout)%N end).
  pose (ctx' := {| deadline := Some d; cancellation := cancellation ctx |}).
  destruct (N.ltb_spec INSTANT_MAX (w_now w + timeout)) as [Ho|Ho].
  { destruct turns; cbn; apply N.ltb_lt in Ho; by rewrite Ho. }
  assert (exec turns (with_timeout_from_now timeout ctx ≫= f) w = exec turns (f ctx') w) as ->.
  { apply N.ltb_ge in Ho. unfold ctx', d, with_timeout_from_now, now.
    destruct turns; cbn [exec poll mbind fut_bind]; rewrite Ho; cbn [mret fut_ret];
      destruct (deadline ctx); reflexivity. }
  apply (exec_guarded_stops ctx'); [apply Hf|]. right. exists d. split; [done|].
  unfold d. destruct (deadline ctx); lia.
Qed.

End Guarded.

Create HintDb guarded.
#[export] Hint Resolve guarded_run guarded_run_with guarded_run_with_timeout guarded_fmap : guarded.
#[export] Hint Extern 1 (covers ?c ?c) => reflexivity : guarded.
#[export] Hint Extern 1 (covers _ _) => assumption : guarded.

(** Steps through the binds of a future down to the [run]s it is made of. *)
Ltac guarded_step :=
  lazymatch goal with
  | |- guarded _ _ (mbind _ (with_timeout_from_now _ _)) => apply guarded_with_timeout_from_now
  | |- guarded _ _ (mbind _ _) => apply guarded_bind
  | |- guarded _ _ (fmap _ _) => apply guarded_fmap
  | |- guarded _ _ (mret _) => exact I
  | |- guarded _ _ (lift _) => exact I
  | |- guarded _ _ (ask _) => exact (fun _ => I)
  | |- guarded _ _ OperationContext_new => exact (fun _ => I)
  | |- guarded _ _ (match ?x with _ => _ end) => destruct x
  | |- guarded _ _ _ => solve [eauto 2 with guarded]
  | |- covers _ _ => first [assumption | reflexivity]
  end.
Ltac guarded := repeat (intros; guarded_step).

(** ** The events of a guarded operation are those of its body *)

Section Emits.
Context {Σ : Sig}.

Lemma emits_run {T} (P : event -> Prop) ctx op (body : fut (result SshError T)) :
  emits P body -> emits P (run ctx op body).
Proof.
  intros Hb. cbn. intros [|]; [done|].
  destruct (deadline ctx); cbn; [intros m|]; (split; [done|]); by intros [].
Qed.

Lemma emits_run_with {T E} (P : event -> Prop) (from : SshError -> E) ctx op (body : fut (result E T)) :
  emits P body -> emits P (run_with from ctx op body).
Proof.
  intros Hb. cbn. intros [|]; [done|].
  destruct (deadline ctx); cbn; [intros m|]; (split; [done|]); by intros [].
Qed.

Lemma emits_with_timeout_from_now P timeout ctx : emits P (with_timeout_from_now timeout ctx).
Proof. cbn. intros m. by destruct (INSTANT_MAX <? m + timeout)%N. Qed.

Lemma emits_run_with_timeout {T} (P : event -> Prop) ctx op timeout (body : fut (result SshError T)) :
  emits P body -> emits P (run_with_timeout ctx op timeout body).
Proof.
  intros Hb. apply emits_bind; [apply emits_with_timeout_from_now|].
  intros ctx'. by apply emits_run.
Qed.

End Emits.

Create HintDb emits.
#[export] Hint Resolve emits_with_timeout_from_now : emits.

(** Walks a future down to the events it is made of. *)
Ltac emits_step :=
  lazymatch goal with
  | |- emits _ (mbind _ _) => apply emits_bind
  | |- emits _ (fmap _ _) => apply emits_fmap
  | |- emits _ (await _) => apply emits_await
  | |- emits _ (ask _) => apply emits_ask
  | |- emits _ (run _ _ _) => apply emits_run
  | |- emits _ (run_with _ _ _ _) => apply emits_run_with
  | |- emits _ (run_with_timeout _ _ _ _) => apply emits_run_with_timeout
  | |- emits _ (mret _) => exact I
  | |- emits _ (lift _) => exact I
  | |- emits _ (match ?x with _ => _ end) => destruct x
  | |- emits _ _ => solve [eauto 2 with emits]
  end.
Ltac emits := repeat (intros; emits_step).

(** ** Properties *)

Section Properties.
Context {Σ : Sig} {F : Budget} {S : Type} {E : Env S}.

(** C14: once the token of its context has been cancelled or the context's deadline has
    been reached, [run] has returned, even when the operation it guards never
    becomes ready. *)
Theorem run_returns_once_stopped {T} (turns : list turn) ctx op
    (body : fut (result SshError T)) (w : world S) :
  cancellation ctx ∈ w_cancelled w ∪ all_cancelled turns \/
  (exists d, deadline ctx = Some d /\ (d <= w_now w + total_advance turns)%N) ->
  is_pending (snd (exec turns (run ctx op body) w)) = false.
Proof. apply exec_guarded_stops. by apply guarded_run. Qed.

(** A context that is already cancelled stops [run], [run_with] and
    [run_with_timeout] before they poll the operation: nothing is issued and the
    world is unchanged. *)
Lemma run_cancelled_before_start {T G} ctx op timeout (from : SshError -> G)
    (body : fut (result SshError T)) (body' : fut (result G T)) (w : world S) :
  is_set (cancellation ctx) w = true ->
  poll (run ctx op body) w = (w, Ret (Err (cancelled_error op))) /\
  poll (run_with from ctx op body') w = (w, Ret (Err (from (cancelled_error op)))) /\
  ((w_now w + timeout <= INSTANT_MAX)%N ->
   poll (run_with_timeout ctx op timeout body) w = (w, Ret (Err (cancelled_error op)))).
Proof.
  intros Hs. split_and!; cbn; rewrite ?Hs; [done|done|].
  intros Ht. unfold run_with_timeout, with_timeout_from_now, now. cbn.
  destruct (N.ltb_spec INSTANT_MAX (w_now w + timeout)); [lia|]. cbn. by rewrite Hs.
Qed.

(** C32: what [run] returns: its own [Cancelled] error only if the token is
    set, its own [Timeout] error only if the deadline was reached, and otherwise the
    operation's result; every error it returns names the operation. *)
Theorem run_result_classified {T} (turns : list turn) ctx op
    (body : fut (result SshError T)) (w w' : world S) r :
  exec turns (run ctx op body) w = (w', Ret r) ->
  ((r = Err (cancelled_error op) /\ is_set (cancellation ctx) w' = true) \/
   (r = Err (timeout_error op) /\ deadline_passed ctx w' = true) \/
   (exists r0, r = map_err (SshError.with_operation op) r0 /\
      forall Q, wp body Q anything (w_log w) -> Q r0 (w_log w'))) /\
  (forall e, r = Err e -> SshError.operation e = Some op).
Proof.
  intros He. pose proof (run_outcome turns ctx op body w w' r He) as Hcl.
  split; [exact Hcl|]. intros e ->.
  destruct Hcl as [[[= ->] _]|[[[= ->] _]|(r0 & Hr0 & _)]]; [done|done|].
  destruct r0; [done|]. by injection Hr0 as ->.
Qed.

(** [with_timeout_from_now] keeps the token and sets the deadline to the
    earlier of the existing one and [now + timeout], so it never extends a deadline;
    it panics exactly when the sum is not a representable [Instant]. *)
Lemma with_timeout_from_now_min timeout ctx (w : world S) :
  if (INSTANT_MAX <? w_now w + timeout)%N
  then exists why, poll (with_timeout_from_now timeout ctx) w = (w, Panic why)
  else exists d,
    poll (with_timeout_from_now timeout ctx) w =
      (w, Ret {| deadline := Some d; cancellation := cancellation ctx |}) /\
    (d <= w_now w + timeout)%N /\
    match deadline ctx with
    | Some d0 => d = N.min d0 (w_now w + timeout) /\ (d <= d0)%N
    | None => d = (w_now w + timeout)%N
    end.
Proof.
  unfold with_timeout_from_now, now. cbn.
  destruct (INSTANT_MAX <? w_now w + timeout)%N; cbn; [by eauto|].
  destruct (deadline ctx); eexists; (split; [reflexivity|]); split_and!; lia || done.
Qed.

(** [run_with_timeout] has returned (or panicked on an unrepresentable
    deadline) once [timeout] has elapsed since its first poll, whatever the deadline of
    its context and whatever the operation does. *)
Lemma run_with_timeout_bounded {T} (turns : list turn) ctx op timeout
    (body : fut (result SshError T)) (w : world S) :
  (timeout <= total_advance turns)%N ->
  is_pending (snd (exec turns (run_with_timeout ctx op timeout body) w)) = false.
Proof. apply exec_with_timeout_bounded. intros ctx'. by apply guarded_run. Qed.

End Properties.
