(* ===== verification/Settle.v ===== *)
(** * Settle: a total-correctness logic for futures that need not wait.

    [wp] of [Async] says what a future may have done wherever it stops, for every
    environment.  [settles] is its total counterpart for one environment: one poll of the
    future returns, and what it returned satisfies the postcondition.  It is how a client
    is followed through a conversation with a server that answers at once. *)

From S2P Require Export Operation.

Section Settle.
Context {Σ : Sig} {S : Type} {E : Env S}.

Definition settles {A} (t : fut A) (w : world S) (Q : A -> world S -> Prop) : Prop :=
  exists a w', poll t w = (w', Ret a) /\ Q a w'.

Lemma settles_mono {A} (t : fut A) w (Q Q' : A -> world S -> Prop) :
  (forall a w', Q a w' -> Q' a w') -> settles t w Q -> settles t w Q'.
Proof. intros HQ (a & w1 & Hp & Ha). exists a, w1. split; [done|by apply HQ]. Qed.

Lemma settles_ret {A} (a : A) w (Q : A -> world S -> Prop) : Q a w -> settles (Ret a) w Q.
Proof. intros Ha. by exists a, w. Qed.

Lemma settles_bind {A B} (t : fut A) (f : A -> fut B) w Q :
  settles t w (fun a w' => settles (f a) w' Q) -> settles (t ≫= f) w Q.
Proof.
  intros (a & w' & Hp & b & w2 & Hb & Hq). exists b, w2.
  by rewrite (poll_bind _ _ _ _ _ Hp).
Qed.

Lemma settles_fmap {A B} (f : A -> B) (t : fut A) w Q :
  settles t w (fun a w' => Q (f a) w') -> settles (f <$> t) w Q.
Proof.
  intros H. apply settles_bind. eapply settles_mono; [|exact H]. intros a w' Ha. by apply (settles_ret (f a)).
Qed.

Lemma settles_lift {X T} (r : result X T) w (Q : result X T -> world S -> Prop) :
  Q r w -> settles (lift r) w Q.
Proof. apply settles_ret. Qed.

Lemma settles_ask q w (Q : reply q -> world S -> Prop) :
  (let '(s, r) := env_query q (w_ext w) in Q r (record_event (Asked q r) (set_ext s w))) ->
  settles (ask q) w Q.
Proof.
  intros H. unfold settles. cbn. destruct (env_query q (w_ext w)) as [s r]. eauto.
Qed.

(** A call that is answered when it is first polled. *)
Lemma settles_await o w (Q : answer o -> world S -> Prop) s a :
  env_poll o (w_next_call w) (w_ext w) = (s, Some a) ->
  Q a (record_event (Answered o a) (set_ext s (snd (issue o w)))) ->
  settles (await o) w Q.
Proof. intros He HQ. unfold settles. cbn. rewrite He. eauto. Qed.

(** Nothing but the clock and the cancelled tokens bears on contexts. *)
Lemma settles_with_timeout_from_now timeout ctx w (Q : OperationContext -> world S -> Prop) :
  (w_now w + timeout <= INSTANT_MAX)%N ->
  (forall d, d = match deadline ctx with
                 | Some d0 => N.min d0 (w_now w + timeout)
                 | None => w_now w + timeout
                 end%N ->
     Q {| deadline := Some d; cancellation := cancellation ctx |} w) ->
  settles (with_timeout_from_now timeout ctx) w Q.
Proof.
  intros Hn HQ. unfold with_timeout_from_now, now, settles. cbn.
  destruct (N.ltb_spec INSTANT_MAX (w_now w + timeout)); [lia|]. cbn.
  eexists _, w. split; [done|]. by destruct (deadline ctx); apply HQ.
Qed.

(** Under a context that is not cancelled, what settles returns its result. *)
Lemma settles_run {T} ctx op (body : fut (result SshError T)) w Q :
  is_set (cancellation ctx) w = false ->
  settles body (snd (toss w)) (fun r w' => Q (map_err (SshError.with_operation op) r) w') ->
  settles (run ctx op body) w Q.
Proof.
  intros Hs (r & w' & Hb & Hq). eexists _, w'. split; [|exact Hq].
  by apply poll_run_ready.
Qed.

(** A [select!] whose body is ready when it is first polled. *)
Lemma settles_scope {T A} timer c (body : fut T) (k : scope_result T -> fut A) w Q :
  is_set c w = false ->
  settles body (snd (toss w)) (fun x w' => settles (k (Completed x)) w' Q) ->
  settles (Scope T timer c body k) w Q.
Proof.
  intros Hs (x & w1 & Hb & a & w2 & Hk & Hq). exists a, w2. split; [|exact Hq].
  cbn. destruct (toss w) as [cf w0] eqn:Ht. cbn [snd] in Hb.
  assert (is_set c w0 = false) as Hs0.
  { pose proof (toss_clock w) as [_ Hc]. rewrite Ht in Hc. cbn [snd] in Hc.
    unfold is_set in *. by rewrite Hc. }
  by rewrite Hs0, andb_false_r, Hb.
Qed.

(** A settled future has not touched the clock or the tokens' flags. *)
Lemma settles_clock {A} (t : fut A) w Q :
  settles t w Q ->
  settles t w (fun a w' => w_now w' = w_now w /\ w_cancelled w' = w_cancelled w /\ Q a w').
Proof.
  intros (a & w' & Hp & Hq). exists a, w'. split; [done|].
  pose proof (poll_clock t w) as Hc. rewrite Hp in Hc. by destruct Hc.
Qed.

Lemma settles_exec {A} turns (t : fut A) w Q :
  settles t w Q -> exists a w', exec turns t w = (w', Ret a) /\ Q a w'.
Proof.
  intros (a & w' & Hp & Hq). exists a, w'. split; [|done].
  rewrite exec_not_pending; by rewrite Hp.
Qed.

(** An execution whose last part needs no waiting. *)
Lemma exec_bind {A B} turns (t : fut A) (f : A -> fut B) (w w1 w2 : world S) a b :
  exec turns t w = (w1, Ret a) -> poll (f a) w1 = (w2, Ret b) ->
  exec turns (t ≫= f) w = (w2, Ret b).
Proof.
  revert t w. induction turns as [|u us IH]; intros t w; cbn [exec];
    destruct (poll t w) as [w' t'] eqn:Hp; destruct (is_pending t') eqn:Ht.
  - intros [= -> ->]. done.
  - intros [= -> ->] Hf. by rewrite (poll_bind _ _ _ _ _ Hp), Hf.
  - intros He Hf. rewrite (poll_bind_pending _ _ _ _ _ Hp Ht), is_pending_bind by done.
    by apply IH.
  - intros [= -> ->] Hf. by rewrite (poll_bind _ _ _ _ _ Hp), Hf.
Qed.

(** Tokens are cancelled by the turns only. *)
Lemma exec_cancelled {A} turns (t : fut A) (w : world S) :
  w_cancelled (fst (exec turns t w)) ⊆ w_cancelled w ∪ all_cancelled turns.
Proof.
  revert t w. induction turns as [|u us IH]; intros t w; cbn [exec all_cancelled];
    pose proof (poll_clock t w) as [_ Hc]; destruct (poll t w) as [w' t']; cbn [fst] in Hc;
    destruct (is_pending t'); cbn [fst]; rewrite ?Hc; try set_solver.
  specialize (IH t' (take_turn u w')). cbn [take_turn w_cancelled] in IH.
  rewrite Hc in IH. set_solver.
Qed.

Lemma w_ext_toss (w : world S) : w_ext (snd (toss w)) = w_ext w.
Proof. unfold toss. by destruct (w_coins w). Qed.

Lemma is_set_clock c (w w' : world S) : w_cancelled w' = w_cancelled w -> is_set c w' = is_set c w.
Proof. unfold is_set. by intros ->. Qed.

End Settle.
