(* ===== verification/Phases.v ===== *)
(** * Phases: futures made of phases, each under a deadline of its own.

    [guarded] of [Operation] is the reason why what runs under one context ends with it.
    The library's longer operations set a new deadline at the start of each phase;
    [ends ds t] says that [t] is over, whatever the environment does, once the time [ds]
    allows has passed, phase after phase. *)

From S2P Require Export Operation Settle.

Section Phases.
Context {Σ : Sig} {S : Type} {E : Env S}.

(** The schedule gives each phase its time. *)
Definition allows_time (ds : list Duration) (schedule : list (list (turn (S := S)))) : Prop :=
  Forall2 (fun d turns => (d <= total_advance turns)%N) ds schedule.

Definition ends {A} (ds : list Duration) (t : fut A) : Prop :=
  forall schedule (w : world S), allows_time ds schedule ->
    is_pending (snd (exec (concat schedule) t w)) = false.

(** The same for the rest of a phase that began under [ctx]. *)
Definition ends_under {A} (ctx : OperationContext) (ds : list Duration) (t : fut A) : Prop :=
  forall turns schedule (w : world S),
    (exists d, deadline ctx = Some d /\ (d <= w_now w + total_advance turns)%N) ->
    allows_time ds schedule ->
    is_pending (snd (exec (turns ++ concat schedule) t w)) = false.

Lemma total_advance_app (us vs : list (turn (S := S))) :
  total_advance (us ++ vs) = (total_advance us + total_advance vs)%N.
Proof. unfold total_advance. induction us as [|u us IH]; [done|]. cbn. rewrite IH. lia. Qed.

Lemma exec_nil {A} (t : fut A) (w : world S) : exec [] t w = poll t w.
Proof. cbn. destruct (poll t w) as [w' t']. by destruct (is_pending t'). Qed.

Lemma exec_bind_ready {A B} us (t : fut A) (f : A -> fut B) (w w' : world S) a :
  poll t w = (w', Ret a) -> exec us (t ≫= f) w = exec us (f a) w'.
Proof. intros Hp. destruct us; cbn [exec]; by rewrite (poll_bind _ _ _ _ _ Hp). Qed.

(** A bind whose first part is over after one poll. *)
Lemma exec_bind_over {A B} us vs (t : fut A) (f : A -> fut B) (w w1 : world S) t1 :
  poll t w = (w1, t1) -> is_pending t1 = false -> w_now w1 = w_now w ->
  (forall a rest (w' : world S),
     (w_now w' + total_advance rest = w_now w + total_advance us)%N ->
     is_pending (snd (exec (rest ++ vs) (f a) w')) = false) ->
  is_pending (snd (exec (us ++ vs) (t ≫= f) w)) = false.
Proof.
  intros Hp Ht Hn Hf. destruct t1 as [a|why| | | | | | |]; try discriminate Ht.
  - erewrite exec_bind_ready by exact Hp. apply Hf. by rewrite Hn.
  - apply poll_bind_not_ready with (f := f) in Hp; [|done].
    rewrite exec_not_pending; by rewrite Hp.
  - apply poll_bind_not_ready with (f := f) in Hp; [|done].
    rewrite exec_not_pending; by rewrite Hp.
Qed.

(** A bind whose first part ends during [us]: its second part is executed during the rest
    of [us] and [vs]. *)
Lemma exec_bind_resume {A B} us vs (t : fut A) (f : A -> fut B) (w : world S) :
  is_pending (snd (exec us t w)) = false ->
  (forall a rest (w' : world S),
     (w_now w' + total_advance rest = w_now w + total_advance us)%N ->
     is_pending (snd (exec (rest ++ vs) (f a) w')) = false) ->
  is_pending (snd (exec (us ++ vs) (t ≫= f) w)) = false.
Proof.
  revert t w. induction us as [|u us IH]; intros t w Ht Hf;
    pose proof (poll_clock t w) as [Hn _]; destruct (poll t w) as [w1 t1] eqn:Hp; cbn [fst] in Hn;
    cbn [exec] in Ht; rewrite Hp in Ht; destruct (is_pending t1) eqn:Ht1.
  - cbn in Ht. congruence.
  - by eapply exec_bind_over.
  - cbn [app exec]. rewrite (poll_bind_pending _ _ _ _ _ Hp Ht1), is_pending_bind by done.
    apply IH; [done|]. intros a rest w' Hr. apply Hf.
    change (total_advance (u :: us)) with (t_advance u + total_advance us)%N.
    cbn [take_turn w_now] in Hr. lia.
  - by eapply (exec_bind_over (u :: us)).
Qed.

(** ** Rules *)

(** More time does no harm. *)
Lemma ends_later {A} ds (t : fut A) us schedule (w : world S) :
  ends ds t -> allows_time ds schedule ->
  is_pending (snd (exec (us ++ concat schedule) t w)) = false.
Proof.
  intros Ht Hs. destruct Hs as [|d turns ds schedule Hd Hs].
  - cbn [concat]. rewrite app_nil_r.
    specialize (Ht [] w (Forall2_nil _)). rewrite exec_nil in Ht. by rewrite exec_not_pending.
  - cbn [concat]. rewrite (assoc_L (++)). apply (Ht ((us ++ turns) :: schedule)).
    constructor; [|done]. rewrite total_advance_app. lia.
Qed.

Lemma ends_bind {A B} ds (t : fut A) (f : A -> fut B) :
  ends [] t -> (forall a, ends ds (f a)) -> ends ds (t ≫= f).
Proof.
  intros Ht Hf schedule w Hs. apply (exec_bind_resume []); [apply (Ht []), Forall2_nil|].
  intros a rest w' _. by apply (ends_later ds).
Qed.

Lemma ends_ret {A} ds (a : A) : ends ds (mret a).
Proof. intros schedule w _. by rewrite exec_not_pending. Qed.

Lemma ends_ask q : ends [] (ask q).
Proof. intros schedule w _. rewrite exec_not_pending; cbn; by destruct (env_query q (w_ext w)). Qed.

Lemma ends_under_ends {A} ctx ds (t : fut A) : ends ds t -> ends_under ctx ds t.
Proof. intros Ht turns schedule w _ Hs. by apply (ends_later ds). Qed.

(** The part of a phase that is guarded by the phase's context, and what follows it. *)
Lemma ends_under_bind {A B} ctx ds (t : fut A) (f : A -> fut B) :
  guarded ctx 0 t -> (forall a, ends_under ctx ds (f a)) -> ends_under ctx ds (t ≫= f).
Proof.
  intros Hg Hf turns schedule w (d & Hd & Hle) Hs. apply exec_bind_resume.
  - apply (exec_guarded_stops ctx); [done|]. right. by exists d.
  - intros a rest w' Hw. apply Hf; [|done]. exists d. split; [done|]. lia.
Qed.

(** A phase. *)
Lemma ends_phase {A} timeout ctx ds (f : OperationContext -> fut A) :
  (forall ctx', ends_under ctx' ds (f ctx')) ->
  ends (timeout :: ds) (with_timeout_from_now timeout ctx ≫= f).
Proof.
  intros Hf schedule w Hs. inversion Hs as [|d turns ds' schedule' Hd Hs']; subst. cbn [concat].
  destruct (N.ltb_spec INSTANT_MAX (w_now w + timeout)) as [Ho|Ho].
  { apply N.ltb_lt in Ho. rewrite exec_not_pending; cbn; by rewrite Ho. }
  pose (d := match deadline ctx with
             | Some d0 => N.min d0 (w_now w + timeout) | None => (w_now w + timeout)%N end).
  rewrite (exec_bind_ready _ _ _ w w {| deadline := Some d; cancellation := cancellation ctx |}).
  - apply Hf; [|done]. exists d. split; [done|]. unfold d. destruct (deadline ctx); lia.
  - apply N.ltb_ge in Ho. unfold d, with_timeout_from_now, now. cbn. rewrite Ho. cbn.
    by destruct (deadline ctx).
Qed.

(** ** Executions that return *)

Definition returns {A} turns (t : fut A) (w : world S) (Q : A -> world S -> Prop) : Prop :=
  exists w' a, exec turns t w = (w', Ret a) /\ Q a w'.

Lemma returns_settled {A} turns (t : fut A) w Q : settles t w Q -> returns turns t w Q.
Proof. intros Ht. destruct (settles_exec turns t w Q Ht) as (a & w' & He & Hq). by exists w', a. Qed.

(** What needs no waiting comes first, or last. *)
Lemma returns_after {A B} turns (t : fut A) (f : A -> fut B) w Q :
  settles t w (fun a w' => returns turns (f a) w' Q) -> returns turns (t ≫= f) w Q.
Proof.
  intros (a & w' & Hp & w2 & b & He & Hq). exists w2, b. split; [|done].
  by rewrite (exec_bind_ready _ _ _ _ _ _ Hp).
Qed.

Lemma returns_before {A B} turns (t : fut A) (f : A -> fut B) w Q :
  returns turns t w (fun a w' => settles (f a) w' Q) -> returns turns (t ≫= f) w Q.
Proof.
  intros (w' & a & He & b & w2 & Hp & Hq). exists w2, b. split; [|done]. by eapply exec_bind.
Qed.

Lemma returns_mono {A} turns (t : fut A) w (Q Q' : A -> world S -> Prop) :
  (forall a w', Q a w' -> Q' a w') -> returns turns t w Q -> returns turns t w Q'.
Proof. intros HQ (w' & a & He & Hq). exists w', a. split; [done|by apply HQ]. Qed.

(** ** Calls that are never answered *)

Definition stuck (o : op) : Prop := forall n (s : S), exists s', env_poll o n s = (s', None).

(** What an operation that waits for such a call ends with. *)
Definition interrupted {T} (timer : option Instant) (c : token) (op : string)
    (r : result SshError T) (w : world S) : Prop :=
  (r = Err (cancelled_error op) /\ is_set c w = true) \/
  (r = Err (timeout_error op) /\ timer_fired timer w = true).

Lemma poll_scope_stuck {T} timer c o id (k : answer o -> fut (result SshError T)) op
    (w w' : world S) t :
  stuck o ->
  poll (Scope (result SshError T) timer c (Await id o k) (run_finish op)) w = (w', t) ->
  (exists r, t = Ret r /\ interrupted timer c op r w') \/
  (exists id, t = Scope (result SshError T) timer c (Await id o k) (run_finish op)).
Proof.
  intros Ho. cbn [poll]. destruct (toss w) as [cf w1].
  destruct (cf && is_set c w1) eqn:Hcf.
  { intros [= <- <-]. apply andb_true_iff in Hcf as [_ Hc]. left. eexists. split; [done|by left]. }
  destruct (match id with Some n => (n, w1) | None => issue o w1 end) as [n w2].
  destruct (Ho n (w_ext w2)) as [s' ->]. clear Hcf.
  destruct (timer_fired timer (set_ext s' w2)) eqn:Hf.
  { intros [= <- <-]. left. eexists. split; [done|by right]. }
  destruct (is_set c (set_ext s' w2)) eqn:Hc; intros [= <- <-].
  - left. eexists. split; [done|by left].
  - right. by eexists.
Qed.

Lemma exec_scope_stuck {T} turns timer c o id (k : answer o -> fut (result SshError T)) op
    (w w' : world S) t :
  stuck o ->
  exec turns (Scope (result SshError T) timer c (Await id o k) (run_finish op)) w = (w', t) ->
  is_pending t = false -> exists r, t = Ret r /\ interrupted timer c op r w'.
Proof.
  intros Ho. revert id w. induction turns as [|u us IH]; intros id w; cbn [exec];
    destruct (poll _ w) as [w1 t1] eqn:Hp;
    apply poll_scope_stuck in Hp as [(r & -> & Hr)|[id' ->]]; try done; cbn [is_pending].
  - intros [= <- <-] _. by exists r.
  - by intros [= <- <-].
  - intros [= <- <-] _. by exists r.
  - apply IH.
Qed.

(** So the operation ends with its context. *)
Lemma exec_run_stuck {T} turns ctx o (k : answer o -> fut (result SshError T)) op (w : world S) :
  stuck o ->
  cancellation ctx ∈ w_cancelled w ∪ all_cancelled turns \/
  (exists d, deadline ctx = Some d /\ (d <= w_now w + total_advance turns)%N) ->
  returns turns (run ctx op (await o ≫= k)) w (fun r w' =>
    (r = Err (cancelled_error op) /\ is_set (cancellation ctx) w' = true) \/
    (r = Err (timeout_error op) /\ deadline_passed ctx w' = true)).
Proof.
  intros Ho Hs. destruct (is_set (cancellation ctx) w) eqn:Hc.
  { eexists w, _. split; [by apply exec_run_cancelled|by left]. }
  assert (is_pending (snd (exec turns (run ctx op (await o ≫= k)) w)) = false) as Hp
    by (apply (exec_guarded_stops ctx); [by apply guarded_run|done]).
  destruct (exec_run_unfold turns ctx op (await o ≫= k) w Hc) as (timer & Heq & Ht).
  pose proof (exec_clock_mono turns (run ctx op (await o ≫= k)) w) as Hn.
  unfold returns. rewrite Heq in Hp, Hn |- *. destruct (exec _ _ _) as [w' t] eqn:He. cbn [fst snd] in *.
  destruct (exec_scope_stuck _ _ _ _ _ _ _ _ _ _ Ho He Hp) as (r & -> & Hr).
  exists w', r. split; [done|]. unfold interrupted in Hr. by rewrite (Ht w' Hn) in Hr.
Qed.

(** And in time, when nobody cancels it. *)
Lemma exec_run_times_out {T} turns ctx o (k : answer o -> fut (result SshError T)) op d
    (w : world S) :
  stuck o -> deadline ctx = Some d -> (d <= w_now w + total_advance turns)%N ->
  cancellation ctx ∉ w_cancelled w ∪ all_cancelled turns ->
  returns turns (run ctx op (await o ≫= k)) w (fun r _ => r = Err (timeout_error op)).
Proof.
  intros Ho Hd Hle Hc.
  destruct (exec_run_stuck turns ctx o k op w Ho) as (w' & r & He & Hr); [right; by exists d|].
  exists w', r. split; [done|]. destruct Hr as [[_ Hset]|[-> _]]; [|done].
  exfalso. apply bool_decide_eq_true in Hset. apply Hc.
  pose proof (exec_cancelled turns (run ctx op (await o ≫= k)) w) as Hsub.
  rewrite He in Hsub. by apply Hsub.
Qed.

End Phases.
