(* ===== verification/Cancellation.v ===== *)
(** * Cancellation: the shared flag behind a [CancellationToken]
    ([src/core/operation.rs], lines 10-63) under every interleaving of the threads
    that cancel it and the tasks that wait for it. *)

From S2P Require Export Prelude.
From stdpp Require Import relations.

(** ** [tokio::sync::Notify]

    What its documentation promises: a [Notified] future receives the wake-ups of
    [notify_waiters] from the moment it is created, polled or not, and stays woken. *)
Class NotifyLib (N_ : Type) := {
  notified : N_ -> N * N_;
  notify_waiters : N_ -> N_;
  ready : N_ -> N -> bool;
  created : N_ -> N -> Prop;
  created_notified n : created (snd (notified n)) (fst (notified n));
  created_mono n i : created n i -> created (snd (notified n)) i;
  created_notify n i : created n i -> created (notify_waiters n) i;
  ready_notify n i : created n i -> ready (notify_waiters n) i = true;
  ready_mono n i : created n i -> ready n i = true -> ready (snd (notified n)) i = true
}.

Section Token.
Context {N_ : Type} {L : NotifyLib N_}.

(** [CancellationState]. *)
Record CancellationState := {
  cancelled_flag : bool;
  notify : N_
}.

(** Program points of [CancellationToken::cancel] and
    [CancellationToken::cancelled], one per shared-memory access. *)
Inductive pc :=
| CancelSwap
| CancelNotify
| CancelDone
| WaitEntry
| WaitSubscribe
| WaitCheck (id : N)
| WaitAwait (id : N)
| WaitDone.

(** [CancellationToken::new] and [is_cancelled]. *)
Definition CancellationToken_new (n : N_) : CancellationState :=
  {| cancelled_flag := false; notify := n |}.

Definition token_is_cancelled (s : CancellationState) : bool := cancelled_flag s.

(** One access of [cancel]: the swap, then the wake-up if it was the first. *)
Definition cancel_step (s : CancellationState) (p : pc) : option (CancellationState * pc) :=
  match p with
  | CancelSwap =>
      Some ({| cancelled_flag := true; notify := notify s |},
            if cancelled_flag s then CancelDone else CancelNotify)
  | CancelNotify =>
      Some ({| cancelled_flag := cancelled_flag s; notify := notify_waiters (notify s) |},
            CancelDone)
  | _ => None
  end.

(** One access of [cancelled]: the early check, then subscribe, check, await. *)
Definition cancelled_step (s : CancellationState) (p : pc) : option (CancellationState * pc) :=
  match p with
  | WaitEntry => Some (s, if token_is_cancelled s then WaitDone else WaitSubscribe)
  | WaitSubscribe =>
      let '(id, n) := notified (notify s) in
      Some ({| cancelled_flag := cancelled_flag s; notify := n |}, WaitCheck id)
  | WaitCheck id => Some (s, if token_is_cancelled s then WaitDone else WaitAwait id)
  | WaitAwait id => if ready (notify s) id then Some (s, WaitSubscribe) else None
  | _ => None
  end.

Definition thread_step (s : CancellationState) (p : pc) : option (CancellationState * pc) :=
  match cancel_step s p with
  | Some r => Some r
  | None => cancelled_step s p
  end.

(** A token and the threads using it; any thread may move. *)
Record system := { shared : CancellationState; threads : list pc }.

Inductive step : system -> system -> Prop :=
| step_thread s ts i p s' p' :
    ts !! i = Some p ->
    thread_step s p = Some (s', p') ->
    step {| shared := s; threads := ts |} {| shared := s'; threads := <[i := p']> ts |}.

Definition initial (sys : system) : Prop :=
  cancelled_flag (shared sys) = false /\
  Forall (fun p => p = CancelSwap \/ p = WaitEntry) (threads sys).

Definition reachable (sys : system) : Prop := exists s0, initial s0 /\ rtc step s0 sys.

(** Running one waiter alone. *)
Fixpoint run_waiter (fuel : nat) (s : CancellationState) (p : pc) : CancellationState * pc :=
  match fuel with
  | 0 => (s, p)
  | S fuel' => match cancelled_step s p with
               | Some (s', p') => run_waiter fuel' s' p'
               | None => (s, p)
               end
  end.

(** ** The invariant *)

Definition waits_on (p : pc) : option N :=
  match p with WaitCheck id | WaitAwait id => Some id | _ => None end.

Record inv (sys : system) : Prop := {
  inv_notify : forall i, threads sys !! i = Some CancelNotify ->
    cancelled_flag (shared sys) = true;
  inv_unique : forall i j, threads sys !! i = Some CancelNotify ->
    threads sys !! j = Some CancelNotify -> i = j;
  inv_created : forall i p id, threads sys !! i = Some p -> waits_on p = Some id ->
    created (notify (shared sys)) id;
  inv_woken : cancelled_flag (shared sys) = true ->
    (exists j, threads sys !! j = Some CancelNotify) \/
    (forall i id, threads sys !! i = Some (WaitAwait id) -> ready (notify (shared sys)) id = true);
  inv_done : forall i, threads sys !! i = Some WaitDone ->
    cancelled_flag (shared sys) = true
}.

Lemma inv_initial sys : initial sys -> inv sys.
Proof.
  intros [Hf Ht]. rewrite Forall_lookup in Ht.
  split; intros *; try (intros H; by destruct (Ht _ _ H)).
  - intros H. destruct (Ht _ _ H); by subst.
  - by rewrite Hf.
Qed.

(** The thread that moved has a new program point, the others kept theirs. *)
Lemma lookup_moved (ts : list pc) i j p q :
  <[i := p]> ts !! j = Some q -> (i = j /\ q = p) \/ (i <> j /\ ts !! j = Some q).
Proof.
  intros [(-> & <- & _)|[? ?]]%list_lookup_insert_Some; auto.
Qed.

Ltac moved := repeat match goal with
  | H : <[_ := _]> _ !! _ = Some _ |- _ => apply lookup_moved in H as [[? H]|[? H]]
  end; subst.

(** A move that neither touches the flag nor notifies, of a thread that is not
    the pending notifier, to a point that is neither the notifier's nor final. *)
Lemma inv_step_wait s n' ts i p p' :
  inv {| shared := s; threads := ts |} ->
  ts !! i = Some p -> p <> CancelNotify ->
  p' <> CancelNotify -> (p' = WaitDone -> cancelled_flag s = true) ->
  (forall j, created (notify s) j -> created n' j) ->
  (forall j, created (notify s) j -> ready (notify s) j = true -> ready n' j = true) ->
  (forall id, waits_on p' = Some id -> created n' id) ->
  (forall id, p' = WaitAwait id -> cancelled_flag s = false) ->
  inv {| shared := {| cancelled_flag := cancelled_flag s; notify := n' |};
         threads := <[i := p']> ts |}.
Proof.
  intros [Hn Hu Hc Hw Hd] Hi Hp Hp' Hdone Hcm Hrm Hcr Haw. cbn in *.
  split; cbn.
  - intros j Hj. moved; [done|by eapply Hn].
  - intros j k Hj Hk. moved; try done. by eapply Hu.
  - intros j q id Hj Hq. moved; [by apply Hcr|]. eapply Hcm, Hc; done.
  - intros Hf. destruct (Hw Hf) as [[j Hj]|Hr].
    + left. exists j. rewrite list_lookup_insert_ne; [done|]. intros ->. congruence.
    + right. intros j id Hj. moved; [by specialize (Haw _ eq_refl); congruence|].
      apply Hrm; [by eapply Hc|by eapply Hr].
  - intros j Hj. moved; [by apply Hdone|by eapply Hd].
Qed.

Lemma inv_step sys sys' : inv sys -> step sys sys' -> inv sys'.
Proof.
  intros Hinv Hstep. destruct Hstep as [s ts i p s' p' Hi Hp].
  pose proof Hinv as [Hn Hu Hc Hw Hd]; cbn in *.
  destruct s as [f n]; cbn in *.
  destruct p as [| | | | |id|id| ]; cbn in Hp.
  - injection Hp as <- <-. split; cbn.
    + done.
    + intros j k Hj Hk. moved; try done; try (by eapply Hu);
        (destruct f; [done|]); by specialize (Hn _ ltac:(eassumption)).
    + intros j q id Hj Hq. moved; [by destruct f|by eapply Hc].
    + intros _. destruct f.
      * destruct (Hw eq_refl) as [[j Hj]|Hr].
        -- left. exists j. rewrite list_lookup_insert_ne; [done|]. intros ->. congruence.
        -- right. intros j id Hj. moved; [done|by eapply Hr].
      * left. exists i. apply list_lookup_insert_eq. by eapply lookup_lt_Some.
    + done.
  - injection Hp as <- <-. split; cbn.
    + intros j Hj. moved; [done|by eapply Hn].
    + intros j k Hj Hk. moved; try done. by eapply Hu.
    + intros j q id Hj Hq. moved; [done|]. eapply created_notify, Hc; done.
    + intros _. right. intros j id Hj. moved; [done|]. by eapply ready_notify, Hc.
    + intros j Hj. moved; [done|by eapply Hd].
  - done.
  - injection Hp as <- <-.
    eapply (inv_step_wait {| cancelled_flag := f; notify := n |} n);
      try done; unfold token_is_cancelled; cbn; destruct f; by try intros.
  - destruct (notified n) as [id n'] eqn:Hnt. injection Hp as <- <-.
    pose proof (created_mono n) as Hm. pose proof (ready_mono n) as Hrm.
    pose proof (created_notified n) as Hcn. rewrite Hnt in *. cbn in *.
    eapply (inv_step_wait {| cancelled_flag := f; notify := n |} n'); try done.
    by intros ? [= <-].
  - injection Hp as <- <-.
    eapply (inv_step_wait {| cancelled_flag := f; notify := n |} n);
      try done; unfold token_is_cancelled; cbn; destruct f; try done;
      intros ? [= <-]; by eapply Hc.
  - destruct (ready n id); [|done]. injection Hp as <- <-.
    by eapply (inv_step_wait {| cancelled_flag := f; notify := n |} n).
  - done.
Qed.

Lemma inv_reachable sys : reachable sys -> inv sys.
Proof.
  intros (s0 & Hi & Hr). apply inv_initial in Hi.
  induction Hr as [|x y z Hxy _ IH]; [done|]. apply IH. by eapply inv_step.
Qed.

(** A waiter in a cancelled, notified system finishes in three of its own steps. *)
Lemma run_waiter_done s p :
  cancelled_flag s = true ->
  p = WaitEntry \/ p = WaitSubscribe \/ p = WaitDone \/
    (exists id, p = WaitCheck id \/ p = WaitAwait id /\ ready (notify s) id = true) ->
  snd (run_waiter 3 s p) = WaitDone.
Proof.
  intros Hf Hp.
  destruct Hp as [->|[->|[->|(id & [->|[-> Hr]])]]]; cbn; unfold token_is_cancelled;
    rewrite ?Hf, ?Hr; cbn; try done;
    destruct (notified (notify s)); cbn; unfold token_is_cancelled; cbn; by rewrite ?Hf.
Qed.

(** ** The latch a token promises to be

    A flag that is set once and for all, atomically; a wait returns only when it
    is set. *)

Inductive party := Canceller | HasCancelled | Waiter | HasReturned.

Record latch := { latch_set : bool; parties : list party }.

Inductive latch_step : latch -> latch -> Prop :=
| latch_cancel b ps i :
    ps !! i = Some Canceller ->
    latch_step {| latch_set := b; parties := ps |}
      {| latch_set := true; parties := <[i := HasCancelled]> ps |}
| latch_return ps i :
    ps !! i = Some Waiter ->
    latch_step {| latch_set := true; parties := ps |}
      {| latch_set := true; parties := <[i := HasReturned]> ps |}.

Definition party_of (p : pc) : party :=
  match p with
  | CancelSwap => Canceller
  | CancelNotify | CancelDone => HasCancelled
  | WaitEntry | WaitSubscribe | WaitCheck _ | WaitAwait _ => Waiter
  | WaitDone => HasReturned
  end.

Definition latch_of (sys : system) : latch :=
  {| latch_set := cancelled_flag (shared sys); parties := party_of <$> threads sys |}.

(** A move that leaves flag and role alone is a stutter. *)
Lemma party_stutter (ts : list pc) i p p' :
  ts !! i = Some p -> party_of p' = party_of p ->
  party_of <$> <[i := p']> ts = party_of <$> ts.
Proof.
  intros Hi Hp. rewrite list_fmap_insert, Hp. apply list_insert_id. by rewrite list_lookup_fmap, Hi.
Qed.

Lemma latch_simulation sys sys' :
  step sys sys' -> latch_of sys' = latch_of sys \/ latch_step (latch_of sys) (latch_of sys').
Proof.
  intros [s ts i p s' p' Hi Hp]. unfold latch_of. cbn.
  assert ((party_of <$> ts) !! i = Some (party_of p)) as Ha by by rewrite list_lookup_fmap, Hi.
  destruct p as [| | | | |id|id| ]; cbn in Hp; unfold token_is_cancelled in Hp;
    try (destruct (notified _)); try (destruct (ready _ _)); simplify_eq; cbn.
  - right. rewrite list_fmap_insert. destruct (cancelled_flag s); by apply latch_cancel.
  - left. by rewrite (party_stutter _ _ _ _ Hi).
  - destruct (cancelled_flag s') eqn:Hf; [right|left; by rewrite (party_stutter _ _ _ _ Hi)].
    rewrite list_fmap_insert. by apply latch_return.
  - left. by rewrite (party_stutter _ _ _ _ Hi).
  - destruct (cancelled_flag s') eqn:Hf; [right|left; by rewrite (party_stutter _ _ _ _ Hi)].
    rewrite list_fmap_insert. by apply latch_return.
  - left. by rewrite (party_stutter _ _ _ _ Hi).
Qed.

Lemma latch_simulation_rtc sys sys' :
  rtc step sys sys' -> rtc latch_step (latch_of sys) (latch_of sys').
Proof.
  induction 1 as [|x y z Hxy _ IH]; [apply rtc_refl|].
  destruct (latch_simulation _ _ Hxy) as [<-|Hl]; [done|by eapply rtc_l].
Qed.

End Token.

(** ** Properties *)

Section Properties.
Context {N_ : Type} {L : NotifyLib N_}.

(** C17: a token refines a latch.  Every interleaving of the accesses of any number of
    [cancel] and [cancelled()] calls looks, call by call, like a run of the latch in
    which a cancellation is one atomic step and a wait returns only afterwards: the
    flag is the latch's, and each call has finished only when its step was taken. *)
Theorem token_refines_latch sys0 sys :
  initial sys0 -> rtc step sys0 sys ->
  latch_set (latch_of sys0) = false /\
  rtc latch_step (latch_of sys0) (latch_of sys) /\
  (forall sys', step sys sys' ->
     latch_of sys' = latch_of sys \/ latch_step (latch_of sys) (latch_of sys')) /\
  latch_set (latch_of sys) = token_is_cancelled (shared sys).
Proof.
  intros [Hf _] Hr. split_and!; [done|by apply latch_simulation_rtc|apply latch_simulation|done].
Qed.

(** C16: no wake-up is lost.  In every reachable interleaving in which the token
    has been cancelled and no [cancel] call still owes its notification, each waiter,
    run alone, returns from [cancelled()] within three accesses. *)
Theorem cancelled_no_lost_wakeup sys i p :
  reachable sys ->
  cancelled_flag (shared sys) = true ->
  (forall j, threads sys !! j <> Some CancelNotify) ->
  threads sys !! i = Some p ->
  p = CancelSwap \/ p = CancelDone \/ snd (run_waiter 3 (shared sys) p) = WaitDone.
Proof.
  intros Hr Hf Hno Hi. destruct (inv_reachable _ Hr) as [_ _ _ Hw _].
  destruct (Hw Hf) as [[j Hj]|Hwoken]; [by destruct (Hno j)|].
  destruct p; auto; try by destruct (Hno i).
  all: right; right; apply run_waiter_done; eauto 8.
Qed.

(** [cancelled()] returns only after a cancellation, and of all the calls of
    [cancel] on one token at most one ever notifies. *)
Lemma cancelled_only_after_cancel sys :
  reachable sys ->
  (forall i, threads sys !! i = Some WaitDone -> cancelled_flag (shared sys) = true) /\
  (forall i j, threads sys !! i = Some CancelNotify -> threads sys !! j = Some CancelNotify ->
     i = j).
Proof. intros Hr. by destruct (inv_reachable _ Hr). Qed.

End Properties.

(** ** A concrete [Notify]: the number of futures created so far and, for each,
    whether it was woken. *)

#[local] Instance woken_list_notify : NotifyLib (list bool).
Proof.
  refine {|
    notified n := (N.of_nat (length n), n ++ [false]);
    notify_waiters n := (fun _ => true) <$> n;
    ready n i := default false (n !! N.to_nat i);
    created n i := (N.to_nat i < length n)
  |}.
  - intros n. cbn. rewrite length_app, Nat2N.id. cbn. lia.
  - intros n i H. cbn. rewrite length_app. lia.
  - intros n i H. by rewrite length_fmap.
  - intros n i H. rewrite list_lookup_fmap.
    destruct (lookup_lt_is_Some_2 n (N.to_nat i) H) as [b ->]. done.
  - intros n i H Hr. cbn. by rewrite lookup_app_l.
Defined.

(** One canceller and one waiter, the waiter subscribed before the swap. *)
Definition demo_system : system (N_ := list bool) :=
  {| shared := {| cancelled_flag := true; notify := [true] |};
     threads := [CancelDone; WaitAwait 0%N] |}.

Lemma demo_reachable : reachable demo_system.
Proof.
  exists {| shared := CancellationToken_new []; threads := [CancelSwap; WaitEntry] |}.
  split; [split; [done|constructor; [by left|constructor; [by right|constructor]]]|].
  eapply rtc_l; [by apply (step_thread _ _ 1 WaitEntry)|].
  eapply rtc_l; [by apply (step_thread _ _ 1 WaitSubscribe)|].
  eapply rtc_l; [by apply (step_thread _ _ 1 (WaitCheck 0))|].
  eapply rtc_l; [by apply (step_thread _ _ 0 CancelSwap)|].
  eapply rtc_l; [by apply (step_thread _ _ 0 CancelNotify)|].
  apply rtc_refl.
Qed.

Lemma cancelled_no_lost_wakeup_witness :
  reachable demo_system /\ snd (run_waiter 3 (shared demo_system) (WaitAwait 0)) = WaitDone.
Proof.
  split; [exact demo_reachable|].
  destruct (cancelled_no_lost_wakeup demo_system 1 (WaitAwait 0) demo_reachable eq_refl)
    as [H|[H|H]].
  - intros [|[|j]]; discriminate.
  - reflexivity.
  - discriminate H.
  - discriminate H.
  - exact H.
Defined.

Lemma cancelled_only_after_cancel_witness :
  reachable demo_system /\
  forall i, threads demo_system !! i = Some WaitDone -> cancelled_flag (shared demo_system) = true.
Proof.
  split; [exact demo_reachable|].
  exact (proj1 (cancelled_only_after_cancel demo_system demo_reachable)).
Defined.

(** The same system, before anything happened. *)
Definition demo_start : system (N_ := list bool) :=
  {| shared := CancellationToken_new []; threads := [CancelSwap; WaitEntry] |}.

Lemma token_refines_latch_witness :
  initial demo_start /\
  rtc latch_step (latch_of demo_start)
    {| latch_set := true; parties := [HasCancelled; Waiter] |}.
Proof.
  assert (initial demo_start) as Hi
    by (split; [done|constructor; [by left|constructor; [by right|constructor]]]).
  split; [exact Hi|].
  refine (proj1 (proj2 (token_refines_latch demo_start demo_system Hi _))).
  eapply rtc_l; [by apply (step_thread _ _ 1 WaitEntry)|].
  eapply rtc_l; [by apply (step_thread _ _ 1 WaitSubscribe)|].
  eapply rtc_l; [by apply (step_thread _ _ 1 (WaitCheck 0))|].
  eapply rtc_l; [by apply (step_thread _ _ 0 CancelSwap)|].
  eapply rtc_l; [by apply (step_thread _ _ 0 CancelNotify)|].
  apply rtc_refl.
Defined.
