(* ===== verification/Glob.v ===== *)
(** * Glob: the wildcard matcher of host patterns ([glob_match] of
    [src/core/host_key.rs]) and the language it decides. *)

From S2P Require Export Prelude.

Definition STAR : N := 42.
Definition QUESTION : N := 63.

(** ** The dynamic program

    The table is a [Vec<Vec<bool>>]; an access out of range, which would panic,
    is [None]. *)

Abbreviation table := (list (list bool)) (only parsing).

Definition table_get (t : table) (row column : nat) : option bool :=
  r ← t !! row; r !! column.

Definition table_set (t : table) (row column : nat) : option table :=
  r ← t !! row;
  if decide (column < length r) then Some (<[row := <[column := true]> r]> t) else None.

(** [*character == '?' || *character == candidate[column]]. *)
Definition char_matches (character : N) (candidate : list N) (column : nat) : option bool :=
  if (character =? QUESTION)%N then Some true
  else c ← candidate !! column; Some (character =? c)%N.

(** The body of the inner loop at one column. *)
Definition glob_cell (character : N) (candidate : list N) (row column : nat) (t : table)
  : option table :=
  cell ← table_get t row column;
  if negb cell then Some t
  else if (character =? STAR)%N then
    t1 ← table_set t (row + 1) column;
    if column <? length candidate then table_set t1 row (column + 1) else Some t1
  else if column <? length candidate then
    m ← char_matches character candidate column;
    if (m : bool) then table_set t (row + 1) (column + 1) else Some t
  else Some t.

Fixpoint glob_columns (character : N) (candidate : list N) (row : nat) (columns : list nat)
    (t : table) : option table :=
  match columns with
  | [] => Some t
  | column :: rest =>
      t' ← glob_cell character candidate row column t;
      glob_columns character candidate row rest t'
  end.

Fixpoint glob_rows (pattern candidate : list N) (row : nat) (t : table) : option table :=
  match pattern with
  | [] => Some t
  | character :: rest =>
      t' ← glob_columns character candidate row (seq 0 (length candidate + 1)) t;
      glob_rows rest candidate (row + 1) t'
  end.

(** [glob_match] on characters; [None] would be an out-of-bounds panic. *)
Definition glob_match_chars (pattern candidate : list N) : option bool :=
  let blank := replicate (length pattern + 1) (replicate (length candidate + 1) false) in
  t0 ← table_set blank 0 0;
  t ← glob_rows pattern candidate 0 t0;
  table_get t (length pattern) (length candidate).

(** [glob_match]. *)
Definition glob_match (pattern candidate : string) : bool :=
  default false (glob_match_chars (chars pattern) (chars candidate)).

(** ** The language of a pattern *)

Inductive glob : list N -> list N -> Prop :=
| glob_nil : glob [] []
| glob_star_skip p s : glob p s -> glob (STAR :: p) s
| glob_star_take p c s : glob (STAR :: p) s -> glob (STAR :: p) (c :: s)
| glob_any p c s : glob p s -> glob (QUESTION :: p) (c :: s)
| glob_char p c s : c <> STAR -> glob p s -> glob (c :: p) (c :: s).

(** ** Concatenation *)

Lemma glob_app p1 p2 s1 s2 : glob p1 s1 -> glob p2 s2 -> glob (p1 ++ p2) (s1 ++ s2).
Proof. induction 1; cbn; intros; try by constructor; auto. done. Qed.

Lemma glob_app_inv p1 p2 s :
  glob (p1 ++ p2) s -> exists s1 s2, s = s1 ++ s2 /\ glob p1 s1 /\ glob p2 s2.
Proof.
  revert s. induction p1 as [|x p1 IH]; intros s H.
  - exists [], s. split; [done|]. split; [constructor|done].
  - cbn in H. remember (x :: p1 ++ p2) as q eqn:Hq. revert Hq.
    induction H; intros [= Hx Hp]; subst.
    + destruct (IH _ H) as (s1 & s2 & -> & ? & ?).
      exists s1, s2. split; [done|]. split; [by constructor|done].
    + destruct (IHglob eq_refl) as (s1 & s2 & -> & ? & ?).
      exists (c :: s1), s2. split; [done|]. split; [by constructor|done].
    + destruct (IH _ H) as (s1 & s2 & -> & ? & ?).
      exists (c :: s1), s2. split; [done|]. split; [by constructor|done].
    + destruct (IH _ H0) as (s1 & s2 & -> & ? & ?).
      exists (x :: s1), s2. split; [done|]. split; [by constructor|done].
Qed.

Lemma glob_nil_l s : glob [] s <-> s = [].
Proof. split; [by inversion 1|intros ->; constructor]. Qed.

Lemma glob_star s : glob [STAR] s.
Proof. induction s; constructor; [constructor|done]. Qed.

(** A pattern that is one wildcard-free or [?] character. *)
Definition char_ok (x c : N) : bool := ((x =? QUESTION) || (x =? c))%N.

Lemma glob_single x s : x <> STAR -> glob [x] s <-> exists c, s = [c] /\ char_ok x c = true.
Proof.
  intros Hx. unfold char_ok. split.
  - inversion 1; subst; try done;
      match goal with H : glob [] _ |- _ => apply glob_nil_l in H as -> end;
      eexists; (split; [done|]); rewrite ?N.eqb_refl; try done; apply orb_true_r.
  - intros (c & -> & H%orb_true_iff). rewrite !N.eqb_eq in H.
    destruct H as [->| ->]; [apply glob_any|apply glob_char; [done|]]; constructor.
Qed.

(** Extending the pattern by one character, in terms of prefixes of the candidate. *)
Lemma glob_snoc_star p s :
  glob (p ++ [STAR]) s <-> exists k, k <= length s /\ glob p (take k s).
Proof.
  split.
  - intros (s1 & s2 & -> & H & _)%glob_app_inv. exists (length s1).
    rewrite length_app, take_app_length. split; [lia|done].
  - intros (k & _ & H). rewrite <-(take_drop k s). apply glob_app; [done|apply glob_star].
Qed.

Lemma glob_snoc_char p x s :
  x <> STAR ->
  glob (p ++ [x]) s <-> exists s' c, s = s' ++ [c] /\ glob p s' /\ char_ok x c = true.
Proof.
  intros Hx. split.
  - intros (s1 & s2 & -> & H & (c & -> & Hc)%glob_single)%glob_app_inv; [|done]. eauto.
  - intros (s' & c & -> & H & Hc). apply glob_app; [done|]. apply glob_single; eauto.
Qed.

(** Every string of characters matches itself. *)
Lemma glob_refl s : glob s s.
Proof.
  induction s as [|c s IH]; [constructor|].
  destruct (decide (c = STAR)) as [->|Hc]; [by constructor; constructor|by constructor].
Qed.

(** A pattern without wildcards matches only itself. *)
Definition plain (p : list N) : Prop := Forall (fun c => c <> STAR /\ c <> QUESTION) p.

Lemma glob_plain p s : plain p -> glob p s <-> s = p.
Proof.
  intros Hp. split; [|intros ->; apply glob_refl].
  intros H. revert Hp. induction H as [|p s H IH|p c s H IH|p c s H IH|p c s Hc H IH];
    unfold plain; intros Hp; [done|apply Forall_cons_1 in Hp as [[? ?] Hp]..]; try done.
  by rewrite IH.
Qed.

(** ** Tables *)

Section Tables.
Context (rows cols : nat).

(** A table of [rows] rows of [cols] cells. *)
Definition shaped (t : table) : Prop :=
  length t = rows /\ Forall (fun r => length r = cols) t.

(** Cell contents as a function. *)
Definition cell_is (t : table) (row column : nat) (b : bool) : Prop :=
  table_get t row column = Some b.

Lemma shaped_get t row column :
  shaped t -> row < rows -> column < cols -> exists b, cell_is t row column b.
Proof.
  intros [Hl Hf] Hr Hc. unfold cell_is, table_get.
  destruct (lookup_lt_is_Some_2 t row) as [r Hrow]; [lia|]. rewrite Hrow. cbn.
  assert (length r = cols) by (by eapply Forall_lookup_1 in Hf).
  destruct (lookup_lt_is_Some_2 r column) as [b Hb]; [lia|]. eauto.
Qed.

Lemma shaped_set t row column :
  shaped t -> row < rows -> column < cols ->
  exists t', table_set t row column = Some t' /\ shaped t' /\
    forall r c, table_get t' r c =
      if decide (r = row /\ c = column) then Some true else table_get t r c.
Proof.
  intros [Hl Hf] Hr Hc. unfold table_set.
  destruct (lookup_lt_is_Some_2 t row) as [l Hrow]; [lia|]. rewrite Hrow. cbn.
  assert (length l = cols) as Hlen by (by eapply Forall_lookup_1 in Hf).
  rewrite decide_True by lia. eexists; split; [done|]. split_and!.
  - split; [by rewrite length_insert|]. apply Forall_insert; [done|]. by rewrite length_insert.
  - intros r c. unfold table_get. case_decide as Hd.
    + destruct Hd as [-> ->]. rewrite list_lookup_insert_eq by lia. cbn.
      by rewrite list_lookup_insert_eq by lia.
    + destruct (decide (r = row)) as [->|Hrne].
      * rewrite list_lookup_insert_eq by lia. rewrite Hrow. cbn.
        rewrite list_lookup_insert_ne; [done|naive_solver].
      * by rewrite list_lookup_insert_ne by done.
Qed.

Lemma shaped_blank : shaped (replicate rows (replicate cols false)).
Proof.
  split; [apply length_replicate|]. apply Forall_replicate. apply length_replicate.
Qed.

Lemma blank_get row column :
  row < rows -> column < cols -> cell_is (replicate rows (replicate cols false)) row column false.
Proof.
  intros Hr Hc. unfold cell_is, table_get.
  rewrite lookup_replicate_2 by done. cbn. by rewrite lookup_replicate_2.
Qed.

End Tables.

(** ** The loops *)

(** The row below a row [R], read off the candidate. *)
Definition closure (R : nat -> bool) (c : nat) : bool := existsb R (seq 0 (S c)).

Definition next_row (x : N) (cand : list N) (R : nat -> bool) (c : nat) : bool :=
  if (x =? STAR)%N then closure R c
  else match c with
       | 0 => false
       | S c0 => R c0 && match cand !! c0 with Some y => char_ok x y | None => false end
       end.

#[local] Arguments closure : simpl never.
#[local] Arguments Nat.ltb : simpl never.

Lemma closure_S R c : closure R (S c) = closure R c || R (S c).
Proof.
  unfold closure. rewrite (seq_S (S c)). rewrite existsb_app. cbn [existsb].
  by rewrite orb_false_r.
Qed.

Lemma closure_true R c : closure R c = true <-> exists c', c' <= c /\ R c' = true.
Proof.
  unfold closure. rewrite existsb_exists. split.
  - intros (c' & Hin%in_seq & HR). exists c'. split; [lia|done].
  - intros (c' & Hle & HR). exists c'. split; [apply in_seq; lia|done].
Qed.

Section Loops.
Context (x : N) (cand : list N) (row rows : nat) (Hrow : row + 1 < rows).
Let cols := length cand + 1.
Context (R : nat -> bool).

(** The state of the inner loop when the columns below [j] are done. *)
Record row_state (j : nat) (t : table) : Prop := {
  rs_shape : shaped rows cols t;
  rs_here : forall c, c < cols -> table_get t row c =
    Some (if decide (x = STAR /\ c <= j) then closure R c else R c);
  rs_next : forall c, c < cols -> table_get t (row + 1) c =
    Some (if decide (c < j \/ x <> STAR /\ c = j) then next_row x cand R c else false)
}.

Definition below_same (t t' : table) : Prop :=
  forall r c, row + 1 < r -> table_get t' r c = table_get t r c.

(** Case analysis on the positions the goal's cells are compared with. *)
Ltac cells := repeat (case_decide; destruct_and?; destruct_or?; simplify_eq);
  try done; try lia.

(** One column of a [*] row. *)
Lemma glob_cell_star j t :
  x = STAR -> j < cols -> row_state j t ->
  exists t', glob_cell x cand row j t = Some t' /\ row_state (j + 1) t' /\ below_same t t'.
Proof.
  intros Hx Hj [Hsh Hh Hn]. unfold glob_cell. rewrite (Hh j Hj), decide_True by lia. cbn.
  pose proof (closure_S R j) as HS. rewrite Hx. unfold next_row in Hn. rewrite Hx in Hn.
  cbn [N.eqb STAR Pos.eqb] in *.
  destruct (closure R j) eqn:Hcl; cbn.
  - destruct (shaped_set rows cols t (row + 1) j Hsh Hrow Hj) as (t1 & -> & Hsh1 & Hg1). cbn.
    destruct (Nat.ltb_spec j (length cand)) as [Hlt|Hge].
    + destruct (shaped_set rows cols t1 row (j + 1) Hsh1) as (t2 & -> & Hsh2 & Hg2);
        [lia|unfold cols; lia|].
      exists t2. split; [done|]. split; [split; [done|..]|].
      * intros c Hc. rewrite Hg2, Hg1, (Hh c Hc), Hx. cells. by rewrite Nat.add_1_r, HS.
      * intros c Hc. rewrite Hg2, Hg1, (Hn c Hc), Hx. unfold next_row. cells. by rewrite Hcl.
      * intros r c Hr. rewrite Hg2, Hg1. cells.
    + exists t1. split; [done|]. split; [split; [done|..]|].
      * intros c Hc. rewrite Hg1, (Hh c Hc), Hx. unfold cols in *. cells.
      * intros c Hc. rewrite Hg1, (Hn c Hc), Hx. unfold next_row. cells. by rewrite Hcl.
      * intros r c Hr. rewrite Hg1. cells.
  - exists t. split; [done|]. split; [split; [done|..]|done].
    + intros c Hc. rewrite (Hh c Hc), Hx. cells. assert (c = S j) as -> by lia. by rewrite HS.
    + intros c Hc. rewrite (Hn c Hc), Hx. unfold next_row. cells. assert (c = j) as -> by lia.
      by rewrite Hcl.
Qed.

(** One column of any other row. *)
Lemma glob_cell_char j t :
  x <> STAR -> j < cols -> row_state j t ->
  exists t', glob_cell x cand row j t = Some t' /\ row_state (j + 1) t' /\ below_same t t'.
Proof.
  intros Hx Hj [Hsh Hh Hn]. unfold glob_cell. rewrite (Hh j Hj), decide_False by tauto. cbn.
  assert ((x =? STAR)%N = false) as HxS by (by apply N.eqb_neq). rewrite HxS.
  assert (forall b, match cand !! j with Some y => char_ok x y | None => false end = b ->
    next_row x cand R (j + 1) = R j && b) as Hnext.
  { intros b <-. unfold next_row. by rewrite HxS, Nat.add_1_r. }
  assert (forall b, next_row x cand R (j + 1) = b -> b = false -> row_state (j + 1) t) as Hsame.
  { intros b Hb ->. split; [done|..]; intros c Hc; rewrite ?(Hh c Hc), ?(Hn c Hc); cells.
    assert (c = j + 1) as -> by lia. by rewrite Hb. }
  destruct (R j) eqn:HR; cbn; [|exists t; split; [done|]; split; [by eapply Hsame; [by apply Hnext|]|done]].
  destruct (Nat.ltb_spec j (length cand)) as [Hlt|Hge].
  - destruct (lookup_lt_is_Some_2 cand j Hlt) as [y Hy]. rewrite Hy in Hnext.
    assert (char_matches x cand j = Some (char_ok x y)) as ->.
    { unfold char_matches, char_ok. rewrite Hy. cbn. by destruct (x =? QUESTION)%N. }
    cbn. destruct (char_ok x y) eqn:Hok.
    + destruct (shaped_set rows cols t (row + 1) (j + 1) Hsh Hrow) as (t1 & -> & Hsh1 & Hg1);
        [unfold cols; lia|].
      exists t1. split; [done|]. split; [split; [done|..]|].
      * intros c Hc. rewrite Hg1, (Hh c Hc). cells.
      * intros c Hc. rewrite Hg1, (Hn c Hc). cells; by rewrite (Hnext true).
      * intros r c Hr. rewrite Hg1. cells.
    + exists t. split; [done|]. split; [|done]. eapply Hsame; [by apply Hnext|done].
  - exists t. split; [done|]. split; [|done].
    split; [done|..]; intros c Hc; rewrite ?(Hh c Hc), ?(Hn c Hc); unfold cols in *; cells.
Qed.

Lemma glob_columns_state k j t :
  j + k = cols -> row_state j t ->
  exists t', glob_columns x cand row (seq j k) t = Some t' /\ row_state cols t' /\ below_same t t'.
Proof.
  revert j t. induction k as [|k IH]; intros j t Hjk Hst; cbn.
  - assert (j = cols) as -> by lia. by exists t.
  - assert (exists t', glob_cell x cand row j t = Some t' /\ row_state (j + 1) t' /\ below_same t t')
      as (t1 & -> & Hst1 & Hb1).
    { destruct (decide (x = STAR)); [apply glob_cell_star|apply glob_cell_char]; done || lia. }
    cbn. rewrite Nat.add_1_r in Hst1. destruct (IH (S j) t1) as (t2 & -> & Hst2 & Hb2); [lia|done|].
    exists t2. split; [done|]. split; [done|]. intros r c Hr. by rewrite Hb2, Hb1.
Qed.

End Loops.

(** ** Correctness *)

Lemma next_row_glob x cand R p :
  (forall c, c <= length cand -> R c = true <-> glob p (take c cand)) ->
  forall c, c <= length cand -> next_row x cand R c = true <-> glob (p ++ [x]) (take c cand).
Proof.
  intros HR c Hc. unfold next_row. destruct (N.eqb_spec x STAR) as [->|Hx].
  - rewrite closure_true, glob_snoc_star. split; intros (c' & Hle & H).
    + exists c'. rewrite length_take, take_take, (Nat.min_l c') by lia. split; [lia|].
      apply HR; [lia|done].
    + rewrite length_take in Hle. rewrite take_take, (Nat.min_l c') in H by lia.
      exists c'. split; [lia|]. apply HR; [lia|done].
  - rewrite glob_snoc_char by done. destruct c as [|c].
    + split; [done|]. intros (s' & y & H & _). by destruct s'.
    + destruct (lookup_lt_is_Some_2 cand c Hc) as [y Hy].
      rewrite Hy, (take_S_r _ _ _ Hy), andb_true_iff, HR by lia. split.
      * intros [Hg Hok]. eauto.
      * intros (s' & y' & [Heq ->]%app_inj_tail & Hg & Hok). by subst.
Qed.

Lemma glob_rows_state cand rest : forall p t R,
  let rows := length p + length rest + 1 in
  let cols := length cand + 1 in
  shaped rows cols t ->
  (forall c, c < cols -> table_get t (length p) c = Some (R c)) ->
  (forall c, c <= length cand -> R c = true <-> glob p (take c cand)) ->
  (forall r c, length p < r -> r < rows -> c < cols -> table_get t r c = Some false) ->
  exists t' R', glob_rows rest cand (length p) t = Some t' /\
    table_get t' (length p + length rest) (length cand) = Some (R' (length cand)) /\
    (R' (length cand) = true <-> glob (p ++ rest) cand).
Proof.
  induction rest as [|x rest IH]; intros p t R rows cols Hsh Hrow HR Hbelow.
  - exists t, R. cbn. split; [done|]. rewrite Nat.add_0_r, app_nil_r. split; [apply Hrow; lia|].
    rewrite HR by lia. by rewrite firstn_all.
  - cbn [glob_rows]. subst rows. cbn [length] in *.
    destruct (glob_columns_state x cand (length p) (length p + S (length rest) + 1)
      ltac:(lia) R (length cand + 1) 0 t) as (t1 & Ht1 & Hst1 & Hb1); [done|..].
    { split; [done|..]; intros c Hc.
      - rewrite Hrow by done. case_decide as Hd; [|done]. destruct Hd as [_ Hd].
        assert (c = 0) as -> by lia. unfold closure. cbn. by rewrite orb_false_r.
      - rewrite Hbelow by lia. case_decide as Hd; [|done]. destruct Hd as [Hd|[Hx ->]]; [lia|].
        unfold next_row. by rewrite (proj2 (N.eqb_neq _ _) Hx). }
    rewrite Ht1. cbn [mbind option_bind].
    destruct Hst1 as [Hsh1 _ Hn1].
    destruct (IH (p ++ [x]) t1 (next_row x cand R)) as (t' & R' & Ht' & Hc' & HR').
    + rewrite length_app. cbn. by replace (length p + 1 + length rest + 1)
        with (length p + S (length rest) + 1) by lia.
    + intros c Hc. rewrite length_app. cbn. rewrite Hn1 by done. by rewrite decide_True by lia.
    + by apply next_row_glob.
    + intros r c. rewrite length_app. cbn. intros Hr Hr' Hc. rewrite Hb1 by lia.
      apply Hbelow; lia.
    + exists t', R'. rewrite length_app in Ht', Hc'. cbn in Ht', Hc'. rewrite <-app_assoc in HR'.
      split; [done|]. split; [|done].
      by replace (length p + S (length rest)) with (length p + 1 + length rest) by lia.
Qed.

Lemma glob_match_chars_total pattern candidate :
  exists b, glob_match_chars pattern candidate = Some b /\ (b = true <-> glob pattern candidate).
Proof.
  unfold glob_match_chars.
  set (rows := length pattern + 1). set (cols := length candidate + 1).
  destruct (shaped_set rows cols _ 0 0 (shaped_blank rows cols)) as (t0 & -> & Hsh0 & Hg0);
    [unfold rows; lia|unfold cols; lia|]. cbn [mbind option_bind].
  assert (forall r c, r < rows -> c < cols -> table_get t0 r c = Some (bool_decide (r = 0 /\ c = 0)))
    as Hcells.
  { intros r c Hr Hc. rewrite Hg0. case_decide as Hd; [by rewrite bool_decide_true|].
    rewrite bool_decide_false by done. by apply blank_get. }
  destruct (glob_rows_state candidate pattern [] t0 (fun c => bool_decide (c = 0)))
    as (t & R & Ht & Hc & HR).
  - done.
  - intros c Hc. cbn. rewrite Hcells by (unfold rows, cols in *; lia). f_equal.
    apply bool_decide_ext. lia.
  - intros c Hc. rewrite bool_decide_eq_true, glob_nil_l. destruct c as [|c]; [done|].
    split; [done|]. destruct candidate; [cbn in Hc; lia|done].
  - cbn. intros r c Hr Hr' Hc. rewrite Hcells by (unfold rows, cols in *; lia).
    by rewrite bool_decide_false by lia.
  - cbn in Ht, Hc, HR. rewrite Ht. cbn. rewrite Hc. by exists (R (length candidate)).
Qed.

Lemma glob_match_true pattern candidate :
  glob_match pattern candidate = true <-> glob (chars pattern) (chars candidate).
Proof.
  unfold glob_match.
  destruct (glob_match_chars_total (chars pattern) (chars candidate)) as (b & -> & Hb).
  done.
Qed.

Lemma glob_match_refl s : glob_match s s = true.
Proof. apply glob_match_true, glob_refl. Qed.

(** ** Properties *)

(** C22: the dynamic program of [glob_match] never indexes its table or the
    candidate out of bounds, and decides exactly the language of the pattern: [*] any
    run of characters, [?] any one character, every other character itself. *)
Theorem glob_match_decides pattern candidate :
  is_Some (glob_match_chars (chars pattern) (chars candidate)) /\
  (glob_match pattern candidate = true <-> glob (chars pattern) (chars candidate)).
Proof.
  split; [|apply glob_match_true].
  destruct (glob_match_chars_total (chars pattern) (chars candidate)) as (b & -> & _). eauto.
Qed.
