(* ===== verification/HostKey.v ===== *)
(** * HostKey: known_hosts data, host patterns and the two verifiers
    ([src/core/host_key.rs]). *)

From Stdlib Require Import Sorting.Sorted.
From S2P Require Export Errors Glob.

(** ** Third-party code: [ssh-key], [base64ct], [hmac]/[sha1] *)

(** [ssh_key::known_hosts::Marker]. *)
Inductive Marker := CertAuthority | MarkerRevoked.

Class SshKeys := {
  PublicKey : Type;
  (** [key.fingerprint(HashAlg::Sha256).to_string()] *)
  key_fingerprint : PublicKey -> string;
  (** [PublicKey::to_openssh]; the error is its [Display] text *)
  key_to_openssh : PublicKey -> result string string;
  (** [known_hosts::Entry] and its accessors *)
  HostsEntry : Type;
  entry_from_str : string -> result string HostsEntry;
  entry_marker : HostsEntry -> option Marker;
  entry_public_key : HostsEntry -> PublicKey;
  entry_host_patterns : HostsEntry -> string;
  (** [Base64::decode_vec] and [Base64Unpadded::decode_vec] *)
  base64_decode : string -> option (list N);
  base64_unpadded_decode : string -> option (list N);
  (** [Hmac::<Sha1>]: [new_from_slice], [update], [verify_slice] *)
  Mac : Type;
  hmac_new : list N -> option Mac;
  hmac_update : Mac -> list N -> Mac;
  hmac_verify : Mac -> list N -> bool
}.

(** *** The format of a [known_hosts] line

    As [sshd(8)] documents it and [ssh-key] reads it: an optional marker, the host
    patterns and the key, as fields separated by blanks.  The crate relies on it where it
    reads back what it has written. *)

Definition marker_field (m : option Marker) : string :=
  match m with
  | None => ""
  | Some CertAuthority => "@cert-authority "
  | Some MarkerRevoked => "@revoked "
  end.

(** A first field of printable ASCII characters that cannot be taken for a marker. *)
Definition graphic (a : ascii) : bool :=
  ((33 <=? N_of_ascii a) && (N_of_ascii a <=? 126))%N.

Definition host_field (text : string) : bool :=
  negb (str_is_empty text) && forallb graphic (list_ascii_of_string text) &&
  negb (starts_with "@" text).

(** A text that is a whole line, with nothing to trim. *)
Definition one_line (text : string) : bool :=
  negb (str_is_empty text) && negb (contains_char newline text) &&
  negb (contains_char carriage_return text) && String.eqb (trim text) text.

Class KnownHostsFormat {K : SshKeys} := {
  (** [HostPatterns::from_str], then its [to_string] *)
  reread_host_patterns : string -> option string;
  (** [PublicKey::from_openssh] *)
  key_from_openssh : string -> option PublicKey;
  (** a line is its fields *)
  entry_from_fields m hosts hosts' text key :
    host_field hosts = true -> reread_host_patterns hosts = Some hosts' ->
    key_from_openssh text = Some key ->
    exists entry, entry_from_str (marker_field m +:+ hosts +:+ " " +:+ text) = Ok entry /\
      entry_marker entry = m /\ entry_host_patterns entry = hosts' /\
      entry_public_key entry = key;
  (** a list of patterns that are not hashed is kept as it stands *)
  reread_pattern_list hosts :
    host_field hosts = true -> starts_with "|" hosts = false ->
    strip_suffix_char "," hosts = None -> reread_host_patterns hosts = Some hosts;
  (** a key is read back from its OpenSSH text *)
  key_from_to_openssh key text :
    key_to_openssh key = Ok text -> one_line text = true -> key_from_openssh text = Some key
}.

(** The value of a call that may panic. *)
Inductive or_panic (T : Type) :=
| Returned (x : T)
| Panicked.
Arguments Returned {T} x.
Arguments Panicked {T}.

Section HostKeys.
Context {K : SshKeys}.

(** [fingerprint_sha256]. *)
Definition fingerprint_sha256 (key : PublicKey) : string := key_fingerprint key.

(** [HostKeyObservation::new]. *)
Definition HostKeyObservation_new (host : string) (port : N) (key : PublicKey)
    (d : HostKeyDecision) : HostKeyObservation :=
  {| hko_host := host; hko_port := port; decision := d;
     presented_fingerprint := fingerprint_sha256 key;
     expected_fingerprints := []; matched_lines := [] |}.

(** [KnownHostMarker]. *)
Inductive KnownHostMarker := CertificateAuthority | RevokedMarker.

(** [KnownHostEntry]. *)
Record KnownHostEntry := {
  host_patterns : string;
  marker : option KnownHostMarker;
  fingerprint : string;
  public_key : string;
  line : N
}.

(** [KnownHostEntry::public_key], the accessor. *)
Definition entry_public_key_text (e : KnownHostEntry) : option string :=
  if str_is_empty (public_key e) then None else Some (public_key e).

(** [KnownHostEntry::to_line]. *)
Definition marker_text (m : option KnownHostMarker) : string :=
  match m with
  | Some CertificateAuthority => "@cert-authority "
  | Some RevokedMarker => "@revoked "
  | None => ""
  end.

Definition to_line (e : KnownHostEntry) : option string :=
  if str_is_empty (public_key e) then None
  else Some (marker_text (marker e) +:+ host_patterns e +:+ " " +:+ public_key e).

(** [KnownHosts]. *)
Record KnownHosts := { entries : list KnownHostEntry }.

Definition KnownHosts_new : KnownHosts := {| entries := [] |}.

(** One iteration of [KnownHosts::parse]; [None] is a blank or comment line. *)
Definition parse_line (line_number : N) (raw_line : string)
  : result SshError (option KnownHostEntry) :=
  let text := trim (match split_once "#" raw_line with
                    | Some (content, _) => content
                    | None => raw_line
                    end) in
  if str_is_empty text then Ok None
  else
    entry ← map_err (fun error =>
      SshError.with_path ("known_hosts:" +:+ show line_number)
        (SshError.configuration
           ("invalid known_hosts entry on line " +:+ show line_number +:+ ": " +:+ error)))
      (entry_from_str text);
    let m := match entry_marker entry with
             | Some CertAuthority => Some CertificateAuthority
             | Some MarkerRevoked => Some RevokedMarker
             | None => None
             end in
    pk ← map_err (fun error =>
      SshError.with_path ("known_hosts:" +:+ show line_number)
        (SshError.configuration
           ("invalid known_hosts public key on line " +:+ show line_number +:+ ": " +:+ error)))
      (key_to_openssh (entry_public_key entry));
    Ok (Some {| host_patterns := entry_host_patterns entry; marker := m;
                fingerprint := fingerprint_sha256 (entry_public_key entry);
                public_key := pk; line := line_number |}).

Fixpoint parse_lines (line_index : N) (ls : list string)
  : result SshError (list KnownHostEntry) :=
  match ls with
  | [] => Ok []
  | raw_line :: rest =>
      e ← parse_line (line_index + 1) raw_line;
      es ← parse_lines (line_index + 1) rest;
      Ok (match e with Some e => e :: es | None => es end)
  end.

(** [KnownHosts::parse]. *)
Definition parse (input : string) : result SshError KnownHosts :=
  es ← parse_lines 0 (lines input); Ok {| entries := es |}.

(** [KnownHosts::read_file], given what reading the file returned. *)
Definition read_file (path : string) (read_to_string : result string string)
  : result SshError KnownHosts :=
  input ← map_err (fun error =>
    SshError.with_path path
      (SshError.configuration ("failed to read known_hosts: " +:+ error))) read_to_string;
  map_err (SshError.with_path path) (parse input).

(** [host_token]. *)
Definition unbracket (host : string) : string :=
  match strip_prefix "[" host with
  | Some h => match strip_suffix_char "]" h with Some h' => h' | None => host end
  | None => host
  end.

Definition host_token (host : string) (port : N) : string :=
  let host := unbracket host in
  if (port =? 22)%N then host else "[" +:+ host +:+ "]:" +:+ show port.

(** [KnownHosts::push_key]. *)
Definition push_key (h : KnownHosts) (host : string) (port : N) (key : PublicKey)
  : or_panic KnownHosts :=
  match key_to_openssh key with
  | Ok pk => Returned {| entries := entries h ++
      [{| host_patterns := host_token host port; marker := None;
          fingerprint := fingerprint_sha256 key; public_key := pk; line := 0 |}] |}
  | Err _ => Panicked
  end.

(** [KnownHosts::replace_entry]: [retain], then [push]. *)
Definition retained (entry existing : KnownHostEntry) : bool :=
  match marker existing with
  | Some _ => true
  | None => negb (String.eqb (host_patterns existing) (host_patterns entry))
  end.

Definition replace_entry (h : KnownHosts) (entry : KnownHostEntry) : KnownHosts :=
  {| entries := List.filter (retained entry) (entries h) ++ [entry] |}.

(** [KnownHosts::to_openssh]. *)
Definition to_openssh (h : KnownHosts) : string :=
  let ls := omap to_line (entries h) in
  match ls with
  | [] => ""
  | _ => join (String newline "") ls +:+ String newline ""
  end.

(** ** Host patterns *)

(** [decode_base64]. *)
Definition decode_base64 (value : string) : option (list N) :=
  match base64_decode value with
  | Some bytes => Some bytes
  | None => base64_unpadded_decode value
  end.

(** [single_host_pattern_matches]. *)
Definition single_host_pattern_matches (pattern candidate : string) : bool :=
  match strip_prefix "|1|" pattern with
  | None => glob_match pattern candidate
  | Some hashed =>
      match split_once "|" hashed with
      | None => false
      | Some (salt, expected) =>
          match decode_base64 salt, decode_base64 expected with
          | Some salt, Some expected =>
              match hmac_new salt with
              | None => false
              | Some mac => hmac_verify (hmac_update mac (bytes_of_string candidate)) expected
              end
          | _, _ => false
          end
      end
  end.

(** The loop of [host_patterns_match]; [positive] is its accumulator. *)
Fixpoint patterns_loop (candidate : string) (positive : bool) (patterns : list string) : bool :=
  match patterns with
  | [] => positive
  | pattern :: rest =>
      if str_is_empty pattern then patterns_loop candidate positive rest
      else
        let '(negative, pattern) :=
          match strip_prefix "!" pattern with
          | Some p => (true, p)
          | None => (false, pattern)
          end in
        if single_host_pattern_matches pattern candidate then
          if (negative : bool) then false else patterns_loop candidate true rest
        else patterns_loop candidate positive rest
  end.

(** [host_patterns_match]. *)
Definition host_patterns_match (patterns host : string) (port : N) : bool :=
  patterns_loop (host_token host port) false (split_char "," patterns).


(** ** The strict verifier *)

(** [KnownHostKeyVerifier]. *)
Record KnownHostKeyVerifier := { known_hosts : KnownHosts }.

Definition KnownHostKeyVerifier_new : KnownHostKeyVerifier :=
  {| known_hosts := KnownHosts_new |}.

Definition from_known_hosts (input : string) : result SshError KnownHostKeyVerifier :=
  h ← parse input; Ok {| known_hosts := h |}.

Definition from_path (path : string) (read_to_string : result string string)
  : result SshError KnownHostKeyVerifier :=
  h ← read_file path read_to_string; Ok {| known_hosts := h |}.

(** [KnownHostKeyVerifier::insert], by fingerprint only. *)
Definition insert (v : KnownHostKeyVerifier) (host : string) (port : N) (fp : string)
  : KnownHostKeyVerifier :=
  {| known_hosts := replace_entry (known_hosts v)
       {| host_patterns := host_token host port; marker := None;
          fingerprint := fp; public_key := ""; line := 0 |} |}.

(** [KnownHostKeyVerifier::insert_key]. *)
Definition insert_key (v : KnownHostKeyVerifier) (host : string) (port : N) (key : PublicKey)
  : or_panic KnownHostKeyVerifier :=
  match key_to_openssh key with
  | Ok pk => Returned {| known_hosts := replace_entry (known_hosts v)
      {| host_patterns := host_token host port; marker := None;
         fingerprint := fingerprint_sha256 key; public_key := pk; line := 0 |} |}
  | Err _ => Panicked
  end.

(** [KnownHostKeyVerifier::accept_key]. *)
Definition accept_key (v : KnownHostKeyVerifier) (host : string) (port : N) (key : PublicKey)
  : or_panic KnownHostKeyVerifier :=
  match push_key (known_hosts v) host port key with
  | Returned h => Returned {| known_hosts := h |}
  | Panicked => Panicked
  end.

(** [KnownHostKeyVerifier::expected_fingerprint]. *)
Definition unmarked_match (host : string) (port : N) (e : KnownHostEntry) : bool :=
  match marker e with
  | None => host_patterns_match (host_patterns e) host port
  | Some _ => false
  end.

Definition expected_fingerprint (v : KnownHostKeyVerifier) (host : string) (port : N)
  : option string :=
  fingerprint <$> List.find (unmarked_match host port) (entries (known_hosts v)).

(** The locals of the loop of [KnownHostKeyVerifier::check]. *)
Record check_state := {
  observation : HostKeyObservation;
  has_expected_key : bool;
  trusted : bool
}.

Definition push_line (n : N) (o : HostKeyObservation) : HostKeyObservation :=
  {| hko_host := hko_host o; hko_port := hko_port o; decision := decision o;
     presented_fingerprint := presented_fingerprint o;
     expected_fingerprints := expected_fingerprints o;
     matched_lines := matched_lines o ++ [n] |}.

Definition push_expected (fp : string) (o : HostKeyObservation) : HostKeyObservation :=
  {| hko_host := hko_host o; hko_port := hko_port o; decision := decision o;
     presented_fingerprint := presented_fingerprint o;
     expected_fingerprints := expected_fingerprints o ++ [fp];
     matched_lines := matched_lines o |}.

Definition set_decision (d : HostKeyDecision) (o : HostKeyObservation) : HostKeyObservation :=
  {| hko_host := hko_host o; hko_port := hko_port o; decision := d;
     presented_fingerprint := presented_fingerprint o;
     expected_fingerprints := expected_fingerprints o;
     matched_lines := matched_lines o |}.

(** The loop body. *)
Definition check_entry (host : string) (port : N) (presented : string)
    (st : check_state) (entry : KnownHostEntry) : check_state :=
  if negb (host_patterns_match (host_patterns entry) host port) then st
  else
    let obs := if (line entry =? 0)%N then observation st
               else push_line (line entry) (observation st) in
    match marker entry with
    | Some RevokedMarker =>
        let obs := push_expected (fingerprint entry) obs in
        {| observation := if String.eqb (fingerprint entry) presented
                          then set_decision Revoked obs else obs;
           has_expected_key := true; trusted := trusted st |}
    | Some CertificateAuthority =>
        {| observation := obs; has_expected_key := has_expected_key st;
           trusted := trusted st |}
    | None =>
        {| observation := push_expected (fingerprint entry) obs;
           has_expected_key := true;
           trusted := if String.eqb (fingerprint entry) presented then true else trusted st |}
    end.

(** [KnownHostKeyVerifier::check]; it never fails. *)
Definition check_known (v : KnownHostKeyVerifier) (host : string) (port : N) (key : PublicKey)
  : HostKeyObservation :=
  let presented := fingerprint_sha256 key in
  let st := foldl (check_entry host port presented)
              {| observation := HostKeyObservation_new host port key Unknown;
                 has_expected_key := false; trusted := false |}
              (entries (known_hosts v)) in
  let obs := observation st in
  match decision obs with
  | Revoked => obs
  | _ => set_decision
           (if trusted st then Trusted
            else if has_expected_key st then Changed else Unknown) obs
  end.

(** ** The verifier interface *)

(** [trait HostKeyVerifier]: [&self] methods over a state with interior
    mutability. *)
Class HostKeyVerifier (V : Type) := {
  verify : V -> string -> N -> PublicKey -> V * or_panic (result SshError HostKeyDecision);
  check : V -> string -> N -> PublicKey -> V * or_panic (result SshError HostKeyObservation)
}.

(** The provided method [check] of the trait. *)
Definition default_check {V}
    (verify : V -> string -> N -> PublicKey -> V * or_panic (result SshError HostKeyDecision))
    (v : V) (host : string) (port : N) (key : PublicKey)
  : V * or_panic (result SshError HostKeyObservation) :=
  let '(v', r) := verify v host port key in
  (v', match r with
       | Returned (Ok d) => Returned (Ok (HostKeyObservation_new host port key d))
       | Returned (Err e) => Returned (Err e)
       | Panicked => Panicked
       end).

#[export] Instance known_host_key_verifier : HostKeyVerifier KnownHostKeyVerifier := {
  verify v host port key := (v, Returned (Ok (decision (check_known v host port key))));
  check v host port key := (v, Returned (Ok (check_known v host port key)))
}.

(** ** Trust on first use *)

(** [TofuHostKeyVerifier]: the value behind its [RwLock] and the lock's poison flag. *)
Record TofuHostKeyVerifier := { inner : KnownHostKeyVerifier; poisoned : bool }.

Definition TofuHostKeyVerifier_new (v : KnownHostKeyVerifier) : TofuHostKeyVerifier :=
  {| inner := v; poisoned := false |}.

(** [Default for TofuHostKeyVerifier]. *)
Definition TofuHostKeyVerifier_default : TofuHostKeyVerifier :=
  TofuHostKeyVerifier_new KnownHostKeyVerifier_new.

Definition poison_error : SshError := SshError.configuration "TOFU verifier lock poisoned".

(** [TofuHostKeyVerifier::snapshot]. *)
Definition snapshot (t : TofuHostKeyVerifier) : result SshError KnownHostKeyVerifier :=
  if poisoned t then Err poison_error else Ok (inner t).

(** [<TofuHostKeyVerifier as HostKeyVerifier>::verify]; a panic while the write
    guard is held poisons the lock. *)
Definition tofu_verify (t : TofuHostKeyVerifier) (host : string) (port : N) (key : PublicKey)
  : TofuHostKeyVerifier * or_panic (result SshError HostKeyDecision) :=
  if poisoned t then (t, Returned (Err poison_error))
  else
    let obs := check_known (inner t) host port key in
    if decide (decision obs = Unknown) then
      match accept_key (inner t) host port key with
      | Returned v => ({| inner := v; poisoned := false |}, Returned (Ok Trusted))
      | Panicked => ({| inner := inner t; poisoned := true |}, Panicked)
      end
    else (t, Returned (Ok (decision obs))).

Definition tofu_check (t : TofuHostKeyVerifier) (host : string) (port : N) (key : PublicKey)
  : TofuHostKeyVerifier * or_panic (result SshError HostKeyObservation) :=
  if poisoned t then (t, Returned (Err poison_error))
  else (t, Returned (Ok (check_known (inner t) host port key))).

#[export] Instance tofu_host_key_verifier : HostKeyVerifier TofuHostKeyVerifier := {
  verify := tofu_verify;
  check := tofu_check
}.

(** ** Declarative readings *)

(** The entries of a store that speak about a host. *)
Definition matching (v : KnownHostKeyVerifier) (host : string) (port : N) : list KnownHostEntry :=
  List.filter (fun e => host_patterns_match (host_patterns e) host port) (entries (known_hosts v)).

Definition is_ca (e : KnownHostEntry) : bool :=
  match marker e with Some CertificateAuthority => true | _ => false end.

Definition revokes (fp : string) (e : KnownHostEntry) : bool :=
  match marker e with Some RevokedMarker => String.eqb (fingerprint e) fp | _ => false end.

Definition vouches (fp : string) (e : KnownHostEntry) : bool :=
  match marker e with None => String.eqb (fingerprint e) fp | _ => false end.

(** What a store decides about a fingerprint, revocation first. *)
Definition decide_key (ms : list KnownHostEntry) (fp : string) : HostKeyDecision :=
  if existsb (revokes fp) ms then Revoked
  else if existsb (vouches fp) ms then Trusted
  else if existsb (fun e => negb (is_ca e)) ms then Changed
  else Unknown.

(** The pieces of a pattern list, split into exclusions and inclusions. *)
Definition excludes (piece : string) : option string :=
  if str_is_empty piece then None else strip_prefix "!" piece.

Definition includes (piece : string) : option string :=
  if str_is_empty piece then None
  else match strip_prefix "!" piece with Some _ => None | None => Some piece end.

End HostKeys.

#[global] Arguments host_patterns_match : simpl never.
#[global] Arguments host_token : simpl never.
#[global] Arguments fingerprint_sha256 : simpl never.

(** ** Plain host tokens

    ASCII tokens without the characters known_hosts patterns give a meaning to. *)

Definition plain_char (a : ascii) : bool :=
  ((N_of_ascii a <? 128)%N &&
   negb (existsb (Ascii.eqb a) [","; "*"; "?"; "!"; "|"])%char).

Definition plain_token (t : string) : bool :=
  negb (str_is_empty t) && forallb plain_char (list_ascii_of_string t).

(** ** Lemmas: pattern lists *)

Section PatternLemmas.
Context {K : SshKeys}.

Definition some_matches (candidate : string) (f : string -> option string)
    (pieces : list string) : Prop :=
  exists piece p, piece ∈ pieces /\ f piece = Some p /\
    single_host_pattern_matches p candidate = true.

Lemma some_matches_cons candidate f piece pieces :
  some_matches candidate f (piece :: pieces) <->
  (exists p, f piece = Some p /\ single_host_pattern_matches p candidate = true) \/
  some_matches candidate f pieces.
Proof.
  unfold some_matches. split.
  - intros (x & p & [->|Hin]%elem_of_cons & Hf & Hm); eauto 6.
  - intros [(p & Hf & Hm)|(x & p & Hin & Hf & Hm)]; eexists _, p; (split; [|done]);
      apply elem_of_cons; auto.
Qed.

Lemma patterns_loop_true candidate positive pieces :
  patterns_loop candidate positive pieces = true <->
  (positive = true \/ some_matches candidate includes pieces) /\
  ~ some_matches candidate excludes pieces.
Proof.
  revert positive. induction pieces as [|piece pieces IH]; intros positive; cbn.
  - split.
    + intros ->. split; [by left|]. by intros (? & ? & ?%elem_of_nil & _).
    + intros [[->|(? & ? & ?%elem_of_nil & _)] _]; done.
  - rewrite !some_matches_cons. unfold includes at 1, excludes at 1.
    destruct (str_is_empty piece) eqn:He.
    { rewrite IH. split; intros [Hp Hn]; split.
      - destruct Hp; auto.
      - by intros [(q & [=] & _)|Hq].
      - destruct Hp as [|[(q & [=] & _)|]]; auto.
      - intros Hq. apply Hn. by right. }
    destruct (strip_prefix "!" piece) as [p|] eqn:Hs;
      [destruct (single_host_pattern_matches p candidate) eqn:Hm
      |destruct (single_host_pattern_matches piece candidate) eqn:Hm].
    + split; [done|]. intros [_ Hno]. destruct Hno. left. by eauto.
    + rewrite IH. split.
      * intros [Hp Hn]. split; [destruct Hp; [by left|by right; right]|].
        intros [(q & [= <-] & Hq)|Hq]; [congruence|done].
      * intros [[Hp|[(q & [=] & _)|Hp]] Hn]; (split; [by auto|]); by intros Hq; apply Hn; right.
    + rewrite IH. split.
      * intros [_ Hn]. split; [right; left; by eauto|]. by intros [(q & [=] & _)|Hq].
      * intros [_ Hn]. split; [by left|]. by intros Hq; apply Hn; right.
    + rewrite IH. split.
      * intros [Hp Hn]. split; [destruct Hp; [by left|by right; right]|].
        by intros [(q & [=] & _)|Hq].
      * intros [[Hp|[(q & [= <-] & Hq)|Hp]] Hn]; [|congruence|];
          (split; [by auto|]); by intros Hq; apply Hn; right.
Qed.

(** ** Lemmas: the check loop *)

Lemma check_loop host port key es : forall st,
  let fp := fingerprint_sha256 key in
  let ms := List.filter (fun e => host_patterns_match (host_patterns e) host port) es in
  foldl (check_entry host port fp) st es =
    {| observation :=
         {| hko_host := hko_host (observation st);
            hko_port := hko_port (observation st);
            decision := if existsb (revokes fp) ms then Revoked else decision (observation st);
            presented_fingerprint := presented_fingerprint (observation st);
            expected_fingerprints := expected_fingerprints (observation st) ++
              (fingerprint <$> List.filter (fun e => negb (is_ca e)) ms);
            matched_lines := matched_lines (observation st) ++
              List.filter (fun n => negb (n =? 0)%N) (line <$> ms) |};
       has_expected_key := has_expected_key st || existsb (fun e => negb (is_ca e)) ms;
       trusted := trusted st || existsb (vouches fp) ms |}.
Proof.
  induction es as [|e es IH]; intros st; cbn zeta in *.
  - cbn. destruct st as [[] ? ?]; cbn. by rewrite !app_nil_r, !orb_false_r.
  - cbn [foldl List.filter]. rewrite IH. unfold check_entry.
    destruct (host_patterns_match (host_patterns e) host port); cbn [negb]; [|done].
    cbn [existsb]. unfold is_ca, revokes, vouches.
    destruct (line e =? 0)%N eqn:Hl; destruct (marker e) as [[]|] eqn:Hm;
      destruct (String.eqb (fingerprint e) (fingerprint_sha256 key));
      cbn; rewrite ?Hl, ?Hm; cbn; rewrite <-?app_assoc, ?orb_false_r, ?orb_true_r; cbn;
      try done; f_equal; by repeat case_match.
Qed.

Lemma check_known_unfold v host port key :
  check_known v host port key =
    let fp := fingerprint_sha256 key in
    let ms := matching v host port in
    {| hko_host := host; hko_port := port; decision := decide_key ms fp;
       presented_fingerprint := fp;
       expected_fingerprints := fingerprint <$> List.filter (fun e => negb (is_ca e)) ms;
       matched_lines := List.filter (fun n => negb (n =? 0)%N) (line <$> ms) |}.
Proof.
  unfold check_known, matching, decide_key. rewrite check_loop. cbn.
  by repeat case_match.
Qed.

Lemma check_known_decision v host port key :
  decision (check_known v host port key) =
  decide_key (matching v host port) (fingerprint_sha256 key).
Proof. by rewrite check_known_unfold. Qed.

Lemma decide_key_app_fresh ms e fp :
  decide_key ms fp = Unknown -> marker e = None ->
  forall fp', decide_key (ms ++ [e]) fp' =
    if String.eqb (fingerprint e) fp' then Trusted else Changed.
Proof.
  unfold decide_key. intros H Hm fp'.
  destruct (existsb (revokes fp) ms); [done|].
  destruct (existsb (vouches fp) ms); [done|].
  destruct (existsb (fun e => negb (is_ca e)) ms) eqn:Hca; [done|].
  rewrite !existsb_app. cbn. unfold revokes at 2, vouches at 2, is_ca at 2. rewrite Hm.
  assert (forall g, (forall e, is_ca e = true -> g e = false) -> existsb g ms = false) as Hnone.
  { intros g Hg. apply not_true_is_false. intros (x & Hin & Hx)%existsb_exists.
    assert (is_ca x = true) as Hx2; [|by rewrite (Hg _ Hx2) in Hx].
    destruct (is_ca x) eqn:Hxc; [done|]. exfalso. apply not_true_iff_false in Hca. apply Hca.
    apply existsb_exists. exists x. by rewrite Hxc. }
  rewrite (Hnone (revokes fp')), (Hnone (vouches fp')); cbn.
  - destruct (String.eqb (fingerprint e) fp'); cbn; [done|]. by rewrite orb_true_r.
  - intros x. unfold is_ca, vouches. by destruct (marker x) as [[]|].
  - intros x. unfold is_ca, revokes. by destruct (marker x) as [[]|].
Qed.

End PatternLemmas.

(** ** Lemmas: plain tokens *)

Section TokenLemmas.
Context {K : SshKeys}.

Lemma char_slices_ascii l :
  Forall (fun n => (n < 128)%N) l -> char_slices 0 0 [] l = (fun n => (n, [n])) <$> l.
Proof.
  intros H. pose proof (char_slices_ascii_app l [] H) as E. by rewrite !app_nil_r in E.
Qed.

Lemma chars_ascii s : Forall (fun n => (n < 128)%N) (bytes_of_string s) -> chars s = bytes_of_string s.
Proof.
  intros H. unfold chars, str_char_slices. rewrite char_slices_ascii by done.
  rewrite <-list_fmap_compose. cbn. apply list_fmap_id.
Qed.

Lemma bytes_of_string_inj s t : bytes_of_string s = bytes_of_string t -> s = t.
Proof.
  unfold bytes_of_string. intros H.
  rewrite <-(string_of_list_ascii_of_string s), <-(string_of_list_ascii_of_string t). f_equal.
  revert H. generalize (list_ascii_of_string s) (list_ascii_of_string t).
  intros l1. induction l1 as [|a l1 IH]; intros [|b l2]; cbn; try done.
  intros [= Hab Hl]. f_equal; [|by apply IH].
  by rewrite <-(ascii_N_embedding a), <-(ascii_N_embedding b), Hab.
Qed.

Lemma plain_char_spec a :
  plain_char a = true ->
  (N_of_ascii a < 128)%N /\ Ascii.eqb a "," = false /\ Ascii.eqb a "*" = false /\
  Ascii.eqb a "?" = false /\ Ascii.eqb a "!" = false /\ Ascii.eqb a "|" = false.
Proof.
  unfold plain_char. cbn [existsb].
  rewrite andb_true_iff, negb_true_iff, !orb_false_iff, N.ltb_lt. tauto.
Qed.

Definition plain_string (t : string) : Prop :=
  Forall (fun a => plain_char a = true) (list_ascii_of_string t).

Lemma plain_token_spec t : plain_token t = true <-> t <> "" /\ plain_string t.
Proof.
  unfold plain_token, plain_string. rewrite andb_true_iff, forallb_forall.
  by rewrite str_nonempty_iff, List.Forall_forall.
Qed.

Lemma plain_split t : plain_string t -> split_char "," t = [t].
Proof.
  unfold plain_string. induction t as [|a t IH]; [done|]. cbn.
  intros [Ha Ht]%Forall_cons_1.
  destruct (plain_char_spec a Ha) as (_ & -> & _). by rewrite IH.
Qed.

Lemma plain_no_prefix a p t :
  plain_string t -> plain_char a = false -> strip_prefix (String a p) t = None.
Proof.
  intros Ht Ha. destruct t as [|b t]; [done|]. apply Forall_cons_1 in Ht as [Hb _].
  cbn [strip_prefix]. unfold strip_prefix. destruct (Ascii.eqb_spec a b) as [->|]; [congruence|done].
Qed.

Lemma plain_ascii t : plain_string t -> Forall (fun n => (n < 128)%N) (bytes_of_string t).
Proof.
  intros Ht. unfold bytes_of_string. apply Forall_fmap. eapply Forall_impl; [|exact Ht].
  intros a Ha. by apply plain_char_spec in Ha as (? & _).
Qed.

Lemma plain_glob t : plain_string t -> plain (chars t).
Proof.
  intros Ht. rewrite chars_ascii by by apply plain_ascii. unfold plain, bytes_of_string.
  apply Forall_fmap. eapply Forall_impl; [|exact Ht]. intros a Ha. cbn.
  apply plain_char_spec in Ha as (_ & _ & Hs & Hq & _).
  split; intros Heq; [revert Hs|revert Hq];
    rewrite <-(ascii_N_embedding a), Heq; by vm_compute.
Qed.

(** A plain token, used as a pattern, matches exactly itself. *)
Lemma plain_pattern_matches t host port :
  plain_token t = true -> plain_token (host_token host port) = true ->
  host_patterns_match t host port = true <-> t = host_token host port.
Proof.
  intros [Hne Ht]%plain_token_spec [_ Hc]%plain_token_spec.
  unfold host_patterns_match. rewrite plain_split by done. cbn.
  destruct t as [|a t']; [done|]. cbn [str_is_empty].
  rewrite !plain_no_prefix by done. cbn.
  unfold single_host_pattern_matches. rewrite plain_no_prefix by done.
  assert (glob_match (String a t') (host_token host port) = true <->
          String a t' = host_token host port) as <-; [|by destruct (glob_match _ _)].
  rewrite glob_match_true, glob_plain by by apply plain_glob.
  rewrite !chars_ascii by by apply plain_ascii. split; [|by intros ->].
  intros H. symmetry. by apply bytes_of_string_inj.
Qed.

Lemma plain_show n : plain_string (show n).
Proof.
  unfold show, pretty, pretty_N. case_decide; [by repeat constructor|].
  assert (plain_string "") as Hs by constructor.
  assert (forall n s, plain_string s -> plain_string (pretty_N_go n s)) as Hgo.
  { clear. intros n. induction (N.lt_wf_0 n) as [n _ IH]. intros s Hs.
    destruct (decide (0 < n)%N) as [Hn|Hn].
    - rewrite pretty_N_go_step by done. apply IH; [by apply N.div_lt|].
      constructor; [|done]. unfold pretty_N_char. by repeat case_match.
    - assert (n = 0%N) as -> by lia. by rewrite pretty_N_go_0. }
  by apply Hgo.
Qed.

Lemma plain_string_app s t : plain_string s -> plain_string t -> plain_string (s +:+ t).
Proof.
  unfold plain_string. induction s as [|a s IH]; [done|].
  intros [Ha Hs]%Forall_cons_1 Ht. constructor; [done|by apply IH].
Qed.

(** The token of a host whose name is plain. *)
Lemma plain_host_token host port :
  unbracket host <> "" -> plain_string (unbracket host) ->
  plain_token (host_token host port) = true.
Proof.
  intros Hne Hp. apply plain_token_spec. unfold host_token.
  destruct (port =? 22)%N; [done|]. split; [by destruct (unbracket host)|].
  apply (plain_string_app "["); [by repeat constructor|]. apply plain_string_app; [done|].
  apply (plain_string_app "]:"); [by repeat constructor|]. apply plain_show.
Qed.

Lemma host_patterns_match_token ps h1 p1 h2 p2 :
  host_token h1 p1 = host_token h2 p2 ->
  host_patterns_match ps h1 p1 = host_patterns_match ps h2 p2.
Proof. unfold host_patterns_match. by intros ->. Qed.

End TokenLemmas.

(** ** Lemmas: stores *)

Section StoreLemmas.
Context {K : SshKeys}.

Lemma matching_app es1 es2 host port :
  matching {| known_hosts := {| entries := es1 ++ es2 |} |} host port =
  matching {| known_hosts := {| entries := es1 |} |} host port ++
  matching {| known_hosts := {| entries := es2 |} |} host port.
Proof. unfold matching. cbn. apply List.filter_app. Qed.

(** A store in which one fingerprint is trusted for a host and no other is. *)
Definition pinned (v : KnownHostKeyVerifier) (host : string) (port : N) (fp : string) : Prop :=
  forall fp', decide_key (matching v host port) fp' =
    if String.eqb fp fp' then Trusted else Changed.

Lemma pinned_not_unknown v host port fp fp' :
  pinned v host port fp -> decide_key (matching v host port) fp' <> Unknown.
Proof. intros Hp. rewrite Hp. by destruct (String.eqb fp fp'). Qed.

Lemma accept_key_pins v v' host port key :
  plain_token (host_token host port) = true ->
  decision (check_known v host port key) = Unknown ->
  accept_key v host port key = Returned v' ->
  pinned v' host port (fingerprint_sha256 key).
Proof.
  intros Ht Hd. unfold accept_key, push_key. rewrite check_known_decision in Hd.
  destruct (key_to_openssh key) as [pk|]; [|done]. intros [= <-] fp'.
  rewrite matching_app. unfold matching at 2. cbn.
  rewrite (proj2 (plain_pattern_matches _ host port Ht Ht) eq_refl).
  destruct v as [[es]]. by rewrite (decide_key_app_fresh _ _ _ Hd).
Qed.

(** A verifier made for one server. *)
Lemma insert_key_pins v' host port key :
  plain_token (host_token host port) = true ->
  insert_key KnownHostKeyVerifier_new host port key = Returned v' ->
  pinned v' host port (fingerprint_sha256 key).
Proof.
  intros Ht. unfold insert_key. destruct (key_to_openssh key) as [pk|]; [|done].
  intros [= <-] fp'. unfold matching, replace_entry. cbn.
  rewrite (proj2 (plain_pattern_matches _ host port Ht Ht) eq_refl).
  unfold decide_key. cbn. by rewrite !orb_false_r.
Qed.

Lemma accept_key_keeps_pin v v' host port fp host' port' key' :
  plain_token (host_token host port) = true ->
  plain_token (host_token host' port') = true ->
  pinned v host port fp ->
  decision (check_known v host' port' key') = Unknown ->
  accept_key v host' port' key' = Returned v' ->
  pinned v' host port fp.
Proof.
  intros Ht Ht' Hp Hd. unfold accept_key, push_key. rewrite check_known_decision in Hd.
  destruct (key_to_openssh key') as [pk|]; [|done]. intros [= <-] fp'.
  rewrite matching_app. unfold matching at 2. cbn.
  assert (host_patterns_match (host_token host' port') host port = false) as ->.
  { apply not_true_is_false. intros Heq%plain_pattern_matches; [|done..].
    apply (pinned_not_unknown v host port fp (fingerprint_sha256 key') Hp).
    rewrite <-Hd. unfold matching. f_equal. apply List.filter_ext. intros e.
    by apply host_patterns_match_token. }
  rewrite app_nil_r. destruct v as [[es]]. apply Hp.
Qed.

(** The matching entries an insertion for the host's own token leaves in place. *)
Definition kept (v : KnownHostKeyVerifier) (host : string) (port : N) : list KnownHostEntry :=
  List.filter (fun e => is_some (marker e) ||
    negb (String.eqb (host_patterns e) (host_token host port))) (matching v host port).

(** A sequence of [verify] calls on one trust-on-first-use verifier. *)
Definition tofu_run (t : TofuHostKeyVerifier) (calls : list (string * N * PublicKey))
  : TofuHostKeyVerifier :=
  foldl (fun t '(h, p, k) => fst (verify t h p k)) t calls.

Lemma tofu_verify_keeps_pin t host port fp host' port' key' :
  plain_token (host_token host port) = true ->
  plain_token (host_token host' port') = true ->
  poisoned t = true \/ pinned (inner t) host port fp ->
  let t' := fst (tofu_verify t host' port' key') in
  poisoned t' = true \/ pinned (inner t') host port fp.
Proof.
  intros Ht Ht' Hp. unfold tofu_verify. destruct (poisoned t) eqn:Hpo; [by left|].
  destruct Hp as [Hp|Hp]; [done|]. case_decide as Hd; [|by right].
  destruct (accept_key (inner t) host' port' key') as [v|] eqn:Ha; cbn; [|by left].
  right. by eapply accept_key_keeps_pin.
Qed.

Lemma tofu_run_keeps_pin calls : forall t host port fp,
  plain_token (host_token host port) = true ->
  Forall (fun '(h, p, k) => plain_token (host_token h p) = true) calls ->
  poisoned t = true \/ pinned (inner t) host port fp ->
  poisoned (tofu_run t calls) = true \/ pinned (inner (tofu_run t calls)) host port fp.
Proof.
  induction calls as [|[[h p] k] calls IH]; intros t host port fp Ht Hall Hp; [done|].
  apply Forall_cons_1 in Hall as [Hh Hall]. cbn. apply IH; [done|done|].
  by apply tofu_verify_keeps_pin.
Qed.

Lemma pinned_check v host port fp key :
  pinned v host port fp ->
  decision (check_known v host port key) =
    if String.eqb fp (fingerprint_sha256 key) then Trusted else Changed.
Proof. intros Hp. by rewrite check_known_decision, Hp. Qed.

(** ** Rendering and parsing back *)

(** An entry that can be written on a line: its patterns are a field that [ssh-key] keeps
    as it is, its key text is one line, neither has a [#], and its fingerprint and text
    are those of one key.  The last is so for every entry the crate makes ([stores_keyed]). *)
Record writable `{F : !KnownHostsFormat} (e : KnownHostEntry) : Prop := {
  wr_hosts : host_field (host_patterns e) = true;
  wr_list : reread_host_patterns (host_patterns e) = Some (host_patterns e);
  wr_text : one_line (public_key e) = true;
  wr_comment : contains_char "#" (host_patterns e +:+ public_key e) = false;
  wr_key : exists key, key_to_openssh key = Ok (public_key e) /\
    fingerprint e = fingerprint_sha256 key
}.

Definition set_line (n : N) (e : KnownHostEntry) : KnownHostEntry :=
  {| host_patterns := host_patterns e; marker := marker e;
     fingerprint := fingerprint e; public_key := public_key e; line := n |}.

(** Entries numbered the way the parser numbers lines. *)
Fixpoint renumber (n : N) (es : list KnownHostEntry) : list KnownHostEntry :=
  match es with
  | [] => []
  | e :: es' => set_line (n + 1) e :: renumber (n + 1) es'
  end.

(** An entry without a key text, or made from a key. *)
Definition keyed (e : KnownHostEntry) : Prop :=
  public_key e = "" \/
  exists key, key_to_openssh key = Ok (public_key e) /\ fingerprint e = fingerprint_sha256 key.

Lemma parse_lines_keyed ls : forall n es, parse_lines n ls = Ok es -> Forall keyed es.
Proof.
  induction ls as [|l ls IH]; intros n es; cbn; [by intros [= <-]|].
  destruct (parse_line (n + 1) l) as [oe|] eqn:Hl; cbn; [|done].
  destruct (parse_lines (n + 1) ls) as [es'|] eqn:Hls; cbn; [|done].
  destruct oe as [e|]; intros [= <-]; [|by eapply IH]. constructor; [|by eapply IH].
  revert Hl. unfold parse_line. case_match; [done|].
  destruct (entry_from_str _) as [he|]; cbn; [|done].
  destruct (key_to_openssh (entry_public_key he)) as [pk|] eqn:Hk; cbn; [|done].
  intros [= <-]. right. by exists (entry_public_key he).
Qed.

(** Stores are made by [parse] and changed by [insert], [insert_key] and [push_key]. *)
Lemma stores_keyed :
  (forall input h, parse input = Ok h -> Forall keyed (entries h)) /\
  (forall v host port fp, Forall keyed (entries (known_hosts v)) ->
     Forall keyed (entries (known_hosts (insert v host port fp)))) /\
  (forall v host port key v', Forall keyed (entries (known_hosts v)) ->
     insert_key v host port key = Returned v' -> Forall keyed (entries (known_hosts v'))) /\
  (forall h host port key h', Forall keyed (entries h) ->
     push_key h host port key = Returned h' -> Forall keyed (entries h')).
Proof.
  assert (forall p es e, Forall keyed es -> keyed e -> Forall keyed (List.filter p es ++ [e])) as Hf.
  { intros p es e Hes He. apply Forall_app. split; [|by constructor].
    apply List.Forall_forall. intros x [Hx _]%filter_In.
    rewrite List.Forall_forall in Hes. by apply Hes. }
  split_and!.
  - intros input h. unfold parse. destruct (parse_lines 0 (lines input)) as [es|] eqn:Hes; [|done].
    intros [= <-]. by eapply parse_lines_keyed.
  - intros. apply Hf; [done|by left].
  - intros v host port key v' Hv. unfold insert_key.
    destruct (key_to_openssh key) as [pk|] eqn:Hk; [|done]. intros [= <-].
    apply Hf; [done|]. right. by exists key.
  - intros h host port key h' Hh. unfold push_key.
    destruct (key_to_openssh key) as [pk|] eqn:Hk; [|done]. intros [= <-].
    apply Forall_app. split; [done|]. constructor; [|done]. right. by exists key.
Qed.

(** The library's marker for the crate's. *)
Definition as_marker (m : option KnownHostMarker) : option Marker :=
  match m with
  | Some CertificateAuthority => Some CertAuthority
  | Some RevokedMarker => Some MarkerRevoked
  | None => None
  end.

Lemma marker_text_field m : marker_text m = marker_field (as_marker m).
Proof. by destruct m as [[]|]. Qed.

(** A line as the parser meets it: nothing in it is a comment, trimmed or a terminator. *)
Record plain_line (text : string) : Prop := {
  pl_comment : split_once "#" text = None;
  pl_trim : trim text = text;
  pl_nonempty : text <> "";
  pl_newline : contains_char newline text = false;
  pl_cr : strip_suffix_char carriage_return text = None
}.

Lemma one_line_spec text :
  one_line text = true <->
  text <> "" /\ contains_char newline text = false /\
  contains_char carriage_return text = false /\ trim text = text.
Proof.
  unfold one_line. rewrite !andb_true_iff, !negb_true_iff, String.eqb_eq.
  destruct text; cbn; intuition congruence.
Qed.

Lemma host_field_spec hosts :
  host_field hosts = true ->
  hosts <> "" /\ Forall (fun n => 33 <= n <= 126)%N (bytes_of_string hosts).
Proof.
  unfold host_field. rewrite !andb_true_iff, str_nonempty_iff, forallb_forall.
  intros [[Hne Hg] _]. split; [done|]. unfold bytes_of_string. apply Forall_fmap, List.Forall_forall.
  intros a Ha%Hg. unfold graphic in Ha. by rewrite andb_true_iff, !N.leb_le in Ha.
Qed.

Lemma contains_char_bytes c s :
  Forall (fun n => n <> N_of_ascii c) (bytes_of_string s) -> contains_char c s = false.
Proof.
  induction s as [|a s IH]; [done|]. cbn. intros [Ha Hs]%Forall_cons_1.
  destruct (Ascii.eqb_spec a c) as [->|]; [done|]. by apply IH.
Qed.

(** What stands before the key on a line is ASCII, starts with a visible character and has
    no line terminator. *)
Lemma line_head m hosts :
  host_field hosts = true ->
  exists a s, marker_field m +:+ hosts +:+ " " = String a s /\
    is_whitespace (N_of_ascii a) = false /\
    Forall (fun n => (32 <= n < 128)%N) (bytes_of_string (String a s)).
Proof.
  intros [Hne Hf]%host_field_spec.
  assert (Forall (fun n => (32 <= n < 128)%N) (bytes_of_string (hosts +:+ " "))) as Hh.
  { rewrite bytes_of_string_app. apply Forall_app. split; [|apply (bool_decide_unpack _); by vm_compute].
    eapply Forall_impl; [|exact Hf]. cbn. lia. }
  assert (forall p, Forall (fun n => (32 <= n < 128)%N) (bytes_of_string p) ->
    Forall (fun n => (32 <= n < 128)%N) (bytes_of_string (p +:+ hosts +:+ " "))) as Hp.
  { intros p ?. rewrite bytes_of_string_app. by apply Forall_app. }
  assert (Forall (fun n => (32 <= n < 128)%N) (bytes_of_string (marker_field m))) as Hm
    by (destruct m as [[]|]; apply (bool_decide_unpack _); by vm_compute).
  specialize (Hp _ Hm). destruct m as [[]|]; try (by eexists _, _).
  destruct hosts as [|a s]; [done|]. eexists a, _. split_and!; [done| |exact Hp].
  apply Forall_cons_1 in Hf as [Ha _]. unfold is_whitespace. apply not_true_is_false.
  rewrite !orb_true_iff, !andb_true_iff, !N.leb_le, !N.eqb_eq. lia.
Qed.

(** An entry and its line, which the parser reads as that entry. *)
Record written (e : KnownHostEntry) (text : string) : Prop := {
  wt_line : to_line e = Some text;
  wt_plain : plain_line text;
  wt_parse : forall n, parse_line n text = Ok (Some (set_line n e))
}.

Lemma writable_plain_line `{F : !KnownHostsFormat} e :
  writable e -> plain_line (marker_field (as_marker (marker e)) +:+ host_patterns e +:+ " " +:+ public_key e).
Proof.
  intros [Hf _ Ht Hc _]. apply one_line_spec in Ht as (Hne & Hnl & Hcr & Htr).
  destruct (line_head (as_marker (marker e)) _ Hf) as (a & s & Hs & Hw & Ha).
  rewrite contains_char_app, orb_false_iff in Hc. destruct Hc as [Hc1 Hc2].
  assert (marker_field (as_marker (marker e)) +:+ host_patterns e +:+ " " +:+ public_key e =
    String a s +:+ public_key e) as -> by (by rewrite <-Hs, !str_app_assoc).
  assert (forall c, (N_of_ascii c < 32)%N -> contains_char c (public_key e) = false ->
    contains_char c (String a s +:+ public_key e) = false) as Hno.
  { intros c Hlt Hpk. rewrite contains_char_app, Hpk, orb_false_r. apply contains_char_bytes.
    eapply Forall_impl; [|exact Ha]. cbn. lia. }
  split; [|apply trim_prepend; try done| |by apply Hno|by apply strip_suffix_char_none, Hno].
  - apply split_once_none. rewrite contains_char_app, Hc2, orb_false_r, <-Hs, !contains_char_app, Hc1.
    by destruct (marker e) as [[]|].
  - eapply Forall_impl; [|exact Ha]. cbn. lia.
  - done.
Qed.

Lemma writable_written `{F : !KnownHostsFormat} e : writable e -> exists text, written e text.
Proof.
  intros He. pose proof (writable_plain_line e He) as Hp.
  destruct He as [Hf Hl Ht _ (key & Hk & Hfp)].
  destruct (entry_from_fields (as_marker (marker e)) _ _ _ key Hf Hl (key_from_to_openssh _ _ Hk Ht))
    as (he & He & Hm & Hh & <-).
  eexists. split; [|exact Hp|].
  - unfold to_line. apply one_line_spec in Ht as [Hne _]. destruct (public_key e); [done|].
    by rewrite marker_text_field.
  - intros n. unfold parse_line. destruct Hp as [-> -> Hne _ _].
    rewrite He. destruct (_ +:+ _) eqn:Htext; [done|]. cbn. rewrite Hk. cbn. unfold set_line.
    rewrite Hm, Hh, Hfp. by destruct e as [? [[]|] ? ? ?].
Qed.

Lemma parse_lines_written es : forall texts n,
  Forall2 written es texts -> parse_lines n texts = Ok (renumber n es).
Proof.
  induction es as [|e es IH]; intros texts n H; inversion H as [|? text ? texts' He Hes]; subst;
    [done|].
  cbn. rewrite (wt_parse _ _ He). cbn. by rewrite (IH _ _ Hes).
Qed.

Lemma split_char_no c s : contains_char c s = false -> split_char c s = [s].
Proof.
  induction s as [|a s IH]; [done|]. cbn. intros [Ha Hs]%orb_false_iff.
  rewrite Ha. by rewrite IH.
Qed.

Lemma split_char_app c s t :
  contains_char c s = false -> split_char c (s +:+ String c t) = s :: split_char c t.
Proof.
  induction s as [|a s IH]; cbn; [by rewrite Ascii.eqb_refl|].
  intros [Ha Hs]%orb_false_iff. rewrite Ha. by rewrite IH.
Qed.

Lemma split_char_join c texts :
  texts <> [] -> Forall (fun s => contains_char c s = false) texts ->
  split_char c (join (String c "") texts +:+ String c "") = texts ++ [""].
Proof.
  induction texts as [|s texts IH]; [done|]. intros _ [Hs Hts]%Forall_cons_1.
  destruct texts as [|s' texts]; [by apply split_char_app|].
  change (join (String c "") (s :: s' :: texts))
    with (s +:+ String c "" +:+ join (String c "") (s' :: texts)).
  replace ((s +:+ String c "" +:+ join (String c "") (s' :: texts)) +:+ String c "")
    with (s +:+ String c (join (String c "") (s' :: texts) +:+ String c ""))
    by (rewrite str_app_assoc; done).
  rewrite split_char_app by done. by rewrite IH.
Qed.

Lemma line_pieces_join texts :
  Forall (fun s => strip_suffix_char carriage_return s = None) texts ->
  line_pieces (texts ++ [""]) = texts.
Proof.
  induction 1 as [|s texts Hs Hts IH]; [done|]. cbn.
  destruct (texts ++ [""]) eqn:He; [by destruct texts|]. rewrite IH. unfold strip_cr. by rewrite Hs.
Qed.

Lemma written_texts es texts :
  Forall2 written es texts ->
  Forall (fun s => contains_char newline s = false) texts /\
  Forall (fun s => strip_suffix_char carriage_return s = None) texts.
Proof.
  induction 1 as [|e text es texts [_ [] _] _ [IHn IHc]]; [done|]. by split; constructor.
Qed.

(** The entries [to_openssh] renders. *)
Definition rendered (h : KnownHosts) : list KnownHostEntry :=
  List.filter (fun e => negb (str_is_empty (public_key e))) (entries h).

Lemma rendered_texts `{F : !KnownHostsFormat} h :
  Forall writable (rendered h) -> Forall2 written (rendered h) (omap to_line (entries h)).
Proof.
  unfold rendered. induction (entries h) as [|e es IH]; cbn; [done|].
  destruct (str_is_empty (public_key e)) eqn:He; cbn; intros Hall.
  - assert (to_line e = None) as -> by (unfold to_line; by rewrite He). by apply IH.
  - apply Forall_cons_1 in Hall as [(text & Hp)%writable_written Hall].
    rewrite (wt_line _ _ Hp). constructor; [done|by apply IH].
Qed.

Lemma parse_line_number n text e : parse_line n text = Ok (Some e) -> line e = n.
Proof.
  unfold parse_line. case_match; [done|].
  destruct (entry_from_str _); cbn; [|done]. destruct (key_to_openssh _); cbn; [|done].
  by intros [= <-].
Qed.

Lemma parse_lines_bounds ls : forall n es,
  parse_lines n ls = Ok es ->
  StronglySorted N.lt (line <$> es) /\
  Forall (fun e => (n < line e <= n + N.of_nat (length ls))%N) es.
Proof.
  induction ls as [|l ls IH]; intros n es; cbn; [intros [= <-]; split; constructor|].
  destruct (parse_line (n + 1) l) as [oe|] eqn:Hl; cbn; [|done].
  destruct (parse_lines (n + 1) ls) as [es'|] eqn:Hls; cbn; [|done].
  destruct (IH _ _ Hls) as [Hs Hb].
  destruct oe as [e|]; intros [= <-].
  - apply parse_line_number in Hl. split; cbn.
    + constructor; [done|]. apply Forall_fmap. eapply Forall_impl; [|exact Hb]. cbn. lia.
    + constructor; [lia|]. eapply Forall_impl; [|exact Hb]. cbn. lia.
  - split; [done|]. eapply Forall_impl; [|exact Hb]. cbn. lia.
Qed.

End StoreLemmas.

(** ** Properties *)

Section Properties.
Context {K : SshKeys}.

(** C23: a pattern list matches a host exactly when one of its inclusions matches
    the host's token and none of its [!] exclusions does, wherever in the list they
    stand; the token adds [\[..\]:port] for every port but 22. *)
Theorem host_patterns_match_spec patterns host port :
  host_patterns_match patterns host port = true <->
  some_matches (host_token host port) includes (split_char "," patterns) /\
  ~ some_matches (host_token host port) excludes (split_char "," patterns).
Proof.
  unfold host_patterns_match. rewrite patterns_loop_true.
  split; [by intros [[?|?] ?]|]. intros [? ?]. auto.
Qed.

(** C18: the verdict of [KnownHostKeyVerifier::check] on a key, over the entries
    whose patterns match the host: [Revoked] if one revokes its fingerprint, else
    [Trusted] if an unmarked one carries it, else [Changed] if there is any entry other
    than a certificate authority, else [Unknown]; the observation lists the expected
    fingerprints and the known_hosts lines in file order. *)
Theorem check_known_spec v host port key :
  check_known v host port key =
    let fp := fingerprint_sha256 key in
    let ms := matching v host port in
    {| hko_host := host; hko_port := port; decision := decide_key ms fp;
       presented_fingerprint := fp;
       expected_fingerprints := fingerprint <$> List.filter (fun e => negb (is_ca e)) ms;
       matched_lines := List.filter (fun n => negb (n =? 0)%N) (line <$> ms) |}.
Proof. apply check_known_unfold. Qed.

(** Trust on first use pins the first key.  Once [verify] has accepted an unknown key
    for a host, then after any later sequence of [verify] calls for plain host names the
    verifier answers [Trusted] for that fingerprint and [Changed] for every other one
    (or, when a later call panicked under the lock, the poison error): no second key
    is ever accepted for that host. *)
Lemma tofu_pins_first_key t t1 host port key calls key' :
  plain_token (host_token host port) = true ->
  decision (check_known (inner t) host port key) = Unknown ->
  verify t host port key = (t1, Returned (Ok Trusted)) ->
  Forall (fun '(h, p, _) => plain_token (host_token h p) = true) calls ->
  let t2 := tofu_run t1 calls in
  snd (verify t2 host port key') =
    Returned (if poisoned t2 then Err poison_error
              else Ok (if String.eqb (fingerprint_sha256 key) (fingerprint_sha256 key')
                       then Trusted else Changed)).
Proof.
  intros Ht Hd Hv Hcalls t2. cbn [verify tofu_host_key_verifier] in *.
  assert (poisoned t1 = true \/ pinned (inner t1) host port (fingerprint_sha256 key)) as Hp.
  { unfold tofu_verify in Hv. destruct (poisoned t); [done|]. rewrite decide_True in Hv by done.
    destruct (accept_key (inner t) host port key) as [v|] eqn:Ha; [|done].
    injection Hv as <-. right. by eapply accept_key_pins. }
  apply (tofu_run_keeps_pin calls t1 _ _ _ Ht Hcalls) in Hp. fold t2 in Hp.
  unfold tofu_verify. destruct (poisoned t2); [done|]. destruct Hp as [|Hp]; [done|].
  rewrite (pinned_check _ _ _ _ _ Hp).
  destruct (String.eqb (fingerprint_sha256 key) (fingerprint_sha256 key')) eqn:Hfp;
    case_decide; cbn; try done; by rewrite (pinned_check _ _ _ _ _ Hp), Hfp.
Qed.

(** C24: [insert_key] replaces the unmarked entries written for a plain host's own token
    and nothing else: all other entries, marked ones and those of other hosts included,
    stay as they are and in their order, and the new one is appended.  So for this host a
    fingerprint is afterwards [Revoked] if a kept entry revokes it, [Trusted] if it is the
    inserted one or a kept entry vouches for it, and [Changed] otherwise; and what is
    known of any other plain host stays the same. *)
Theorem insert_key_replaces v v' host port key :
  plain_token (host_token host port) = true ->
  insert_key v host port key = Returned v' ->
  (exists text, key_to_openssh key = Ok text /\
     entries (known_hosts v') =
       List.filter (fun e => is_some (marker e) ||
         negb (String.eqb (host_patterns e) (host_token host port))) (entries (known_hosts v)) ++
       [{| host_patterns := host_token host port; marker := None;
           fingerprint := fingerprint_sha256 key; public_key := text; line := 0 |}]) /\
  (forall fp, decide_key (matching v' host port) fp =
     if existsb (revokes fp) (kept v host port) then Revoked
     else if existsb (vouches fp) (kept v host port) || String.eqb (fingerprint_sha256 key) fp then Trusted
     else Changed) /\
  (forall host' port', plain_token (host_token host' port') = true ->
     host_token host' port' <> host_token host port ->
     matching v' host' port' = matching v host' port').
Proof.
  intros Ht. unfold insert_key. destruct (key_to_openssh key) as [pk|] eqn:Hpk; [|done].
  intros [= <-]. unfold replace_entry. set (new := {| host_patterns := host_token host port |}).
  assert (List.filter (retained new) (entries (known_hosts v)) =
    List.filter (fun e => is_some (marker e) ||
      negb (String.eqb (host_patterns e) (host_token host port))) (entries (known_hosts v))) as ->
    by (apply List.filter_ext; intros e; unfold retained; by destruct (marker e)).
  split_and!; [by exists pk|..].
  - intros fp. rewrite matching_app.
    unfold matching at 1. cbn [known_hosts entries]. rewrite filter_comm.
    fold (matching v host port). fold (kept v host port).
    unfold matching, new. cbn. rewrite (proj2 (plain_pattern_matches _ host port Ht Ht) eq_refl).
    unfold decide_key. rewrite !existsb_app. cbn. rewrite !orb_false_r, orb_true_r.
    by repeat case_match.
  - intros host' port' Ht' Hne. rewrite matching_app. unfold matching. cbn.
    assert (forall p, p = host_token host port -> host_patterns_match p host' port' = false) as Hno.
    { intros p ->. apply not_true_is_false. intros Heq%plain_pattern_matches; by auto. }
    rewrite (Hno _ eq_refl), app_nil_r, filter_comm. apply filter_all.
    intros e [_ He]%filter_In. destruct (String.eqb_spec (host_patterns e) (host_token host port)) as [Hp|];
      [|apply orb_true_r]. by rewrite (Hno _ Hp) in He.
Qed.

(** C25: parsing what [to_openssh] rendered gives back every entry that has a public
    key, in order, with its patterns, marker, fingerprint and key, numbered by line;
    the fingerprint-only entries are not rendered.  The entries rendered are [writable]:
    their patterns are printable ASCII without blanks, [#] or a leading [@] and kept by
    [ssh-key] as they stand, and the text of their key, its comment included, has no [#],
    no line break and no white space at its ends; the format of a line is the one documented for [known_hosts]
    ([KnownHostsFormat]). *)
Theorem parse_to_openssh `{F : !KnownHostsFormat} h :
  let es := rendered h in
  Forall writable es -> parse (to_openssh h) = Ok {| entries := renumber 0 es |}.
Proof.
  intros es Hes. pose proof (rendered_texts h Hes) as H2. fold es in H2.
  unfold parse, to_openssh, lines. destruct (omap to_line (entries h)) as [|text texts];
    [by inversion H2|].
  destruct (written_texts _ _ H2) as [Hnl Hcr].
  rewrite split_char_join, line_pieces_join by done.
  by rewrite (parse_lines_written _ _ _ H2).
Qed.

(** The entries [parse] returns carry their 1-based line numbers: strictly
    increasing and within the file, so every parsed entry that matches is reported in
    [matched_lines]. *)
Lemma parse_line_numbers input h :
  parse input = Ok h ->
  StronglySorted N.lt (line <$> entries h) /\
  Forall (fun e => (1 <= line e <= N.of_nat (length (lines input)))%N) (entries h).
Proof.
  unfold parse. destruct (parse_lines 0 (lines input)) as [es|] eqn:Hes; [|done].
  intros [= <-]. apply parse_lines_bounds in Hes as [Hs Hb]. split; [done|].
  eapply Forall_impl; [|exact Hb]. cbn. lia.
Qed.

End Properties.

(** ** A concrete key library, and the properties at work on it *)

Module HostKeyDemo.

(** Keys are their own text; a MAC is the salt followed by the message. *)
Definition demo_entry (text : string) : result string (option Marker * string * string) :=
  let '(m, rest) :=
    match strip_prefix "@revoked " text with
    | Some r => (Some MarkerRevoked, r)
    | None => match strip_prefix "@cert-authority " text with
              | Some r => (Some CertAuthority, r)
              | None => (None, text)
              end
    end in
  match split_once " " rest with
  | Some (hosts, key) =>
      match strip_prefix "ssh-ed25519 " key with
      | Some k => Ok (m, hosts, k)
      | None => Err "unknown algorithm"
      end
  | None => Err "missing key"
  end.

#[export] Instance demo_keys : SshKeys := {
  PublicKey := string;
  key_fingerprint k := "SHA256:" +:+ k;
  key_to_openssh k := if str_is_empty k then Err "empty" else Ok ("ssh-ed25519 " +:+ k);
  HostsEntry := option Marker * string * string;
  entry_from_str := demo_entry;
  entry_marker e := fst (fst e);
  entry_public_key e := snd e;
  entry_host_patterns e := snd (fst e);
  base64_decode s := Some (bytes_of_string s);
  base64_unpadded_decode s := None;
  Mac := list N;
  hmac_new salt := Some salt;
  hmac_update m msg := m ++ msg;
  hmac_verify m expected := bool_decide (m = expected)
}.

Definition alice : PublicKey := "alice".
Definition mallory : PublicKey := "mallory".

Definition nl : string := String newline "".

Definition demo_file : string :=
  "# a comment" +:+ nl +:+ "[*.example.com]:2200,!x ssh-ed25519 alice" +:+ nl +:+
  "@revoked db ssh-ed25519 mallory" +:+ nl.

Definition demo_store : KnownHosts :=
  match parse demo_file with Ok h => h | Err _ => KnownHosts_new end.

Example parses_nonstandard_ports_wildcards_and_changed_details :
  let o := check_known {| known_hosts := demo_store |} "db.example.com" 2200 mallory in
  decision o = Changed /\ matched_lines o = [2%N] /\ length (expected_fingerprints o) = 1.
Proof. vm_compute. done. Qed.

Example revoked_keys_are_never_trusted :
  decision (check_known {| known_hosts := demo_store |} "db" 22 mallory) = Revoked.
Proof. vm_compute. done. Qed.

Definition first_use : TofuHostKeyVerifier * or_panic (result SshError HostKeyDecision) :=
  verify (TofuHostKeyVerifier_new KnownHostKeyVerifier_new) "example.com" 22 alice.

Lemma tofu_pins_first_key_witness :
  snd (verify (tofu_run (fst first_use) [("other.example.com", 2200%N, mallory)])
         "example.com" 22 mallory) = Returned (Ok Changed).
Proof.
  apply (tofu_pins_first_key (TofuHostKeyVerifier_new KnownHostKeyVerifier_new)
    (fst first_use) "example.com" 22 alice [("other.example.com", 2200%N, mallory)] mallory);
    [vm_compute; reflexivity..|].
  constructor; [vm_compute; reflexivity|constructor].
Defined.

(** Alice's key for the revoked host [db], then mallory's: the wildcard entry of another
    host and the revocation stay. *)
Definition filled_store : KnownHostKeyVerifier :=
  match insert_key {| known_hosts := demo_store |} "db" 22 mallory with
  | Returned v => v
  | Panicked => KnownHostKeyVerifier_new
  end.

Lemma insert_key_replaces_witness :
  exists v, insert_key filled_store "db" 22 alice = Returned v /\
    (host_patterns <$> entries (known_hosts filled_store)) = ["[*.example.com]:2200,!x"; "db"; "db"] /\
    (exists text, key_to_openssh alice = Ok text /\
       entries (known_hosts v) =
         List.filter (fun e => is_some (marker e) || negb (String.eqb (host_patterns e) "db"))
           (entries (known_hosts filled_store)) ++
         [{| host_patterns := "db"; marker := None; fingerprint := fingerprint_sha256 alice;
             public_key := text; line := 0 |}]) /\
    (fingerprint <$> entries (known_hosts v)) = ["SHA256:alice"; "SHA256:mallory"; "SHA256:alice"] /\
    decide_key (matching v "db" 22) (fingerprint_sha256 mallory) = Revoked /\
    matching v "db.example.com" 2200 = matching filled_store "db.example.com" 2200.
Proof.
  eexists. split; [vm_compute; reflexivity|]. split; [reflexivity|].
  destruct (insert_key_replaces filled_store _ "db" 22 alice eq_refl eq_refl) as (Hes & Hd & Ho).
  split_and!; [exact Hes|reflexivity|exact (Hd _)|].
  apply (Ho "db.example.com" 2200%N); [reflexivity|discriminate].
Defined.

Lemma demo_entry_fields m hosts text key :
  host_field hosts = true -> strip_prefix "ssh-ed25519 " text = Some key ->
  demo_entry (marker_field m +:+ hosts +:+ " " +:+ text) = Ok (m, hosts, key).
Proof.
  intros Hf Hk. pose proof (host_field_spec _ Hf) as [Hne Hg].
  assert (contains_char " " hosts = false) as Hs.
  { apply contains_char_bytes. eapply Forall_impl; [|exact Hg]. cbn. lia. }
  assert (forall p, strip_prefix (String "@" p) (hosts +:+ " " +:+ text) = None) as Hno.
  { intros p. destruct hosts as [|a s]; [done|]. unfold host_field in Hf.
    apply andb_true_iff in Hf as [_ Hf%negb_true_iff]. unfold starts_with, strip_prefix in *. cbn in *.
    by destruct (Ascii.eqb "@" a); [destruct s|]. }
  change (" " +:+ text) with (String " " text) in *.
  unfold demo_entry. destruct m as [[]|]; cbn [marker_field].
  - change (strip_prefix "@revoked " ("@cert-authority " +:+ _)) with (@None string). cbv iota.
    rewrite strip_prefix_app, split_once_app by done. by rewrite Hk.
  - rewrite strip_prefix_app, split_once_app by done. by rewrite Hk.
  - change ("" +:+ ?x) with x. rewrite !Hno, split_once_app by done. by rewrite Hk.
Qed.

#[export] Instance demo_format : KnownHostsFormat.
Proof.
  refine {| reread_host_patterns := Some; key_from_openssh := strip_prefix "ssh-ed25519 " |}.
  - intros m hosts hosts' text key Hf [= <-] Hk. eexists.
    split; [exact (demo_entry_fields m hosts text key Hf Hk)|done].
  - done.
  - intros key text. cbn. destruct (str_is_empty key); [done|]. intros [= <-] _.
    apply (strip_prefix_app "ssh-ed25519 ").
Defined.

Lemma demo_writable : Forall writable (rendered demo_store).
Proof.
  repeat constructor; try (vm_compute; reflexivity);
    [exists alice|exists mallory]; vm_compute; done.
Qed.

(** Among the two lines is a revoked key's. *)
Lemma parse_to_openssh_witness :
  parse (to_openssh demo_store) = Ok {| entries := renumber 0 (rendered demo_store) |} /\
  (marker <$> rendered demo_store) = [None; Some RevokedMarker].
Proof. split; [exact (parse_to_openssh demo_store demo_writable)|reflexivity]. Defined.

Lemma parse_line_numbers_witness :
  parse demo_file = Ok demo_store /\ StronglySorted N.lt (line <$> entries demo_store).
Proof.
  split; [vm_compute; reflexivity|].
  refine (proj1 (parse_line_numbers demo_file demo_store _)). vm_compute. reflexivity.
Defined.

End HostKeyDemo.
