(* ===== verification/TofuSpec.v ===== *)
(** * TofuSpec: what trust on first use promises, and that it is kept.

    The contract of [TofuHostKeyVerifier] ([src/core/host_key.rs]) as a small
    machine over a finite map of pins, and a refinement proof. *)

From stdpp Require Import fin_maps gmap.
From S2P Require Export HostKey.

(** Calls made on a verifier, with what each returned. *)
Section Runs.
Context {K : SshKeys} {V : Type} {HV : HostKeyVerifier V}.

Fixpoint verifier_run (v : V) (calls : list (string * N * PublicKey))
  : V * list (or_panic (result SshError HostKeyDecision)) :=
  match calls with
  | [] => (v, [])
  | (host, port, key) :: calls =>
      let '(v, r) := verify v host port key in
      let '(v, rs) := verifier_run v calls in
      (v, r :: rs)
  end.

End Runs.

Section Spec.
Context {K : SshKeys}.

(** ** The abstract machine

    A fixed store, which decides first, and a pin per host token it does not
    know. *)
Abbreviation pins := (gmap string string) (only parsing).

Definition spec_decide (store : KnownHostKeyVerifier) (m : pins) (host : string) (port : N)
    (fp : string) : HostKeyDecision :=
  match decide_key (matching store host port) fp with
  | Unknown =>
      match m !! host_token host port with
      | Some fp' => if String.eqb fp' fp then Trusted else Changed
      | None => Unknown
      end
  | d => d
  end.

(** Whoever comes first is pinned. *)
Definition spec_verify (store : KnownHostKeyVerifier) (m : pins) (host : string) (port : N)
    (fp : string) : pins * HostKeyDecision :=
  match spec_decide store m host port fp with
  | Unknown => (<[host_token host port := fp]> m, Trusted)
  | d => (m, d)
  end.

Fixpoint spec_run (store : KnownHostKeyVerifier) (m : pins)
    (calls : list (string * N * PublicKey)) : pins * list HostKeyDecision :=
  match calls with
  | [] => (m, [])
  | (host, port, key) :: calls =>
      let '(m, d) := spec_verify store m host port (fingerprint_sha256 key) in
      let '(m, ds) := spec_run store m calls in
      (m, d :: ds)
  end.

(** ** The simulation relation *)

Record tofu_implements (store : KnownHostKeyVerifier) (t : TofuHostKeyVerifier) (m : pins)
  : Prop := {
  ti_lock : poisoned t = false;
  ti_decide : forall host port fp, plain_token (host_token host port) = true ->
    decide_key (matching (inner t) host port) fp = spec_decide store m host port fp
}.

Lemma tofu_implements_new store : tofu_implements store (TofuHostKeyVerifier_new store) ∅.
Proof.
  split; [done|]. intros host port fp _. unfold spec_decide. rewrite lookup_empty. cbn.
  by destruct (decide_key _ _).
Qed.

(** A store that has nothing on a host has nothing on it for any key. *)
Lemma decide_key_unknown ms fp fp' : decide_key ms fp = Unknown -> decide_key ms fp' = Unknown.
Proof.
  intros H. assert (existsb (fun e => negb (is_ca e)) ms = false) as Hn.
  { unfold decide_key in H. repeat case_match; done. }
  assert (forall g, (forall e, g e = true -> negb (is_ca e) = true) -> existsb g ms = false) as Hno.
  { intros g Hg. apply not_true_is_false. intros (e & He & Hge)%existsb_exists.
    apply (eq_true_false_abs _ (proj2 (existsb_exists _ ms) (ex_intro _ e (conj He (Hg e Hge)))) Hn). }
  unfold decide_key. rewrite !Hno; [done|..]; intros e; unfold vouches, revokes, is_ca;
    by destruct (marker e) as [[]|].
Qed.

Lemma matching_token v h1 p1 h2 p2 :
  host_token h1 p1 = host_token h2 p2 -> matching v h1 p1 = matching v h2 p2.
Proof.
  intros Ht. unfold matching. apply List.filter_ext. intros e. by apply host_patterns_match_token.
Qed.

(** Pinning a key in the map is accepting it into the store. *)
Lemma tofu_implements_accept store t m host port key v :
  tofu_implements store t m -> plain_token (host_token host port) = true ->
  spec_decide store m host port (fingerprint_sha256 key) = Unknown ->
  accept_key (inner t) host port key = Returned v ->
  tofu_implements store {| inner := v; poisoned := false |}
    (<[host_token host port := fingerprint_sha256 key]> m).
Proof.
  intros [_ Hd] Ht Hu Ha. split; [done|]. intros h p fp Hp. cbn [inner].
  pose proof (Hd host port (fingerprint_sha256 key) Ht) as Hk. rewrite Hu in Hk.
  destruct (decide (host_token host port = host_token h p)) as [Heq|Hne].
  - rewrite <-(matching_token v host port h p Heq).
    rewrite (accept_key_pins _ _ _ _ _ Ht (eq_trans (check_known_decision _ _ _ _) Hk) Ha fp).
    unfold spec_decide. rewrite <-(matching_token store host port h p Heq), <-Heq, lookup_insert_eq.
    assert (decide_key (matching store host port) fp = Unknown) as ->; [|done].
    apply (decide_key_unknown _ (fingerprint_sha256 key)).
    revert Hu. unfold spec_decide.
    by destruct (decide_key (matching store host port) (fingerprint_sha256 key)).
  - transitivity (spec_decide store m h p fp).
    + rewrite <-(Hd h p fp Hp). f_equal. unfold accept_key, push_key in Ha.
      destruct (key_to_openssh key); [|done]. injection Ha as <-.
      rewrite matching_app. destruct (inner t) as [[es]]. unfold matching at 2. cbn.
      assert (host_patterns_match (host_token host port) h p = false) as ->;
        [|by rewrite app_nil_r].
      apply not_true_is_false. by intros ?%plain_pattern_matches.
    + unfold spec_decide. by rewrite lookup_insert_ne.
Qed.

Definition encodable (key : PublicKey) : Prop := is_ok (key_to_openssh key) = true.

(** One call: the verifier and the machine answer alike and stay related. *)
Lemma tofu_verify_implements store t m host port key :
  tofu_implements store t m -> plain_token (host_token host port) = true -> encodable key ->
  let '(m', d) := spec_verify store m host port (fingerprint_sha256 key) in
  exists t', verify t host port key = (t', Returned (Ok d)) /\ tofu_implements store t' m'.
Proof.
  intros Hi Ht He. pose proof Hi as [Hl Hd]. cbn. unfold tofu_verify. rewrite Hl.
  rewrite check_known_decision, (Hd host port _ Ht). unfold spec_verify.
  destruct (spec_decide store m host port (fingerprint_sha256 key)) eqn:Hs; cbn;
    try (eexists; split; [reflexivity|done]).
  destruct (accept_key (inner t) host port key) as [v|] eqn:Ha.
  - eexists. split; [reflexivity|]. by apply (tofu_implements_accept store t).
  - exfalso. unfold accept_key, push_key, encodable in *.
    by destruct (key_to_openssh key).
Qed.

Lemma tofu_run_implements store calls : forall t m,
  tofu_implements store t m ->
  Forall (fun '(h, p, k) => plain_token (host_token h p) = true /\ encodable k) calls ->
  snd (verifier_run t calls) = (fun d => Returned (Ok d)) <$> snd (spec_run store m calls) /\
  tofu_implements store (fst (verifier_run t calls)) (fst (spec_run store m calls)).
Proof.
  induction calls as [|[[h p] k] calls IH]; intros t m Hi Hall; [done|].
  apply Forall_cons_1 in Hall as [[Ht He] Hall]. cbn.
  pose proof (tofu_verify_implements store t m h p k Hi Ht He) as Hv.
  destruct (spec_verify store m h p (fingerprint_sha256 k)) as [m' d].
  destruct Hv as (t' & Hv & Hi'). cbn in Hv. rewrite Hv. destruct (IH t' m' Hi' Hall) as [Ho Hf].
  destruct (verifier_run t' calls) as [t2 rs], (spec_run store m' calls) as [m2 ds].
  cbn in *. by rewrite Ho.
Qed.

(** C7: trust on first use refines its contract: over any store, any series of [verify]
    calls for plain host names and encodable keys answers exactly as the machine that
    consults the store and otherwise pins, in a map from host tokens, the first
    fingerprint it sees; [check] then reports the machine's verdict without pinning. *)
Theorem tofu_refines_pins store calls host port key :
  Forall (fun '(h, p, k) => plain_token (host_token h p) = true /\ encodable k) calls ->
  plain_token (host_token host port) = true ->
  let t := TofuHostKeyVerifier_new store in
  let m := fst (spec_run store ∅ calls) in
  let t' := fst (verifier_run t calls) in
  snd (verifier_run t calls) = (fun d => Returned (Ok d)) <$> snd (spec_run store ∅ calls) /\
  exists o, check t' host port key = (t', Returned (Ok o)) /\
    decision o = spec_decide store m host port (fingerprint_sha256 key).
Proof.
  intros Hc Ht. cbn zeta.
  destruct (tofu_run_implements store calls _ _ (tofu_implements_new store) Hc) as [Ho [Hl Hd]].
  split; [done|]. eexists. split; [cbn; unfold tofu_check; by rewrite Hl|].
  by rewrite check_known_decision, Hd.
Qed.

End Spec.
