(* ===== verification/Auth.v ===== *)
(** * Auth: authentication material and the authentication plan
    ([src/core/auth.rs]). *)

From S2P Require Export HostKey.

(** ** Third-party key material *)

Class AuthKeys {K : SshKeys} := {
  PrivateKey : Type;
  Certificate : Type;
  Algorithm : Type;
  (** [matches!(algorithm, Algorithm::Rsa { .. })] and [Debug] *)
  algorithm_is_rsa : Algorithm -> bool;
  algorithm_debug : Algorithm -> string;
  key_algorithm : PrivateKey -> Algorithm;
  public_key_algorithm : PublicKey -> Algorithm;
  key_is_encrypted : PrivateKey -> bool;
  (** [PrivateKey::decrypt]; the error is its [Display] text *)
  key_decrypt : PrivateKey -> string -> result string PrivateKey;
  (** [cert_type().is_user()], [algorithm()], [key_id()] *)
  certificate_is_user : Certificate -> bool;
  certificate_algorithm : Certificate -> Algorithm;
  certificate_key_id : Certificate -> string;
  (** [key.public_key().key_data() == certificate.public_key()] *)
  certificate_matches_key : PrivateKey -> Certificate -> bool;
  (** [Arc<dyn KeyboardInteractiveHandler>]: code of the caller *)
  KeyboardInteractiveHandler : Type
}.

(** A [PathBuf] is its text. *)
Abbreviation PathBuf := string (only parsing).

(** ** Secrets *)

(** [SecretString]. *)
Record SecretString := { secret : string }.

Definition SecretString_new (value : string) : SecretString := {| secret := value |}.
Definition as_str (s : SecretString) : string := secret s.
Definition secret_is_empty (s : SecretString) : bool := str_is_empty (secret s).
Definition secret_clone (s : SecretString) : SecretString := SecretString_new (as_str s).

(** [Debug] and [Display] of a secret. *)
Definition secret_debug (s : SecretString) : string := "SecretString(REDACTED)".
Definition secret_display (s : SecretString) : string := "[REDACTED]".

(** ** Methods *)

(** [RsaHashAlgorithm]; [Auto] is the default. *)
Inductive RsaHashAlgorithm := Auto | Sha256 | Sha512 | LegacySha1.

Definition default_rsa_hash : RsaHashAlgorithm := Auto.

Definition rsa_hash_debug (h : RsaHashAlgorithm) : string :=
  match h with
  | Auto => "Auto" | Sha256 => "Sha256" | Sha512 => "Sha512" | LegacySha1 => "LegacySha1"
  end.

(** [KeyboardInteractivePrompt] and [KeyboardInteractiveChallenge]. *)
Record KeyboardInteractivePrompt := { prompt_text : string; prompt_echo : bool }.

Record KeyboardInteractiveChallenge := {
  challenge_name : string;
  challenge_instructions : string;
  challenge_prompts : list KeyboardInteractivePrompt
}.

Section Methods.
Context {K : SshKeys} {A : AuthKeys}.

(** [AuthMethod]. *)
Inductive AuthMethod :=
| Password (password : SecretString)
| MPrivateKey (key : PrivateKey) (passphrase : option SecretString)
    (rsa_hash : RsaHashAlgorithm)
| OpenSshCertificate (key : PrivateKey) (certificate : Certificate)
    (passphrase : option SecretString)
| KeyboardInteractive (submethods : option string) (handler : KeyboardInteractiveHandler)
| Agent (socket : option PathBuf) (rsa_hash : RsaHashAlgorithm).

Definition password (p : string) : AuthMethod := Password (SecretString_new p).

Definition with_key_options (key : PrivateKey) (passphrase : option SecretString)
    (rsa_hash : RsaHashAlgorithm) : AuthMethod :=
  MPrivateKey key passphrase rsa_hash.

Definition private_key (key : PrivateKey) : AuthMethod := MPrivateKey key None Auto.

Definition private_key_with_passphrase (key : PrivateKey) (passphrase : string) : AuthMethod :=
  with_key_options key (Some (SecretString_new passphrase)) Auto.

Definition private_key_with_rsa_hash (key : PrivateKey) (rsa_hash : RsaHashAlgorithm)
  : AuthMethod :=
  with_key_options key None rsa_hash.

Definition private_key_with_passphrase_and_rsa_hash (key : PrivateKey) (passphrase : string)
    (rsa_hash : RsaHashAlgorithm) : AuthMethod :=
  with_key_options key (Some (SecretString_new passphrase)) rsa_hash.

Definition openssh_certificate (key : PrivateKey) (certificate : Certificate) : AuthMethod :=
  OpenSshCertificate key certificate None.

Definition openssh_certificate_with_passphrase (key : PrivateKey) (certificate : Certificate)
    (passphrase : string) : AuthMethod :=
  OpenSshCertificate key certificate (Some (SecretString_new passphrase)).

Definition keyboard_interactive (handler : KeyboardInteractiveHandler) : AuthMethod :=
  KeyboardInteractive None handler.

Definition keyboard_interactive_with_submethods (submethods : string)
    (handler : KeyboardInteractiveHandler) : AuthMethod :=
  KeyboardInteractive (Some submethods) handler.

Definition keyboard_interactive_handler (handler : KeyboardInteractiveHandler) : AuthMethod :=
  KeyboardInteractive None handler.

Definition agent : AuthMethod := Agent None Auto.
Definition agent_from_socket (path : PathBuf) : AuthMethod := Agent (Some path) Auto.
Definition agent_with_rsa_hash (rsa_hash : RsaHashAlgorithm) : AuthMethod := Agent None rsa_hash.

(** [AuthMethod::kind]. *)
Definition kind (m : AuthMethod) : AuthMethodKind :=
  match m with
  | Password _ => KPassword
  | MPrivateKey _ _ _ => KPrivateKey
  | OpenSshCertificate _ _ _ => KOpenSshCertificate
  | KeyboardInteractive _ _ => KKeyboardInteractive
  | Agent _ _ => KAgent
  end.

(** ** Plans *)

(** [AuthenticationPlan]. *)
Record AuthenticationPlan := { methods : list AuthMethod }.

Definition AuthenticationPlan_new (ms : list AuthMethod) : AuthenticationPlan :=
  {| methods := ms |}.
Definition single (m : AuthMethod) : AuthenticationPlan := AuthenticationPlan_new [m].
Definition plan_push (p : AuthenticationPlan) (m : AuthMethod) : AuthenticationPlan :=
  {| methods := methods p ++ [m] |}.
Definition plan_is_empty (p : AuthenticationPlan) : bool :=
  match methods p with [] => true | _ => false end.
Definition into_methods (p : AuthenticationPlan) : list AuthMethod := methods p.

(** [From<AuthMethod> for AuthenticationPlan]. *)
Definition plan_from_method (m : AuthMethod) : AuthenticationPlan := single m.

(** ** [Debug for AuthMethod]

    The calls made on the [Formatter]; layout is the standard library's. *)
Inductive debug_value :=
| DText (text : string)
| DStr (s : string)
| DBool (b : bool)
| DOption (o : option debug_value)
| DStruct (name : string) (fields : list (string * debug_value)).

Definition redacted_passphrase (p : option SecretString) : debug_value :=
  DOption ((fun _ => DStr "REDACTED") <$> p).

Definition auth_method_debug (m : AuthMethod) : debug_value :=
  match m with
  | Password _ => DText "Password(REDACTED)"
  | MPrivateKey key passphrase rsa_hash =>
      DStruct "PrivateKey"
        [("algorithm", DText (algorithm_debug (key_algorithm key)));
         ("encrypted", DBool (key_is_encrypted key));
         ("rsa_hash", DText (rsa_hash_debug rsa_hash));
         ("passphrase", redacted_passphrase passphrase)]
  | OpenSshCertificate key certificate passphrase =>
      DStruct "OpenSshCertificate"
        [("key_algorithm", DText (algorithm_debug (key_algorithm key)));
         ("certificate_algorithm", DText (algorithm_debug (certificate_algorithm certificate)));
         ("certificate_key_id", DStr (certificate_key_id certificate));
         ("encrypted", DBool (key_is_encrypted key));
         ("passphrase", redacted_passphrase passphrase)]
  | KeyboardInteractive submethods _ =>
      DStruct "KeyboardInteractive"
        [("submethods", DOption (DStr <$> submethods)); ("handler", DStr "configured")]
  | Agent socket rsa_hash =>
      DStruct "Agent"
        [("socket", DOption (DStr <$> socket)); ("rsa_hash", DText (rsa_hash_debug rsa_hash))]
  end.

(** ** Observations *)

(** [AuthenticationObservation::record_failure]. *)
Definition record_failure (o : AuthenticationObservation) (m : AuthMethodKind)
    (remaining : list ServerAuthMethod) (partial_success : bool) : AuthenticationObservation :=
  {| attempts := attempts o ++
       [{| at_method := m; at_accepted := false; at_partial_success := partial_success;
           at_remaining_methods := remaining; at_error := None |}];
     ob_remaining_methods := remaining;
     ob_partial_success := partial_success |}.

(** [AuthenticationObservation::record_error]. *)
Definition record_error (o : AuthenticationObservation) (m : AuthMethodKind)
    (error : SshError) : AuthenticationObservation :=
  {| attempts := attempts o ++
       [{| at_method := m; at_accepted := false; at_partial_success := false;
           at_remaining_methods := []; at_error := Some (SshError.message error) |}];
     ob_remaining_methods := ob_remaining_methods o;
     ob_partial_success := ob_partial_success o |}.

(** ** Indistinguishable material *)

(** Two private keys that an observer of [Debug] cannot tell apart: their
    secret parts may differ. *)
Definition same_public_key (k k' : PrivateKey) : Prop :=
  key_algorithm k = key_algorithm k' /\ key_is_encrypted k = key_is_encrypted k'.

(** Two methods that differ only in passwords, passphrases, private key
    material and callbacks. *)
Inductive same_public : AuthMethod -> AuthMethod -> Prop :=
| same_password p p' : same_public (Password p) (Password p')
| same_private_key k k' p p' h :
    same_public_key k k' -> is_some p = is_some p' ->
    same_public (MPrivateKey k p h) (MPrivateKey k' p' h)
| same_certificate k k' c p p' :
    same_public_key k k' -> is_some p = is_some p' ->
    same_public (OpenSshCertificate k c p) (OpenSshCertificate k' c p')
| same_keyboard s h h' : same_public (KeyboardInteractive s h) (KeyboardInteractive s h')
| same_agent s h : same_public (Agent s h) (Agent s h).

Lemma redacted_passphrase_same p p' :
  is_some p = is_some p' -> redacted_passphrase p = redacted_passphrase p'.
Proof. by destruct p, p'. Qed.

Lemma record_failure_kinds o m remaining partial :
  at_method <$> attempts (record_failure o m remaining partial) =
  (at_method <$> attempts o) ++ [m].
Proof. cbn. by rewrite fmap_app. Qed.

Lemma record_error_kinds o m e :
  at_method <$> attempts (record_error o m e) = (at_method <$> attempts o) ++ [m].
Proof. cbn. by rewrite fmap_app. Qed.

(** Formatting a secret or an authentication method with [Debug] or [Display]
    reveals nothing secret: methods that differ only in passwords, passphrases, secret
    key material or callbacks are formatted identically. *)
Lemma auth_debug_redacted m m' s s' :
  same_public m m' ->
  auth_method_debug m = auth_method_debug m' /\
  secret_debug s = secret_debug s' /\ secret_display s = secret_display s'.
Proof.
  intros Hm. split; [|done].
  destruct Hm as [p p'|k k' p p' h [Ha He] Hp|k k' c p p' [Ha He] Hp|x h h'|x h]; cbn.
  - done.
  - by rewrite Ha, He, (redacted_passphrase_same _ _ Hp).
  - by rewrite Ha, He, (redacted_passphrase_same _ _ Hp).
  - done.
  - done.
Qed.

End Methods.
