(* ===== verification/SecretMemory.v ===== *)
(** * SecretMemory: secrets as allocations ([SecretString] of [src/core/auth.rs]).

    The other files model a secret by its value.  Here it is what the type is made of: a
    [String]'s allocation, owned by one [SecretString], cleared by its [Drop].  The
    memory keeps what a freed allocation held, since that is what the type is there to
    protect.  The theorem at the end relates the two models. *)

From stdpp Require Import gmap fin_maps.
From S2P Require Export Auth.

(** ** Strings in memory *)

(** A [String]: its bytes, and the rest of its capacity. *)
Record Buffer := { text : string; spare : list byte }.

Definition capacity_bytes (b : Buffer) : list byte := list_byte_of_string (text b) ++ spare b.

(** The zeroize crate: [<String as Zeroize>::zeroize]. *)
Class ZeroizeLib := zeroize : Buffer -> Buffer.

(** What it documents: the whole capacity is overwritten with zeros, the string is empty. *)
Class Zeroizes `{ZeroizeLib} := zeroize_clears : forall b,
  zeroize b = {| text := ""; spare := replicate (length (capacity_bytes b)) x00 |}.

(** The allocations made so far with what they hold, and those not freed yet. *)
Record memory := { cells : gmap N Buffer; live : gset N; next_cell : N }.

Definition no_memory : memory := {| cells := ∅; live := ∅; next_cell := 0 |}.

Definition allocate (b : Buffer) (m : memory) : N * memory :=
  (next_cell m, {| cells := <[next_cell m := b]> (cells m);
                   live := {[next_cell m]} ∪ live m; next_cell := next_cell m + 1 |}).

Definition overwrite (f : Buffer -> Buffer) (p : N) (m : memory) : memory :=
  {| cells := alter f p (cells m); live := live m; next_cell := next_cell m |}.

Definition free (p : N) (m : memory) : memory :=
  {| cells := cells m; live := live m ∖ {[p]}; next_cell := next_cell m |}.

(** [impl Into<String>]: a borrowed text is copied into an allocation of its size, an
    owned [String] brings its own. *)
Inductive into_string := Borrowed (s : string) | Owned (b : Buffer).

Definition into (v : into_string) : Buffer :=
  match v with Borrowed s => {| text := s; spare := [] |} | Owned b => b end.

(** ** [SecretString] *)

Section Secrets.
Context `{ZeroizeLib}.

(** [SecretString(Zeroizing<String>)]: the allocation it owns. *)
Definition secret_new (v : into_string) (m : memory) : N * memory := allocate (into v) m.

Definition secret_as_str (s : N) (m : memory) : option string := text <$> cells m !! s.

Definition secret_copy (s : N) (m : memory) : option (N * memory) :=
  t ← secret_as_str s m; Some (secret_new (Borrowed t) m).

(** [Drop for SecretString], then the drop of its field: [Zeroizing] clears the string
    again and the string frees its allocation. *)
Definition secret_drop (s : N) (m : memory) : memory :=
  let m := overwrite zeroize s m in
  let m := overwrite zeroize s m in
  free s m.

(** ** Programs on secrets

    What a client of the type can do.  Rust's ownership admits only owned secrets, which
    is the [guard]. *)
Inductive secret_op :=
| NewSecret (v : into_string)
| CloneSecret (s : N)
| DropSecret (s : N)
| ReadSecret (s : N)
| TestEmpty (s : N).

Inductive secret_outcome := Made (s : N) | Dropped | Text (s : string) | Truth (b : bool).

Definition exec_op (o : secret_op) (m : memory) : option (secret_outcome * memory) :=
  match o with
  | NewSecret v => let '(s, m) := secret_new v m in Some (Made s, m)
  | CloneSecret s => guard (s ∈ live m);; '(s, m) ← secret_copy s m; Some (Made s, m)
  | DropSecret s => guard (s ∈ live m);; Some (Dropped, secret_drop s m)
  | ReadSecret s => guard (s ∈ live m);; t ← secret_as_str s m; Some (Text t, m)
  | TestEmpty s => guard (s ∈ live m);; t ← secret_as_str s m; Some (Truth (str_is_empty t), m)
  end.

(** The same operations on values. *)
Record owned := { secrets : gmap N SecretString; next_secret : N }.

Definition no_secrets : owned := {| secrets := ∅; next_secret := 0 |}.

Definition own (v : SecretString) (a : owned) : secret_outcome * owned :=
  (Made (next_secret a), {| secrets := <[next_secret a := v]> (secrets a);
                            next_secret := next_secret a + 1 |}).

Definition value_op (o : secret_op) (a : owned) : option (secret_outcome * owned) :=
  match o with
  | NewSecret v => Some (own (SecretString_new (text (into v))) a)
  | CloneSecret s => v ← secrets a !! s; Some (own (secret_clone v) a)
  | DropSecret s =>
      _ ← secrets a !! s;
      Some (Dropped, {| secrets := delete s (secrets a); next_secret := next_secret a |})
  | ReadSecret s => v ← secrets a !! s; Some (Text (as_str v), a)
  | TestEmpty s => v ← secrets a !! s; Some (Truth (secret_is_empty v), a)
  end.

(** A program run by [step]. *)
Fixpoint run_secrets {St : Type} (step : secret_op -> St -> option (secret_outcome * St))
    (os : list secret_op) (st : St) : option (list secret_outcome * St) :=
  match os with
  | [] => Some ([], st)
  | o :: os =>
      '(r, st) ← step o st;
      '(rs, st) ← run_secrets step os st;
      Some (r :: rs, st)
  end.

End Secrets.

(** ** The two models agree *)

Section Refinement.
Context `{Zeroizes}.

(** Every byte of the allocation is zero. *)
Definition cleared (b : Buffer) : Prop := exists n, capacity_bytes b = replicate n x00.

(** The cell holds the owned value, or nothing any more. *)
Definition keeps (b : Buffer) (v : option SecretString) : Prop :=
  match v with Some v => text b = as_str v | None => cleared b end.

(** [m] is a memory of the secrets [a]. *)
Record stores (a : owned) (m : memory) : Prop := {
  st_next : next_cell m = next_secret a;
  st_live : live m = dom (secrets a);
  st_fresh : forall s, (next_secret a <= s)%N -> secrets a !! s = None;
  st_cells : forall s, (s < next_secret a)%N ->
    exists b, cells m !! s = Some b /\ keeps b (secrets a !! s)
}.

Lemma stores_nothing : stores no_secrets no_memory.
Proof. split; cbn; [done|by rewrite dom_empty_L|done|lia]. Qed.

Lemma stores_new v a m :
  stores a m ->
  let '(r, a') := own (SecretString_new (text (into v))) a in
  let '(s, m') := secret_new v m in
  r = Made s /\ stores a' m'.
Proof.
  intros [Hn Hl Hf Hc]. cbn. split; [by rewrite Hn|]. split; cbn.
  - by rewrite Hn.
  - by rewrite Hn, Hl, dom_insert_L.
  - intros s Hs. rewrite lookup_insert_ne by lia. apply Hf. lia.
  - intros s Hs. rewrite Hn. destruct (decide (s = next_secret a)) as [->|Hne].
    + rewrite !lookup_insert_eq. by eexists.
    + rewrite !lookup_insert_ne by done. apply Hc. lia.
Qed.

(** An owned secret is readable. *)
Lemma stores_read a m s :
  stores a m ->
  match secrets a !! s with
  | Some v => s ∈ live m /\ secret_as_str s m = Some (as_str v)
  | None => s ∉ live m
  end.
Proof.
  intros [_ -> Hf Hc]. destruct (secrets a !! s) as [v|] eqn:Hs.
  - split; [by apply elem_of_dom|].
    destruct (decide (s < next_secret a)%N) as [Hlt|Hge]; [|by rewrite Hf in Hs by lia].
    destruct (Hc s Hlt) as (b & Hb & Hk). rewrite Hs in Hk. unfold secret_as_str.
    rewrite Hb. cbn. by f_equal.
  - by apply not_elem_of_dom.
Qed.

Lemma stores_drop a m s :
  stores a m -> is_Some (secrets a !! s) ->
  stores {| secrets := delete s (secrets a); next_secret := next_secret a |} (secret_drop s m).
Proof.
  intros [Hn Hl Hf Hc] Hs. split; cbn; [done|by rewrite Hl, dom_delete_L| |].
  - intros j Hj. apply lookup_delete_None. right. by apply Hf.
  - intros j Hj. destruct (Hc j Hj) as (b & Hb & Hk). destruct (decide (j = s)) as [->|Hne].
    + rewrite !lookup_alter_eq, Hb, lookup_delete_eq. eexists. split; [done|].
      cbn. rewrite !zeroize_clears. by eexists.
    + rewrite !lookup_alter_ne, lookup_delete_ne by done. eauto.
Qed.

(** One operation: the same outcome, and the memory still stores the secrets. *)
Lemma stores_op o a m :
  stores a m ->
  match value_op o a with
  | Some (r, a') => exists m', exec_op o m = Some (r, m') /\ stores a' m'
  | None => exec_op o m = None
  end.
Proof.
  intros Hst. destruct o as [v|s|s|s|s]; cbn.
  { pose proof (stores_new v a m Hst) as [Hr Ha]. cbn in Hr. eexists. split; [|done]. by rewrite Hr. }
  all: pose proof (stores_read a m s Hst) as Hr;
    destruct (secrets a !! s) as [v|] eqn:Hs; cbn;
    [destruct Hr as [Hin Ht]; rewrite option_guard_True by done; cbn; rewrite ?Ht; cbn
    |by rewrite option_guard_False].
  - pose proof (stores_new (Borrowed (as_str v)) a m Hst) as [Hm Ha]. cbn in Hm.
    unfold secret_copy. rewrite Ht. eexists. split; [|done]. by rewrite Hm.
  - eexists. split; [done|]. by apply stores_drop.
  - by exists m.
  - by exists m.
Qed.

Lemma stores_run os a m :
  stores a m ->
  match run_secrets value_op os a with
  | Some (rs, a') => exists m', run_secrets exec_op os m = Some (rs, m') /\ stores a' m'
  | None => run_secrets exec_op os m = None
  end.
Proof.
  revert a m. induction os as [|o os IH]; intros a m Hst; cbn; [by exists m|].
  pose proof (stores_op o a m Hst) as Ho. destruct (value_op o a) as [[r a1]|]; cbn.
  - destruct Ho as (m1 & -> & H1). cbn. specialize (IH a1 m1 H1).
    destruct (run_secrets value_op os a1) as [[rs a2]|]; cbn.
    + destruct IH as (m2 & -> & H2). by exists m2.
    + by rewrite IH.
  - by rewrite Ho.
Qed.

End Refinement.

(** ** Properties *)

(** C5: a [SecretString] in memory behaves as the value the rest of the development takes it
    for, and leaves nothing behind: any program that creates (from borrowed or owned
    strings), clones, reads and drops secrets in any order gives the outcomes it has on
    values (a clone reads the same text and survives the drop of its original, and the
    converse), and at its end every allocation ever made for a secret either belongs to a
    secret still owned or holds, over its whole capacity, zeros only. *)
Theorem secrets_refined_and_cleared `{Zeroizes} os :
  match run_secrets value_op os no_secrets with
  | Some (rs, a) => exists m,
      run_secrets exec_op os no_memory = Some (rs, m) /\
      live m = dom (secrets a) /\
      (forall s v, secrets a !! s = Some v -> secret_as_str s m = Some (as_str v)) /\
      (forall s, (s < next_cell m)%N -> s ∉ live m ->
         exists b n, cells m !! s = Some b /\ capacity_bytes b = replicate n x00)
  | None => run_secrets exec_op os no_memory = None
  end.
Proof.
  pose proof (stores_run os _ _ stores_nothing) as Hr.
  destruct (run_secrets value_op os no_secrets) as [[rs a]|]; [|done].
  destruct Hr as (m & Hm & Hst). exists m. split; [done|]. split; [apply Hst|]. split.
  - intros s v Hs. pose proof (stores_read a m s Hst) as Hr. rewrite Hs in Hr. apply Hr.
  - intros s Hlt Hs. rewrite (st_next _ _ Hst) in Hlt.
    destruct (st_cells _ _ Hst s Hlt) as (b & Hb & Hk). exists b.
    rewrite (st_live _ _ Hst), not_elem_of_dom in Hs. rewrite Hs in Hk.
    destruct Hk as [n Hn]. by exists n.
Qed.
