(* ===== verification/System.v ===== *)
(** * System: the foreign calls of the crate.

    The types of [russh], [russh-sftp] and [tokio] the crate holds values of,
    and the signature of the calls it makes on them ([op] for the futures it
    awaits, [query] for the synchronous ones).  Nothing is said about what the
    calls answer: that is the environment's part, and theorems that rely on
    documented behaviour state it as a hypothesis. *)

From stdpp Require Export vector.
From S2P Require Export Auth Operation Settle.

(** ** Types of the libraries *)

(** The [cfg] predicates the code tests: [unix], [windows], neither. *)
Inductive Platform := Unix | Windows | OtherPlatform.

Class Libraries {K : SshKeys} {A : AuthKeys} := {
  (** the platform the crate is built for *)
  target_platform : Platform;
  (** [russh] *)
  Handle : Type;
  RawChannel : Type;
  RawStream : Type;
  into_raw_stream : RawChannel -> RawStream;
  HashAlg : Type;
  HashAlg_Sha256 : HashAlg;
  HashAlg_Sha512 : HashAlg;
  AgentClient : Type;
  Pty : Type;
  SignalName : Type;
  signal_debug : SignalName -> string;
  ChannelOpenFailure : Type;
  open_failure_debug : ChannelOpenFailure -> string;
  (** error values of [russh], [russh-sftp] and [std::io], and [Display] *)
  ForeignError : Type;
  error_to_string : ForeignError -> string;
  (** [std::io::Error::new] *)
  io_invalid_data : string -> ForeignError;
  (** [tokio] *)
  TcpListener : Type;
  TcpStream : Type;
  UnixListener : Type;
  UnixStream : Type;
  (** an argument of type [impl ToSocketAddrs] *)
  BindAddress : Type;
  (** [russh-sftp] *)
  RawSftp : Type;
  SftpFile : Type;
  Metadata : Type;
  OpenFlags : Type;
  DirEntry : Type;
  entry_file_name : DirEntry -> string;
  entry_metadata : DirEntry -> Metadata
}.

(** [tokio::sync::Semaphore] as documented: a counter that [new] refuses to
    create beyond its maximum ([None] is a panic). *)
Class SemaphoreLib := {
  Sem : Type;
  sem_new : N -> option Sem;
  sem_try_acquire : Sem -> option Sem;
  sem_release : Sem -> Sem;
  sem_available : Sem -> N;
  sem_new_available : forall n s, sem_new n = Some s -> sem_available s = n;
  sem_try_acquire_None : forall s, sem_try_acquire s = None <-> sem_available s = 0%N;
  sem_try_acquire_Some : forall s s',
    sem_try_acquire s = Some s' -> sem_available s = (sem_available s' + 1)%N;
  sem_release_available : forall s, sem_available (sem_release s) = (sem_available s + 1)%N
}.

(** [std::net::IpAddr] by its octets, and [SocketAddr] with [ip]. *)
Inductive IpAddr := IpV4 (octets : vec byte 4) | IpV6 (octets : vec byte 16).

#[export] Instance byte_eq_dec : EqDecision byte := Byte.byte_eq_dec.
#[export] Instance IpAddr_eq_dec : EqDecision IpAddr.
Proof. solve_decision. Defined.

Inductive SocketAddr :=
| SocketV4 (ip : vec byte 4) (port : N)
| SocketV6 (ip : vec byte 16) (port flowinfo scope_id : N).

Definition socket_addr_ip (a : SocketAddr) : IpAddr :=
  match a with SocketV4 ip _ => IpV4 ip | SocketV6 ip _ _ _ => IpV6 ip end.

(** [MethodKind] and [MethodSet] of [russh]; the code matches the former
    exhaustively. *)
Inductive MethodKind := MkNone | MkPassword | MkPublicKey | MkHostBased | MkKeyboardInteractive.
Abbreviation MethodSet := (list MethodKind) (only parsing).

(** [client::AuthResult]. *)
Inductive AuthResult :=
| AuthSuccess
| AuthFailure (remaining_methods : MethodSet) (partial_success : bool).

(** [client::KeyboardInteractiveAuthResponse]; a prompt is [prompt], [echo]. *)
Inductive KeyboardInteractiveAuthResponse :=
| KbSuccess
| KbFailure (remaining_methods : MethodSet) (partial_success : bool)
| KbInfoRequest (name instructions : string) (prompts : list (string * bool)).

(** The fields of [client::Config] the crate sets. *)
Record ClientConfig := { cc_keepalive_interval : option Duration; cc_nodelay : bool }.

(** [CounterDirection] of [src/core/relay.rs]. *)
Inductive CounterDirection := LocalToRemote | RemoteToLocal.

(** Name of an [mpsc] queue created by a session. *)
Abbreviation QueueId := N (only parsing).

Section Signature.
Context {K : SshKeys} {A : AuthKeys} {L : Libraries}.

(** [ChannelMsg]: the variants the code names, and all others. *)
Inductive ChannelMsg :=
| MsgData (data : list byte)
| MsgExtendedData (ext : N) (data : list byte)
| MsgEof
| MsgClose
| MsgExitStatus (exit_status : N)
| MsgExitSignal (signal_name : SignalName) (core_dumped : bool) (error_message lang_tag : string)
| MsgSuccess
| MsgFailure
| MsgOpenFailure (e : ChannelOpenFailure)
| MsgOther.

(** [PendingForwardedTcpip] and [PendingForwardedStreamlocal] of
    [src/core/channel.rs]; ports are [u32]. *)
Record PendingForwardedTcpip := {
  pf_channel : RawChannel;
  pf_connected_address : string;
  pf_connected_port : N;
  pf_originator_address : string;
  pf_originator_port : N
}.

Record PendingForwardedStreamlocal := {
  ps_channel : RawChannel;
  ps_socket_path : string
}.

(** [Arc<dyn HostKeyVerifier>]: a verifier of some type, in its current state. *)
Record dyn_verifier := DynVerifier {
  dv_type : Type;
  dv_impl : HostKeyVerifier dv_type;
  dv_state : dv_type
}.

(** [ClientHandler] of [src/core/session.rs]. *)
Record ClientHandler := {
  ch_host : string;
  ch_port : N;
  verifier : dyn_verifier;
  forwarded_tcpip_sender : QueueId;
  forwarded_streamlocal_sender : QueueId
}.

(** Byte streams: sockets, SSH channel streams, and a [CountingStream] around
    one of them. *)
Inductive io :=
| TcpIo (s : TcpStream)
| UnixIo (s : UnixStream)
| SshIo (s : RawStream)
| CountingIo (read_direction : CounterDirection) (inner : io).

(** ** Futures awaited *)

Inductive call :=
(* connecting *)
| ClientConnect (cfg : ClientConfig) (address : string) (handler : ClientHandler)
| ClientConnectStream (cfg : ClientConfig) (stream : RawStream) (handler : ClientHandler)
(* authenticating *)
| AuthenticatePassword (h : Handle) (user pass : string)
| AuthenticatePublickey (h : Handle) (user : string) (key : PrivateKey) (hash : option HashAlg)
| AuthenticateCert (h : Handle) (user : string) (key : PrivateKey) (cert : Certificate)
| KeyboardStart (h : Handle) (user : string) (submethods : option string)
| KeyboardRespond (h : Handle) (responses : list string)
| HandlerRespond (k : KeyboardInteractiveHandler) (challenge : KeyboardInteractiveChallenge)
| BestSupportedRsaHash (h : Handle)
| AgentConnectUds (path : PathBuf)
| AgentConnectEnv
| AgentConnectNamedPipe (path : PathBuf)
| AgentConnectPageant
| AgentRequestIdentities (a : AgentClient)
| AuthenticatePublickeyWith (h : Handle) (user : string) (key : PublicKey)
    (hash : option HashAlg) (a : AgentClient)
(* session *)
| ChannelOpenSession (h : Handle)
| ChannelOpenDirectTcpip (h : Handle) (host : string) (port : N) (orig : string) (orig_port : N)
| ChannelOpenDirectStreamlocal (h : Handle) (path : string)
| TcpipForward (h : Handle) (address : string) (port : N)
| CancelTcpipForward (h : Handle) (address : string) (port : N)
| StreamlocalForward (h : Handle) (path : string)
| CancelStreamlocalForward (h : Handle) (path : string)
| HandleDisconnect (h : Handle) (description language : string)
| SendForwardedTcpip (q : QueueId) (m : PendingForwardedTcpip)
| SendForwardedStreamlocal (q : QueueId) (m : PendingForwardedStreamlocal)
| LockReceiver (q : QueueId)
| RecvForwardedTcpip (q : QueueId)
| RecvForwardedStreamlocal (q : QueueId)
(* channels *)
| RequestPty (c : RawChannel) (want_reply : bool) (term : string) (cw rh pw ph : N)
    (modes : list (Pty * N))
| RequestShell (c : RawChannel) (want_reply : bool)
| ChannelExec (c : RawChannel) (want_reply : bool) (command : list byte)
| RequestSubsystem (c : RawChannel) (want_reply : bool) (name : string)
| ChannelData (c : RawChannel) (data : list byte)
| ChannelEof (c : RawChannel)
| WindowChange (c : RawChannel) (cw rh pw ph : N)
| ChannelClose (c : RawChannel)
| ChannelWait (c : RawChannel)
(* byte streams *)
| IoRead (s : io) (len : nat)
| IoReadExact (s : io) (len : nat)
| IoWriteAll (s : io) (data : list byte)
| IoFlush (s : io)
| IoShutdown (s : io)
| CopyBidirectional (a b : io)
(* listeners *)
| TcpBind (address : BindAddress)
| TcpAccept (l : TcpListener)
| UnixAccept (l : UnixListener)
(* sftp *)
| SftpNew (s : RawStream)
| SftpClose (s : RawSftp)
| SftpCanonicalize (s : RawSftp) (path : string)
| SftpTryExists (s : RawSftp) (path : string)
| SftpRead (s : RawSftp) (path : string)
| SftpWrite (s : RawSftp) (path : string) (data : list byte)
| SftpOpen (s : RawSftp) (path : string)
| SftpCreate (s : RawSftp) (path : string)
| SftpOpenWithFlags (s : RawSftp) (path : string) (flags : OpenFlags)
| SftpCreateDir (s : RawSftp) (path : string)
| SftpReadDir (s : RawSftp) (path : string)
| SftpMetadata (s : RawSftp) (path : string)
| SftpRemoveFile (s : RawSftp) (path : string)
| SftpRemoveDir (s : RawSftp) (path : string)
| SftpRename (s : RawSftp) (old_path new_path : string).

(** [read] fills at most its buffer, [read_exact] all of it. *)
Definition call_answer (c : call) : Type :=
  match c with
  | ClientConnect _ _ _ | ClientConnectStream _ _ _ => result SshError Handle
  | AuthenticatePassword _ _ _ | AuthenticatePublickey _ _ _ _ | AuthenticateCert _ _ _ _
  | AuthenticatePublickeyWith _ _ _ _ _ => result ForeignError AuthResult
  | KeyboardStart _ _ _ | KeyboardRespond _ _ =>
      result ForeignError KeyboardInteractiveAuthResponse
  | HandlerRespond _ _ => result SshError (list SecretString)
  | BestSupportedRsaHash _ => result ForeignError (option (option HashAlg))
  | AgentConnectUds _ | AgentConnectEnv | AgentConnectNamedPipe _ =>
      result ForeignError AgentClient
  | AgentConnectPageant => AgentClient
  | AgentRequestIdentities _ => result ForeignError (list PublicKey)
  | ChannelOpenSession _ | ChannelOpenDirectTcpip _ _ _ _ _
  | ChannelOpenDirectStreamlocal _ _ => result ForeignError RawChannel
  | TcpipForward _ _ _ => result ForeignError N
  | SendForwardedTcpip _ _ | SendForwardedStreamlocal _ _ => result unit unit
  | LockReceiver _ => unit
  | RecvForwardedTcpip _ => option PendingForwardedTcpip
  | RecvForwardedStreamlocal _ => option PendingForwardedStreamlocal
  | ChannelWait _ => option ChannelMsg
  | IoRead _ n => result ForeignError {l : list byte | (length l <= n)%nat}
  | IoReadExact _ n => result ForeignError (vec byte n)
  | CopyBidirectional _ _ => result ForeignError (N * N)
  | TcpBind _ => result ForeignError TcpListener
  | TcpAccept _ => result ForeignError (TcpStream * SocketAddr)
  | UnixAccept _ => result ForeignError UnixStream
  | SftpNew _ => result ForeignError RawSftp
  | SftpCanonicalize _ _ => result ForeignError string
  | SftpTryExists _ _ => result ForeignError bool
  | SftpRead _ _ => result ForeignError (list byte)
  | SftpOpen _ _ | SftpCreate _ _ | SftpOpenWithFlags _ _ _ => result ForeignError SftpFile
  | SftpReadDir _ _ => result ForeignError (list DirEntry)
  | SftpMetadata _ _ => result ForeignError Metadata
  | _ => result ForeignError unit
  end.

(** ** Synchronous calls

    [Spawn] hands the closure of a new task to [tokio::spawn], [SemaphoreNew]
    and [TryAcquire] are [tokio]'s semaphore; [Semaphore::new] panics ([None]) above
    its maximum. *)
Inductive request :=
| HandleIsClosed (h : Handle)
| MpscChannel (capacity : N)
| TcpLocalAddr (l : TcpListener)
| UnixBind (path : PathBuf)
| SemaphoreNew (permits : N)
| TryAcquire (semaphore : N)
| Spawn (task : Type) (captured : task).

Definition request_reply (q : request) : Type :=
  match q with
  | HandleIsClosed _ => bool
  | MpscChannel _ => QueueId
  | TcpLocalAddr _ => result ForeignError SocketAddr
  | UnixBind _ => result ForeignError UnixListener
  | SemaphoreNew _ => option N
  | TryAcquire _ => option N
  | Spawn _ _ => unit
  end.

#[export] Instance core_sig : Sig := {
  op := call;
  answer := call_answer;
  query := request;
  reply := request_reply
}.

(** ** Calls whose errors are wrapped

    [call.await.map_err(|error| SshError::from_source(kind, message, error))],
    with the error's own text or a fixed message. *)
Definition source_error (k : ErrorKind) (e : ForeignError) : SshError :=
  SshError.from_source k (error_to_string e) (error_to_string e).

Definition message_error (k : ErrorKind) (message : string) (e : ForeignError) : SshError :=
  SshError.from_source k message (error_to_string e).

(** [From<russh::Error>] and [From<russh::keys::ssh_key::Error> for SshError]: what russh
    makes of its own errors where a handler's error is expected. *)
Definition from_russh : ForeignError -> SshError := source_error ErrorKind.Internal.

Definition from_ssh_key (e : ForeignError) : SshError :=
  SshError.from_source ErrorKind.Configuration ("invalid SSH key: " +:+ error_to_string e)
    (error_to_string e).

End Signature.

(** ** Calls that are answered at once *)

Section Replies.
Context {K : SshKeys} {A : AuthKeys} {L : Libraries} {S : Type} {E : Env S}.

(** The first poll of a foreign call answers it. *)
Definition replies (o : call) (s : S) (Q : call_answer o -> S -> Prop)
  : Prop :=
  forall n, exists s' a, env_poll (Env := E) (o : @op core_sig) n s = (s', Some a) /\ Q a s'.

Lemma settles_replies_logged (o : call) w (Q : call_answer o -> S -> Prop) :
  replies o (w_ext w) Q ->
  settles (await (o : @op core_sig)) w (fun a w' =>
    Q a (w_ext w') /\ w_log w' = w_log w ++ [Issued o; Answered (o : @op core_sig) a]).
Proof.
  intros Hr. destruct (Hr (w_next_call w)) as (s' & a & He & Hq).
  eapply settles_await; [exact He|]. split; [exact Hq|]. cbn. by rewrite <-(assoc_L (++)).
Qed.

Lemma settles_replies (o : call) w (Q : call_answer o -> S -> Prop) :
  replies o (w_ext w) Q -> settles (await (o : @op core_sig)) w (fun a w' => Q a (w_ext w')).
Proof.
  intros Hr. eapply settles_mono; [|exact (settles_replies_logged o w _ Hr)]. by intros a w' [].
Qed.

End Replies.
