(* ===== verification/Session.v ===== *)
(** * Session: connecting, host-key checking and authentication
    ([src/core/session.rs]). *)

From S2P Require Export System.

(** [FORWARDED_TCPIP_QUEUE_CAPACITY]. *)
Definition FORWARDED_TCPIP_QUEUE_CAPACITY : N := 64.

Section Sessions.
Context {K : SshKeys} {A : AuthKeys} {L : Libraries}.

(** ** The client handler *)

(** A call through [Arc<dyn HostKeyVerifier>] returns the
    verifier with the state the call left. *)
Definition dyn_verify (v : dyn_verifier) (host : string) (port : N) (key : PublicKey)
  : dyn_verifier * or_panic (result SshError HostKeyDecision) :=
  let '(s, r) := @verify K (dv_type v) (dv_impl v) (dv_state v) host port key in
  (DynVerifier (dv_type v) (dv_impl v) s, r).

Definition dyn_check (v : dyn_verifier) (host : string) (port : N) (key : PublicKey)
  : dyn_verifier * or_panic (result SshError HostKeyObservation) :=
  let '(s, r) := @check K (dv_type v) (dv_impl v) (dv_state v) host port key in
  (DynVerifier (dv_type v) (dv_impl v) s, r).

(** The last [match] of [check_server_key]. *)
Definition refuse_server_key (host : string) (port : N) (d : HostKeyDecision)
    (o : HostKeyObservation) : result SshError bool :=
  match d with
  | Trusted => Ok true
  | Unknown =>
      Err (SshError.with_host_key_observation o (SshError.host_key
        ("unknown host key for " +:+ host +:+ ":" +:+ show port +:+
         " (presented fingerprint: " +:+ presented_fingerprint o +:+ ")")))
  | Changed =>
      Err (SshError.with_host_key_observation o (SshError.host_key
        ("host key changed for " +:+ host +:+ ":" +:+ show port +:+ " (expected: " +:+
         (match expected_fingerprints o with
          | [] => "<none>"
          | fps => join ", " fps
          end) +:+ "; presented: " +:+ presented_fingerprint o +:+
         "; lines: " +:+ debug_vec (matched_lines o) +:+ ")")))
  | Revoked =>
      Err (SshError.with_host_key_observation o (SshError.host_key
        ("revoked host key for " +:+ host +:+ ":" +:+ show port +:+
         " (fingerprint: " +:+ presented_fingerprint o +:+
         "; lines: " +:+ debug_vec (matched_lines o) +:+ ")")))
  end.

Definition with_verifier (h : ClientHandler) (v : dyn_verifier) : ClientHandler :=
  {| ch_host := ch_host h; ch_port := ch_port h; verifier := v;
     forwarded_tcpip_sender := forwarded_tcpip_sender h;
     forwarded_streamlocal_sender := forwarded_streamlocal_sender h |}.

(** [ClientHandler::check_server_key]. *)
Definition check_server_key (h : ClientHandler) (key : PublicKey)
  : ClientHandler * or_panic (result SshError bool) :=
  let '(v1, r1) := dyn_verify (verifier h) (ch_host h) (ch_port h) key in
  match r1 with
  | Panicked => (with_verifier h v1, Panicked)
  | Returned (Err e) => (with_verifier h v1, Returned (Err e))
  | Returned (Ok d) =>
      if decide (d = Trusted) then (with_verifier h v1, Returned (Ok true))
      else
        let '(v2, r2) := dyn_check v1 (ch_host h) (ch_port h) key in
        (with_verifier h v2,
         match r2 with
         | Panicked => Panicked
         | Returned (Err e) => Returned (Err e)
         | Returned (Ok o) =>
             Returned (refuse_server_key (ch_host h) (ch_port h) d (set_decision d o))
         end)
  end.

(** [ClientHandler::server_channel_open_forwarded_tcpip] and
    [server_channel_open_forwarded_streamlocal]. *)
Definition server_channel_open_forwarded_tcpip (h : ClientHandler) (channel : RawChannel)
    (connected_address : string) (connected_port : N)
    (originator_address : string) (originator_port : N) : fut (result SshError unit) :=
  r ← await (SendForwardedTcpip (forwarded_tcpip_sender h)
        {| pf_channel := channel; pf_connected_address := connected_address;
           pf_connected_port := connected_port;
           pf_originator_address := originator_address;
           pf_originator_port := originator_port |});
  mret (map_err (fun _ => SshError.channel "forwarded-tcpip channel receiver is closed") r).

Definition server_channel_open_forwarded_streamlocal (h : ClientHandler)
    (channel : RawChannel) (socket_path : string) : fut (result SshError unit) :=
  r ← await (SendForwardedStreamlocal (forwarded_streamlocal_sender h)
        {| ps_channel := channel; ps_socket_path := socket_path |});
  mret (map_err (fun _ => SshError.channel "forwarded-streamlocal channel receiver is closed") r).

(** ** Authentication *)

(** [AuthOutcome] and its [Default]. *)
Record AuthOutcome := {
  accepted : bool;
  remaining_methods : list ServerAuthMethod;
  partial_success : bool
}.

Definition AuthOutcome_default : AuthOutcome :=
  {| accepted := false; remaining_methods := []; partial_success := false |}.

Definition accepted_outcome : AuthOutcome :=
  {| accepted := true; remaining_methods := remaining_methods AuthOutcome_default;
     partial_success := partial_success AuthOutcome_default |}.

(** [server_auth_methods]. *)
Definition server_auth_method (m : MethodKind) : ServerAuthMethod :=
  match m with
  | MkNone => SrvNone | MkPassword => SrvPassword | MkPublicKey => SrvPublicKey
  | MkHostBased => SrvHostBased | MkKeyboardInteractive => SrvKeyboardInteractive
  end.

Definition server_auth_methods (ms : MethodSet) : list ServerAuthMethod :=
  server_auth_method <$> ms.

Definition failed_outcome (ms : MethodSet) (partial : bool) : AuthOutcome :=
  {| accepted := accepted AuthOutcome_default; remaining_methods := server_auth_methods ms;
     partial_success := partial |}.

(** [auth_outcome]. *)
Definition auth_outcome (r : AuthResult) : AuthOutcome :=
  match r with
  | AuthSuccess => accepted_outcome
  | AuthFailure ms partial => failed_outcome ms partial
  end.

(** [authentication_source_error]. *)
Definition authentication_source_error (e : ForeignError) : SshError :=
  source_error ErrorKind.Authentication e.

(** [decrypt_private_key]. *)
Definition decrypt_private_key (key : PrivateKey) (passphrase : option SecretString)
  : result SshError PrivateKey :=
  if negb (key_is_encrypted key) then Ok key
  else
    match passphrase with
    | None => Err (SshError.configuration "encrypted private key requires a passphrase")
    | Some p =>
        map_err (fun error => SshError.from_source ErrorKind.Configuration
                   ("failed to decrypt private key: " +:+ error) error)
          (key_decrypt key (as_str p))
    end.

(** [rsa_hash_candidates]. *)
Definition rsa_hash_candidates (handle : Handle) (algorithm : Algorithm)
    (selection : RsaHashAlgorithm) : fut (result SshError (list (option HashAlg))) :=
  if negb (algorithm_is_rsa algorithm) then mret (Ok [None])
  else
    match selection with
    | Sha256 => mret (Ok [Some HashAlg_Sha256])
    | Sha512 => mret (Ok [Some HashAlg_Sha512])
    | LegacySha1 => mret (Ok [None])
    | Auto =>
        supported ←? (map_err authentication_source_error <$> await (BestSupportedRsaHash handle));
        mret (Ok (match supported with
                  | Some (Some hash_alg) => [Some hash_alg]
                  | Some None => [None]
                  | None => [Some HashAlg_Sha512; Some HashAlg_Sha256]
                  end))
    end.

(** The [for] loop over signature hashes, shared in shape by
    [authenticate_private_key] and [authenticate_agent]: [sign hash] is the
    request made for one hash. *)
Fixpoint try_hashes (sign : option HashAlg -> fut (result SshError AuthResult))
    (last_outcome : AuthOutcome) (hashes : list (option HashAlg))
  : fut (result SshError AuthOutcome) :=
  match hashes with
  | [] => mret (Ok last_outcome)
  | hash_alg :: rest =>
      result ←? sign hash_alg;
      let outcome := auth_outcome result in
      if accepted outcome then mret (Ok outcome) else try_hashes sign outcome rest
  end.

(** [authenticate_private_key]. *)
Definition authenticate_private_key (handle : Handle) (username : string) (key : PrivateKey)
    (passphrase : option SecretString) (rsa_hash : RsaHashAlgorithm)
  : fut (result SshError AuthOutcome) :=
  key ←? lift (decrypt_private_key key passphrase);
  hash_algorithms ←? rsa_hash_candidates handle (key_algorithm key) rsa_hash;
  try_hashes (fun hash_alg =>
      map_err authentication_source_error <$>
        await (AuthenticatePublickey handle username key hash_alg))
    AuthOutcome_default hash_algorithms.

(** [authenticate_keyboard_interactive]: [fuel] rounds of the [loop]. *)
Definition challenge_of (name instructions : string) (prompts : list (string * bool))
  : KeyboardInteractiveChallenge :=
  {| challenge_name := name; challenge_instructions := instructions;
     challenge_prompts :=
       (fun p => {| prompt_text := fst p; prompt_echo := snd p |}) <$> prompts |}.

Definition response_count_error (given expected : nat) : SshError :=
  SshError.configuration ("keyboard-interactive handler returned " +:+ show (N.of_nat given) +:+
    " responses for " +:+ show (N.of_nat expected) +:+ " prompts").

Fixpoint keyboard_loop (fuel : nat) (handle : Handle) (handler : KeyboardInteractiveHandler)
    (response : KeyboardInteractiveAuthResponse) : fut (result SshError AuthOutcome) :=
  match fuel with
  | 0 => OutOfFuel
  | S fuel =>
      match response with
      | KbSuccess => mret (Ok accepted_outcome)
      | KbFailure ms partial => mret (Ok (failed_outcome ms partial))
      | KbInfoRequest name instructions prompts =>
          let challenge := challenge_of name instructions prompts in
          let prompt_count := length (challenge_prompts challenge) in
          responses ←? await (HandlerRespond handler challenge);
          if negb (length responses =? prompt_count)
          then mret (Err (response_count_error (length responses) prompt_count))
          else
            next ←? (map_err authentication_source_error <$>
                       await (KeyboardRespond handle (as_str <$> responses)));
            keyboard_loop fuel handle handler next
      end
  end.

Definition authenticate_keyboard_interactive (fuel : nat) (handle : Handle) (username : string)
    (submethods : option string) (handler : KeyboardInteractiveHandler)
  : fut (result SshError AuthOutcome) :=
  response ←? (map_err authentication_source_error <$>
                 await (KeyboardStart handle username submethods));
  keyboard_loop fuel handle handler response.

(** The two variants of [connect_agent]. *)
Definition connect_agent_unix (socket : option PathBuf) : fut (result SshError AgentClient) :=
  match socket with
  | Some path => map_err authentication_source_error <$> await (AgentConnectUds path)
  | None => map_err authentication_source_error <$> await AgentConnectEnv
  end.

Definition connect_agent_windows (socket : option PathBuf)
  : fut (result SshError AgentClient) :=
  match socket with
  | Some path => map_err authentication_source_error <$> await (AgentConnectNamedPipe path)
  | None => a ← await AgentConnectPageant; mret (Ok a)
  end.

(** [authenticate_agent] and its outer loop. *)
Fixpoint agent_loop (handle : Handle) (username : string) (rsa_hash : RsaHashAlgorithm)
    (a : AgentClient) (last_outcome : AuthOutcome) (identities : list PublicKey)
  : fut (result SshError AuthOutcome) :=
  match identities with
  | [] => mret (Ok last_outcome)
  | public_key :: rest =>
      hash_algorithms ←? rsa_hash_candidates handle (public_key_algorithm public_key) rsa_hash;
      outcome ←? try_hashes (fun hash_alg =>
          map_err authentication_source_error <$>
            await (AuthenticatePublickeyWith handle username public_key hash_alg a))
        last_outcome hash_algorithms;
      if accepted outcome then mret (Ok outcome)
      else agent_loop handle username rsa_hash a outcome rest
  end.

Definition no_agent_error : SshError :=
  SshError.configuration
    "SSH agent authentication is currently supported on Unix and Windows only".

Definition agent_session (handle : Handle) (username : string)
    (connect : fut (result SshError AgentClient)) (rsa_hash : RsaHashAlgorithm)
  : fut (result SshError AuthOutcome) :=
  a ←? connect;
  identities ←? (map_err authentication_source_error <$> await (AgentRequestIdentities a));
  agent_loop handle username rsa_hash a AuthOutcome_default identities.

Definition authenticate_agent (handle : Handle) (username : string) (socket : option PathBuf)
    (rsa_hash : RsaHashAlgorithm) : fut (result SshError AuthOutcome) :=
  match target_platform with
  | Unix => agent_session handle username (connect_agent_unix socket) rsa_hash
  | Windows => agent_session handle username (connect_agent_windows socket) rsa_hash
  | OtherPlatform => mret (Err no_agent_error)
  end.

(** [authenticate_method]. *)
Definition authenticate_certificate (handle : Handle) (username : string) (key : PrivateKey)
    (certificate : Certificate) (passphrase : option SecretString)
  : fut (result SshError AuthOutcome) :=
  key ←? lift (decrypt_private_key key passphrase);
  if negb (certificate_is_user certificate)
  then mret (Err (SshError.configuration "OpenSSH authentication requires a user certificate"))
  else if negb (certificate_matches_key key certificate)
  then mret (Err (SshError.configuration
                    "OpenSSH certificate does not match the private key"))
  else
    result ←? (map_err authentication_source_error <$>
                 await (AuthenticateCert handle username key certificate));
    mret (Ok (auth_outcome result)).

Definition authenticate_method (fuel : nat) (handle : Handle) (username : string)
    (m : AuthMethod) : fut (result SshError AuthOutcome) :=
  match m with
  | Password password =>
      result ←? (map_err authentication_source_error <$>
                   await (AuthenticatePassword handle username (as_str password)));
      mret (Ok (auth_outcome result))
  | MPrivateKey key passphrase rsa_hash =>
      authenticate_private_key handle username key passphrase rsa_hash
  | OpenSshCertificate key certificate passphrase =>
      authenticate_certificate handle username key certificate passphrase
  | KeyboardInteractive submethods handler =>
      authenticate_keyboard_interactive fuel handle username submethods handler
  | Agent socket rsa_hash => authenticate_agent handle username socket rsa_hash
  end.

(** [authenticate]: the [for] loop with its [observation] and [last_error],
    and what follows it. *)
Definition authentication_failed (observation : AuthenticationObservation)
    (last_error : option SshError) : SshError :=
  SshError.with_authentication_observation observation
    (default (SshError.authentication "SSH authentication failed") last_error).

Fixpoint authenticate_loop (fuel : nat) (handle : Handle) (username : string)
    (observation : AuthenticationObservation) (last_error : option SshError)
    (ms : list AuthMethod) : fut (result SshError unit) :=
  match ms with
  | [] => mret (Err (authentication_failed observation last_error))
  | m :: rest =>
      r ← authenticate_method fuel handle username m;
      match r with
      | Ok outcome =>
          if accepted outcome then mret (Ok tt)
          else
            authenticate_loop fuel handle username
              (record_failure observation (kind m) (remaining_methods outcome)
                 (partial_success outcome)) None rest
      | Err error =>
          let observation := record_error observation (kind m) error in
          closed ← ask (HandleIsClosed handle);
          if (closed : bool) then mret (Err (authentication_failed observation (Some error)))
          else authenticate_loop fuel handle username observation (Some error) rest
      end
  end.

Definition empty_plan_error : SshError :=
  SshError.configuration "SSH authentication plan must contain at least one method".

Definition authenticate (fuel : nat) (handle : Handle) (username : string)
    (plan : AuthenticationPlan) : fut (result SshError unit) :=
  if plan_is_empty plan then mret (Err empty_plan_error)
  else authenticate_loop fuel handle username empty_observation None (into_methods plan).

(** ** Connecting *)

(** [classify_connect_error]. *)
Definition classify_connect_error (error : SshError) : SshError :=
  match SshError.kind error with
  | ErrorKind.HostKey | ErrorKind.Timeout => error
  | _ =>
      if contains_str "key exchange" (to_ascii_lowercase (SshError.message error)) ||
         contains_str "ssh id" (to_ascii_lowercase (SshError.message error))
      then SshError.reclassify error ErrorKind.Handshake
      else SshError.reclassify error ErrorKind.Connection
  end.

(** [SshSession]. *)
Record SshSession := {
  handle : Handle;
  config : SshConfig;
  operation_context_field : OperationContext;
  forwarded_tcpip_receiver : QueueId;
  forwarded_streamlocal_receiver : QueueId
}.

Definition client_config (config : SshConfig) : ClientConfig :=
  {| cc_keepalive_interval := keepalive_interval config; cc_nodelay := true |}.

Definition client_handler (config : SshConfig) (v : dyn_verifier) (tcpip streamlocal : QueueId)
  : ClientHandler :=
  {| ch_host := cfg_host config; ch_port := cfg_port config; verifier := v;
     forwarded_tcpip_sender := tcpip; forwarded_streamlocal_sender := streamlocal |}.

Definition with_endpoint_of (config : SshConfig) : SshError -> SshError :=
  SshError.with_endpoint (cfg_host config) (cfg_port config).

(** [SshSession::connect_with_context]. *)
Definition connect_with_context (fuel : nat) (config : SshConfig) (v : dyn_verifier)
    (auth : AuthenticationPlan) (context : OperationContext) : fut (result SshError SshSession) :=
  lift (validate config);;?
  tcpip ← ask (MpscChannel FORWARDED_TCPIP_QUEUE_CAPACITY);
  streamlocal ← ask (MpscChannel FORWARDED_TCPIP_QUEUE_CAPACITY);
  let handler := client_handler config v tcpip streamlocal in
  let address := socket_address config in
  connect_context ← with_timeout_from_now (connect_timeout config) context;
  handle ←? (map_err (with_endpoint_of config) <$>
    run connect_context "ssh connect and handshake"
      (map_err classify_connect_error <$>
         await (ClientConnect (client_config config) address handler)));
  authentication_context ← with_timeout_from_now (authentication_timeout config) context;
  (map_err (with_endpoint_of config) <$>
    run authentication_context "ssh authentication"
      (authenticate fuel handle (cfg_username config) auth));;?
  mret (Ok {| handle := handle; config := config; operation_context_field := context;
              forwarded_tcpip_receiver := tcpip;
              forwarded_streamlocal_receiver := streamlocal |}).

(** [SshSession::connect]. *)
Definition connect (fuel : nat) (config : SshConfig) (v : dyn_verifier)
    (auth : AuthenticationPlan) : fut (result SshError SshSession) :=
  context ← OperationContext_new; connect_with_context fuel config v auth context.

(** [connect_stream_with_context]. *)
Definition connect_stream_with_context (context : OperationContext) (cfg : ClientConfig)
    (stream : RawStream) (handler : ClientHandler) (host : string) (port : N)
  : fut (result SshError Handle) :=
  map_err (SshError.with_endpoint host port) <$>
    run context "ssh ProxyJump connect and handshake"
      (map_err classify_connect_error <$> await (ClientConnectStream cfg stream handler)).

(** [SshSession::open_raw_direct_tcpip_with_context]. *)
Definition open_raw_direct_tcpip_with_context (s : SshSession) (target_host : string)
    (target_port : N) (originator_address : string) (originator_port : N)
    (context : OperationContext) : fut (result SshError RawChannel) :=
  run context "open direct-tcpip channel"
    (map_err (source_error ErrorKind.Channel) <$>
       await (ChannelOpenDirectTcpip (handle s) target_host target_port
                originator_address originator_port)).

(** [SshSession::connect_via_jump_with_context]. *)
Definition connect_via_jump_with_context (fuel : nat) (jump : SshSession) (config : SshConfig)
    (v : dyn_verifier) (auth : AuthenticationPlan) (context : OperationContext)
  : fut (result SshError SshSession) :=
  lift (validate config);;?
  tcpip ← ask (MpscChannel FORWARDED_TCPIP_QUEUE_CAPACITY);
  streamlocal ← ask (MpscChannel FORWARDED_TCPIP_QUEUE_CAPACITY);
  let handler := client_handler config v tcpip streamlocal in
  connect_context ← with_timeout_from_now (connect_timeout config) context;
  channel ←? (map_err (with_endpoint_of config) <$>
    open_raw_direct_tcpip_with_context jump (cfg_host config) (cfg_port config)
      "127.0.0.1" 0 connect_context);
  let stream := into_raw_stream channel in
  handle ←? connect_stream_with_context connect_context (client_config config) stream handler
    (cfg_host config) (cfg_port config);
  authentication_context ← with_timeout_from_now (authentication_timeout config) context;
  (map_err (with_endpoint_of config) <$>
    run authentication_context "ssh authentication through ProxyJump"
      (authenticate fuel handle (cfg_username config) auth));;?
  mret (Ok {| handle := handle; config := config; operation_context_field := context;
              forwarded_tcpip_receiver := tcpip;
              forwarded_streamlocal_receiver := streamlocal |}).

(** [SshSession::connect_via_jump]. *)
Definition connect_via_jump (fuel : nat) (jump : SshSession) (config : SshConfig)
    (v : dyn_verifier) (auth : AuthenticationPlan) : fut (result SshError SshSession) :=
  context ← OperationContext_new; connect_via_jump_with_context fuel jump config v auth context.

(** ** Operations of a session *)

Definition is_closed (s : SshSession) : fut bool := ask (HandleIsClosed (handle s)).

(** [SshSession::operation_context] and [base_context]. *)
Definition operation_context (s : SshSession) : fut OperationContext :=
  with_timeout_from_now (operation_timeout (config s)) (operation_context_field s).

Definition base_context (s : SshSession) : OperationContext := operation_context_field s.

Definition open_raw_session_channel_with_context (s : SshSession) (context : OperationContext)
  : fut (result SshError RawChannel) :=
  run_with_timeout context "open SSH session channel" (operation_timeout (config s))
    (map_err (source_error ErrorKind.Channel) <$> await (ChannelOpenSession (handle s))).

Definition disconnect_with_context (s : SshSession) (context : OperationContext)
  : fut (result SshError unit) :=
  run context "disconnect SSH session"
    (map_err (source_error ErrorKind.Channel) <$>
       await (HandleDisconnect (handle s) "client closed session" "")).

Definition disconnect (s : SshSession) : fut (result SshError unit) :=
  context ← operation_context s; disconnect_with_context s context.

Definition open_raw_direct_streamlocal_with_context (s : SshSession) (socket_path : string)
    (context : OperationContext) : fut (result SshError RawChannel) :=
  run context "open direct-streamlocal channel"
    (map_err (source_error ErrorKind.Channel) <$>
       await (ChannelOpenDirectStreamlocal (handle s) socket_path)).

Definition request_raw_tcpip_forward_with_context (s : SshSession) (address : string) (port : N)
    (context : OperationContext) : fut (result SshError N) :=
  run context "request remote tcpip forward"
    (map_err (source_error ErrorKind.Channel) <$> await (TcpipForward (handle s) address port)).

Definition cancel_raw_tcpip_forward_with_context (s : SshSession) (address : string) (port : N)
    (context : OperationContext) : fut (result SshError unit) :=
  run context "cancel remote tcpip forward"
    (map_err (source_error ErrorKind.Channel) <$>
       await (CancelTcpipForward (handle s) address port)).

Definition request_raw_streamlocal_forward_with_context (s : SshSession) (socket_path : string)
    (context : OperationContext) : fut (result SshError unit) :=
  run context "request remote streamlocal forward"
    (map_err (source_error ErrorKind.Channel) <$>
       await (StreamlocalForward (handle s) socket_path)).

Definition cancel_raw_streamlocal_forward_with_context (s : SshSession) (socket_path : string)
    (context : OperationContext) : fut (result SshError unit) :=
  run context "cancel remote streamlocal forward"
    (map_err (source_error ErrorKind.Channel) <$>
       await (CancelStreamlocalForward (handle s) socket_path)).

Definition next_raw_forwarded_tcpip_with_context (s : SshSession) (context : OperationContext)
  : fut (result SshError (option PendingForwardedTcpip)) :=
  run context "wait for forwarded-tcpip channel"
    (_ ← await (LockReceiver (forwarded_tcpip_receiver s));
     m ← await (RecvForwardedTcpip (forwarded_tcpip_receiver s));
     mret (Ok m)).

Definition next_raw_forwarded_streamlocal_with_context (s : SshSession)
    (context : OperationContext) : fut (result SshError (option PendingForwardedStreamlocal)) :=
  run context "wait for forwarded-streamlocal channel"
    (_ ← await (LockReceiver (forwarded_streamlocal_receiver s));
     m ← await (RecvForwardedStreamlocal (forwarded_streamlocal_receiver s));
     mret (Ok m)).

(** ** Events of authentication *)

(** The connection on which a request sends the user's credentials. *)
Definition credential (e : event) : option Handle :=
  match e with
  | Issued o =>
      match o with
      | AuthenticatePassword h _ _ | AuthenticatePublickey h _ _ _ | AuthenticateCert h _ _ _
      | AuthenticatePublickeyWith h _ _ _ _ | KeyboardStart h _ _ | KeyboardRespond h _ => Some h
      | _ => None
      end
  | _ => None
  end.

(** The connection a handshake delivered. *)
Definition opened (e : event) : option Handle :=
  match e with
  | Answered o a =>
      match o return answer o -> option Handle with
      | ClientConnect _ _ _ | ClientConnectStream _ _ _ => fun a => result_ok a
      | _ => fun _ => None
      end a
  | _ => None
  end.

(** The connection on which the server answered that the user is authenticated. *)
Definition granted_by (r : result ForeignError AuthResult) (h : Handle) : option Handle :=
  match r with Ok AuthSuccess => Some h | _ => None end.

Definition granted_kb (r : result ForeignError KeyboardInteractiveAuthResponse) (h : Handle)
  : option Handle :=
  match r with Ok KbSuccess => Some h | _ => None end.

Definition grants (e : event) : option Handle :=
  match e with
  | Answered o a =>
      match o return answer o -> option Handle with
      | AuthenticatePassword h _ _ | AuthenticatePublickey h _ _ _ | AuthenticateCert h _ _ _
      | AuthenticatePublickeyWith h _ _ _ _ => fun a => granted_by a h
      | KeyboardStart h _ _ | KeyboardRespond h _ => fun a => granted_kb a h
      | _ => fun _ => None
      end a
  | _ => None
  end.

(** Credentials leave only on connections whose handshake has succeeded. *)
Definition ordered (l : list event) : Prop :=
  forall l1 e l2 hd, l = l1 ++ e :: l2 -> credential e = Some hd ->
    exists e', e' ∈ l1 /\ opened e' = Some hd.

Lemma ordered_nil : ordered [].
Proof. by intros [|] ????. Qed.

Lemma ordered_snoc l e :
  ordered l ->
  (forall hd, credential e = Some hd -> exists e', e' ∈ l /\ opened e' = Some hd) ->
  ordered (l ++ [e]).
Proof.
  intros Hl He l1 e1 l2 hd Heq Hc.
  destruct (decide (l2 = [])) as [->|Hne].
  - apply app_inj_tail in Heq as [<- <-]. by apply He.
  - destruct (exists_last Hne) as (l3 & x & ->).
    rewrite app_comm_cons, (assoc_L (++)) in Heq.
    apply app_inj_tail in Heq as [Heq _]. by eapply Hl.
Qed.

(** Every event a step of authentication on [hd] produces. *)
Definition only_on (hd : Handle) (e : event) : Prop :=
  credential e = None \/ credential e = Some hd.

Definition sent_after (h0 : list event) (hd : Handle) (h : list event) : Prop :=
  exists l, h = h0 ++ l /\ ordered l /\ exists e, e ∈ l /\ opened e = Some hd.

Lemma sent_after_step h0 hd h e : sent_after h0 hd h -> only_on hd e -> sent_after h0 hd (h ++ [e]).
Proof.
  intros (l & -> & Ho & e' & He' & Hop) He. exists (l ++ [e]).
  split; [by rewrite (assoc_L (++))|]. split.
  - apply ordered_snoc; [done|]. intros hd' Hc. destruct He as [He|He]; [congruence|].
    exists e'. split; [done|congruence].
  - exists e'. split; [|done]. apply elem_of_app. by left.
Qed.

(** ** What authentication can do on a connection *)

Ltac on_handle := first [by left | by right].

Lemma emits_rsa_hash_candidates hd algorithm selection :
  emits (only_on hd) (rsa_hash_candidates hd algorithm selection).
Proof. unfold rsa_hash_candidates. emits; on_handle. Qed.

Lemma emits_try_hashes P sign last hashes :
  (forall hash_alg, emits P (sign hash_alg)) -> emits P (try_hashes sign last hashes).
Proof.
  intros Hs. revert last. induction hashes as [|hash_alg rest IH]; intros last; cbn [try_hashes].
  - done.
  - apply emits_bind; [apply Hs|]. intros [r|e]; [|done].
    destruct (accepted (auth_outcome r)); [done|apply IH].
Qed.

Lemma emits_authenticate_private_key hd u key p h :
  emits (only_on hd) (authenticate_private_key hd u key p h).
Proof.
  unfold authenticate_private_key, lift.
  apply emits_bind; [done|]. intros [k|]; [|done].
  apply emits_bind; [apply emits_rsa_hash_candidates|]. intros [hs|]; [|done].
  apply emits_try_hashes. intros hash_alg. emits; on_handle.
Qed.

Lemma emits_authenticate_certificate hd u key c p :
  emits (only_on hd) (authenticate_certificate hd u key c p).
Proof.
  unfold authenticate_certificate, lift.
  apply emits_bind; [done|]. intros [k|]; [|done].
  destruct (negb (certificate_is_user c)); [done|].
  destruct (negb (certificate_matches_key k c)); [done|]. emits; on_handle.
Qed.

Lemma emits_keyboard_loop fuel hd k r : emits (only_on hd) (keyboard_loop fuel hd k r).
Proof.
  revert r. induction fuel as [|fuel IH]; intros r; cbn [keyboard_loop]; [done|].
  destruct r; [done|done|]. apply emits_bind; [emits; on_handle|]. intros [rs|]; [|done].
  case_match; [done|]. apply emits_bind; [emits; on_handle|]. by intros [r|].
Qed.

Lemma emits_authenticate_keyboard_interactive fuel hd u sub k :
  emits (only_on hd) (authenticate_keyboard_interactive fuel hd u sub k).
Proof.
  apply emits_bind; [emits; on_handle|]. intros [r|]; [|done]. apply emits_keyboard_loop.
Qed.

Lemma emits_agent_loop hd u h a last ids : emits (only_on hd) (agent_loop hd u h a last ids).
Proof.
  revert last. induction ids as [|key rest IH]; intros last; cbn [agent_loop]; [done|].
  apply emits_bind; [apply emits_rsa_hash_candidates|]. intros [hs|]; [|done].
  apply emits_bind; [apply emits_try_hashes; intros; emits; on_handle|].
  intros [o|]; [|done]. destruct (accepted o); [done|apply IH].
Qed.

Lemma emits_agent_session hd u connect h :
  emits (only_on hd) connect -> emits (only_on hd) (agent_session hd u connect h).
Proof.
  intros Hc. apply emits_bind; [done|]. intros [a|]; [|done].
  apply emits_bind; [emits; on_handle|]. intros [ids|]; [|done]. apply emits_agent_loop.
Qed.

Lemma emits_authenticate_agent hd u socket h :
  emits (only_on hd) (authenticate_agent hd u socket h).
Proof.
  unfold authenticate_agent. destruct target_platform; [| |done]; apply emits_agent_session;
    [unfold connect_agent_unix|unfold connect_agent_windows]; destruct socket; emits; on_handle.
Qed.

Lemma emits_authenticate_method fuel hd u m : emits (only_on hd) (authenticate_method fuel hd u m).
Proof.
  destruct m; cbn [authenticate_method].
  - emits; on_handle.
  - apply emits_authenticate_private_key.
  - apply emits_authenticate_certificate.
  - apply emits_authenticate_keyboard_interactive.
  - apply emits_authenticate_agent.
Qed.

Lemma emits_authenticate_plan fuel hd u plan : emits (only_on hd) (authenticate fuel hd u plan).
Proof.
  unfold authenticate. destruct (plan_is_empty plan); [done|].
  generalize empty_observation (@None SshError).
  induction (into_methods plan) as [|m rest IH]; intros o last; cbn [authenticate_loop]; [done|].
  apply emits_bind; [apply emits_authenticate_method|]. intros [out|e].
  - destruct (accepted out); [done|apply IH].
  - apply emits_bind; [apply emits_ask; by left|]. intros [|]; [done|apply IH].
Qed.

(** ** Success is the server's *)

(** [t] reports success only if since [h0] the server has granted access on [hd]. *)
Definition justified (hd : Handle) (h0 : list event) (r : result SshError AuthOutcome)
    (h : list event) : Prop :=
  extends h0 h /\
  forall o, r = Ok o -> accepted o = true -> since h0 (fun e => grants e = Some hd) h.

#[local] Existing Instance any_budget.

Lemma justified_unaccepted hd h0 o h :
  extends h0 h -> accepted o = false -> justified hd h0 (Ok o) h.
Proof. intros Hh Ho. split; [done|]. intros o' [= <-]. congruence. Qed.

Lemma justified_Err hd h0 e h : extends h0 h -> justified hd h0 (Err e) h.
Proof. intros Hh. by split. Qed.

Lemma justified_grant hd h0 r h e :
  extends h0 h -> (forall o, r = Ok o -> accepted o = true -> grants e = Some hd) ->
  justified hd h0 r (h ++ [e]).
Proof.
  intros Hh He. split; [by apply extends_app|]. intros o Ho Ha.
  apply since_here; [done|by eapply He].
Qed.

Lemma granted_by_outcome r hd : accepted (auth_outcome r) = true -> granted_by (Ok r) hd = Some hd.
Proof. by destruct r. Qed.

(** One signed request: the shape shared by every public-key method. *)
Lemma wp_signed (o : call) (Heq : answer o = result ForeignError AuthResult) hd
    (k : answer o -> result ForeignError AuthResult) (h0 h : list event) :
  extends h0 h ->
  (forall a r, k a = Ok r -> accepted (auth_outcome r) = true ->
     grants (Answered o a) = Some hd) ->
  wp (a ← await o; mret (map_err authentication_source_error (k a)))
    (fun r h' => justified hd h0 (auth_outcome <$> r) h') (fun _ => True) h.
Proof.
  intros Hh Hk. split; [done|]. intros a. apply justified_grant; [by apply extends_app|].
  intros o' Ho Ha. destruct (k a) as [r|] eqn:Hr; cbn in Ho; [|done].
  injection Ho as <-. by eapply Hk.
Qed.

Lemma justified_extends hd h0 r h : justified hd h0 r h -> extends h0 h.
Proof. by intros []. Qed.

Lemma wp_try_hashes sign hd h0 last hashes h :
  (forall hash_alg h, extends h0 h ->
     wp (sign hash_alg) (fun r h' => justified hd h0 (auth_outcome <$> r) h') (fun _ => True) h) ->
  accepted last = false -> extends h0 h ->
  wp (try_hashes sign last hashes) (justified hd h0) (fun _ => True) h.
Proof.
  intros Hs. revert last h. induction hashes as [|x rest IH]; intros last h Hl Hh;
    cbn [try_hashes].
  - by apply justified_unaccepted.
  - apply wp_bind. eapply wp_mono; [| |apply Hs; exact Hh]; [|done]. cbn.
    intros [r|e] h' Hj; cbn in Hj |- *; [|by apply justified_Err, Hj].
    destruct (accepted (auth_outcome r)) eqn:Ha; [done|].
    apply IH; [done|apply Hj].
Qed.

Lemma wp_rsa_hash_candidates hd algorithm selection h0 h
    (Q : result SshError (list (option HashAlg)) -> list event -> Prop) :
  extends h0 h -> (forall r h', extends h0 h' -> Q r h') ->
  wp (rsa_hash_candidates hd algorithm selection) Q (fun _ => True) h.
Proof.
  intros Hh HQ. unfold rsa_hash_candidates.
  destruct (negb (algorithm_is_rsa algorithm)); [by apply HQ|].
  destruct selection; cbn; try by apply HQ.
  split; [done|]. intros [r|e]; cbn; apply HQ; by do 2 apply extends_app.
Qed.

Lemma wp_signed_publickey hd u key hash h0 h :
  extends h0 h ->
  wp (map_err authentication_source_error <$> await (AuthenticatePublickey hd u key hash))
    (fun r h' => justified hd h0 (auth_outcome <$> r) h') (fun _ => True) h.
Proof.
  intros Hh. apply (wp_signed (AuthenticatePublickey hd u key hash) eq_refl hd (fun a => a)); [done|].
  intros a r -> Ha. by destruct r.
Qed.

Lemma wp_signed_with hd u key hash a h0 h :
  extends h0 h ->
  wp (map_err authentication_source_error <$> await (AuthenticatePublickeyWith hd u key hash a))
    (fun r h' => justified hd h0 (auth_outcome <$> r) h') (fun _ => True) h.
Proof.
  intros Hh. apply (wp_signed (AuthenticatePublickeyWith hd u key hash a) eq_refl hd (fun a => a)); [done|].
  intros x r -> Ha. by destruct r.
Qed.

Lemma wp_authenticate_private_key hd u key p hash h0 h :
  extends h0 h ->
  wp (authenticate_private_key hd u key p hash) (justified hd h0) (fun _ => True) h.
Proof.
  intros Hh. unfold authenticate_private_key, lift. apply wp_bind. cbn.
  destruct (decrypt_private_key key p) as [k|e]; cbn; [|by apply justified_Err].
  apply wp_bind. apply (wp_rsa_hash_candidates _ _ _ h0); [done|].
  intros [hs|e] h' Hh'; [|by apply justified_Err].
  apply wp_try_hashes; [|done|done]. intros x h1 Hh1. by apply wp_signed_publickey.
Qed.

Lemma wp_agent_loop hd u hash a last ids h0 h :
  accepted last = false -> extends h0 h ->
  wp (agent_loop hd u hash a last ids) (justified hd h0) (fun _ => True) h.
Proof.
  revert last h. induction ids as [|key rest IH]; intros last h Hl Hh; cbn [agent_loop].
  - by apply justified_unaccepted.
  - apply wp_bind. apply (wp_rsa_hash_candidates _ _ _ h0); [done|].
    intros [hs|e] h' Hh'; [|by apply justified_Err].
    apply wp_bind. eapply wp_mono; [| |apply (wp_try_hashes _ hd h0); [|exact Hl|exact Hh']];
      [|done|].
    + intros [o|e] h1 Hj; [|by apply justified_Err, Hj].
      destruct (accepted o) eqn:Ha; [done|]. apply IH; [done|apply Hj].
    + intros x h1 Hh1. by apply wp_signed_with.
Qed.

Lemma wp_agent_session hd u hash a h0 h :
  extends h0 h -> wp (agent_session hd u (mret a) hash) (justified hd h0) (fun _ => True) h.
Proof.
  intros Hh. unfold agent_session. destruct a as [a|e]; cbn; [|by apply justified_Err].
  split; [done|]. intros [ids|e]; cbn;
    [apply wp_agent_loop; try done|apply justified_Err]; by do 2 apply extends_app.
Qed.

Lemma wp_authenticate_agent hd u socket hash h0 h :
  extends h0 h ->
  wp (authenticate_agent hd u socket hash) (justified hd h0) (fun _ => True) h.
Proof.
  intros Hh. unfold authenticate_agent. destruct target_platform; [| |by apply justified_Err].
  - destruct socket; cbn; (split; [done|]); intros [a|e]; cbn;
      [apply (wp_agent_session _ _ _ (Ok a))|apply justified_Err|
       apply (wp_agent_session _ _ _ (Ok a))|apply justified_Err]; by do 2 apply extends_app.
  - destruct socket; cbn; (split; [done|]); [intros [a|e]|intros a]; cbn;
      [apply (wp_agent_session _ _ _ (Ok a))|apply justified_Err|
       apply (wp_agent_session _ _ _ (Ok a))]; by do 2 apply extends_app.
Qed.

Lemma wp_keyboard_loop fuel hd k r h0 h :
  extends h0 h -> (r = KbSuccess -> since h0 (fun e => grants e = Some hd) h) ->
  wp (keyboard_loop fuel hd k r) (justified hd h0) (fun _ => True) h.
Proof.
  revert r h. induction fuel as [|fuel IH]; intros r h Hh Hr; cbn [keyboard_loop]; [done|].
  destruct r as [|ms partial|name inst prompts]; cbn.
  - split; [done|]. intros o [= <-] _. by apply Hr.
  - by apply justified_unaccepted.
  - split; [done|]. intros [rs|e]; cbn; [|by apply justified_Err; do 2 apply extends_app].
    case_match; cbn; [by apply justified_Err; do 2 apply extends_app|].
    split; [done|]. intros [next|e]; cbn; [|by apply justified_Err; do 4 apply extends_app].
    apply IH; [by do 4 apply extends_app|]. intros ->.
    apply since_here; [by do 3 apply extends_app|done].
Qed.

Lemma wp_authenticate_method fuel hd u m h0 h :
  extends h0 h ->
  wp (authenticate_method fuel hd u m) (justified hd h0) (fun _ => True) h.
Proof.
  intros Hh. destruct m as [p|key p hash|key c p|sub k|socket hash]; cbn [authenticate_method].
  - cbn. split; [done|]. intros [r|e]; cbn; [|by apply justified_Err; do 2 apply extends_app].
    apply justified_grant; [by apply extends_app|]. intros o [= <-] Ha. by destruct r.
  - by apply wp_authenticate_private_key.
  - unfold authenticate_certificate, lift. apply wp_bind. cbn.
    destruct (decrypt_private_key key p) as [k|e]; cbn; [|by apply justified_Err].
    destruct (negb (certificate_is_user c)); [by apply justified_Err|].
    destruct (negb (certificate_matches_key k c)); [by apply justified_Err|].
    cbn. split; [done|]. intros [r|e]; cbn; [|by apply justified_Err; do 2 apply extends_app].
    apply justified_grant; [by apply extends_app|]. intros o [= <-] Ha. by destruct r.
  - unfold authenticate_keyboard_interactive. cbn. split; [done|].
    intros [r|e]; cbn; [|by apply justified_Err; do 2 apply extends_app].
    apply wp_keyboard_loop; [by do 2 apply extends_app|]. intros ->.
    apply since_here; [by apply extends_app|done].
  - by apply wp_authenticate_agent.
Qed.

(** [authenticate] succeeds only when the server has said so. *)
Definition authorised (hd : Handle) (h0 : list event) (r : result SshError unit)
    (h : list event) : Prop :=
  extends h0 h /\ (r = Ok tt -> since h0 (fun e => grants e = Some hd) h).

Lemma wp_authenticate_plan fuel hd u plan h0 h :
  extends h0 h ->
  wp (authenticate fuel hd u plan) (authorised hd h0) (fun _ => True) h.
Proof.
  intros Hh. unfold authenticate. destruct (plan_is_empty plan); [by split|].
  generalize empty_observation (@None SshError). revert h Hh.
  induction (into_methods plan) as [|m rest IH]; intros h Hh o last; cbn [authenticate_loop].
  - by split.
  - apply wp_bind. eapply wp_mono; [| |apply (wp_authenticate_method _ _ _ _ h0); exact Hh];
      [|done].
    intros [out|e] h' [Hh' Hj].
    + destruct (accepted out) eqn:Ha; [|by apply IH]. split; [done|]. intros _. by eapply Hj.
    + cbn. intros [|]; cbn; [|by apply IH, extends_app].
      by split; [apply extends_app|].
Qed.

(** ** What a failed authentication reports *)

(** The error to be returned agrees with the last recorded attempt. *)
Definition last_agrees (o : AuthenticationObservation) (last_error : option SshError) : Prop :=
  match last_error with
  | Some e => exists a, list.last (attempts o) = Some a /\ at_error a = Some (SshError.message e)
  | None => forall a, list.last (attempts o) = Some a -> at_error a = None
  end.

(** [e] is what [authenticate] may return after trying the methods [tried]. *)
Record failure_report (o : AuthenticationObservation) (tried : list AuthMethodKind)
    (last_error : option SshError) : Prop := {
  fr_kinds : at_method <$> attempts o = tried;
  fr_none_accepted : Forall (fun a => at_accepted a = false) (attempts o);
  fr_last : last_agrees o last_error
}.

Lemma failure_report_record_failure o tried le m ms partial :
  failure_report o tried le ->
  failure_report (record_failure o m ms partial) (tried ++ [m]) None.
Proof.
  intros [Hk Ha Hl]. split.
  - by rewrite record_failure_kinds, Hk.
  - apply Forall_app. split; [done|]. by repeat constructor.
  - intros a. cbn. rewrite last_snoc. by intros [= <-].
Qed.

Lemma failure_report_record_error o tried le m e :
  failure_report o tried le ->
  failure_report (record_error o m e) (tried ++ [m]) (Some e).
Proof.
  intros [Hk Ha Hl]. split.
  - by rewrite record_error_kinds, Hk.
  - apply Forall_app. split; [done|]. by repeat constructor.
  - cbn. rewrite last_snoc. by eexists.
Qed.

Lemma failure_report_empty : failure_report empty_observation [] None.
Proof. by split; [|constructor|]. Qed.

(** Either every method was tried, or the connection was found closed. *)
Definition reported (hd : Handle) (all : list AuthMethod) (r : result SshError unit)
    (h : list event) : Prop :=
  forall e, r = Err e -> exists tried rest o last_error,
    all = tried ++ rest /\ e = authentication_failed o last_error /\
    failure_report o (kind <$> tried) last_error /\
    (rest = [] \/ list.last h = Some (Asked (HandleIsClosed hd) true)).

Lemma wp_authenticate_loop_reported fuel hd u all tried rest o last_error h :
  all = tried ++ rest -> failure_report o (kind <$> tried) last_error ->
  wp (authenticate_loop fuel hd u o last_error rest) (reported hd all) (fun _ => True) h.
Proof.
  revert tried o last_error h. induction rest as [|m rest IH];
    intros tried o last_error h Hall Hr; cbn [authenticate_loop].
  - intros e [= <-]. exists tried, [], o, last_error. auto.
  - assert (all = (tried ++ [m]) ++ rest) as Hall' by (rewrite Hall; by rewrite <-(assoc_L (++))).
    apply wp_bind_any; [done|]. intros [out|e] h'.
    + destruct (accepted out); [by intros e|]. apply (IH (tried ++ [m])); [done|].
      rewrite fmap_app. by eapply failure_report_record_failure.
    + cbn. intros closed.
      assert (failure_report (record_error o (kind m) e) (kind <$> tried ++ [m]) (Some e)) as Hr'.
      { rewrite fmap_app. by eapply failure_report_record_error. }
      destruct closed; [|by apply (IH (tried ++ [m]))].
      intros e' [= <-]. exists (tried ++ [m]), rest, (record_error o (kind m) e), (Some e).
      split_and!; [done|done|done|]. right. by rewrite last_snoc.
Qed.

(** ** What a connection that succeeded went through *)

(** [s] was set up on a connection that a handshake [o] delivered and on which
    the server has since granted access. *)
Record established (o : call) (config0 : SshConfig) (context : OperationContext)
    (h0 h : list event) (s : SshSession) : Prop := {
  es_valid : validate config0 = Ok tt;
  es_config : config s = config0;
  es_context : base_context s = context;
  es_handle : exists h1 e, extends h0 h1 /\
    match e with Answered o' _ => o' = o | _ => False end /\ opened e = Some (handle s) /\
    since (h1 ++ [e]) (fun e => grants e = Some (handle s)) h
}.

(** The last phase, shared by the direct and the jump connection. *)
Lemma wp_authentication_phase fuel config0 context op hd plan tcpip streamlocal o h0 h1 e h :
  validate config0 = Ok tt -> extends h0 h1 ->
  match e with Answered o' _ => o' = o | _ => False end -> opened e = Some hd ->
  extends (h1 ++ [e]) h ->
  wp (authentication_context ← with_timeout_from_now (authentication_timeout config0) context;
      (map_err (with_endpoint_of config0) <$>
         run authentication_context op (authenticate fuel hd (cfg_username config0) plan));;?
      mret (Ok {| handle := hd; config := config0; operation_context_field := context;
                  forwarded_tcpip_receiver := tcpip;
                  forwarded_streamlocal_receiver := streamlocal |}))
    (fun r h' => forall s, r = Ok s -> established o config0 context h0 h' s)
    (fun _ => True) h.
Proof.
  intros Hv Hh Ho Hop He. apply wp_bind, wp_with_timeout_from_now; [done|]. intros d.
  apply wp_bind, wp_map_err, wp_run; [|by cbn].
  eapply wp_mono; [| |apply (wp_authenticate_plan _ _ _ _ (h1 ++ [e])); exact He]; cbn.
  - intros [[]|err] h' [Hh' Hg]; cbn; [|done]. intros s [= <-]. split; [done..|].
    exists h1, e. split_and!; [done..|]. by apply Hg.
  - done.
Qed.

Definition connect_call (config0 : SshConfig) (v : dyn_verifier) (o : call) : Prop :=
  exists tcpip streamlocal,
    o = ClientConnect (client_config config0) (socket_address config0)
          (client_handler config0 v tcpip streamlocal).

Definition jump_call (config0 : SshConfig) (v : dyn_verifier) (o : call) : Prop :=
  exists stream tcpip streamlocal,
    o = ClientConnectStream (client_config config0) stream
          (client_handler config0 v tcpip streamlocal).

Lemma wp_connect_with_context fuel config0 v plan context h :
  wp (connect_with_context fuel config0 v plan context)
    (fun r h' => forall s, r = Ok s ->
       exists o, connect_call config0 v o /\ established o config0 context h h' s)
    (fun _ => True) h.
Proof.
  unfold connect_with_context, lift. apply wp_bind. cbn [wp].
  destruct (validate config0) as [[]|e] eqn:Hv; [|done].
  apply wp_bind, (wp_ask (Σ := core_sig) (MpscChannel _)). intros tcpip.
  apply wp_bind, (wp_ask (Σ := core_sig) (MpscChannel _)). intros streamlocal.
  set (h1 := (h ++ _) ++ _). assert (extends h h1) as Hh1 by by do 2 apply extends_app.
  apply wp_bind, wp_with_timeout_from_now; [done|]. intros d.
  apply wp_bind. apply wp_map_err. apply wp_run; [|by cbn].
  apply wp_map_err. split; [done|]. intros [hd|e]; [|done]. cbn [wp map_err].
  set (o := ClientConnect _ _ _).
  eapply wp_mono; [| |apply (wp_authentication_phase _ _ _ _ _ _ _ _ o h
    (h1 ++ [@Issued core_sig o]) (@Answered core_sig o (Ok hd)))]; cbn; try done.
  - intros r h' Hs s Hr. exists o. split; [by exists tcpip, streamlocal|by apply Hs].
  - by apply extends_app.
Qed.

Lemma wp_connect_via_jump_with_context fuel jump config0 v plan context h :
  wp (connect_via_jump_with_context fuel jump config0 v plan context)
    (fun r h' => forall s, r = Ok s ->
       exists o, jump_call config0 v o /\ established o config0 context h h' s)
    (fun _ => True) h.
Proof.
  unfold connect_via_jump_with_context, connect_stream_with_context,
    open_raw_direct_tcpip_with_context, lift.
  apply wp_bind. cbn [wp].
  destruct (validate config0) as [[]|e] eqn:Hv; [|done].
  apply wp_bind, (wp_ask (Σ := core_sig) (MpscChannel _)). intros tcpip.
  apply wp_bind, (wp_ask (Σ := core_sig) (MpscChannel _)). intros streamlocal.
  set (h1 := (h ++ _) ++ _). assert (extends h h1) as Hh1 by by do 2 apply extends_app.
  apply wp_bind, wp_with_timeout_from_now; [done|]. intros d.
  apply wp_bind. apply wp_map_err. apply wp_run; [|by cbn].
  apply wp_map_err. split; [done|]. intros [channel|e]; [|done]. cbn [wp map_err].
  apply wp_bind. apply wp_map_err. apply wp_run; [|by cbn].
  apply wp_map_err. split; [done|]. intros [hd|e]; [|done]. cbn [wp map_err].
  set (o := ClientConnectStream _ _ _). set (h2 := (h1 ++ _) ++ _).
  assert (extends h h2) as Hh2 by by do 2 apply extends_app.
  eapply wp_mono; [| |apply (wp_authentication_phase _ _ _ _ _ _ _ _ o h
    (h2 ++ [@Issued core_sig o]) (@Answered core_sig o (Ok hd)))]; cbn; try done.
  - intros r h' Hs s Hr. exists o.
    split; [by exists (into_raw_stream channel), tcpip, streamlocal|by apply Hs].
  - by apply extends_app.
Qed.

(** ** Order of the events of a connection *)

Definition orderly (h0 h : list event) : Prop := exists l, h = h0 ++ l /\ ordered l.

Lemma orderly_refl h : orderly h h.
Proof. exists []. split; [by rewrite app_nil_r|apply ordered_nil]. Qed.

Lemma orderly_snoc h0 h e : orderly h0 h -> credential e = None -> orderly h0 (h ++ [e]).
Proof.
  intros (l & -> & Ho) He. exists (l ++ [e]). split; [by rewrite (assoc_L (++))|].
  apply ordered_snoc; [done|]. intros hd Hc. congruence.
Qed.

Lemma sent_after_orderly h0 hd h : sent_after h0 hd h -> orderly h0 h.
Proof. intros (l & -> & Ho & _). by exists l. Qed.

Lemma sent_after_opened h0 hd h e :
  orderly h0 h -> credential e = None -> opened e = Some hd -> sent_after h0 hd (h ++ [e]).
Proof.
  intros (l & -> & Ho) Hc He. exists (l ++ [e]). split; [by rewrite (assoc_L (++))|]. split.
  - apply ordered_snoc; [done|]. intros hd' Hc'. congruence.
  - exists e. split; [|done]. apply elem_of_app. right. by constructor.
Qed.

(** Before the handshake: events that carry no credential. *)
Lemma wp_orderly {T} h0 (t : fut T) Q h :
  emits (fun e => credential e = None) t -> orderly h0 h ->
  (forall a h', orderly h0 h' -> Q a h') ->
  wp (F := always (orderly h0)) t Q (orderly h0) h.
Proof.
  intros He Hh HQ. eapply wp_mono; [exact (fun a h' => HQ a h')|done|].
  eapply wp_emits; [|exact He|exact Hh]. intros h' e Ho Hc. by apply orderly_snoc.
Qed.

(** After it: credentials on its connection only. *)
Lemma wp_sent_after {T} h0 hd (t : fut T) h :
  emits (only_on hd) t -> sent_after h0 hd h ->
  wp (F := always (orderly h0)) t (fun _ => orderly h0) (orderly h0) h.
Proof.
  intros He Hh. eapply (wp_budget (always (sent_after h0 hd))).
  - intros h'. apply sent_after_orderly.
  - intros h'. apply sent_after_orderly.
  - eapply wp_mono; [| |eapply (wp_emits (sent_after h0 hd) (only_on hd)); [|exact He|exact Hh]].
    + intros a h'. apply sent_after_orderly.
    + intros h'. apply sent_after_orderly.
    + apply sent_after_step.
Qed.

Lemma emits_authentication_phase fuel config0 context op hd plan tcpip streamlocal :
  emits (only_on hd)
    (authentication_context ← with_timeout_from_now (authentication_timeout config0) context;
      (map_err (with_endpoint_of config0) <$>
         run authentication_context op (authenticate fuel hd (cfg_username config0) plan));;?
      mret (Ok {| handle := hd; config := config0; operation_context_field := context;
                  forwarded_tcpip_receiver := tcpip;
                  forwarded_streamlocal_receiver := streamlocal |})).
Proof.
  apply emits_bind; [apply emits_with_timeout_from_now|]. intros ctx.
  apply emits_bind; [|by intros []].
  apply emits_fmap, emits_run, emits_authenticate_plan.
Qed.

(** The handshake itself, in both connections. *)
Lemma wp_handshake_orderly {B} h0 (o : call) (Heq : answer o = result SshError Handle)
    ctx op (f g : SshError -> SshError) (k : result SshError Handle -> fut (result SshError B))
    (r2 : answer o -> result SshError Handle) h :
  orderly h0 h -> (forall a, opened (Answered o a) = result_ok (r2 a)) ->
  @credential (Issued o) = None ->
  (forall hd, emits (only_on hd) (k (Ok hd))) -> (forall e, exists b, k (Err e) = Ret b) ->
  wp (F := always (orderly h0))
    ((map_err g <$> run ctx op (a ← await o; mret (map_err f (r2 a)))) ≫= k)
    (fun _ => orderly h0) (orderly h0) h.
Proof.
  intros Hh Hop Hcr Hk Hke.
  assert (forall e h', orderly h0 h' -> wp (F := always (orderly h0)) (k (Err e))
    (fun _ => orderly h0) (orderly h0) h') as Herr.
  { intros e h' Hh'. by destruct (Hke e) as [b ->]. }
  apply wp_bind. apply wp_map_err. apply wp_run; [|by apply Herr].
  assert (orderly h0 (h ++ [Issued o])) as Hh1 by by apply orderly_snoc.
  split; [split_and!; [done|by apply Herr|by intros; apply Herr]|].
  intros a.
  change (wp (F := always (orderly h0))
    (k (map_err g (map_err (SshError.with_operation op) (map_err f (r2 a)))))
    (fun _ => orderly h0) (orderly h0) ((h ++ [Issued o]) ++ [Answered o a])).
  destruct (r2 a) as [hd|e] eqn:Hr; cbn [map_err].
  - eapply wp_sent_after; [apply Hk|]. apply sent_after_opened; [done|done|].
    by rewrite Hop, Hr.
  - apply Herr. by apply orderly_snoc.
Qed.

Lemma wp_connect_orderly fuel config0 v plan context h :
  wp (F := always (orderly h)) (connect_with_context fuel config0 v plan context)
    (fun _ => orderly h) (orderly h) h.
Proof.
  unfold connect_with_context, lift. apply wp_bind. cbn [wp].
  destruct (validate config0) as [[]|e]; [|apply orderly_refl].
  apply wp_bind, (wp_ask (Σ := core_sig) (MpscChannel _)). intros tcpip.
  apply wp_bind, (wp_ask (Σ := core_sig) (MpscChannel _)). intros streamlocal.
  assert (forall h', orderly h h' -> forall q (r : reply q), orderly h (h' ++ [Asked q r])) as Hq
    by (intros; by apply orderly_snoc).
  apply wp_bind, wp_with_timeout_from_now; [by do 2 apply Hq; apply orderly_refl|]. intros d.
  eapply (wp_handshake_orderly h
    (ClientConnect (client_config config0) (socket_address config0)
       (client_handler config0 v tcpip streamlocal)) eq_refl _ _ _ _ _ (fun a => a)).
  - do 2 apply Hq. apply orderly_refl.
  - done.
  - done.
  - intros hd. apply emits_authentication_phase.
  - intros e. by eexists.
Qed.

Lemma wp_connect_via_jump_orderly fuel jump config0 v plan context h :
  wp (F := always (orderly h)) (connect_via_jump_with_context fuel jump config0 v plan context)
    (fun _ => orderly h) (orderly h) h.
Proof.
  unfold connect_via_jump_with_context, connect_stream_with_context, lift.
  apply wp_bind. cbn [wp].
  destruct (validate config0) as [[]|e]; [|apply orderly_refl].
  apply wp_bind, (wp_ask (Σ := core_sig) (MpscChannel _)). intros tcpip.
  apply wp_bind, (wp_ask (Σ := core_sig) (MpscChannel _)). intros streamlocal.
  assert (forall h', orderly h h' -> forall q (r : reply q), orderly h (h' ++ [Asked q r])) as Hq
    by (intros; by apply orderly_snoc).
  apply wp_bind, wp_with_timeout_from_now; [by do 2 apply Hq; apply orderly_refl|]. intros d.
  apply wp_bind. apply (wp_orderly h).
  { apply emits_fmap. unfold open_raw_direct_tcpip_with_context. emits; done. }
  { do 2 apply Hq. apply orderly_refl. }
  intros [channel|e] h' Hh'; [|exact Hh'].
  eapply (wp_handshake_orderly h
    (ClientConnectStream (client_config config0) (into_raw_stream channel)
       (client_handler config0 v tcpip streamlocal)) eq_refl _ _ _ _ _ (fun a => a)).
  - exact Hh'.
  - done.
  - done.
  - intros hd. apply emits_authentication_phase.
  - intros e. by eexists.
Qed.

(** ** The dialogue of keyboard-interactive authentication *)

(** Number of times the server has asked for information. *)
Definition asks_again (e : event) : bool :=
  match e with
  | Answered o a =>
      match o return answer o -> bool with
      | KeyboardStart _ _ _ | KeyboardRespond _ _ => fun a =>
          match a with Ok (KbInfoRequest _ _ _) => true | _ => false end
      | _ => fun _ => false
      end a
  | _ => false
  end.

Definition rounds (h : list event) : nat := length (List.filter asks_again h).

Lemma rounds_snoc h e : rounds (h ++ [e]) = rounds h + (if asks_again e then 1 else 0).
Proof.
  unfold rounds. rewrite List.filter_app, length_app. cbn. by destruct (asks_again e).
Qed.

Definition info_requested (r : KeyboardInteractiveAuthResponse) : nat :=
  match r with KbInfoRequest _ _ _ => 1 | _ => 0 end.

(** Every round of the loop answers a request of the server. *)
Lemma wp_keyboard_rounds total hd k fuel r h n :
  total = n + fuel -> n + info_requested r <= rounds h ->
  wp (F := {| panicked _ := False; exhausted h' := total <= rounds h' |})
    (keyboard_loop fuel hd k r) (fun _ _ => True) (fun _ => True) h.
Proof.
  revert r h n. induction fuel as [|fuel IH]; intros r h n Ht Hn; cbn [keyboard_loop].
  - cbn. lia.
  - destruct r as [| |name inst prompts]; [done|done|].
    apply wp_bind, (wp_await (Σ := core_sig) (HandlerRespond _ _)); [done|].
    intros [rs|e]; [|done]. case_match; [done|].
    apply wp_bind, wp_map_err, (wp_await (Σ := core_sig) (KeyboardRespond _ _)); [done|].
    intros [next|e]; [|done]. cbn [map_err]. apply (IH _ _ (S n)); [lia|].
    rewrite !rounds_snoc. cbn in Hn |- *. destruct next; cbn; lia.
Qed.

(** ** Errors of a connection *)

(** [e] names the server and one of the phases [ops]. *)
Definition located (config0 : SshConfig) (ops : list string) (e : SshError) : Prop :=
  SshError.host e = Some (cfg_host config0) /\ SshError.port e = Some (cfg_port config0) /\
  exists op, op ∈ ops /\ SshError.operation e = Some op.

Definition failure_located {T} (config0 : SshConfig) (ops : list string)
    (r : result SshError T) : Prop :=
  forall e, r = Err e -> validate config0 = Err e \/ located config0 ops e.

(** Every phase is a [run] whose error is given the endpoint. *)
Lemma wp_located_phase {T B} config0 ops ctx op (body : fut (result SshError T))
    (k : result SshError T -> fut (result SshError B)) h :
  op ∈ ops -> (forall e, k (Err e) = Ret (Err e)) ->
  (forall x h', wp (k (Ok x)) (fun r _ => failure_located config0 ops r) (fun _ => True) h') ->
  wp ((map_err (with_endpoint_of config0) <$> run ctx op body) ≫= k)
    (fun r _ => failure_located config0 ops r) (fun _ => True) h.
Proof.
  intros Hop Hke Hk. apply wp_bind. apply wp_map_err.
  assert (forall e h', SshError.operation e = Some op ->
    wp (k (Err (with_endpoint_of config0 e)))
      (fun r _ => failure_located config0 ops r) (fun _ => True) h') as Herr.
  { intros e h' He. rewrite Hke. intros e' [= <-]. right. split; [done|]. split; [done|].
    by exists op. }
  apply wp_run; [|by apply Herr].
  eapply wp_mono; [| |apply wp_any].
  - intros [x|e] h' _; [by apply Hk|by apply Herr].
  - intros h' _. split; [done|]. split; [by apply Herr|]. intros _. by apply Herr.
Qed.

Definition connect_phases : list string := ["ssh connect and handshake"; "ssh authentication"].

Definition jump_phases : list string :=
  ["open direct-tcpip channel"; "ssh ProxyJump connect and handshake";
   "ssh authentication through ProxyJump"].

Lemma wp_connect_located fuel config0 v plan context h :
  wp (connect_with_context fuel config0 v plan context)
    (fun r _ => failure_located config0 connect_phases r) (fun _ => True) h.
Proof.
  unfold connect_with_context, lift. apply wp_bind. cbn [wp].
  destruct (validate config0) as [[]|e] eqn:Hv; [|by intros e' [= <-]; left].
  apply wp_bind_any; [done|]. intros tcpip h1. apply wp_bind_any; [done|]. intros streamlocal h2.
  apply wp_bind_any; [done|]. intros ctx h3.
  apply wp_located_phase; [by left|done|]. intros hd h4.
  apply wp_bind_any; [done|]. intros ctx' h5.
  apply wp_located_phase; [by right; left|done|]. by intros [] h6 e.
Qed.

Lemma wp_connect_via_jump_located fuel jump config0 v plan context h :
  wp (connect_via_jump_with_context fuel jump config0 v plan context)
    (fun r _ => failure_located config0 jump_phases r) (fun _ => True) h.
Proof.
  unfold connect_via_jump_with_context, connect_stream_with_context, lift. apply wp_bind. cbn [wp].
  destruct (validate config0) as [[]|e] eqn:Hv; [|by intros e' [= <-]; left].
  apply wp_bind_any; [done|]. intros tcpip h1. apply wp_bind_any; [done|]. intros streamlocal h2.
  apply wp_bind_any; [done|]. intros ctx h3.
  apply wp_located_phase; [by left|done|]. intros channel h4.
  apply (wp_located_phase config0 jump_phases); [by right; left|done|]. intros hd h5.
  apply wp_bind_any; [done|]. intros ctx' h6.
  apply wp_located_phase; [by do 2 right; left|done|]. by intros [] h7 e.
Qed.

(** ** Host-key checking *)

Lemma check_server_key_accepts h key :
  snd (check_server_key h key) = Returned (Ok true) <->
  snd (dyn_verify (verifier h) (ch_host h) (ch_port h) key) = Returned (Ok Trusted).
Proof.
  unfold check_server_key.
  destruct (dyn_verify (verifier h) (ch_host h) (ch_port h) key) as [v1 [[d|e]|]]; cbn; try done.
  destruct (decide (d = Trusted)) as [->|Hd]; [done|].
  destruct (dyn_check v1 (ch_host h) (ch_port h) key) as [v2 [[o|e]|]]; cbn;
    (split; [intros Hx|intros Hx; exfalso; congruence]); [by destruct d|done..].
Qed.

(** States a verifier can reach through its own interface. *)
Inductive evolves_for (P : string -> N -> Prop) : dyn_verifier -> dyn_verifier -> Prop :=
| evolves_refl v : evolves_for P v v
| evolves_verify v v' host port key :
    P host port -> evolves_for P v v' -> evolves_for P v (fst (dyn_verify v' host port key))
| evolves_check v v' host port key :
    P host port -> evolves_for P v v' -> evolves_for P v (fst (dyn_check v' host port key)).

(** Any calls. *)
Definition evolves : dyn_verifier -> dyn_verifier -> Prop := evolves_for (fun _ _ => True).

Lemma evolves_known_hosts kv v :
  evolves (DynVerifier _ known_host_key_verifier kv) v ->
  v = DynVerifier _ known_host_key_verifier kv.
Proof.
  unfold evolves. remember (DynVerifier _ known_host_key_verifier kv) as v0 eqn:Hv0.
  induction 1 as [v|v v' host port key _ Hv IH|v v' host port key _ Hv IH]; [done|..];
    by rewrite (IH Hv0), Hv0.
Qed.

(** The handler of an answered handshake. *)
Definition handler_of (e : event) : option ClientHandler :=
  match e with
  | Answered (ClientConnect _ _ h) _ | Answered (ClientConnectStream _ _ h) _ => Some h
  | _ => None
  end.

(** What the crate relies on in [russh]: a handshake is delivered only if
    [check_server_key] has accepted the server's key.  Others may have used the same
    verifier meanwhile, for hosts in [P]. *)
Definition host_key_checked_among (P : string -> N -> Prop) (h : list event) : Prop :=
  forall e hd handler, e ∈ h -> opened e = Some hd -> handler_of e = Some handler ->
    exists v key, evolves_for P (verifier handler) v /\
      snd (check_server_key (with_verifier handler v) key) = Returned (Ok true).

Definition host_key_checked : list event -> Prop := host_key_checked_among (fun _ _ => True).

(** The same, where [server_key] is the key the server at the other end of a completed
    handshake has proved to hold: it is the one [check_server_key] was given. *)
Definition proved_keys_checked_among (P : string -> N -> Prop) (server_key : Handle -> PublicKey)
    (h : list event) : Prop :=
  forall e hd handler, e ∈ h -> opened e = Some hd -> handler_of e = Some handler ->
    exists v, evolves_for P (verifier handler) v /\
      snd (check_server_key (with_verifier handler v) (server_key hd)) = Returned (Ok true).

(** The two ways of connecting. *)
Definition connecting (fuel : nat) (config0 : SshConfig) (v : dyn_verifier)
    (plan : AuthenticationPlan) (context : OperationContext)
    (t : fut (result SshError SshSession)) : Prop :=
  t = connect_with_context fuel config0 v plan context \/
  exists jump, t = connect_via_jump_with_context fuel jump config0 v plan context.

Lemma wp_connecting fuel config0 v plan context t h :
  connecting fuel config0 v plan context t ->
  wp t (fun r h' => forall s, r = Ok s -> exists o,
          (connect_call config0 v o \/ jump_call config0 v o) /\
          established o config0 context h h' s) (fun _ => True) h.
Proof.
  intros [->|[jump ->]].
  - eapply wp_mono; [| |apply wp_connect_with_context]; [|done].
    intros r h' Hr s Hs. destruct (Hr s Hs) as (o & Ho & Hes). eauto.
  - eapply wp_mono; [| |apply wp_connect_via_jump_with_context]; [|done].
    intros r h' Hr s Hs. destruct (Hr s Hs) as (o & Ho & Hes). eauto.
Qed.

(** A session's own handshake was given the configured host and port and the verifier. *)
Lemma established_handler o config0 v context h0 h s :
  (connect_call config0 v o \/ jump_call config0 v o) ->
  established o config0 context h0 h s ->
  exists e tcpip streamlocal, e ∈ h /\ opened e = Some (handle s) /\
    handler_of e = Some (client_handler config0 v tcpip streamlocal).
Proof.
  intros Ho [_ _ _ (h1 & e & _ & He & Hop & Hs)].
  assert (e ∈ h) as Hin.
  { destruct (since_extends _ _ _ Hs) as [l ->]. apply elem_of_app. left.
    apply elem_of_app. right. by constructor. }
  destruct e as [|o' a|]; [done| |done]. subst o'.
  destruct Ho as [(q1 & q2 & ->)|(st & q1 & q2 & ->)]; by eexists _, q1, q2.
Qed.

Lemma established_key P o config0 v context h0 h s :
  (connect_call config0 v o \/ jump_call config0 v o) ->
  established o config0 context h0 h s -> host_key_checked_among P h ->
  exists v' key, evolves_for P v v' /\
    snd (dyn_verify v' (cfg_host config0) (cfg_port config0) key) = Returned (Ok Trusted).
Proof.
  intros Ho He Hc. destruct (established_handler _ _ _ _ _ _ _ Ho He) as (e & q1 & q2 & Hin & Hop & Hh).
  destruct (Hc e _ _ Hin Hop Hh) as (v' & key & Hv & Hk).
  apply check_server_key_accepts in Hk. eauto.
Qed.

Lemma established_server_key P server_key o config0 v context h0 h s :
  (connect_call config0 v o \/ jump_call config0 v o) ->
  established o config0 context h0 h s -> proved_keys_checked_among P server_key h ->
  exists v', evolves_for P v v' /\
    snd (dyn_verify v' (cfg_host config0) (cfg_port config0) (server_key (handle s))) =
      Returned (Ok Trusted).
Proof.
  intros Ho He Hc. destruct (established_handler _ _ _ _ _ _ _ Ho He) as (e & q1 & q2 & Hin & Hop & Hh).
  destruct (Hc e _ _ Hin Hop Hh) as (v' & Hv & Hk).
  apply check_server_key_accepts in Hk. eauto.
Qed.

Lemma exec_connecting {S : Type} {E : Env S} fuel config0 v plan context t turns
    (w w' : world S) s :
  connecting fuel config0 v plan context t -> exec turns t w = (w', Ret (Ok s)) ->
  exists o, (connect_call config0 v o \/ jump_call config0 v o) /\
    established o config0 context (w_log w) (w_log w') s.
Proof.
  intros Ht He.
  pose proof (wp_adequacy turns t _ _ w (wp_connecting fuel config0 v plan context t _ Ht)) as Hw.
  rewrite He in Hw; cbn [fst snd] in Hw. by destruct (proj1 Hw s eq_refl) as (o & Ho & Hes); eauto.
Qed.

End Sessions.

(** ** Operations end with their context *)

Section Stopping.
Context {K : SshKeys} {A : AuthKeys} {L : Libraries}.

Lemma guarded_connecting fuel config0 v plan context t :
  connecting fuel config0 v plan context t -> guarded context 0 t.
Proof.
  intros [->|[jump ->]].
  - unfold connect_with_context. guarded.
  - unfold connect_via_jump_with_context, open_raw_direct_tcpip_with_context,
      connect_stream_with_context. guarded.
Qed.

(** The operations of a session that take a context. *)
Lemma guarded_session_operations s ctx n :
  guarded ctx n (open_raw_session_channel_with_context s ctx) /\
  guarded ctx n (disconnect_with_context s ctx) /\
  (forall h p oh op, guarded ctx n (open_raw_direct_tcpip_with_context s h p oh op ctx)) /\
  (forall p, guarded ctx n (open_raw_direct_streamlocal_with_context s p ctx)) /\
  (forall a p, guarded ctx n (request_raw_tcpip_forward_with_context s a p ctx)) /\
  (forall a p, guarded ctx n (cancel_raw_tcpip_forward_with_context s a p ctx)) /\
  (forall p, guarded ctx n (request_raw_streamlocal_forward_with_context s p ctx)) /\
  (forall p, guarded ctx n (cancel_raw_streamlocal_forward_with_context s p ctx)) /\
  guarded ctx n (next_raw_forwarded_tcpip_with_context s ctx) /\
  guarded ctx n (next_raw_forwarded_streamlocal_with_context s ctx).
Proof. split_and!; intros; apply guarded_run || apply guarded_run_with_timeout; reflexivity. Qed.

End Stopping.

(** ** Properties *)

Section Properties.
Context {K : SshKeys} {A : AuthKeys} {L : Libraries} {S : Type} {E : Env S}.
#[local] Existing Instance any_budget.

(** C19: the server's key is accepted exactly when the verifier's verdict is [Trusted];
    any other verdict aborts the handshake with a [HostKey] error, not retryable, that
    carries the verifier's observation under that verdict. *)
Theorem check_server_key_spec h key :
  (snd (check_server_key h key) = Returned (Ok true) <->
   snd (dyn_verify (verifier h) (ch_host h) (ch_port h) key) = Returned (Ok Trusted)) /\
  snd (check_server_key h key) <> Returned (Ok false) /\
  (forall v d v' o,
     dyn_verify (verifier h) (ch_host h) (ch_port h) key = (v, Returned (Ok d)) ->
     dyn_check v (ch_host h) (ch_port h) key = (v', Returned (Ok o)) -> d <> Trusted ->
     exists e, check_server_key h key = (with_verifier h v', Returned (Err e)) /\
       SshError.kind e = ErrorKind.HostKey /\ SshError.is_retryable e = false /\
       SshError.host_key_observation e = Some (set_decision d o)).
Proof.
  split; [apply check_server_key_accepts|]. split.
  - unfold check_server_key.
    destruct (dyn_verify _ _ _ _) as [v1 [[d|e]|]]; cbn; try done.
    destruct (decide (d = Trusted)) as [->|Hd]; [done|].
    destruct (dyn_check _ _ _ _) as [v2 [[o|e]|]]; cbn; try done. by destruct d.
  - intros v d v' o Hv Hc Hd. unfold check_server_key. rewrite Hv.
    destruct (decide (d = Trusted)) as [|_]; [done|]. rewrite Hc.
    destruct d; [done|..]; eexists; by split_and!.
Qed.

(** C1: a session is returned, by either way of connecting, only if the configuration is
    valid, the verifier trusted a key for the configured host and port, and the server
    then granted access on that very connection; with a [known_hosts] verifier the key
    is one [check_known] trusts. *)
Theorem connect_checks_host_key fuel config0 v plan context t turns (w w' : world S) s :
  connecting fuel config0 v plan context t ->
  exec turns t w = (w', Ret (Ok s)) -> host_key_checked (w_log w') ->
  valid_config config0 /\ config s = config0 /\ base_context s = context /\
  since (w_log w) (fun e => opened e = Some (handle s)) (w_log w') /\
  since (w_log w) (fun e => grants e = Some (handle s)) (w_log w') /\
  exists v' key, evolves v v' /\
    snd (dyn_verify v' (cfg_host config0) (cfg_port config0) key) = Returned (Ok Trusted) /\
    (forall kv, v = DynVerifier _ known_host_key_verifier kv ->
       decision (check_known kv (cfg_host config0) (cfg_port config0) key) = Trusted).
Proof.
  intros Ht He Hc.
  destruct (exec_connecting _ _ _ _ _ _ _ _ _ _ Ht He) as (o & Ho & Hes).
  destruct (established_key _ _ _ _ _ _ _ _ Ho Hes Hc) as (v' & key & Hv & Hk).
  destruct Hes as [Hval Hcfg Hctx (h1 & e & Hh1 & _ & Hop & Hs)].
  split_and!; [by apply validate_Ok_iff|done|done| | |].
  - destruct (since_extends _ _ _ Hs) as [l ->]. by apply since_app, since_here.
  - eapply since_earlier; [|exact Hs]. by apply extends_app.
  - exists v', key. split_and!; [done..|]. intros kv ->.
    apply evolves_known_hosts in Hv as ->. by injection Hk.
Qed.

(** C3: in every execution of a connection attempt, however it ends and wherever it is
    interrupted, a request carrying the user's credentials is sent only on a connection
    whose handshake has been completed before. *)
Theorem credentials_only_after_handshake fuel config0 v plan context t turns (w : world S) :
  connecting fuel config0 v plan context t ->
  exists l, w_log (fst (exec turns t w)) = w_log w ++ l /\ ordered l.
Proof.
  intros Ht.
  apply (exec_always (orderly (w_log w))).
  by destruct Ht as [->|[jump ->]]; [apply wp_connect_orderly|apply wp_connect_via_jump_orderly].
Qed.

(** C26: when authentication fails, its error carries one unaccepted attempt per method
    tried, in plan order; the methods tried are the whole plan unless the connection was
    found closed; the error is the last attempt's own, or the generic authentication
    failure if the server rejected the last method. *)
Theorem authenticate_reports_attempts fuel hd u plan turns (w w' : world S) e :
  plan_is_empty plan = false ->
  exec turns (authenticate fuel hd u plan) w = (w', Ret (Err e)) ->
  exists tried rest o last_error,
    into_methods plan = tried ++ rest /\
    e = authentication_failed o last_error /\
    SshError.authentication_observation e = Some o /\
    failure_report o (kind <$> tried) last_error /\
    (rest = [] \/ list.last (w_log w') = Some (Asked (HandleIsClosed hd) true)).
Proof.
  intros Hp He. unfold authenticate in He. rewrite Hp in He.
  pose proof (wp_adequacy turns _ _ _ w (wp_authenticate_loop_reported fuel hd u
    (into_methods plan) [] (into_methods plan) _ None (w_log w) eq_refl
    failure_report_empty)) as Hw.
  rewrite He in Hw; cbn [fst snd] in Hw. destruct (proj1 Hw e eq_refl) as (tried & rest & o & le & ? & -> & ? & ?).
  exists tried, rest, o, le. by split_and!.
Qed.

(** C27: every failure of a connection attempt is either the rejection of an invalid
    configuration, made before anything is sent, or an error that names the configured
    host and port and the phase that failed. *)
Theorem connect_error_located fuel jump config0 v plan context turns (w w' : world S) e :
  (exec turns (connect_with_context fuel config0 v plan context) w = (w', Ret (Err e)) ->
   validate config0 = Err e \/ located config0 connect_phases e) /\
  (exec turns (connect_via_jump_with_context fuel jump config0 v plan context) w =
     (w', Ret (Err e)) ->
   validate config0 = Err e \/ located config0 jump_phases e).
Proof.
  split; intros He.
  - pose proof (wp_adequacy turns _ _ _ w
      (wp_connect_located fuel config0 v plan context _)) as Hw.
    rewrite He in Hw; cbn [fst snd] in Hw. exact (proj1 Hw e eq_refl).
  - pose proof (wp_adequacy turns _ _ _ w
      (wp_connect_via_jump_located fuel jump config0 v plan context _)) as Hw.
    rewrite He in Hw; cbn [fst snd] in Hw. exact (proj1 Hw e eq_refl).
Qed.

(** C28: a connection attempt is over, whatever the server does, once its context has been
    cancelled or the context's deadline has passed. *)
Theorem connect_stops_with_context fuel config0 v plan context t turns (w : world S) :
  connecting fuel config0 v plan context t ->
  cancellation context ∈ w_cancelled w ∪ all_cancelled turns \/
  (exists d, deadline context = Some d /\ (d <= w_now w + total_advance turns)%N) ->
  is_pending (snd (exec turns t w)) = false.
Proof.
  intros Ht. apply exec_guarded_stops. by eapply guarded_connecting.
Qed.

(** C29: the keyboard-interactive loop ends: [fuel] rounds suffice unless the server has
    asked for information at least that many times. *)
Theorem keyboard_interactive_terminates fuel hd u sub k turns (w w' : world S) :
  exec turns (authenticate_keyboard_interactive fuel hd u sub k) w = (w', OutOfFuel) ->
  rounds (w_log w) + fuel <= rounds (w_log w').
Proof.
  intros He.
  pose (F := {| panicked _ := False;
                exhausted h' := rounds (w_log w) + fuel <= rounds h' |}).
  assert (wp (F := F) (authenticate_keyboard_interactive fuel hd u sub k) (fun _ _ => True)
    (fun _ => True) (w_log w)) as Hw.
  { unfold authenticate_keyboard_interactive.
    apply wp_bind, wp_map_err, (wp_await (Σ := core_sig) (KeyboardStart _ _ _)); [done|].
    intros [r|e]; [|done]. cbn [map_err].
    apply (wp_keyboard_rounds _ _ _ _ _ _ (rounds (w_log w))); [done|].
    rewrite !rounds_snoc. destruct r; cbn; lia. }
  pose proof (wp_adequacy (F := F) turns _ _ _ w Hw) as Ha. rewrite He in Ha.
  exact (proj1 Ha).
Qed.

(** C30: key material the crate can tell to be unusable never reaches the server: an
    encrypted key without its passphrase, a host certificate, and a certificate for
    another key fail with [Configuration] before anything is issued. *)
Theorem unusable_keys_not_sent fuel hd u key p cert hash (w : world S) :
  (key_is_encrypted key = true ->
   exists e, SshError.kind e = ErrorKind.Configuration /\
     poll (authenticate_method fuel hd u (MPrivateKey key None hash)) w = (w, Ret (Err e)) /\
     poll (authenticate_method fuel hd u (OpenSshCertificate key cert None)) w =
       (w, Ret (Err e))) /\
  (forall key', decrypt_private_key key p = Ok key' ->
   certificate_is_user cert = false \/ certificate_matches_key key' cert = false ->
   exists e, SshError.kind e = ErrorKind.Configuration /\
     poll (authenticate_method fuel hd u (OpenSshCertificate key cert p)) w = (w, Ret (Err e))).
Proof.
  split.
  - intros Hk. exists (SshError.configuration "encrypted private key requires a passphrase").
    unfold authenticate_method, authenticate_private_key, authenticate_certificate, lift,
      decrypt_private_key. rewrite Hk. by split_and!.
  - intros key' Hk Hc. unfold authenticate_method, authenticate_certificate, lift. rewrite Hk.
    cbn. destruct (certificate_is_user cert); cbn; [|eexists; split; [|reflexivity]; done].
    destruct Hc as [|Hc]; [done|]. rewrite Hc. eexists. split; [|reflexivity]. done.
Qed.

(** C31: SHA-1 signatures ([None] for an RSA key) are offered only when the caller asked
    for [LegacySha1] or, under [Auto], when the server announced nothing better. *)
Theorem sha1_only_on_request hd algorithm selection turns (w w' : world S) hashes :
  algorithm_is_rsa algorithm = true ->
  exec turns (rsa_hash_candidates hd algorithm selection) w = (w', Ret (Ok hashes)) ->
  None ∈ hashes ->
  selection = LegacySha1 \/
  (selection = Auto /\ hashes = [None] /\
   list.last (w_log w') = Some (@Answered core_sig (BestSupportedRsaHash hd) (Ok (Some None)))).
Proof.
  intros Hr He Hin.
  assert (wp (rsa_hash_candidates hd algorithm selection)
    (fun r h => forall hashes, r = Ok hashes -> None ∈ hashes ->
       selection = LegacySha1 \/
       (selection = Auto /\ hashes = [None] /\
        list.last h = Some (@Answered core_sig (BestSupportedRsaHash hd) (Ok (Some None)))))
    (fun _ => True) (w_log w)) as Hw.
  { unfold rsa_hash_candidates. rewrite Hr. cbn [negb].
    destruct selection.
    - apply wp_bind, wp_map_err, (wp_await (Σ := core_sig) (BestSupportedRsaHash _)); [done|].
      intros [s|e]; [|done]. intros hs [= <-] Hn. right.
      destruct s as [[x|]|].
      + by apply list_elem_of_singleton in Hn.
      + by rewrite last_snoc.
      + rewrite !elem_of_cons, elem_of_nil in Hn. by destruct Hn as [?|[?|?]].
    - intros hs [= <-] Hn. by apply list_elem_of_singleton in Hn.
    - intros hs [= <-] Hn. by apply list_elem_of_singleton in Hn.
    - by left. }
  pose proof (wp_adequacy turns _ _ _ w Hw) as Ha. rewrite He in Ha.
  exact (proj1 Ha _ eq_refl Hin).
Qed.

End Properties.
