(* ===== verification/Timeouts.v ===== *)
(** * Timeouts: the timeouts the library sets by itself ([src/core/session.rs]).

    [Session] shows that an attempt to connect ends with the caller's context.  Here the
    context is left alone: the two phases of an attempt, reaching the server and
    authenticating, each have their timeout in the configuration, whoever the server is. *)

From S2P Require Export Phases Session.

Section Connecting.
Context {K : SshKeys} {A : AuthKeys} {L : Libraries} {S : Type} {E : Env S}.

(** The times an attempt is given. *)
Definition connection_phases (cfg : SshConfig) : list Duration :=
  [connect_timeout cfg; authentication_timeout cfg].

(** The second phase: whatever is done under the new deadline, and the session it makes. *)
Lemma ends_authentication {T U} timeout context op (body : fut (result SshError T))
    (f : SshError -> SshError) (k : T -> U) :
  ends (S := S) [timeout]
    (ctx ← with_timeout_from_now timeout context;
     r ←? (map_err f <$> run ctx op body);
     mret (Ok (k r))).
Proof.
  apply ends_phase. intros ctx. apply ends_under_bind.
  - apply guarded_fmap, guarded_run. reflexivity.
  - intros [r|e]; apply ends_under_ends, ends_ret.
Qed.

Lemma ends_connect_with_context fuel cfg v plan context :
  ends (S := S) (connection_phases cfg) (connect_with_context fuel cfg v plan context).
Proof.
  unfold connect_with_context. apply ends_bind; [apply ends_ret|].
  intros [[]|e]; [|apply ends_ret].
  apply ends_bind; [apply (ends_ask (Σ := core_sig) (MpscChannel _))|]. intros tcpip.
  apply ends_bind; [apply (ends_ask (Σ := core_sig) (MpscChannel _))|]. intros streamlocal.
  apply ends_phase. intros ctx. apply ends_under_bind.
  - apply guarded_fmap, guarded_run. reflexivity.
  - intros [hd|e]; apply ends_under_ends; [|apply ends_ret].
    by apply (ends_authentication _ _ _ _ _ (fun _ => _)).
Qed.

(** Through a jump host, opening the channel and the handshake share a phase. *)
Lemma ends_connect_via_jump fuel jump cfg v plan context :
  ends (S := S) (connection_phases cfg)
    (connect_via_jump_with_context fuel jump cfg v plan context).
Proof.
  unfold connect_via_jump_with_context. apply ends_bind; [apply ends_ret|].
  intros [[]|e]; [|apply ends_ret].
  apply ends_bind; [apply (ends_ask (Σ := core_sig) (MpscChannel _))|]. intros tcpip.
  apply ends_bind; [apply (ends_ask (Σ := core_sig) (MpscChannel _))|]. intros streamlocal.
  apply ends_phase. intros ctx. apply ends_under_bind.
  { apply guarded_fmap, guarded_run. reflexivity. }
  intros [channel|e]; [|apply ends_under_ends, ends_ret]. apply ends_under_bind.
  - apply guarded_fmap, guarded_run. reflexivity.
  - intros [hd|e]; apply ends_under_ends; [|apply ends_ret].
    by apply (ends_authentication _ _ _ _ _ (fun _ => _)).
Qed.

(** The operations that make a context of their own. *)
Lemma ends_new_context {T} ds (f : OperationContext -> fut T) :
  (forall ctx, ends (S := S) ds (f ctx)) -> ends (S := S) ds (ctx ← OperationContext_new; f ctx).
Proof.
  intros Hf. apply ends_bind; [|exact Hf]. intros schedule w _. by rewrite exec_not_pending.
Qed.

End Connecting.

(** ** Properties *)

Section Properties.
Context {K : SshKeys} {A : AuthKeys} {L : Libraries} {S : Type} {E : Env S}.

(** C15: no server can hold up a client: whatever the environment answers or fails to answer,
    and even under a context without a deadline, an attempt to connect (directly or
    through a jump host, under a context of the caller or its own) is over as soon as
    [connect_timeout] has passed for reaching the server and, after that,
    [authentication_timeout] for authenticating. *)
Theorem connecting_takes_bounded_time fuel cfg v plan context t reaching authenticating
    (w : world S) :
  connecting fuel cfg v plan context t \/ t = connect fuel cfg v plan \/
    (exists jump, t = connect_via_jump fuel jump cfg v plan) ->
  (connect_timeout cfg <= total_advance reaching)%N ->
  (authentication_timeout cfg <= total_advance authenticating)%N ->
  is_pending (snd (exec (reaching ++ authenticating) t w)) = false.
Proof.
  intros Ht Hr Ha.
  assert (ends (S := S) (connection_phases cfg) t) as He.
  { destruct Ht as [[->|[jump ->]]|[->|[jump ->]]];
      [apply ends_connect_with_context|apply ends_connect_via_jump|..];
      apply ends_new_context; intros ctx;
      [apply ends_connect_with_context|apply ends_connect_via_jump]. }
  specialize (He [reaching; authenticating] w). cbn [concat] in He. rewrite app_nil_r in He.
  apply He. by repeat constructor.
Qed.

End Properties.
