(* ===== verification/Loopback.v ===== *)
(** * Loopback: a client in conversation with a server.

    The session tests of [src/core/session.rs] run the client against an SSH server that
    [russh] builds from a [server::Handler].  [Serves] states the documented behaviour of
    that pair of libraries as laws of the environment: the handshake asks the client's
    handler about the server's key, and a request to authenticate is answered with the
    verdict of the server's handler.  Under these laws a connection attempt returns, and
    [accepts] says with which result. *)

From S2P Require Export Session.

Section Servers.
Context {K : SshKeys} {A : AuthKeys} {L : Libraries}.

(** [russh::server::Auth]. *)
Inductive Auth :=
| Accept
| Reject (proceed_with_methods : option MethodSet) (partial_success : bool)
| Partial (name instructions : string) (prompts : list (string * bool)).

(** [Auth::reject()]. *)
Definition Auth_reject : Auth := Reject None false.

Definition is_accept (a : Auth) : bool := match a with Accept => true | _ => false end.

(** The methods of [server::Handler] that authenticate a user; a handler overrides the
    ones it needs. *)
Record Handler := {
  auth_password : string -> string -> Auth;
  auth_publickey : string -> PublicKey -> Auth;
  auth_openssh_certificate : string -> Certificate -> Auth;
  auth_keyboard_interactive : string -> string -> option (list string) -> Auth
}.

Definition rejecting : Handler :=
  {| auth_password _ _ := Auth_reject; auth_publickey _ _ := Auth_reject;
     auth_openssh_certificate _ _ := Auth_reject;
     auth_keyboard_interactive _ _ _ := Auth_reject |}.

(** A signature the server cannot verify is rejected before its handler is asked. *)
Definition signature_verdict (srv : Handler) (verifies : PublicKey -> option HashAlg -> bool)
    (user : string) (key : PublicKey) (hash : option HashAlg) : Auth :=
  if verifies key hash then auth_publickey srv user key else Auth_reject.

(** What the client is told of a verdict. *)
Definition tells (advertises : MethodSet -> Prop) (a : Auth) (r : AuthResult) : Prop :=
  match a with
  | Accept => r = AuthSuccess
  | Reject (Some ms) partial => r = AuthFailure ms partial
  | Reject None partial => exists ms, r = AuthFailure ms partial /\ advertises ms
  | Partial _ _ _ => exists ms partial, r = AuthFailure ms partial
  end.

Definition tells_kb (advertises : MethodSet -> Prop) (a : Auth)
    (r : KeyboardInteractiveAuthResponse) : Prop :=
  match a with
  | Accept => r = KbSuccess
  | Reject (Some ms) partial => r = KbFailure ms partial
  | Reject None partial => exists ms, r = KbFailure ms partial /\ advertises ms
  | Partial name instructions prompts => r = KbInfoRequest name instructions prompts
  end.

(** How a handshake ends, by what the client's handler said of the server's key. *)
Definition handshake_reply (peer : Handle) (checked : or_panic (result SshError bool))
    (r : result SshError Handle) : Prop :=
  match checked with
  | Returned (Ok true) => r = Ok peer
  | Returned (Err e) => r = Err e
  | Returned (Ok false) | Panicked => exists e, r = Err e
  end.

(** The other end of a connection: its key, the client's handle on it, how it is reached
    (by its address, [None], or over a stream), and the state the shared verifiers of the
    client are in.  The handshake asks the client's handler about the key. *)
Class Peer {S : Type} {E : Env S} := {
  server_key : PublicKey;
  peer : Handle;
  reached : option RawStream -> Prop;
  shared : S -> dyn_verifier -> dyn_verifier;

  serves_handshake : forall via cfg address h s, reached via ->
    let checked := check_server_key (with_verifier h (shared s (verifier h))) server_key in
    let Q (r : result SshError Handle) s' :=
      handshake_reply peer (snd checked) r /\
      shared s' (verifier h) = verifier (fst checked) in
    match via with
    | None => replies (ClientConnect cfg address h) s Q
    | Some stream => replies (ClientConnectStream cfg stream h) s Q
    end;
  serves_queues : forall capacity s, exists s' q,
    env_query (Env := E) (MpscChannel capacity : @query core_sig) s = (s', q) /\
    shared s' = shared s
}.

(** A server that authenticates users with its handler [srv], and what the two libraries
    and the application around the client do. *)
Class Serves {S : Type} {E : Env S} (srv : Handler) := {
  serves_peer :: Peer;
  (** the methods the server may advertise after rejecting one *)
  advertised : MethodKind -> MethodSet -> Prop;
  (** the public half of a key, the signatures the server verifies, and what it announces *)
  public_key_of : PrivateKey -> PublicKey;
  verifies : PublicKey -> option HashAlg -> bool;
  announced : option (option HashAlg);
  (** the application: its answers to challenges, and the SSH agent *)
  respond : KeyboardInteractiveHandler -> KeyboardInteractiveChallenge ->
            result SshError (list SecretString);
  agent_at : option PathBuf -> result ForeignError AgentClient;
  identities : AgentClient -> result ForeignError (list PublicKey);
  (** the keyboard-interactive exchange under way *)
  exchange : S -> option (string * string);

  serves_password : forall user pass s,
    replies (AuthenticatePassword peer user pass) s (fun r s' =>
      shared s' = shared s /\
      exists a, r = Ok a /\ tells (advertised MkPassword) (auth_password srv user pass) a);
  serves_publickey : forall user key hash s,
    replies (AuthenticatePublickey peer user key hash) s (fun r s' =>
      shared s' = shared s /\
      exists a, r = Ok a /\
        tells (advertised MkPublicKey)
          (signature_verdict srv verifies user (public_key_of key) hash) a);
  serves_certificate : forall user key cert s,
    replies (AuthenticateCert peer user key cert) s (fun r s' =>
      shared s' = shared s /\
      exists a, r = Ok a /\
        tells (advertised MkPublicKey) (auth_openssh_certificate srv user cert) a);
  serves_signed_by_agent : forall user key hash agent s,
    replies (AuthenticatePublickeyWith peer user key hash agent) s (fun r s' =>
      shared s' = shared s /\
      exists a, r = Ok a /\
        tells (advertised MkPublicKey)
          (signature_verdict srv verifies user key hash) a);
  serves_keyboard_start : forall user submethods s,
    replies (KeyboardStart peer user submethods) s (fun r s' =>
      shared s' = shared s /\ exchange s' = Some (user, default "" submethods) /\
      exists a, r = Ok a /\
        tells_kb (advertised MkKeyboardInteractive)
          (auth_keyboard_interactive srv user (default "" submethods) None) a);
  serves_keyboard_respond : forall user submethods responses s,
    exchange s = Some (user, submethods) ->
    replies (KeyboardRespond peer responses) s (fun r s' =>
      shared s' = shared s /\ exchange s' = exchange s /\
      exists a, r = Ok a /\
        tells_kb (advertised MkKeyboardInteractive)
          (auth_keyboard_interactive srv user submethods (Some responses)) a);
  serves_rsa_hash : forall s,
    replies (BestSupportedRsaHash peer) s (fun r s' =>
      shared s' = shared s /\ r = Ok announced);
  serves_challenge : forall k challenge s,
    replies (HandlerRespond k challenge) s (fun r s' =>
      shared s' = shared s /\ exchange s' = exchange s /\ r = respond k challenge);
  serves_agent : forall socket s,
    match target_platform, socket with
    | Unix, Some path => replies (AgentConnectUds path) s (fun r s' =>
        shared s' = shared s /\ r = agent_at socket)
    | Unix, None => replies AgentConnectEnv s (fun r s' =>
        shared s' = shared s /\ r = agent_at socket)
    | Windows, Some path => replies (AgentConnectNamedPipe path) s (fun r s' =>
        shared s' = shared s /\ r = agent_at socket)
    | Windows, None => replies AgentConnectPageant s (fun r s' =>
        shared s' = shared s /\ Ok r = agent_at socket)
    | OtherPlatform, _ => True
    end;
  serves_identities : forall agent s,
    replies (AgentRequestIdentities agent) s (fun r s' =>
      shared s' = shared s /\ r = identities agent);
  serves_disconnect : forall description language s,
    replies (HandleDisconnect peer description language) s (fun r s' =>
      shared s' = shared s /\ r = Ok tt);
  serves_open : forall s, exists s',
    env_query (Env := E) (HandleIsClosed peer : @query core_sig) s = (s', false) /\
    shared s' = shared s
}.

(** ** Connecting *)

Section Connecting.
Context {S : Type} {E : Env S} {P : Peer}.

(** The verifier trusts the server's key for this host. *)
Definition trusted_by (v : dyn_verifier) (host : string) (port : N) : Prop :=
  snd (dyn_verify v host port server_key) = Returned (Ok Trusted).

(** A request under [run], with the wrappers the code puts around its errors. *)
Lemma settles_guarded {T} (f : SshError -> SshError) ctx op (t : fut (result SshError T)) w
    (Q : result SshError T -> world S -> Prop) :
  is_set (cancellation ctx) w = false ->
  (forall w', w_ext w' = w_ext w -> settles t w' Q) ->
  settles (map_err f <$> run ctx op t) w
    (fun r w2 => exists r0, r = map_err f (map_err (SshError.with_operation op) r0) /\
                            Q r0 w2).
Proof.
  intros Hs Ht. apply settles_fmap, settles_run; [done|].
  eapply settles_mono; [|apply Ht, w_ext_toss]. intros r w2 Hq. by exists r.
Qed.

(** The verdict of a handshake, and the verifier after it. *)
Lemma handshake_reply_ok h r :
  handshake_reply peer (snd (check_server_key h server_key)) r ->
  (is_ok r = true <-> trusted_by (verifier h) (ch_host h) (ch_port h)) /\
  (is_ok r = true -> r = Ok peer /\
     verifier (fst (check_server_key h server_key)) =
     fst (dyn_verify (verifier h) (ch_host h) (ch_port h) server_key)).
Proof.
  unfold trusted_by. rewrite <-check_server_key_accepts. unfold handshake_reply.
  destruct (check_server_key h server_key) as [h' c] eqn:Hc. cbn [fst snd].
  assert (c = Returned (Ok true) -> verifier h' =
    fst (dyn_verify (verifier h) (ch_host h) (ch_port h) server_key)) as Hv.
  { intros ->. revert Hc. unfold check_server_key.
    destruct (dyn_verify _ _ _ _) as [v1 [[d|e]|]]; [|done|done].
    destruct (decide (d = Trusted)); [by intros [= <-]|].
    destruct (dyn_check _ _ _ _) as [v2 [[o|e]|]]; [|done|done]. by destruct d. }
  destruct c as [[[|]|e]|]; [|intros [e ->]|intros ->|intros [e ->]]; [|done..].
  intros ->. split; [done|]. intros _. by split; [|apply Hv].
Qed.

(** Everything an attempt needs of the clock and of its context. *)
Record unhindered (cfg : SshConfig) (context : OperationContext) (w : world S) : Prop := {
  un_connect : (w_now w + connect_timeout cfg <= INSTANT_MAX)%N;
  un_authentication : (w_now w + authentication_timeout cfg <= INSTANT_MAX)%N;
  un_cancelled : is_set (cancellation context) w = false
}.

Lemma unhindered_clock cfg context (w w' : world S) :
  w_now w' = w_now w -> w_cancelled w' = w_cancelled w ->
  unhindered cfg context w -> unhindered cfg context w'.
Proof. intros Hn Hc [? ? ?]. split; rewrite ?Hn; [done..|by rewrite (is_set_clock _ w w')]. Qed.

Definition new_session (cfg : SshConfig) (context : OperationContext) (tcpip streamlocal : QueueId)
  : SshSession :=
  {| handle := peer; config := cfg; operation_context_field := context;
     forwarded_tcpip_receiver := tcpip; forwarded_streamlocal_receiver := streamlocal |}.

(** The authentication phase of either way of connecting. *)
Definition login (fuel : nat) (cfg : SshConfig) (plan : AuthenticationPlan)
    (context : OperationContext) (op : string) (tcpip streamlocal : QueueId) (hd : Handle)
  : fut (result SshError SshSession) :=
  authentication_context ← with_timeout_from_now (authentication_timeout cfg) context;
  (map_err (with_endpoint_of cfg) <$>
     run authentication_context op (authenticate fuel hd (cfg_username cfg) plan));;?
  mret (Ok {| handle := hd; config := cfg; operation_context_field := context;
              forwarded_tcpip_receiver := tcpip;
              forwarded_streamlocal_receiver := streamlocal |}).

Definition logged_in (cfg : SshConfig) (context : OperationContext) (op : string)
    (tcpip streamlocal : QueueId) (r : result SshError unit) : result SshError SshSession :=
  match map_err (with_endpoint_of cfg) (map_err (SshError.with_operation op) r) with
  | Ok _ => Ok (new_session cfg context tcpip streamlocal)
  | Err e => Err e
  end.

Lemma settles_login fuel cfg plan context op tcpip streamlocal w Q :
  unhindered cfg context w ->
  (forall w', w_ext w' = w_ext w ->
     settles (authenticate fuel peer (cfg_username cfg) plan) w' Q) ->
  settles (login fuel cfg plan context op tcpip streamlocal peer) w
    (fun r w' => exists r0, r = logged_in cfg context op tcpip streamlocal r0 /\ Q r0 w').
Proof.
  intros [_ Hn Hs] Ha. apply settles_bind, settles_with_timeout_from_now; [done|].
  intros d _. apply settles_bind.
  eapply settles_mono; [|apply (settles_guarded _ _ _ _ _ Q); [exact Hs|exact Ha]].
  intros r w' (r0 & -> & Hr). destruct r0 as [[]|e]; cbn [map_err].
  - apply settles_ret. by exists (Ok tt).
  - apply (settles_ret (Err _)). by exists (Err e).
Qed.

(** The verifier as the others left it, and after its verdict. *)
Definition trusts (cfg : SshConfig) (v : dyn_verifier) (st : S) : Prop :=
  trusted_by (shared st v) (cfg_host cfg) (cfg_port cfg).

Definition consulted (cfg : SshConfig) (v : dyn_verifier) (st : S) : dyn_verifier :=
  fst (dyn_verify (shared st v) (cfg_host cfg) (cfg_port cfg) server_key).

(** The handshake, given a foreign call [dial] that performs it, and what follows. *)
Lemma settles_handshake {T} cfg v dial (next : Handle -> fut (result SshError T))
    tcpip streamlocal st w Q :
  settles dial w (fun r w' =>
    let checked := check_server_key
      (with_verifier (client_handler cfg v tcpip streamlocal) (shared st v))
      server_key in
    exists r0, is_ok r = is_ok r0 /\ (forall h, r0 = Ok h -> r = Ok h) /\
      handshake_reply peer (snd checked) r0 /\
      shared (w_ext w') v = verifier (fst checked)) ->
  (forall w', w_now w' = w_now w -> w_cancelled w' = w_cancelled w -> trusts cfg v st ->
     shared (w_ext w') v = consulted cfg v st -> settles (next peer) w' Q) ->
  (forall e w', ~ trusts cfg v st -> Q (Err e) w') ->
  settles (handle ←? dial; next handle) w Q.
Proof.
  intros Hd Hnext Herr. apply settles_bind. eapply settles_mono; [|apply settles_clock, Hd].
  intros r w' (Hn & Hc & r0 & Hok & Heq & Hr & Hsh).
  destruct (handshake_reply_ok _ _ Hr) as [Htr Hv].
  destruct r as [h|e].
  - destruct r0 as [h0|]; [|done]. destruct (Hv eq_refl) as [[= ->] Hve].
    injection (Heq _ eq_refl) as ->. apply Hnext; [done|done|by apply Htr|].
    by rewrite Hsh.
  - destruct r0 as [|e0]; [done|]. apply (settles_ret (Err e)), Herr.
    intros Ht. by apply Htr in Ht.
Qed.

(** A foreign call that performs the handshake, under the wrappers of either way of
    connecting. *)
Lemma settles_dial (o : fut (result SshError Handle)) cfg v tcpip streamlocal context op st w :
  is_set (cancellation context) w = false -> shared (w_ext w) = shared st ->
  (forall w', w_ext w' = w_ext w -> settles o w' (fun r w2 =>
     let checked := check_server_key (with_verifier (client_handler cfg v tcpip streamlocal)
       (shared (w_ext w') v)) server_key in
     handshake_reply peer (snd checked) r /\ shared (w_ext w2) v = verifier (fst checked))) ->
  settles (map_err (with_endpoint_of cfg) <$> run context op (map_err classify_connect_error <$> o)) w
    (fun r w' =>
    let checked := check_server_key
      (with_verifier (client_handler cfg v tcpip streamlocal) (shared st v))
      server_key in
    exists r0, is_ok r = is_ok r0 /\ (forall h, r0 = Ok h -> r = Ok h) /\
      handshake_reply peer (snd checked) r0 /\
      shared (w_ext w') v = verifier (fst checked)).
Proof.
  intros Hs Hst Ho. eapply settles_mono; [|apply (settles_guarded _ _ _ _ _ (fun r w' =>
    exists r0, r = map_err classify_connect_error r0 /\
    let checked := check_server_key (with_verifier (client_handler cfg v tcpip streamlocal)
       (shared st v)) server_key in
     handshake_reply peer (snd checked) r0 /\ shared (w_ext w') v = verifier (fst checked)));
    [exact Hs|]].
  - intros r w' (r1 & -> & r0 & -> & Hr & Hv). exists r0. split_and!; [by destruct r0| |done|done].
    by intros h ->.
  - intros w' Hw. apply settles_fmap. eapply settles_mono; [|by apply Ho].
    intros r w2 [Hr Hv]. exists r. split; [done|]. rewrite Hw, Hst in Hr, Hv. by split.
Qed.

Lemma settles_queue capacity w (Q : QueueId -> world S -> Prop) :
  (forall q w', w_now w' = w_now w -> w_cancelled w' = w_cancelled w ->
     shared (w_ext w') = shared (w_ext w) -> Q q w') ->
  settles (ask (MpscChannel capacity : @query core_sig)) w Q.
Proof.
  intros HQ. apply settles_ask.
  destruct (serves_queues capacity (w_ext w)) as (s' & q & -> & Hs). by apply HQ.
Qed.

(** Connecting to a server that is reached by its address. *)
(** [connect_with_context] up to the handshake, which [login] follows. *)
Definition reach (cfg : SshConfig) (v : dyn_verifier) (context : OperationContext)
  : fut (result SshError (QueueId * QueueId * Handle)) :=
  lift (validate cfg);;?
  tcpip ← ask (MpscChannel FORWARDED_TCPIP_QUEUE_CAPACITY : @query core_sig);
  streamlocal ← ask (MpscChannel FORWARDED_TCPIP_QUEUE_CAPACITY : @query core_sig);
  let handler := client_handler cfg v tcpip streamlocal in
  connect_context ← with_timeout_from_now (connect_timeout cfg) context;
  handle ←? (map_err (with_endpoint_of cfg) <$>
    run connect_context "ssh connect and handshake"
      (map_err classify_connect_error <$>
         await (ClientConnect (client_config cfg) (socket_address cfg) handler)));
  mret (Ok (tcpip, streamlocal, handle)).

Lemma connect_reach fuel cfg v plan context :
  connect_with_context fuel cfg v plan context =
  (reached ←? reach cfg v context;
   let '(tcpip, streamlocal, handle) := reached in
   login fuel cfg plan context "ssh authentication" tcpip streamlocal handle).
Proof.
  symmetry. apply fut_bind_then. intros [[]|e]; [|done].
  apply fut_bind_then. intros tcpip. apply fut_bind_then. intros streamlocal.
  apply fut_bind_then. intros ctx. apply fut_bind_then. by intros [hd|e].
Qed.

Lemma settles_reach cfg v context w :
  reached None -> valid_config cfg -> unhindered cfg context w ->
  settles (reach cfg v context) w (fun r w' =>
    w_now w' = w_now w /\ w_cancelled w' = w_cancelled w /\
    match r with
    | Ok (_, _, handle) => handle = peer /\ trusts cfg v (w_ext w) /\
                           shared (w_ext w') v = consulted cfg v (w_ext w)
    | Err _ => ~ trusts cfg v (w_ext w)
    end).
Proof.
  intros Hre Hval Hu. apply settles_clock. unfold reach.
  apply settles_bind, settles_lift. rewrite (proj2 (validate_Ok_iff cfg) Hval).
  apply settles_bind, settles_queue. intros tcpip w1 Hn1 Hc1 Hs1.
  apply settles_bind, settles_queue. intros streamlocal w2 Hn2 Hc2 Hs2.
  eapply unhindered_clock in Hu; [|exact (eq_trans Hn2 Hn1)|exact (eq_trans Hc2 Hc1)].
  apply settles_bind, settles_with_timeout_from_now; [apply Hu|]. intros d _.
  apply (settles_handshake cfg v _ (fun hd => mret (Ok (tcpip, streamlocal, hd)))
    tcpip streamlocal (w_ext w)); [|intros w3 _ _ Ht Hv; by apply (settles_ret (Ok _))|done].
  apply settles_dial; [apply Hu|by rewrite Hs2|].
  intros w' Hw.
  eapply settles_mono; [|exact (settles_replies (ClientConnect _ _ _) _ _
    (serves_handshake None _ _ _ _ Hre))]. by intros r w3.
Qed.

Lemma settles_connect fuel cfg v plan context w Q :
  reached None -> valid_config cfg -> unhindered cfg context w ->
  (forall tcpip streamlocal w', w_now w' = w_now w -> w_cancelled w' = w_cancelled w ->
     trusts cfg v (w_ext w) ->
     shared (w_ext w') v = consulted cfg v (w_ext w) ->
     settles (login fuel cfg plan context "ssh authentication" tcpip streamlocal peer) w' Q) ->
  (forall e w', ~ trusts cfg v (w_ext w) -> Q (Err e) w') ->
  settles (connect_with_context fuel cfg v plan context) w Q.
Proof.
  intros Hre Hval Hu Hlogin Herr. rewrite connect_reach.
  apply settles_bind. eapply settles_mono; [|by apply settles_reach].
  intros [[[tcpip streamlocal] hd]|e] w' (Hn & Hc & Hr); [|by apply (settles_ret (Err e)), Herr].
  destruct Hr as (-> & Ht & Hv). by apply Hlogin.
Qed.

(** The jump host opens the channel to the target, which is then reached over it. *)
Definition jumps (jump : SshSession) (cfg : SshConfig) : Prop :=
  forall s, replies (ChannelOpenDirectTcpip (handle jump) (cfg_host cfg) (cfg_port cfg)
                       "127.0.0.1" 0) s
    (fun r s' => shared s' = shared s /\
                 exists channel, r = Ok channel /\ reached (Some (into_raw_stream channel))).

Lemma settles_connect_via_jump fuel jump cfg v plan context w Q :
  jumps jump cfg -> valid_config cfg -> unhindered cfg context w ->
  (forall tcpip streamlocal w', w_now w' = w_now w -> w_cancelled w' = w_cancelled w ->
     trusts cfg v (w_ext w) ->
     shared (w_ext w') v = consulted cfg v (w_ext w) ->
     settles (login fuel cfg plan context "ssh authentication through ProxyJump"
                tcpip streamlocal peer) w' Q) ->
  (forall e w', ~ trusts cfg v (w_ext w) -> Q (Err e) w') ->
  settles (connect_via_jump_with_context fuel jump cfg v plan context) w Q.
Proof.
  intros Hj Hval Hu Hlogin Herr. unfold connect_via_jump_with_context.
  apply settles_bind, settles_lift. rewrite (proj2 (validate_Ok_iff cfg) Hval).
  apply settles_bind, settles_queue. intros tcpip w1 Hn1 Hc1 Hs1.
  apply settles_bind, settles_queue. intros streamlocal w2 Hn2 Hc2 Hs2.
  eapply unhindered_clock in Hu; [|exact (eq_trans Hn2 Hn1)|exact (eq_trans Hc2 Hc1)].
  apply settles_bind, settles_with_timeout_from_now; [apply Hu|]. intros d _.
  apply settles_bind. eapply settles_mono; [|apply settles_clock, (settles_guarded _ _ _ _ _
    (fun r w' => shared (w_ext w') = shared (w_ext w2) /\
       exists channel, r = Ok channel /\ reached (Some (into_raw_stream channel)))); [apply Hu|]].
  - intros r w3 (Hn3 & Hc3 & r0 & -> & Hs3 & channel & -> & Hre). cbn [map_err].
    eapply unhindered_clock in Hu; [|exact Hn3|exact Hc3].
    apply (settles_handshake cfg v _
      (login fuel cfg plan context "ssh authentication through ProxyJump" tcpip streamlocal)
      tcpip streamlocal (w_ext w));
      [|intros w4 Hn4 Hc4; apply Hlogin; congruence|done].
    apply settles_dial; [apply Hu|by rewrite Hs3, Hs2|].
    intros w' Hw.
    eapply settles_mono; [|exact (settles_replies (ClientConnectStream _ _ _) _ _
      (serves_handshake (Some _) _ "" _ _ Hre))]. by intros r w4.
  - intros w' Hw. apply settles_fmap.
    eapply settles_mono; [|apply (settles_replies (ChannelOpenDirectTcpip _ _ _ _ _)), Hj].
    intros r w3 (Hs & channel & -> & Hre). split; [by rewrite Hs, Hw|]. by exists channel.
Qed.

End Connecting.

(** ** Who is let in *)

Section Verdicts.
Context {S : Type} {E : Env S} (srv : Handler) {V : Serves srv}.

(** The signature hashes the client tries for a key. *)
Definition hash_candidates (algorithm : Algorithm) (selection : RsaHashAlgorithm)
  : list (option HashAlg) :=
  if negb (algorithm_is_rsa algorithm) then [None]
  else match selection with
       | Sha256 => [Some HashAlg_Sha256]
       | Sha512 => [Some HashAlg_Sha512]
       | LegacySha1 => [None]
       | Auto => match announced with
                 | Some (Some hash) => [Some hash]
                 | Some None => [None]
                 | None => [Some HashAlg_Sha512; Some HashAlg_Sha256]
                 end
       end.

(** The server takes a signature by [key] under one of those hashes. *)
Definition key_accepted (user : string) (key : PublicKey) (hashes : list (option HashAlg)) : bool :=
  existsb (fun hash => is_accept (signature_verdict srv verifies user key hash)) hashes.

(** A keyboard-interactive exchange, at most [fuel] challenges long. *)
Fixpoint kb_accepted (fuel : nat) (k : KeyboardInteractiveHandler) (user submethods : string)
    (a : Auth) : option bool :=
  match fuel with
  | 0 => None
  | Datatypes.S fuel =>
      match a with
      | Accept => Some true
      | Reject _ _ => Some false
      | Partial name instructions prompts =>
          match respond k (challenge_of name instructions prompts) with
          | Err _ => Some false
          | Ok responses =>
              if length responses =? length prompts
              then kb_accepted fuel k user submethods
                     (auth_keyboard_interactive srv user submethods (Some (as_str <$> responses)))
              else Some false
          end
      end
  end.

(** Whether a method gets [user] in; [None] when the exchange is longer than [fuel]. *)
Definition accepts (fuel : nat) (user : string) (m : AuthMethod) : option bool :=
  match m with
  | Password p => Some (is_accept (auth_password srv user (as_str p)))
  | MPrivateKey key passphrase rsa_hash =>
      Some (match decrypt_private_key key passphrase with
            | Ok key => key_accepted user (public_key_of key)
                          (hash_candidates (key_algorithm key) rsa_hash)
            | Err _ => false
            end)
  | OpenSshCertificate key cert passphrase =>
      Some (match decrypt_private_key key passphrase with
            | Ok key => certificate_is_user cert && certificate_matches_key key cert &&
                        is_accept (auth_openssh_certificate srv user cert)
            | Err _ => false
            end)
  | KeyboardInteractive submethods k =>
      kb_accepted fuel k user (default "" submethods)
        (auth_keyboard_interactive srv user (default "" submethods) None)
  | Agent socket rsa_hash =>
      Some (match target_platform, agent_at socket with
            | OtherPlatform, _ | _, Err _ => false
            | _, Ok agent =>
                match identities agent with
                | Ok keys => existsb (fun key => key_accepted user key
                               (hash_candidates (public_key_algorithm key) rsa_hash)) keys
                | Err _ => false
                end
            end)
  end.

(** ** One request at a time *)

(** [t] returns, the shared verifiers keep their state, and its result satisfies [Q]. *)
Definition yields {T} (t : fut T) (w : world S) (Q : T -> S -> Prop) : Prop :=
  settles t w (fun x w' => shared (w_ext w') = shared (w_ext w) /\
                           Q x (w_ext w')).

Lemma yields_ret {T} (x : T) w (Q : T -> S -> Prop) : Q x (w_ext w) -> yields (Ret x) w Q.
Proof. intros Hq. by apply settles_ret. Qed.

Lemma yields_mono {T} (t : fut T) w (Q Q' : T -> S -> Prop) :
  (forall x s, Q x s -> Q' x s) -> yields t w Q -> yields t w Q'.
Proof. intros HQ. apply settles_mono. intros x w' [? ?]. split; [done|by apply HQ]. Qed.

Lemma yields_bind {T U} (t : fut T) (f : T -> fut U) w (Q : U -> S -> Prop) (P : T -> S -> Prop) :
  yields t w P -> (forall x w', P x (w_ext w') -> yields (f x) w' Q) -> yields (t ≫= f) w Q.
Proof.
  intros Ht Hf. apply settles_bind. eapply settles_mono; [|exact Ht].
  intros x w' [Hs Hp]. eapply settles_mono; [|by apply Hf].
  intros y w2 [Hs2 Hq]. split; [by rewrite Hs2|done].
Qed.

Lemma yields_await (o : call) w (Q : call_answer o -> S -> Prop) :
  replies o (w_ext w) (fun a s' => shared s' = shared (w_ext w) /\ Q a s') ->
  yields (await (o : @op core_sig)) w Q.
Proof. intros Hr. exact (settles_replies o w _ Hr). Qed.

Lemma yields_fmap {T U} (f : T -> U) (t : fut T) w (Q : U -> S -> Prop) :
  yields t w (fun x s => Q (f x) s) -> yields (f <$> t) w Q.
Proof. intros Ht. eapply yields_bind; [exact Ht|]. intros x w' Hq. by apply yields_ret. Qed.

Lemma tells_accepted P a r : tells P a r -> accepted (auth_outcome r) = is_accept a.
Proof.
  destruct a as [|[ms|] p|]; cbn.
  - by intros ->.
  - by intros ->.
  - by intros (ms & -> & _).
  - by intros (ms & p & ->).
Qed.

(** A signed request, answered with the verdict [a] of the server. *)
Definition verdict (a : Auth) (r : result SshError AuthResult) : Prop :=
  exists x, r = Ok x /\ accepted (auth_outcome x) = is_accept a.

Lemma yields_verdict {X} (t : fut (result X AuthResult)) (f : X -> SshError) P a w :
  yields t w (fun r _ => exists x, r = Ok x /\ tells P a x) ->
  yields (map_err f <$> t) w (fun r _ => verdict a r).
Proof.
  intros Ht. apply yields_fmap. eapply yields_mono; [|exact Ht].
  intros r s (x & -> & Hx). exists x. split; [done|by eapply tells_accepted].
Qed.

(** The result of a method says whether the user got in. *)
Definition outcome (b : bool) (r : result SshError AuthOutcome) : Prop :=
  match r with Ok o => accepted o = b | Err _ => b = false end.

Lemma yields_hash_candidates algorithm selection w :
  yields (rsa_hash_candidates peer algorithm selection) w
    (fun r _ => r = Ok (hash_candidates algorithm selection)).
Proof.
  unfold rsa_hash_candidates, hash_candidates.
  destruct (negb (algorithm_is_rsa algorithm)); [by apply yields_ret|].
  destruct selection; try by apply yields_ret.
  eapply (yields_bind _ _ _ _ (fun r _ => r = Ok announced)).
  - apply yields_fmap. eapply yields_mono;
      [|apply (yields_await (BestSupportedRsaHash peer)), serves_rsa_hash].
    by intros r s ->.
  - intros r w' ->. apply yields_ret. by destruct announced as [[h|]|].
Qed.

Lemma yields_try_hashes sign (verdict_of : option HashAlg -> Auth) hashes : forall last w,
  (forall hash w, yields (sign hash) w (fun r _ => verdict (verdict_of hash) r)) ->
  accepted last = false ->
  yields (try_hashes sign last hashes) w
    (fun r _ => exists o, r = Ok o /\
       accepted o = existsb (fun hash => is_accept (verdict_of hash)) hashes).
Proof.
  induction hashes as [|hash rest IH]; intros last w Hs Hl; cbn [try_hashes existsb].
  - apply yields_ret. by exists last.
  - eapply yields_bind; [apply Hs|]. intros r w' (x & -> & Hx).
    destruct (accepted (auth_outcome x)) eqn:Ha; rewrite <-Hx; cbn.
    + apply yields_ret. by exists (auth_outcome x).
    + by apply IH.
Qed.

(** ** The methods *)

Lemma yields_private_key user key p h w :
  yields (authenticate_private_key peer user key p h) w
    (fun r _ => outcome (match decrypt_private_key key p with
       | Ok key => key_accepted user (public_key_of key) (hash_candidates (key_algorithm key) h)
       | Err _ => false end) r).
Proof.
  unfold authenticate_private_key, lift. cbn [mbind fut_bind].
  destruct (decrypt_private_key key p) as [key'|e]; [|by apply yields_ret].
  eapply yields_bind; [apply yields_hash_candidates|]. intros r w' ->. unfold key_accepted.
  eapply yields_mono; [|apply (yields_try_hashes _
    (signature_verdict srv verifies user (public_key_of key'))); [|done]].
  - by intros r s (o & -> & Ho).
  - intros hash w2. eapply yields_verdict.
    apply (yields_await (AuthenticatePublickey _ _ _ _)), serves_publickey.
Qed.

Lemma yields_certificate user key cert p w :
  yields (authenticate_certificate peer user key cert p) w
    (fun r _ => outcome (match decrypt_private_key key p with
       | Ok key => certificate_is_user cert && certificate_matches_key key cert &&
                   is_accept (auth_openssh_certificate srv user cert)
       | Err _ => false end) r).
Proof.
  unfold authenticate_certificate, lift. cbn [mbind fut_bind].
  destruct (decrypt_private_key key p) as [key'|e]; [|by apply yields_ret].
  destruct (certificate_is_user cert); [|by apply yields_ret].
  destruct (certificate_matches_key key' cert); [|by apply yields_ret]. cbn [negb andb].
  eapply yields_bind.
  - eapply yields_verdict.
    apply (yields_await (AuthenticateCert _ _ _ _)), serves_certificate.
  - intros r w' (x & -> & Hx). by apply yields_ret.
Qed.

Lemma yields_keyboard fuel k user submethods : forall a r w b,
  exchange (srv := srv) (w_ext w) = Some (user, submethods) ->
  tells_kb (advertised MkKeyboardInteractive) a r ->
  kb_accepted fuel k user submethods a = Some b ->
  yields (keyboard_loop fuel peer k r) w (fun r _ => outcome b r).
Proof.
  induction fuel as [|fuel IH]; intros a r w b Hx Ht; cbn [kb_accepted keyboard_loop]; [done|].
  destruct a as [|[ms|] p|name instructions prompts]; cbn in Ht.
  - subst r. intros [= <-]. by apply yields_ret.
  - subst r. intros [= <-]. by apply yields_ret.
  - destruct Ht as (ms & -> & _). intros [= <-]. by apply yields_ret.
  - subst r. intros Hb. cbn zeta.
    eapply (yields_bind _ _ _ _ (fun r s => exchange (srv := srv) s = Some (user, submethods) /\
              r = respond k (challenge_of name instructions prompts))).
    + eapply yields_mono; [|apply (yields_await (HandlerRespond _ _)), serves_challenge].
      intros r s [-> ->]. by split.
    + intros r w' [Hx' ->]. destruct (respond k _) as [rs|e]; cbv beta iota.
      2: { injection Hb as <-. by apply yields_ret. }
      cbn [challenge_prompts challenge_of]. rewrite length_fmap.
      destruct (length rs =? length prompts); cbv beta iota; cbn [negb].
      2: { injection Hb as <-. by apply yields_ret. }
      eapply (yields_bind _ _ _ _ (fun r s => exchange (srv := srv) s = Some (user, submethods) /\
        exists x, r = Ok x /\ tells_kb (advertised MkKeyboardInteractive)
          (auth_keyboard_interactive srv user submethods (Some (as_str <$> rs))) x)).
      * apply yields_fmap. eapply yields_mono;
          [|apply (yields_await (KeyboardRespond _ _)), (serves_keyboard_respond user submethods);
            exact Hx'].
        intros r s (He & x & -> & Hr). split; [by rewrite He|by exists x].
      * intros r w2 (Hx2 & x & -> & Hr). by eapply IH.
Qed.

Lemma yields_agent_loop user h agent keys : forall last w,
  accepted last = false ->
  yields (agent_loop peer user h agent last keys) w
    (fun r _ => outcome (existsb (fun key =>
       key_accepted user key (hash_candidates (public_key_algorithm key) h)) keys) r).
Proof.
  induction keys as [|key rest IH]; intros last w Hl; cbn [agent_loop existsb].
  - by apply yields_ret.
  - eapply yields_bind; [apply yields_hash_candidates|]. intros r w' ->.
    eapply yields_bind.
    + apply (yields_try_hashes _ (signature_verdict srv verifies user key)); [|done].
      intros hash w2. eapply yields_verdict.
      apply (yields_await (AuthenticatePublickeyWith _ _ _ _ _)), serves_signed_by_agent.
    + intros r w2 (o & -> & Ho). unfold key_accepted at 1. rewrite <-Ho.
      destruct (accepted o) eqn:Ha; [by apply yields_ret|by apply IH].
Qed.

Lemma yields_agent_session user h socket connect w :
  yields connect w (fun r _ => map_err authentication_source_error (agent_at socket) = r) ->
  yields (agent_session peer user connect h) w
    (fun r _ => outcome (match agent_at socket with
       | Ok agent =>
           match identities agent with
           | Ok keys => existsb (fun key =>
               key_accepted user key (hash_candidates (public_key_algorithm key) h)) keys
           | Err _ => false
           end
       | Err _ => false end) r).
Proof.
  intros Hc. eapply yields_bind; [exact Hc|]. intros r w' <-.
  destruct (agent_at socket) as [agent|e]; cbn [map_err]; [|by apply yields_ret].
  eapply (yields_bind _ _ _ _ (fun r _ =>
    r = map_err authentication_source_error (identities agent))).
  - apply yields_fmap. eapply yields_mono;
      [|apply (yields_await (AgentRequestIdentities _)), serves_identities]. by intros r s ->.
  - intros r w2 ->. destruct (identities agent) as [keys|e]; cbn [map_err]; [|by apply yields_ret].
    by apply yields_agent_loop.
Qed.

Lemma yields_agent user socket h w :
  yields (authenticate_agent peer user socket h) w
    (fun r _ => outcome (match target_platform, agent_at socket with
            | OtherPlatform, _ | _, Err _ => false
            | _, Ok agent =>
                match identities agent with
                | Ok keys => existsb (fun key => key_accepted user key
                               (hash_candidates (public_key_algorithm key) h)) keys
                | Err _ => false
                end
            end) r).
Proof.
  unfold authenticate_agent. pose proof (serves_agent (srv := srv) socket) as Ha.
  destruct target_platform; [| |by apply yields_ret].
  - apply yields_agent_session. unfold connect_agent_unix.
    destruct socket as [path|]; apply yields_fmap.
    + eapply yields_mono; [|apply (yields_await (AgentConnectUds _)), Ha]. by intros r s ->.
    + eapply yields_mono; [|apply (yields_await AgentConnectEnv), Ha]. by intros r s ->.
  - apply yields_agent_session. unfold connect_agent_windows.
    destruct socket as [path|]; apply yields_fmap.
    + eapply yields_mono; [|apply (yields_await (AgentConnectNamedPipe _)), Ha]. by intros r s ->.
    + eapply yields_mono; [|apply (yields_await AgentConnectPageant), Ha]. by intros r s <-.
Qed.

Lemma yields_method fuel user m w b :
  accepts fuel user m = Some b ->
  yields (authenticate_method fuel peer user m) w (fun r _ => outcome b r).
Proof.
  destruct m as [p|key p h|key cert p|submethods k|socket h]; cbn [accepts authenticate_method].
  - intros [= <-]. eapply yields_bind.
    + eapply yields_verdict. apply (yields_await (AuthenticatePassword _ _ _)), serves_password.
    + intros r w' (x & -> & Hx). by apply yields_ret.
  - intros [= <-]. apply yields_private_key.
  - intros [= <-]. apply yields_certificate.
  - intros Hb. unfold authenticate_keyboard_interactive.
    eapply (yields_bind _ _ _ _ (fun r s => exchange (srv := srv) s = Some (user, default "" submethods) /\
      exists x, r = Ok x /\ tells_kb (advertised MkKeyboardInteractive)
        (auth_keyboard_interactive srv user (default "" submethods) None) x)).
    + apply yields_fmap. eapply yields_mono;
        [|apply (yields_await (KeyboardStart _ _ _)), serves_keyboard_start].
      intros r s (He & x & -> & Hr). split; [done|by exists x].
    + intros r w' (Hx & x & -> & Hr). by eapply yields_keyboard.
  - intros [= <-]. apply yields_agent.
Qed.

(** Some method of the plan gets the user in. *)
Definition admitted (fuel : nat) (user : string) (plan : AuthenticationPlan) : Prop :=
  Exists (fun m => accepts fuel user m = Some true) (methods plan).

(** No keyboard-interactive exchange of the plan is longer than [fuel]. *)
Definition within_fuel (fuel : nat) (user : string) (plan : AuthenticationPlan) : Prop :=
  Forall (fun m => is_Some (accepts fuel user m)) (methods plan).

Lemma yields_loop fuel user ms : forall o last w,
  Forall (fun m => is_Some (accepts fuel user m)) ms ->
  yields (authenticate_loop fuel peer user o last ms) w
    (fun r _ => r = Ok tt <-> Exists (fun m => accepts fuel user m = Some true) ms).
Proof.
  induction ms as [|m rest IH]; intros o last w Hf; cbn [authenticate_loop].
  - apply yields_ret. split; [done|]. by intros Hn; inversion Hn.
  - apply Forall_cons_1 in Hf as [[b Hb] Hf]. eapply yields_bind; [by apply yields_method|].
    intros r w' Hr.
    assert (b = false -> forall P : Prop,
      P <-> Exists (fun m => accepts fuel user m = Some true) rest ->
      P <-> Exists (fun m => accepts fuel user m = Some true) (m :: rest)) as Hno.
    { intros -> P ->. rewrite Exists_cons, Hb. split; [by right|]. by intros [[=]|]. }
    destruct r as [oc|e]; cbn in Hr.
    + destruct (accepted oc) eqn:Ha.
      * apply yields_ret. split; [|done]. intros _. left. by rewrite Hb, <-Hr.
      * eapply yields_mono; [|by apply IH]. intros r s. by apply Hno.
    + eapply (yields_bind _ _ _ _ (fun closed _ => closed = false)).
      * apply (settles_ask (HandleIsClosed peer : @query core_sig)).
        destruct (serves_open (srv := srv) (w_ext w')) as (s' & -> & Hs). by split.
      * intros closed w2 ->. eapply yields_mono; [|by apply IH]. intros r s. by apply Hno.
Qed.

Lemma yields_authenticate fuel user plan w :
  within_fuel fuel user plan ->
  yields (authenticate fuel peer user plan) w (fun r _ => r = Ok tt <-> admitted fuel user plan).
Proof.
  intros Hf. unfold authenticate. destruct (plan_is_empty plan) eqn:He; [|by apply yields_loop].
  apply yields_ret. split; [done|]. unfold plan_is_empty, admitted in *.
  destruct (methods plan); [|done]. by intros Hn; inversion Hn.
Qed.

(** ** Attempts *)

(** How an attempt ends: it succeeds exactly when the verifier trusts the server's key and
    the server takes a method of the plan, with the session on that connection. *)
Definition attempt (fuel : nat) (cfg : SshConfig) (v : dyn_verifier) (plan : AuthenticationPlan)
    (context : OperationContext) (st : S) (r : result SshError SshSession) (st' : S) : Prop :=
  (is_ok r = true <-> trusts cfg v st /\ admitted fuel (cfg_username cfg) plan) /\
  (forall s, r = Ok s ->
     handle s = peer /\ config s = cfg /\ base_context s = context /\
     shared st' v = consulted cfg v st).

Lemma attempt_untrusted fuel cfg v plan context st e st' :
  ~ trusts cfg v st -> attempt fuel cfg v plan context st (Err e) st'.
Proof. intros Ht. split; [|done]. split; [done|]. by intros []. Qed.

Lemma settles_attempt_login fuel cfg v plan context op tcpip streamlocal st w :
  within_fuel fuel (cfg_username cfg) plan -> unhindered cfg context w -> trusts cfg v st ->
  shared (w_ext w) v = consulted cfg v st ->
  settles (login fuel cfg plan context op tcpip streamlocal peer) w
    (fun r w' => attempt fuel cfg v plan context st r (w_ext w')).
Proof.
  intros Hf Hu Ht Hv. eapply settles_mono; [|apply (settles_login _ _ _ _ _ _ _ _ (fun r w' =>
    shared (w_ext w') = shared (w_ext w) /\
    (r = Ok tt <-> admitted fuel (cfg_username cfg) plan))); [done|]].
  - intros r w' (r0 & -> & Hsh & Hr). unfold logged_in. split.
    + destruct r0 as [[]|e]; cbn.
      * split; [|done]. intros _. split; [done|by apply Hr].
      * split; [done|]. intros [_ Ha]. by apply Hr in Ha.
    + destruct r0 as [[]|e]; cbn; [|done]. intros s [= <-]. split_and!; [done..|].
      by rewrite Hsh.
  - intros w' Hw. eapply settles_mono; [|by apply yields_authenticate].
    intros r w2 [Hsh Hr]. by rewrite Hw in Hsh.
Qed.

End Verdicts.

End Servers.

(** ** Property *)

Section Properties.
Context {K : SshKeys} {A : AuthKeys} {L : Libraries} {S : Type} {E : Env S}.
Context (srv : Handler) {V : Serves srv}.

(** C2: a connection attempt with a valid configuration against a server that answers at the
    first poll, direct or through a jump host, under a context that is not cancelled, with
    timeouts the clock can represent and fuel for the keyboard-interactive rounds, returns, and succeeds exactly when the verifier, in the state its other users left it
    in, trusts the server's key and the server accepts some method of the plan; the
    session is then one on that connection, with the configuration and context given, and
    the shared verifier has seen that one call. *)
Theorem connect_succeeds_exactly fuel cfg v plan context t turns (w : world S) :
  (t = connect_with_context fuel cfg v plan context /\ reached None \/
   exists jump, t = connect_via_jump_with_context fuel jump cfg v plan context /\
                jumps jump cfg) ->
  valid_config cfg -> unhindered cfg context w -> within_fuel srv fuel (cfg_username cfg) plan ->
  let v0 := shared (w_ext w) v in
  exists w' r, exec turns t w = (w', Ret r) /\
    ((exists s, r = Ok s) <->
       snd (dyn_verify v0 (cfg_host cfg) (cfg_port cfg) server_key) =
         Returned (Ok Trusted) /\
       exists m, m ∈ methods plan /\ accepts srv fuel (cfg_username cfg) m = Some true) /\
    (forall s, r = Ok s ->
       handle s = peer /\ config s = cfg /\ base_context s = context /\
       shared (w_ext w') v =
         fst (dyn_verify v0 (cfg_host cfg) (cfg_port cfg) server_key)).
Proof.
  intros Ht Hval Hu Hf v0.
  assert (settles t w (fun r w' =>
    attempt srv fuel cfg v plan context (w_ext w) r (w_ext w'))) as Hs.
  { destruct Ht as [[-> Hr]|(jump & -> & Hj)];
      [apply settles_connect|apply settles_connect_via_jump]; try done; intros;
      first [apply (settles_attempt_login srv); [done|by eapply unhindered_clock|done|done]
            |by apply (attempt_untrusted srv)]. }
  destruct (settles_exec turns _ _ _ Hs) as (r & w' & He & Hok & Hses).
  exists w', r. split; [done|]. split; [|done].
  unfold trusts, trusted_by, admitted in Hok. rewrite list.Exists_exists in Hok.
  unfold v0. rewrite <-Hok. destruct r; cbn; split; first [done | by eexists | by intros []].
Qed.

End Properties.
