(* ===== verification/Secrecy.v ===== *)
(** * Secrecy: passwords influence nothing but the request that carries them.

    A relational companion of [Session]: two connection attempts whose plans
    differ only in passwords are compared step by step. *)

From S2P Require Export Session.

Section Secrecy.
Context {K : SshKeys} {A : AuthKeys} {L : Libraries} {S : Type} {E : Env S}.

(** ** What an observer without the password sees *)

Definition redact_op (o : call) : call :=
  match o with AuthenticatePassword h u _ => AuthenticatePassword h u "" | o => o end.

Definition redact (e : event) : event :=
  match e with
  | Issued o => Issued (redact_op o : @op core_sig)
  | Answered o a =>
      match o return answer o -> event with
      | AuthenticatePassword h u _ => fun a => @Answered core_sig (AuthenticatePassword h u "") a
      | o => fun a => @Answered core_sig o a
      end a
  | e => e
  end.

(** Two passwords to which the server answers the same: both refused, or both accepted. *)
Definition answered_alike (p p' : string) : Prop := forall h u n s,
  @env_poll core_sig S E (AuthenticatePassword h u p) n s =
  @env_poll core_sig S E (AuthenticatePassword h u p') n s.

(** ** Futures that are the same but for passwords *)

Inductive alike : forall T, fut T -> fut T -> Prop :=
| al_ret T (a : T) : alike T (Ret a) (Ret a)
| al_panic T why : alike T (Panic why) (Panic why)
| al_fuel T : alike T OutOfFuel OutOfFuel
| al_now T k k' : (forall n, alike T (k n) (k' n)) -> alike T (GetNow k) (GetNow k')
| al_cancelled T c k k' :
    (forall b, alike T (k b) (k' b)) -> alike T (IsCancelled c k) (IsCancelled c k')
| al_fresh T k k' : (forall c, alike T (k c) (k' c)) -> alike T (FreshToken k) (FreshToken k')
| al_query T q k k' : (forall r, alike T (k r) (k' r)) -> alike T (Query q k) (Query q k')
| al_await T id o k k' : (forall a, alike T (k a) (k' a)) -> alike T (Await id o k) (Await id o k')
| al_password T id h u p p' k k' :
    answered_alike p p' -> (forall a, alike T (k a) (k' a)) ->
    alike T (@Await core_sig T id (AuthenticatePassword h u p) k)
      (@Await core_sig T id (AuthenticatePassword h u p') k')
| al_scope T U timer c (body body' : fut U) k k' :
    alike U body body' -> (forall r, alike T (k r) (k' r)) ->
    alike T (Scope U timer c body k) (Scope U timer c body' k').

Lemma alike_refl T (t : fut T) : alike T t t.
Proof. induction t; constructor; auto. Qed.

Lemma alike_bind T U (t t' : fut T) (f f' : T -> fut U) :
  alike T t t' -> (forall x, alike U (f x) (f' x)) -> alike U (t ≫= f) (t' ≫= f').
Proof. intros Ht. revert f f'. induction Ht; intros f f' Hf; cbn; [apply Hf|constructor; auto..]. Qed.

Lemma alike_fmap T U (t t' : fut T) (f : T -> U) : alike T t t' -> alike U (f <$> t) (f <$> t').
Proof. intros Ht. apply alike_bind; [done|]. intros x. constructor. Qed.

Lemma alike_run T ctx op (t t' : fut (result SshError T)) :
  alike _ t t' -> alike _ (run ctx op t) (run ctx op t').
Proof.
  intros Ht. unfold run. apply alike_bind; [apply alike_refl|]. intros [|]; [constructor|].
  destruct (deadline ctx).
  - apply alike_bind; [apply alike_refl|]. intros m. constructor; [done|]. intros r. apply alike_refl.
  - constructor; [done|]. intros r. apply alike_refl.
Qed.

(** Alike futures end alike. *)
Lemma alike_cases T (t t' : fut T) :
  alike T t t' ->
  match t with
  | Ret a => t' = Ret a
  | Panic why => t' = Panic why
  | OutOfFuel => t' = OutOfFuel
  | _ => is_pending t' = true
  end.
Proof. by destruct 1. Qed.

(** ** Executing them *)

Record same_view (w w' : world S) : Prop := {
  sv_now : w_now w' = w_now w;
  sv_cancelled : w_cancelled w' = w_cancelled w;
  sv_token : w_next_token w' = w_next_token w;
  sv_call : w_next_call w' = w_next_call w;
  sv_coins : w_coins w' = w_coins w;
  sv_ext : w_ext w' = w_ext w;
  sv_log : redact <$> w_log w' = redact <$> w_log w
}.

Lemma same_view_refl w : same_view w w.
Proof. done. Qed.

Lemma same_view_record w w' e e' :
  redact e' = redact e -> same_view w w' -> same_view (record_event e w) (record_event e' w').
Proof.
  intros He [? ? ? ? ? ? Hl]. split; cbn; try done.
  rewrite !fmap_app, Hl. unfold fmap, list_fmap. by rewrite He.
Qed.

Lemma same_view_ext w w' s : same_view w w' -> same_view (set_ext s w) (set_ext s w').
Proof. by intros []. Qed.

Lemma same_view_issue w w' (o o' : call) :
  redact_op o' = redact_op o -> same_view w w' ->
  fst (issue (o' : @op core_sig) w') = fst (issue (o : @op core_sig) w) /\
  same_view (snd (issue (o : @op core_sig) w)) (snd (issue (o' : @op core_sig) w')).
Proof.
  intros Ho [? ? ? Hc ? ? Hl]. split; [done|]. split; cbn; try done.
  - by rewrite Hc.
  - rewrite !fmap_app, Hl. unfold fmap, list_fmap, redact. by rewrite Ho.
Qed.

Lemma same_view_toss w w' :
  same_view w w' -> fst (toss w') = fst (toss w) /\ same_view (snd (toss w)) (snd (toss w')).
Proof.
  intros Hw. unfold toss. rewrite (sv_coins _ _ Hw). destruct (w_coins w) as [|b cs]; [done|].
  split; [done|]. by destruct Hw.
Qed.

Lemma same_view_is_set c w w' : same_view w w' -> is_set c w' = is_set c w.
Proof. intros [_ Hc _ _ _ _ _]. unfold is_set. by rewrite Hc. Qed.

Lemma same_view_timer timer w w' : same_view w w' -> timer_fired timer w' = timer_fired timer w.
Proof. intros [Hn _ _ _ _ _ _]. destruct timer; cbn; by rewrite ?Hn. Qed.

Definition same_end {T} (r r' : world S * fut T) : Prop :=
  same_view (fst r) (fst r') /\ alike T (snd r) (snd r').

(** One answer, or none, at an await. *)
Lemma poll_await_alike T id (o o' : call) (conv : call_answer o -> call_answer o')
    (k : call_answer o -> fut T) (k' : call_answer o' -> fut T) w w' :
  redact_op o' = redact_op o ->
  (forall a, redact (@Answered core_sig o' (conv a)) = redact (@Answered core_sig o a)) ->
  (forall n s, @env_poll core_sig S E o' n s =
     (fst (@env_poll core_sig S E o n s), conv <$> snd (@env_poll core_sig S E o n s))) ->
  (forall a w w', same_view w w' -> same_end (poll (k a) w) (poll (k' (conv a)) w')) ->
  (forall n, alike T (@Await core_sig T (Some n) o k) (@Await core_sig T (Some n) o' k')) ->
  same_view w w' ->
  same_end (poll (@Await core_sig T id o k) w) (poll (@Await core_sig T id o' k') w').
Proof.
  intros Ho Ha He Hk Hp Hw. cbn.
  assert (exists n w1 w1', (match id with Some n => (n, w) | None => issue (o : @op core_sig) w end)
      = (n, w1) /\
    (match id with Some n => (n, w') | None => issue (o' : @op core_sig) w' end) = (n, w1') /\
    same_view w1 w1') as (n & w1 & w1' & -> & -> & H1).
  { destruct id as [n|]; [by exists n, w, w'|].
    destruct (same_view_issue w w' o o' Ho Hw) as [Hn Hi].
    destruct (issue (o : @op core_sig) w) as [n w1], (issue (o' : @op core_sig) w') as [n' w1'].
    cbn in *. subst. by exists n, w1, w1'. }
  rewrite He, (sv_ext _ _ H1).
  destruct (@env_poll core_sig S E o n (w_ext w1)) as [s [a|]]; cbn [fst snd fmap option_fmap option_map].
  - apply Hk, same_view_record; [apply Ha|by apply same_view_ext].
  - split; [by apply same_view_ext|apply Hp].
Qed.

Lemma poll_alike T (t t' : fut T) :
  alike T t t' -> forall w w', same_view w w' -> same_end (poll t w) (poll t' w').
Proof.
  induction 1 as [T a|T why|T|T k k' _ IH|T c k k' _ IH|T k k' _ IH|T q k k' _ IH
    |T id o k k' Hk IH|T id h u p p' k k' Hblind Hk IH|T U timer c body body' k k' _ IHb Hk IH];
    intros w w' Hw.
  - by split; [|constructor].
  - by split; [|constructor].
  - by split; [|constructor].
  - cbn. rewrite (sv_now _ _ Hw). by apply IH.
  - cbn. rewrite (same_view_is_set _ _ _ Hw). by apply IH.
  - cbn. rewrite (sv_token _ _ Hw). apply IH. destruct Hw. split; cbn; congruence.
  - cbn. rewrite (sv_ext _ _ Hw). destruct (env_query q (w_ext w)) as [s r].
    apply IH, same_view_record; [done|by apply same_view_ext].
  - apply (poll_await_alike T id o o (fun a => a) k k'); try done.
    + intros n s. destruct (env_poll o n s) as [s' [a|]]; done.
    + intros n. by constructor.
  - apply (poll_await_alike T id (AuthenticatePassword h u p) (AuthenticatePassword h u p')
      (fun a => a) k k'); try done.
    + intros n s. rewrite <-(Hblind h u n s).
      by destruct (@env_poll core_sig S E (AuthenticatePassword h u p) n s) as [s' [a|]].
    + intros n. by constructor.
  - cbn. destruct (same_view_toss _ _ Hw) as [Hcf H1].
    destruct (toss w) as [cf w1], (toss w') as [cf' w1']. cbn in Hcf, H1. subst cf'.
    rewrite (same_view_is_set c _ _ H1). destruct (cf && is_set c w1); [by apply IH|].
    destruct (IHb _ _ H1) as [H2 Hb].
    destruct (poll body w1) as [w2 b], (poll body' w1') as [w2' b']. cbn [fst snd] in H2, Hb.
    pose proof (alike_cases _ _ _ Hb) as Hc.
    destruct b; try (subst b'; first [by apply IH|by split; [|constructor]]);
      (destruct b'; try discriminate Hc);
      (rewrite (same_view_timer timer _ _ H2); destruct (timer_fired timer w2); [by apply IH|];
       rewrite (same_view_is_set c _ _ H2); destruct (is_set c w2); [by apply IH|];
       split; [done|]; by constructor).
Qed.

Lemma alike_pending T (t t' : fut T) : alike T t t' -> is_pending t' = is_pending t.
Proof. by destruct 1. Qed.

Lemma exec_alike T turns : forall (t t' : fut T) w w',
  alike T t t' -> same_view w w' -> same_end (exec turns t w) (exec turns t' w').
Proof.
  induction turns as [|u us IH]; intros t t' w w' Ht Hw; cbn;
    pose proof (poll_alike T t t' Ht w w' Hw) as [H1 H2];
    destruct (poll t w) as [w1 t1], (poll t' w') as [w1' t1']; cbn [fst snd] in H1, H2;
    rewrite (alike_pending _ _ _ H2); destruct (is_pending t1); try by split.
  apply IH; [done|]. destruct H1. split; cbn; congruence.
Qed.

(** ** Authentication *)

Inductive same_but_password : AuthMethod -> AuthMethod -> Prop :=
| sbp_same m : same_but_password m m
| sbp_password p p' :
    answered_alike (as_str p) (as_str p') -> same_but_password (Password p) (Password p').

Lemma alike_authenticate_method fuel hd u m m' :
  same_but_password m m' ->
  alike _ (authenticate_method fuel hd u m) (authenticate_method fuel hd u m').
Proof.
  intros [m0|p p' Hp]; [apply alike_refl|]. cbn [authenticate_method].
  apply alike_bind; [|intros r; apply alike_refl].
  apply alike_fmap. apply al_password; [exact Hp|]. intros a. apply alike_refl.
Qed.

Lemma same_kind m m' : same_but_password m m' -> kind m = kind m'.
Proof. by destruct 1. Qed.

Lemma alike_authenticate_loop fuel hd u ms ms' : forall o last_error,
  Forall2 same_but_password ms ms' ->
  alike _ (authenticate_loop fuel hd u o last_error ms)
    (authenticate_loop fuel hd u o last_error ms').
Proof.
  intros o last_error Hms. revert o last_error.
  induction Hms as [|m m' ms ms' Hm _ IH]; intros o last_error; cbn [authenticate_loop].
  - constructor.
  - apply alike_bind; [by apply alike_authenticate_method|].
    rewrite <-(same_kind m m' Hm). intros [outcome|e].
    + destruct (accepted outcome); [constructor|apply IH].
    + apply alike_bind; [apply alike_refl|]. intros [|]; [constructor|apply IH].
Qed.

Lemma alike_authenticate fuel hd u plan plan' :
  Forall2 same_but_password (methods plan) (methods plan') ->
  alike _ (authenticate fuel hd u plan) (authenticate fuel hd u plan').
Proof.
  destruct plan as [ms], plan' as [ms']. cbn. intros Hp.
  unfold authenticate, plan_is_empty, into_methods. cbn.
  destruct Hp as [|m m' ms ms' Hm Hms]; [constructor|].
  apply alike_authenticate_loop. by constructor.
Qed.

Lemma alike_authentication_phase fuel hd u plan plan' cfg ctx op (s : SshSession) :
  Forall2 same_but_password (methods plan) (methods plan') ->
  alike _
    ((map_err (with_endpoint_of cfg) <$> run ctx op (authenticate fuel hd u plan));;? mret (Ok s))
    ((map_err (with_endpoint_of cfg) <$> run ctx op (authenticate fuel hd u plan'));;? mret (Ok s)).
Proof.
  intros Hp. apply alike_bind; [|intros r; apply alike_refl].
  by apply alike_fmap, alike_run, alike_authenticate.
Qed.

(** Connecting directly, or through a jump host. *)
Definition attempt (jump : option SshSession) (fuel : nat) (cfg : SshConfig) (v : dyn_verifier)
    (plan : AuthenticationPlan) (ctx : OperationContext) : fut (result SshError SshSession) :=
  match jump with
  | None => connect_with_context fuel cfg v plan ctx
  | Some j => connect_via_jump_with_context fuel j cfg v plan ctx
  end.

Ltac alike_step :=
  apply alike_bind; [apply alike_refl|let x := fresh "x" in intros x; try (destruct x; [|apply alike_refl])].

Lemma alike_attempt jump fuel cfg v plan plan' ctx :
  Forall2 same_but_password (methods plan) (methods plan') ->
  alike _ (attempt jump fuel cfg v plan ctx) (attempt jump fuel cfg v plan' ctx).
Proof.
  intros Hp. destruct jump as [j|]; cbn [attempt];
    [unfold connect_via_jump_with_context|unfold connect_with_context];
    repeat alike_step; by apply alike_authentication_phase.
Qed.

End Secrecy.

Section Properties.
Context {K : SshKeys} {A : AuthKeys} {L : Libraries} {S : Type} {E : Env S}.

(** C4: passwords influence nothing but the request that carries them and what the server
    answers to it.  Take two connection attempts (direct or through a jump host) whose
    plans differ only in passwords to which the server answers the same: both refused,
    say, or both accepted.  They do the same at every moment: the same calls but for the
    password itself, the same clock, tokens and foreign state, and in the end the same
    result; so no error, nor the observation it carries, tells the one password from the
    other.  (A right and a wrong password are told apart, by the server's answer.) *)
Theorem passwords_stay_secret jump fuel cfg v plan plan' ctx turns (w : world S) :
  Forall2 same_but_password (methods plan) (methods plan') ->
  let '(w1, t1) := exec turns (attempt jump fuel cfg v plan ctx) w in
  let '(w2, t2) := exec turns (attempt jump fuel cfg v plan' ctx) w in
  redact <$> w_log w2 = redact <$> w_log w1 /\ w_ext w2 = w_ext w1 /\
  is_pending t2 = is_pending t1 /\ (forall r, t1 = Ret r <-> t2 = Ret r).
Proof.
  intros Hp.
  destruct (exec_alike _ turns _ _ w w (alike_attempt jump fuel cfg v plan plan' ctx Hp)
    (same_view_refl w)) as [Hv Ha].
  destruct (exec turns (attempt jump fuel cfg v plan ctx) w) as [w1 t1],
    (exec turns (attempt jump fuel cfg v plan' ctx) w) as [w2 t2]. cbn [fst snd] in *.
  split_and!; [apply Hv|apply Hv|by apply alike_pending|].
  intros r. destruct Ha; split; congruence.
Qed.

End Properties.
