(* ===== verification/Pinning.v ===== *)
(** * Pinning: trust on first use, from the verifier to the sessions it guards.

    Connection attempts share a [TofuHostKeyVerifier] ([src/core/host_key.rs]) behind an
    [Arc]; the handler of each handshake ([src/core/session.rs]) consults it in the state
    the others have left.  What the verifier pins, later sessions are held to. *)

From S2P Require Export Session.

Section Pinning.
Context {K : SshKeys} {A : AuthKeys} {L : Libraries}.

(** The shared verifier of a trust-on-first-use client. *)
Definition tofu_verifier (t : TofuHostKeyVerifier) : dyn_verifier :=
  DynVerifier _ tofu_host_key_verifier t.

(** Hosts without pattern characters. *)
Definition plain_host (host : string) (port : N) : Prop :=
  plain_token (host_token host port) = true.

Lemma tofu_run_snoc t calls host port key :
  tofu_run t (calls ++ [(host, port, key)]) = fst (tofu_verify (tofu_run t calls) host port key).
Proof. unfold tofu_run. by rewrite foldl_app. Qed.

Lemma evolves_trans P v1 v2 v3 :
  evolves_for P v1 v2 -> evolves_for P v2 v3 -> evolves_for P v1 v3.
Proof. intros H1 H2. induction H2; eauto using evolves_verify, evolves_check. Qed.

(** A shared verifier evolves by the calls made on it, of which [check] changes nothing. *)
Lemma evolves_tofu t v :
  evolves_for plain_host (tofu_verifier t) v ->
  exists calls, v = tofu_verifier (tofu_run t calls) /\
    Forall (fun '(h, p, _) => plain_token (host_token h p) = true) calls.
Proof.
  remember (tofu_verifier t) as v0 eqn:Hv0.
  induction 1 as [v|v v' host port key Hp _ IH|v v' host port key _ _ IH].
  - exists []. by split.
  - destruct (IH Hv0) as (calls & -> & Hc). exists (calls ++ [(host, port, key)]).
    rewrite tofu_run_snoc. split; [|apply Forall_app; split; [done|by constructor]].
    unfold dyn_verify. cbn. by destruct (tofu_verify (tofu_run t calls) host port key).
  - destruct (IH Hv0) as (calls & -> & Hc). exists calls. split; [|done].
    unfold dyn_check. cbn. unfold tofu_check. by destruct (poisoned (tofu_run t calls)).
Qed.

(** Once a key is pinned, the shared verifier trusts no other for that host. *)
Lemma tofu_trusts_first_key t t1 host port key v key' :
  plain_host host port -> decision (check_known (inner t) host port key) = Unknown ->
  verify t host port key = (t1, Returned (Ok Trusted)) ->
  evolves_for plain_host (tofu_verifier t1) v ->
  snd (dyn_verify v host port key') = Returned (Ok Trusted) ->
  fingerprint_sha256 key' = fingerprint_sha256 key.
Proof.
  intros Hp Hu Hv (calls & -> & Hc)%evolves_tofu Hk.
  pose proof (tofu_pins_first_key t t1 host port key calls key' Hp Hu Hv Hc) as Hpin.
  unfold dyn_verify, tofu_verifier in Hk. cbn in Hk, Hpin.
  destruct (tofu_verify (tofu_run t1 calls) host port key') as [t2 r]. cbn in Hk, Hpin.
  rewrite Hpin in Hk. destruct (poisoned (tofu_run t1 calls)); [done|].
  destruct (String.eqb_spec (fingerprint_sha256 key) (fingerprint_sha256 key')); [done|].
  discriminate Hk.
Qed.

End Pinning.

(** ** Property *)

Section Properties.
Context {K : SshKeys} {A : AuthKeys} {L : Libraries} {S : Type} {E : Env S}.

(** C6: trust on first use holds end to end.  Once a shared verifier has accepted a first
    key for a plain host, every later session with that host, direct or through a jump
    host and whatever other connections to plain hosts did with the verifier before or
    during the handshake, is a session with a server that proved a key of that
    fingerprint: [server_key] of the session's own handle; and in any state the verifier
    reaches, a handshake in which the server shows another key is not accepted.  The law
    of [russh] this rests on is that a handshake is completed only after the handler's
    [check_server_key] accepted the key the server proved. *)
Theorem sessions_pinned_to_first_key fuel cfg plan context f turns (w w' : world S) s
    t t1 key v server_key :
  plain_host (cfg_host cfg) (cfg_port cfg) ->
  decision (check_known (inner t) (cfg_host cfg) (cfg_port cfg) key) = Unknown ->
  verify t (cfg_host cfg) (cfg_port cfg) key = (t1, Returned (Ok Trusted)) ->
  evolves_for plain_host (tofu_verifier t1) v ->
  connecting fuel cfg v plan context f ->
  exec turns f w = (w', Ret (Ok s)) ->
  proved_keys_checked_among plain_host server_key (w_log w') ->
  fingerprint_sha256 (server_key (handle s)) = fingerprint_sha256 key /\
  (forall h key', verifier h = v -> ch_host h = cfg_host cfg -> ch_port h = cfg_port cfg ->
     fingerprint_sha256 key' <> fingerprint_sha256 key ->
     snd (check_server_key h key') <> Returned (Ok true)).
Proof.
  intros Hp Hu Hv Hev Hf He Hc. split.
  - destruct (exec_connecting _ _ _ _ _ _ _ _ _ _ Hf He) as (o & Ho & Hes).
    destruct (established_server_key _ _ _ _ _ _ _ _ _ Ho Hes Hc) as (v' & Hv' & Hk).
    apply (tofu_trusts_first_key t t1 (cfg_host cfg) (cfg_port cfg) key v'); try done.
    by apply (evolves_trans _ _ v).
  - intros h key' <- Hh Hpt Hne Hk%check_server_key_accepts. rewrite Hh, Hpt in Hk.
    by apply Hne, (tofu_trusts_first_key t t1 (cfg_host cfg) (cfg_port cfg) key (verifier h)).
Qed.

End Properties.
