(* ===== verification/Channel.v ===== *)
(** * Channel: generic SSH channels, port forwards and channel streams
    ([src/core/channel.rs]). *)

From S2P Require Export Session.

Section Channels.
Context {K : SshKeys} {A : AuthKeys} {L : Libraries}.

(** ** Data *)

(** [SshChannelEvent]. *)
Inductive SshChannelEvent :=
| Data (data : list byte)
| ExtendedData (ext : N) (data : list byte)
| Eof
| Close
| ExitStatus (status : N)
| ExitSignal (signal : string) (core_dumped : bool) (error_message language_tag : string)
| Success
| Failure
| OpenFailure (description : string).

(** [SshChannel]. *)
Record SshChannel := {
  inner : RawChannel;
  context : OperationContext;
  operation_timeout : Duration
}.

(** [SshRemoteTcpipForward] and [SshRemoteStreamlocalForward]. *)
Record SshRemoteTcpipForward := { fwd_address : string; fwd_port : N }.
Record SshRemoteStreamlocalForward := { fwd_socket_path : string }.

(** [SshChannelStream]. *)
Record SshChannelStream := {
  st_inner : RawStream;
  st_context : OperationContext;
  st_operation_timeout : Duration
}.

(** [SshForwardedTcpipChannel] and [SshForwardedStreamlocalChannel]. *)
Record SshForwardedTcpipChannel := {
  connected_address : string;
  connected_port : N;
  originator_address : string;
  originator_port : N;
  tcpip_channel : SshChannel
}.

Record SshForwardedStreamlocalChannel := {
  socket_path : string;
  streamlocal_channel : SshChannel
}.

(** [SshChannel::from_inner], [with_context] and [into_stream]. *)
Definition from_inner (inner : RawChannel) (context : OperationContext)
    (operation_timeout : Duration) : SshChannel :=
  {| inner := inner; context := context; operation_timeout := operation_timeout |}.

Definition with_context (c : SshChannel) (ctx : OperationContext) : SshChannel :=
  {| inner := inner c; context := ctx; operation_timeout := operation_timeout c |}.

Definition into_stream (c : SshChannel) : SshChannelStream :=
  {| st_inner := into_raw_stream (inner c); st_context := context c;
     st_operation_timeout := operation_timeout c |}.

(** [SshForwardedTcpipChannel::into_channel], [into_stream] and their
    streamlocal counterparts. *)
Definition forwarded_into_channel (f : SshForwardedTcpipChannel) : SshChannel := tcpip_channel f.
Definition forwarded_into_stream (f : SshForwardedTcpipChannel) : SshChannelStream :=
  into_stream (tcpip_channel f).
Definition streamlocal_into_channel (f : SshForwardedStreamlocalChannel) : SshChannel :=
  streamlocal_channel f.
Definition streamlocal_into_stream (f : SshForwardedStreamlocalChannel) : SshChannelStream :=
  into_stream (streamlocal_channel f).

(** ** Opening channels *)

(** [validate_streamlocal_path]. *)
Definition nul : ascii := ascii_of_N 0.

Definition validate_streamlocal_path (path : string) : result SshError string :=
  ensure (negb (str_is_empty (trim path)))
    (SshError.configuration "streamlocal socket path must not be empty");;
  ensure (negb (contains_char nul path))
    (SshError.configuration "streamlocal socket path must not contain NUL");;
  mret path.

(** The context of the operations that take none. *)
Definition session_default_context (s : SshSession) : fut OperationContext :=
  with_timeout_from_now (Config.operation_timeout (config s)) (base_context s).

(** The three guards of [open_direct_tcpip_from_with_context]. *)
Definition validate_direct_tcpip (target_host : string) (target_port : N)
    (originator_address : string) : result SshError unit :=
  ensure (negb (str_is_empty (trim target_host)))
    (SshError.configuration "direct-tcpip target host must not be empty");;
  ensure (negb (target_port =? 0)%N)
    (SshError.configuration "direct-tcpip target port must be greater than zero");;
  ensure (negb (str_is_empty (trim originator_address)))
    (SshError.configuration "direct-tcpip originator address must not be empty").

Definition open_direct_tcpip_from_with_context (s : SshSession) (target_host : string)
    (target_port : N) (originator_address : string) (originator_port : N)
    (ctx : OperationContext) : fut (result SshError SshChannel) :=
  lift (validate_direct_tcpip target_host target_port originator_address);;?
  channel ←? open_raw_direct_tcpip_with_context s target_host target_port
    originator_address originator_port ctx;
  mret (Ok (from_inner channel ctx (Config.operation_timeout (config s)))).

Definition open_direct_tcpip_with_context (s : SshSession) (target_host : string)
    (target_port : N) (ctx : OperationContext) : fut (result SshError SshChannel) :=
  open_direct_tcpip_from_with_context s target_host target_port "127.0.0.1" 0 ctx.

Definition open_direct_tcpip_from (s : SshSession) (target_host : string) (target_port : N)
    (originator_address : string) (originator_port : N) : fut (result SshError SshChannel) :=
  ctx ← session_default_context s;
  open_direct_tcpip_from_with_context s target_host target_port originator_address
    originator_port ctx.

Definition open_direct_tcpip (s : SshSession) (target_host : string) (target_port : N)
  : fut (result SshError SshChannel) :=
  ctx ← session_default_context s;
  open_direct_tcpip_from_with_context s target_host target_port "127.0.0.1" 0 ctx.

Definition open_direct_streamlocal_with_context (s : SshSession) (path : string)
    (ctx : OperationContext) : fut (result SshError SshChannel) :=
  path ←? lift (validate_streamlocal_path path);
  channel ←? open_raw_direct_streamlocal_with_context s path ctx;
  mret (Ok (from_inner channel ctx (Config.operation_timeout (config s)))).

Definition open_direct_streamlocal (s : SshSession) (path : string)
  : fut (result SshError SshChannel) :=
  ctx ← session_default_context s; open_direct_streamlocal_with_context s path ctx.

Definition open_session_channel_with_context (s : SshSession) (ctx : OperationContext)
  : fut (result SshError SshChannel) :=
  channel ←? open_raw_session_channel_with_context s ctx;
  mret (Ok (from_inner channel ctx (Config.operation_timeout (config s)))).

Definition open_session_channel (s : SshSession) : fut (result SshError SshChannel) :=
  open_session_channel_with_context s (base_context s).

(** ** Remote forwards *)

Definition invalid_forwarded_port (port : N) : SshError :=
  SshError.from_source ErrorKind.Protocol
    ("SSH server returned invalid forwarded port " +:+ show port)
    "forwarded port exceeds the TCP port range".

Definition missing_forwarded_port : SshError :=
  SshError.protocol "SSH server did not return a port for a dynamic remote forward".

(** The port on which the server listens, from the requested port and its answer. *)
Definition effective_port (port returned_port : N) : result SshError N :=
  effective ← (if (returned_port =? 0)%N then Ok port
               else match u16_try_from returned_port with
                    | Some p => Ok p
                    | None => Err (invalid_forwarded_port returned_port)
                    end);
  if (effective =? 0)%N then Err missing_forwarded_port else Ok effective.

(** [request_remote_tcpip_forward_with_context] and its default. *)
Definition request_remote_tcpip_forward_with_context (s : SshSession) (address : string)
    (port : N) (ctx : OperationContext) : fut (result SshError SshRemoteTcpipForward) :=
  returned_port ←? request_raw_tcpip_forward_with_context s address port ctx;
  effective ←? lift (effective_port port returned_port);
  mret (Ok {| fwd_address := address; fwd_port := effective |}).

Definition request_remote_tcpip_forward (s : SshSession) (address : string) (port : N)
  : fut (result SshError SshRemoteTcpipForward) :=
  ctx ← session_default_context s; request_remote_tcpip_forward_with_context s address port ctx.

(** What [next_forwarded_tcpip_with_context] makes of a queued connection. *)
Definition port_out_of_range (which : string) (port : N) : SshError :=
  SshError.protocol ("forwarded-tcpip " +:+ which +:+ " port " +:+ show port +:+
    " is outside the TCP port range").

Definition accept_forwarded_tcpip (s : SshSession) (pending : PendingForwardedTcpip)
  : result SshError SshForwardedTcpipChannel :=
  connected ← (match u16_try_from (pf_connected_port pending) with
               | Some p => Ok p
               | None => Err (port_out_of_range "connected" (pf_connected_port pending))
               end);
  originator ← (match u16_try_from (pf_originator_port pending) with
                | Some p => Ok p
                | None => Err (port_out_of_range "originator" (pf_originator_port pending))
                end);
  mret {| connected_address := pf_connected_address pending; connected_port := connected;
          originator_address := pf_originator_address pending; originator_port := originator;
          tcpip_channel := from_inner (pf_channel pending) (base_context s)
                             (Config.operation_timeout (config s)) |}.

Definition next_forwarded_tcpip_with_context (s : SshSession) (ctx : OperationContext)
  : fut (result SshError (option SshForwardedTcpipChannel)) :=
  pending ←? next_raw_forwarded_tcpip_with_context s ctx;
  match pending with
  | None => mret (Ok None)
  | Some pending =>
      c ←? lift (accept_forwarded_tcpip s pending);
      mret (Ok (Some c))
  end.

Definition next_forwarded_tcpip (s : SshSession)
  : fut (result SshError (option SshForwardedTcpipChannel)) :=
  next_forwarded_tcpip_with_context s (base_context s).

Definition cancel_remote_tcpip_forward_with_context (s : SshSession) (f : SshRemoteTcpipForward)
    (ctx : OperationContext) : fut (result SshError unit) :=
  cancel_raw_tcpip_forward_with_context s (fwd_address f) (fwd_port f) ctx.

Definition cancel_remote_tcpip_forward (s : SshSession) (f : SshRemoteTcpipForward)
  : fut (result SshError unit) :=
  ctx ← session_default_context s; cancel_remote_tcpip_forward_with_context s f ctx.

Definition request_remote_streamlocal_forward_with_context (s : SshSession) (path : string)
    (ctx : OperationContext) : fut (result SshError SshRemoteStreamlocalForward) :=
  path ←? lift (validate_streamlocal_path path);
  request_raw_streamlocal_forward_with_context s path ctx;;?
  mret (Ok {| fwd_socket_path := path |}).

Definition request_remote_streamlocal_forward (s : SshSession) (path : string)
  : fut (result SshError SshRemoteStreamlocalForward) :=
  ctx ← session_default_context s; request_remote_streamlocal_forward_with_context s path ctx.

Definition next_forwarded_streamlocal_with_context (s : SshSession) (ctx : OperationContext)
  : fut (result SshError (option SshForwardedStreamlocalChannel)) :=
  pending ←? next_raw_forwarded_streamlocal_with_context s ctx;
  match pending with
  | None => mret (Ok None)
  | Some pending =>
      mret (Ok (Some {| socket_path := ps_socket_path pending;
        streamlocal_channel := from_inner (ps_channel pending) (base_context s)
                                 (Config.operation_timeout (config s)) |}))
  end.

Definition next_forwarded_streamlocal (s : SshSession)
  : fut (result SshError (option SshForwardedStreamlocalChannel)) :=
  next_forwarded_streamlocal_with_context s (base_context s).

Definition cancel_remote_streamlocal_forward_with_context (s : SshSession)
    (f : SshRemoteStreamlocalForward) (ctx : OperationContext) : fut (result SshError unit) :=
  cancel_raw_streamlocal_forward_with_context s (fwd_socket_path f) ctx.

Definition cancel_remote_streamlocal_forward (s : SshSession) (f : SshRemoteStreamlocalForward)
  : fut (result SshError unit) :=
  ctx ← session_default_context s; cancel_remote_streamlocal_forward_with_context s f ctx.

(** ** Operations on a channel

    Each comes with an explicit context and with the channel's own one, limited
    by the operation timeout. *)

Definition channel_error {T} : result ForeignError T -> result SshError T :=
  map_err (source_error ErrorKind.Channel).

Definition channel_default_context (c : SshChannel) : fut OperationContext :=
  with_timeout_from_now (operation_timeout c) (context c).

Definition request_pty_with_context (c : SshChannel) (want_reply : bool) (term : string)
    (col_width row_height pix_width pix_height : N) (terminal_modes : list (Pty * N))
    (ctx : OperationContext) : fut (result SshError unit) :=
  run ctx "request remote PTY"
    (channel_error <$> await (RequestPty (inner c) want_reply term col_width row_height
                                pix_width pix_height terminal_modes)).

Definition request_pty (c : SshChannel) (want_reply : bool) (term : string)
    (col_width row_height pix_width pix_height : N) (terminal_modes : list (Pty * N))
  : fut (result SshError unit) :=
  ctx ← channel_default_context c;
  request_pty_with_context c want_reply term col_width row_height pix_width pix_height
    terminal_modes ctx.

Definition request_shell_with_context (c : SshChannel) (want_reply : bool)
    (ctx : OperationContext) : fut (result SshError unit) :=
  run ctx "request remote shell" (channel_error <$> await (RequestShell (inner c) want_reply)).

Definition request_shell (c : SshChannel) (want_reply : bool) : fut (result SshError unit) :=
  ctx ← channel_default_context c; request_shell_with_context c want_reply ctx.

Definition exec_with_context (c : SshChannel) (want_reply : bool) (command : list byte)
    (ctx : OperationContext) : fut (result SshError unit) :=
  run ctx "execute SSH command"
    (channel_error <$> await (ChannelExec (inner c) want_reply command)).

Definition exec_command (c : SshChannel) (want_reply : bool) (command : list byte)
  : fut (result SshError unit) :=
  ctx ← channel_default_context c; exec_with_context c want_reply command ctx.

Definition request_subsystem_with_context (c : SshChannel) (want_reply : bool) (name : string)
    (ctx : OperationContext) : fut (result SshError unit) :=
  run ctx "request SSH subsystem"
    (channel_error <$> await (RequestSubsystem (inner c) want_reply name)).

Definition request_subsystem (c : SshChannel) (want_reply : bool) (name : string)
  : fut (result SshError unit) :=
  ctx ← channel_default_context c; request_subsystem_with_context c want_reply name ctx.

Definition write_with_context (c : SshChannel) (data : list byte) (ctx : OperationContext)
  : fut (result SshError unit) :=
  run ctx "write SSH channel data" (channel_error <$> await (ChannelData (inner c) data)).

Definition write (c : SshChannel) (data : list byte) : fut (result SshError unit) :=
  ctx ← channel_default_context c; write_with_context c data ctx.

Definition eof_with_context (c : SshChannel) (ctx : OperationContext)
  : fut (result SshError unit) :=
  run ctx "send SSH channel EOF" (channel_error <$> await (ChannelEof (inner c))).

Definition eof (c : SshChannel) : fut (result SshError unit) :=
  ctx ← channel_default_context c; eof_with_context c ctx.

Definition window_change_with_context (c : SshChannel) (col_width row_height : N)
    (ctx : OperationContext) : fut (result SshError unit) :=
  run ctx "resize remote PTY"
    (channel_error <$> await (WindowChange (inner c) col_width row_height 0 0)).

Definition window_change (c : SshChannel) (col_width row_height : N)
  : fut (result SshError unit) :=
  ctx ← channel_default_context c; window_change_with_context c col_width row_height ctx.

Definition close_with_context (c : SshChannel) (ctx : OperationContext)
  : fut (result SshError unit) :=
  run ctx "close SSH channel" (channel_error <$> await (ChannelClose (inner c))).

Definition close (c : SshChannel) : fut (result SshError unit) :=
  ctx ← channel_default_context c; close_with_context c ctx.

(** [channel_event]. *)
Definition channel_event (m : ChannelMsg) : SshChannelEvent :=
  match m with
  | MsgData data => Data data
  | MsgExtendedData ext data => ExtendedData ext data
  | MsgEof => Eof
  | MsgClose => Close
  | MsgExitStatus status => ExitStatus status
  | MsgExitSignal signal core_dumped message lang =>
      ExitSignal (signal_debug signal) core_dumped message lang
  | MsgSuccess => Success
  | MsgFailure => Failure
  | MsgOpenFailure e => OpenFailure (open_failure_debug e)
  | MsgOther => Failure
  end.

Definition next_event_with_context (c : SshChannel) (ctx : OperationContext)
  : fut (result SshError (option SshChannelEvent)) :=
  run ctx "wait for SSH channel event"
    (m ← await (ChannelWait (inner c)); mret (Ok (channel_event <$> (m : option ChannelMsg)))).

(** [next_event]: [.await.ok().flatten()]. *)
Definition next_event (c : SshChannel) : fut (option SshChannelEvent) :=
  ctx ← channel_default_context c;
  r ← next_event_with_context c ctx;
  mret (match result_ok r with Some e => e | None => None end).

(** ** Operations on a channel stream *)

Definition stream_with_context (s : SshChannelStream) (ctx : OperationContext)
  : SshChannelStream :=
  {| st_inner := st_inner s; st_context := ctx;
     st_operation_timeout := st_operation_timeout s |}.

Definition stream_default_context (s : SshChannelStream) : fut OperationContext :=
  with_timeout_from_now (st_operation_timeout s) (st_context s).

(** [read] into a buffer of [len] bytes; the result is what was read. *)
Definition stream_read_with_context (s : SshChannelStream) (len : nat) (ctx : OperationContext)
  : fut (result SshError {l : list byte | (length l <= len)%nat}) :=
  run ctx "read SSH channel stream"
    (channel_error <$> await (IoRead (SshIo (st_inner s)) len)).

Definition stream_read (s : SshChannelStream) (len : nat)
  : fut (result SshError {l : list byte | (length l <= len)%nat}) :=
  ctx ← stream_default_context s; stream_read_with_context s len ctx.

Definition stream_write_with_context (s : SshChannelStream) (data : list byte)
    (ctx : OperationContext) : fut (result SshError unit) :=
  run ctx "write SSH channel stream"
    (channel_error <$> await (IoWriteAll (SshIo (st_inner s)) data)).

Definition stream_write (s : SshChannelStream) (data : list byte) : fut (result SshError unit) :=
  ctx ← stream_default_context s; stream_write_with_context s data ctx.

Definition stream_flush_with_context (s : SshChannelStream) (ctx : OperationContext)
  : fut (result SshError unit) :=
  run ctx "flush SSH channel stream" (channel_error <$> await (IoFlush (SshIo (st_inner s)))).

Definition stream_flush (s : SshChannelStream) : fut (result SshError unit) :=
  ctx ← stream_default_context s; stream_flush_with_context s ctx.

(** ** Lemmas *)

Lemma effective_port_spec port returned :
  (port <= u16_max)%N ->
  match effective_port port returned with
  | Ok p => (0 < p <= u16_max)%N /\ p = (if (returned =? 0)%N then port else returned)
  | Err e => SshError.kind e = ErrorKind.Protocol /\
             ((u16_max < returned)%N \/ (returned = 0 /\ port = 0)%N)
  end.
Proof.
  intros Hp. unfold effective_port, u16_try_from.
  destruct (N.eqb_spec returned 0) as [->|Hr]; cbn.
  - destruct (N.eqb_spec port 0) as [->|Hp0]; cbn; [by split; [|right]|]. split; [lia|done].
  - destruct (N.leb_spec returned u16_max) as [Hle|Hgt]; cbn.
    + destruct (N.eqb_spec returned 0); [done|]. cbn. split; [lia|done].
    + split; [done|]. by left.
Qed.

Lemma accept_forwarded_tcpip_Ok s pending c :
  accept_forwarded_tcpip s pending = Ok c <->
  (pf_connected_port pending <= u16_max)%N /\ (pf_originator_port pending <= u16_max)%N /\
  c = {| connected_address := pf_connected_address pending;
         connected_port := pf_connected_port pending;
         originator_address := pf_originator_address pending;
         originator_port := pf_originator_port pending;
         tcpip_channel := from_inner (pf_channel pending) (base_context s)
                            (Config.operation_timeout (config s)) |}.
Proof.
  unfold accept_forwarded_tcpip, u16_try_from.
  destruct (N.leb_spec (pf_connected_port pending) u16_max),
    (N.leb_spec (pf_originator_port pending) u16_max); cbn;
    (split; [try (by intros [= <-]); done|intros (? & ? & ->); try done; lia]).
Qed.

Lemma validate_streamlocal_path_Ok path p :
  validate_streamlocal_path path = Ok p <->
  p = path /\ trim path <> "" /\ contains_char nul path = false.
Proof.
  unfold validate_streamlocal_path. rewrite !ensure_bind_Ok, str_nonempty_iff, negb_true_iff.
  cbn. split; [intros (? & ? & [= ->])|intros (-> & ? & ?)]; done.
Qed.

End Channels.

(** ** Properties *)

Section Properties.
Context {K : SshKeys} {A : AuthKeys} {L : Libraries} {S : Type} {E : Env S}.
#[local] Existing Instance any_budget.

(** What a request to open a [direct-tcpip] channel asks the server for. *)
Definition direct_tcpip_sane (e : event) : Prop :=
  match e with
  | Issued (ChannelOpenDirectTcpip _ host port orig _) =>
      trim host <> "" /\ port <> 0%N /\ trim orig <> ""
  | _ => True
  end.

Lemma validate_direct_tcpip_Ok host port orig :
  validate_direct_tcpip host port orig = Ok tt <->
  trim host <> "" /\ port <> 0%N /\ trim orig <> "".
Proof.
  unfold validate_direct_tcpip.
  by rewrite !ensure_bind_Ok, ensure_Ok, !str_nonempty_iff, negb_true_iff, N.eqb_neq.
Qed.

Lemma emits_open_direct_tcpip s host port orig orig_port ctx :
  emits direct_tcpip_sane
    (open_direct_tcpip_from_with_context s host port orig orig_port ctx).
Proof.
  unfold open_direct_tcpip_from_with_context, open_raw_direct_tcpip_with_context, lift.
  destruct (validate_direct_tcpip host port orig) as [[]|e] eqn:Hv; [|done].
  apply validate_direct_tcpip_Ok in Hv.
  apply emits_bind; [done|]. intros [|]; [|done]. emits; by cbn.
Qed.

(** C35: whatever its caller passes, [open_direct_tcpip_from_with_context] asks the server
    only for non-blank hosts, non-zero ports and non-blank originators; rejected
    arguments fail with [Configuration] before anything is issued, and a channel that is
    returned carries the caller's context and the session's operation timeout. *)
Theorem direct_tcpip_validated s host port orig orig_port ctx turns (w : world S) :
  (exists l, w_log (fst (exec turns
       (open_direct_tcpip_from_with_context s host port orig orig_port ctx) w)) = w_log w ++ l /\
     Forall direct_tcpip_sane l) /\
  (trim host = "" \/ port = 0%N \/ trim orig = "" ->
   exists e, SshError.kind e = ErrorKind.Configuration /\
     poll (open_direct_tcpip_from_with_context s host port orig orig_port ctx) w =
       (w, Ret (Err e))) /\
  (forall w' c, exec turns
       (open_direct_tcpip_from_with_context s host port orig orig_port ctx) w = (w', Ret (Ok c)) ->
     context c = ctx /\ operation_timeout c = Config.operation_timeout (config s) /\
     since (w_log w) (fun e => e = @Answered core_sig
       (ChannelOpenDirectTcpip (handle s) host port orig orig_port) (Ok (inner c))) (w_log w')).
Proof.
  split_and!.
  - apply exec_emits, emits_open_direct_tcpip.
  - intros Hbad. unfold open_direct_tcpip_from_with_context, lift.
    destruct (validate_direct_tcpip host port orig) as [[]|e] eqn:Hv.
    + apply validate_direct_tcpip_Ok in Hv as (? & ? & ?). by destruct Hbad as [?|[?|?]].
    + exists e. split; [|done]. unfold validate_direct_tcpip in Hv.
      rewrite !ensure_bind_Err, ensure_Err in Hv.
      repeat destruct Hv as [[_ ->]|[_ Hv]]; try done. by destruct Hv as [_ ->].
  - intros w' c He.
    assert (wp (open_direct_tcpip_from_with_context s host port orig orig_port ctx)
      (fun r h => forall c, r = Ok c ->
         context c = ctx /\ operation_timeout c = Config.operation_timeout (config s) /\
         since (w_log w) (fun e => e = @Answered core_sig
           (ChannelOpenDirectTcpip (handle s) host port orig orig_port) (Ok (inner c))) h)
      (fun _ => True) (w_log w)) as Hw.
    { unfold open_direct_tcpip_from_with_context, lift. apply wp_bind. cbn [wp].
      destruct (validate_direct_tcpip host port orig); [|done].
      apply wp_bind, wp_run; [|done].
      apply wp_map_err, (wp_await (Σ := core_sig) (ChannelOpenDirectTcpip _ _ _ _ _)).
      - by split_and!.
      - intros [ch|e]; [|done]. intros c' [= <-]. split_and!; [done|done|].
        apply since_here; [|done]. apply extends_app. reflexivity. }
    pose proof (wp_adequacy turns _ _ _ w Hw) as Ha. rewrite He in Ha.
    exact (proj1 Ha c eq_refl).
Qed.

(** What a request for a remote forward may return after history [h]. *)
Definition forward_result (s : SshSession) (address : string) (port : N)
    (r : result SshError SshRemoteTcpipForward) (h : list event) : Prop :=
  match r with
  | Ok f =>
      fwd_address f = address /\ (0 < fwd_port f <= u16_max)%N /\
      exists returned, list.last h =
          Some (@Answered core_sig (TcpipForward (handle s) address port) (Ok returned)) /\
        fwd_port f = (if (returned =? 0)%N then port else returned)
  | Err e =>
      SshError.kind e = ErrorKind.Protocol \/
      SshError.operation e = Some "request remote tcpip forward"
  end.

(** A remote forward that is returned listens on the requested address and on a port
    between 1 and 65535: the one the server chose, or the requested one if the server
    named none; a server answering with any other port is a [Protocol] error. *)
Lemma remote_forward_port_valid s address port ctx turns (w w' : world S) r :
  (port <= u16_max)%N ->
  exec turns (request_remote_tcpip_forward_with_context s address port ctx) w = (w', Ret r) ->
  forward_result s address port r (w_log w').
Proof.
  intros Hp He.
  assert (wp (request_remote_tcpip_forward_with_context s address port ctx)
    (forward_result s address port)
    (fun _ => True) (w_log w)) as Hw.
  { unfold request_remote_tcpip_forward_with_context, lift.
    apply wp_bind, wp_run; [|by right].
    apply wp_map_err, (wp_await (Σ := core_sig) (TcpipForward _ _ _)).
    - split; [done|]. split; [by right|]. intros _. by right.
    - intros [returned|e]; [|by right]. cbn [map_err].
      pose proof (effective_port_spec port returned Hp) as Hs.
      apply wp_bind. cbn [wp]. destruct (effective_port port returned) as [p|e]; cbn.
      + destruct Hs as [Hb ->]. split_and!; [done|lia..|]. exists returned.
        by rewrite last_snoc.
      + left. apply Hs. }
  pose proof (wp_adequacy turns _ _ _ w Hw) as Ha. rewrite He in Ha. exact (proj1 Ha).
Qed.

(** What waiting for a forwarded connection may return after history [h]. *)
Definition delivered (pending : option PendingForwardedTcpip)
    (r : result SshError (option SshForwardedTcpipChannel)) : Prop :=
  match pending, r with
  | None, Ok None => True
  | Some pending, Ok (Some c) =>
      inner (tcpip_channel c) = pf_channel pending /\
      connected_address c = pf_connected_address pending /\
      originator_address c = pf_originator_address pending /\
      connected_port c = pf_connected_port pending /\
      originator_port c = pf_originator_port pending /\
      (connected_port c <= u16_max)%N /\ (originator_port c <= u16_max)%N
  | Some pending, Err e =>
      SshError.kind e = ErrorKind.Protocol /\
      (u16_max < pf_connected_port pending \/ u16_max < pf_originator_port pending)%N
  | _, _ => False
  end.

Definition delivery (s : SshSession) (r : result SshError (option SshForwardedTcpipChannel))
    (h : list event) : Prop :=
  (exists e, r = Err e /\ SshError.operation e = Some "wait for forwarded-tcpip channel") \/
  exists pending, list.last h =
      Some (@Answered core_sig (RecvForwardedTcpip (forwarded_tcpip_receiver s)) pending) /\
    delivered pending r.

(** [next_forwarded_tcpip_with_context] delivers exactly what the queue delivered: the
    peer's addresses and ports, unchanged and within the port range, on the queued
    channel; [None] when the queue is closed; a port out of range is a [Protocol]
    error. *)
Lemma forwarded_tcpip_delivery s ctx turns (w w' : world S) r :
  exec turns (next_forwarded_tcpip_with_context s ctx) w = (w', Ret r) ->
  delivery s r (w_log w').
Proof.
  intros He.
  assert (wp (next_forwarded_tcpip_with_context s ctx) (delivery s) (fun _ => True) (w_log w)) as Hw.
  { unfold next_forwarded_tcpip_with_context, next_raw_forwarded_tcpip_with_context, lift.
    assert (forall e h, SshError.operation e = Some "wait for forwarded-tcpip channel" ->
      delivery s (Err e) h) as Herr by (intros e h He'; left; by exists e).
    apply wp_bind, wp_run; [|by apply Herr].
    apply wp_bind, (wp_await (Σ := core_sig) (LockReceiver _));
      [split; [done|]; split; [by apply Herr|]; intros _; by apply Herr|]. intros u.
    apply wp_bind, (wp_await (Σ := core_sig) (RecvForwardedTcpip _));
      [split; [done|]; split; [by apply Herr|]; intros _; by apply Herr|].
    intros [pending|]; [|right; exists None; by rewrite last_snoc].
    cbn. destruct (accept_forwarded_tcpip s pending) as [c|e] eqn:Hc;
      right; exists (Some pending); (split; [by rewrite last_snoc|]).
    - apply accept_forwarded_tcpip_Ok in Hc as (? & ? & ->). by split_and!.
    - unfold accept_forwarded_tcpip, u16_try_from in Hc.
      destruct (N.leb_spec (pf_connected_port pending) u16_max);
        [|injection Hc as <-; by split; [|left]].
      destruct (N.leb_spec (pf_originator_port pending) u16_max); cbn in Hc; [done|].
      injection Hc as <-. by split; [|right]. }
  pose proof (wp_adequacy turns _ _ _ w Hw) as Ha. rewrite He in Ha. exact (proj1 Ha).
Qed.

(** The operations that take no context, as the code derives one for them. *)
Definition bounded {T} (timeout : Duration) (t : fut T) : Prop :=
  forall (turns : list turn) (w : world S),
    (timeout <= total_advance turns)%N -> is_pending (snd (exec turns t w)) = false.

(** C37: the [async] methods of a channel and of its stream that take no context derive one
    from the operation timeout: [request_shell], [request_pty], [exec],
    [request_subsystem], [write], [eof], [close], [window_change] and [next_event] of
    [SshChannel], [read], [write] and [flush] of [SshChannelStream].  Each of them, with
    any arguments, returns within that timeout, whatever the server does.  (The poll
    functions of the stream's [AsyncRead] and [AsyncWrite] have no timeout in the code,
    whoever polls them bounds them; they are modelled in [Streams].) *)
Theorem channel_operations_bounded (c : SshChannel) (st : SshChannelStream) :
  (forall b, bounded (operation_timeout c) (request_shell c b)) /\
  (forall b term cw rh pw ph modes,
     bounded (operation_timeout c) (request_pty c b term cw rh pw ph modes)) /\
  (forall b cmd, bounded (operation_timeout c) (exec_command c b cmd)) /\
  (forall b name, bounded (operation_timeout c) (request_subsystem c b name)) /\
  (forall data, bounded (operation_timeout c) (write c data)) /\
  bounded (operation_timeout c) (eof c) /\ bounded (operation_timeout c) (close c) /\
  (forall x y, bounded (operation_timeout c) (window_change c x y)) /\
  bounded (operation_timeout c) (next_event c) /\
  (forall n, bounded (st_operation_timeout st) (stream_read st n)) /\
  (forall data, bounded (st_operation_timeout st) (stream_write st data)) /\
  bounded (st_operation_timeout st) (stream_flush st).
Proof.
  unfold bounded, next_event.
  split_and!; intros; (apply exec_with_timeout_bounded; [|done]); intros ctx;
    first [by apply guarded_run|apply guarded_bind; [by apply guarded_run|done]].
Qed.

End Properties.
