(* ===== verification/Forwarding.v ===== *)
(** * Forwarding: forwarded connections from the client handler to the session.

    The handler of [src/core/session.rs] queues the connections the server
    opens, [next_forwarded_tcpip] of [src/core/channel.rs] takes them out.  Here
    the two meet over [tokio]'s bounded [mpsc] channel, of which the class [MpscQueue]
    states the documented behaviour. *)

From S2P Require Export Channel.

(** ** Third-party code: [tokio::sync::mpsc::channel], behind its [Mutex]

    [send] completes once there is room and appends the message; [recv] completes once
    there is a message and takes the oldest; a future that is not complete has changed
    nothing; a mutex nobody holds is locked at once. *)

Class MpscQueue {K : SshKeys} {A : AuthKeys} {L : Libraries} {S : Type} (E : Env S)
    (queue : QueueId) (capacity : N) := {
  queued : S -> list PendingForwardedTcpip;
  send_room m n s :
    (N.of_nat (length (queued s)) < capacity)%N ->
    exists s', @env_poll core_sig S E (SendForwardedTcpip queue m) n s = (s', Some (Ok tt)) /\
      queued s' = queued s ++ [m];
  send_full m n s :
    (capacity <= N.of_nat (length (queued s)))%N ->
    exists s', @env_poll core_sig S E (SendForwardedTcpip queue m) n s = (s', None) /\
      queued s' = queued s;
  recv_some m l n s :
    queued s = m :: l ->
    exists s', @env_poll core_sig S E (RecvForwardedTcpip queue) n s = (s', Some (Some m)) /\
      queued s' = l;
  recv_empty n s :
    queued s = [] ->
    exists s', @env_poll core_sig S E (RecvForwardedTcpip queue) n s = (s', None) /\
      queued s' = [];
  lock_free n s :
    exists s', @env_poll core_sig S E (LockReceiver queue) n s = (s', Some tt) /\
      queued s' = queued s
}.

Section Queue.
Context {K : SshKeys} {A : AuthKeys} {L : Libraries} {S : Type} {E : Env S}.
Context (queue : QueueId) (capacity : N) {Q : MpscQueue E queue capacity}.

(** ** The two ends *)

Variables (h : ClientHandler) (s : SshSession) (ctx : OperationContext).

(** The server opens a connection; the application asks for the next one. *)
Inductive forward_op := Opened (m : PendingForwardedTcpip) | Next.

Inductive forward_result :=
| Queued
| Delivered (r : result SshError (option SshForwardedTcpipChannel))
| Waiting
| Failed.

(** Each operation polled once; an operation that has to wait is given up. *)
Definition handler_result (t : fut (result SshError unit)) : forward_result :=
  match t with
  | Ret (Ok _) => Queued
  | t => if is_pending t then Waiting else Failed
  end.

Definition application_result (t : fut (result SshError (option SshForwardedTcpipChannel)))
  : forward_result :=
  match t with
  | Ret r => Delivered r
  | t => if is_pending t then Waiting else Failed
  end.

Definition run_op (w : world S) (o : forward_op) : world S * forward_result :=
  match o with
  | Opened m =>
      let '(w, t) := poll (server_channel_open_forwarded_tcpip h (pf_channel m)
        (pf_connected_address m) (pf_connected_port m) (pf_originator_address m)
        (pf_originator_port m)) w in
      (w, handler_result t)
  | Next =>
      let '(w, t) := poll (next_forwarded_tcpip_with_context s ctx) w in
      (w, application_result t)
  end.

Fixpoint run_ops (w : world S) (ops : list forward_op)
  : world S * list forward_result :=
  match ops with
  | [] => (w, [])
  | o :: ops =>
      let '(w, r) := run_op w o in
      let '(w, rs) := run_ops w ops in
      (w, r :: rs)
  end.

(** ** The abstract queue *)

Inductive fifo_result := Enqueued | Dequeued (m : PendingForwardedTcpip) | Blocked.

Definition fifo_op (l : list PendingForwardedTcpip) (o : forward_op)
  : list PendingForwardedTcpip * fifo_result :=
  match o, l with
  | Opened m, l => if (N.of_nat (length l) <? capacity)%N then (l ++ [m], Enqueued) else (l, Blocked)
  | Next, m :: l => (l, Dequeued m)
  | Next, [] => ([], Blocked)
  end.

Fixpoint fifo_ops (l : list PendingForwardedTcpip) (ops : list forward_op)
  : list PendingForwardedTcpip * list fifo_result :=
  match ops with
  | [] => (l, [])
  | o :: ops =>
      let '(l, r) := fifo_op l o in
      let '(l, rs) := fifo_ops l ops in
      (l, r :: rs)
  end.

(** What the application gets for a connection: its channel with the peer's addresses and
    ports, bound to the session's context and timeout; or a [Protocol] error when a port
    is none. *)
Record handed_over (m : PendingForwardedTcpip) (c : SshForwardedTcpipChannel) : Prop := {
  ho_connected_address : connected_address c = pf_connected_address m;
  ho_connected_port : connected_port c = pf_connected_port m;
  ho_originator_address : originator_address c = pf_originator_address m;
  ho_originator_port : originator_port c = pf_originator_port m;
  ho_channel : tcpip_channel c = {| inner := pf_channel m; context := base_context s;
    operation_timeout := Config.operation_timeout (config s) |}
}.

Definition valid_ports (m : PendingForwardedTcpip) : Prop :=
  (pf_connected_port m <= u16_max /\ pf_originator_port m <= u16_max)%N.

Inductive answers : fifo_result -> forward_result -> Prop :=
| an_queued : answers Enqueued Queued
| an_waiting : answers Blocked Waiting
| an_delivered m c :
    valid_ports m -> handed_over m c -> answers (Dequeued m) (Delivered (Ok (Some c)))
| an_refused m e :
    ~ valid_ports m -> SshError.kind e = ErrorKind.Protocol ->
    answers (Dequeued m) (Delivered (Err e)).

Lemma accept_answers m :
  answers (Dequeued m) (Delivered (Some <$> accept_forwarded_tcpip s m)).
Proof.
  destruct (accept_forwarded_tcpip s m) as [c|e] eqn:Hc.
  - apply accept_forwarded_tcpip_Ok in Hc as (? & ? & ->). by constructor.
  - apply an_refused; unfold valid_ports, accept_forwarded_tcpip, u16_try_from in *;
      destruct (N.leb_spec (pf_connected_port m) u16_max), (N.leb_spec (pf_originator_port m) u16_max);
      cbn in Hc; first [discriminate Hc|injection Hc as <-; done|lia].
Qed.

(** ** The simulation *)

Hypothesis Hsender : forwarded_tcpip_sender h = queue.
Hypothesis Hreceiver : forwarded_tcpip_receiver s = queue.

(** The application's context allows it to wait. *)
Definition patient (w : world S) : Prop :=
  is_set (cancellation ctx) w = false /\ deadline_passed ctx w = false.

(** One operation of the code and one of the abstract queue. *)
Definition simulates (o : forward_op) (w : world S) : Prop :=
  let '(w', r) := run_op w o in
  exists r', fifo_op (queued (w_ext w)) o = (queued (w_ext w'), r') /\ answers r' r /\
    w_now w' = w_now w /\ w_cancelled w' = w_cancelled w.

Lemma opened_fifo w m : simulates (Opened m) w.
Proof.
  unfold simulates, run_op, server_channel_open_forwarded_tcpip. rewrite Hsender.
  destruct m as [c ca cp oa op]. cbn.
  set (m := {| pf_channel := c |}). unfold fifo_op.
  destruct (N.ltb_spec (N.of_nat (length (queued (w_ext w)))) capacity) as [Hr|Hf].
  - destruct (send_room m (w_next_call w) (w_ext w) Hr) as (s' & He & Hq). rewrite He. cbn.
    rewrite Hq. eexists. split; [done|]. split; [constructor|done].
  - destruct (send_full m (w_next_call w) (w_ext w) Hf) as (s' & He & Hq). rewrite He. cbn.
    rewrite Hq. eexists. split; [done|]. split; [constructor|done].
Qed.

(** One poll of the receiving side. *)
Lemma poll_receive w :
  let body : fut (result SshError (option PendingForwardedTcpip)) :=
    (_ ← await (Σ := core_sig) (LockReceiver queue);
     m ← await (Σ := core_sig) (RecvForwardedTcpip queue); mret (Ok m)) in
  exists w' t, poll body w = (w', t) /\
    match queued (w_ext w) with
    | m :: l => queued (w_ext w') = l /\ t = Ret (Ok (Some m))
    | [] => queued (w_ext w') = [] /\ is_pending t = true
    end.
Proof.
  cbn. destruct (lock_free (w_next_call w) (w_ext w)) as (s1 & -> & H1). cbn.
  rewrite <-H1. destruct (queued s1) as [|m l] eqn:Hq.
  - destruct (recv_empty (w_next_call w + 1)%N s1 Hq) as (s2 & -> & H2). by eexists _, _.
  - destruct (recv_some m l (w_next_call w + 1)%N s1 Hq) as (s2 & -> & H2). by eexists _, _.
Qed.

Lemma poll_next_raw w :
  patient w ->
  exists w' t, poll (next_raw_forwarded_tcpip_with_context s ctx) w = (w', t) /\
    match queued (w_ext w) with
    | m :: l => queued (w_ext w') = l /\ t = Ret (Ok (Some m))
    | [] => queued (w_ext w') = [] /\ is_pending t = true
    end.
Proof.
  intros [Hs Hd]. unfold next_raw_forwarded_tcpip_with_context. rewrite Hreceiver.
  assert (w_ext (snd (toss w)) = w_ext w) as Ht by (unfold toss; by destruct (w_coins w)).
  destruct (poll_receive (snd (toss w))) as (w1 & t1 & Hp & Hm). rewrite Ht in Hm.
  destruct (queued (w_ext w)) as [|m l]; destruct Hm as [Hq Ht1].
  - destruct (poll_run_waits ctx "wait for forwarded-tcpip channel" _ t1 w w1 Hs Hd Hp Ht1)
      as (t & Hr & Hpt). by exists w1, t.
  - subst t1. exists w1, (Ret (Ok (Some m))).
    by rewrite (poll_run_ready ctx _ _ w w1 (Ok (Some m)) Hs Hp).
Qed.

Lemma next_fifo w : patient w -> simulates Next w.
Proof.
  intros Hw. unfold simulates. cbn [run_op].
  pose proof (poll_clock (next_forwarded_tcpip_with_context s ctx) w) as Hc.
  destruct (poll_next_raw w Hw) as (w' & t & Hr & Hn). unfold next_forwarded_tcpip_with_context in *.
  destruct (queued (w_ext w)) as [|m l]; destruct Hn as [Hq Ht].
  - rewrite (poll_bind_pending _ _ _ _ _ Hr Ht) in *. cbn [fifo_op].
    eexists. rewrite Hq. split; [done|]. split; [|exact Hc].
    match goal with |- context [t ≫= ?f] => pose proof (is_pending_bind t f Ht) as Hb end.
    destruct (t ≫= _); try discriminate Hb; constructor.
  - subst t. rewrite (poll_bind _ _ _ _ _ Hr) in *. cbn [fifo_op].
    pose proof (accept_answers m) as Ha.
    destruct (accept_forwarded_tcpip s m); (eexists; split; [cbn; by rewrite Hq|by split; [exact Ha|exact Hc]]).
Qed.

Lemma run_ops_fifo ops : forall w,
  patient w ->
  exists rs, fifo_ops (queued (w_ext w)) ops = (queued (w_ext (fst (run_ops w ops))), rs) /\
    Forall2 answers rs (snd (run_ops w ops)).
Proof.
  induction ops as [|o ops IH]; intros w Hw; [by exists []|]. cbn [run_ops fifo_ops].
  assert (simulates o w) as Ho by (destruct o; [apply opened_fifo|by apply next_fifo]).
  unfold simulates in Ho. destruct (run_op w o) as [w' r].
  destruct Ho as (r' & -> & Hr & Hn & Hc).
  assert (patient w') as Hw'.
  { destruct Hw as [Hs Hd]. unfold patient, is_set, deadline_passed, timer_fired in *. by rewrite Hn, Hc. }
  destruct (IH w' Hw') as (rs & H1 & H2). destruct (run_ops w' ops). cbn in *. rewrite H1.
  exists (r' :: rs). split; [done|by constructor].
Qed.

End Queue.

Section Properties.
Context {K : SshKeys} {A : AuthKeys} {L : Libraries} {S : Type} {E : Env S}.

(** C36: over a queue that behaves as tokio documents its [mpsc] channel, the handler and
    the session together implement a bounded FIFO: in any series of connections opened by
    the server and requests of the application for the next one, every connection queued
    is taken out exactly once and in order; the application gets its channel with the
    peer's own addresses and ports, or a [Protocol] error when a port is out of range; a
    full queue makes the handler wait, an empty one the application, and an operation
    given up while it waits changes nothing. *)
Theorem forwarded_connections_fifo queue capacity `{Q : !MpscQueue E queue capacity}
    h s ctx ops (w : world S) :
  forwarded_tcpip_sender h = queue -> forwarded_tcpip_receiver s = queue ->
  is_set (cancellation ctx) w = false -> deadline_passed ctx w = false ->
  let '(w', results) := run_ops h s ctx w ops in
  exists rs, fifo_ops capacity (queued (w_ext w)) ops = (queued (w_ext w'), rs) /\
    Forall2 (answers s) rs results.
Proof.
  intros Hh Hs Hc Hd.
  pose proof (run_ops_fifo queue capacity h s ctx Hh Hs ops w (conj Hc Hd)) as H.
  by destruct (run_ops h s ctx w ops).
Qed.

End Properties.
