(* ===== verification/Setup.v ===== *)
(** * Setup: opening a session channel and making a series of requests on it.

    [TerminalSession::open_with_context] ([src/terminal/session.rs]) and
    [SftpClient::connect_with_context] ([src/sftp/client.rs]) both open a session channel
    and make a fixed series of calls on it, each under an operation context. This file
    states what a run of such a series may have done by the time it ends, is dropped or
    is still waiting, and the two lemmas that follow it call by call. *)

From S2P Require Export Channel.

Section Setup.
Context {K : SshKeys} {A : AuthKeys} {L : Libraries}.

(** The calls made in a history. *)
Definition issued (h : list event) : list call :=
  omap (fun e => match e with Issued o => Some o | _ => None end) h.

Lemma issued_snoc h e :
  issued (h ++ [e]) = issued h ++ (match e with Issued o => [o] | _ => [] end).
Proof. unfold issued. rewrite omap_app. by destruct e. Qed.

Lemma issued_app h h' : issued (h ++ h') = issued h ++ issued h'.
Proof. unfold issued. by rewrite omap_app. Qed.

End Setup.

(** ** One call under a context *)

Section OneCall.
Context {K : SshKeys} {A : AuthKeys} {L : Libraries}.

(** [one_call x conv t]: [t] fails before making the call [x], or is waiting for it,
    or fails while it does, or returns its answer, read by [conv]. *)
Definition one_call {T Er} (x : call) (conv : call_answer x -> result Er T)
    (t : fut (result Er T)) : Prop :=
  forall (F : Budget) Q (I : list event -> Prop) h,
    (forall e, Q (Err e) h) -> I (h ++ [@Issued core_sig x]) ->
    (forall e, Q (Err e) (h ++ [@Issued core_sig x])) ->
    (forall a, Q (conv a) ((h ++ [@Issued core_sig x]) ++ [@Answered core_sig x a])) ->
    wp t Q I h.

Lemma one_call_run {T} ctx op x (conv : call_answer x -> result SshError T) :
  one_call x (fun a => map_err (SshError.with_operation op) (conv a))
    (run ctx op (conv <$> @await core_sig x)).
Proof.
  intros F Q I h Hpre HI Hmid Hpost. apply wp_run; [|apply Hpre].
  apply wp_bind, (wp_await (Σ := core_sig) x); [|done]. by split_and!.
Qed.

Lemma one_call_run_with {T Er} (from : SshError -> Er) ctx op x
    (conv : call_answer x -> result Er T) :
  one_call x conv (run_with from ctx op (conv <$> @await core_sig x)).
Proof.
  intros F Q I h Hpre HI Hmid Hpost. apply wp_run_with; [|apply Hpre].
  apply wp_bind, (wp_await (Σ := core_sig) x); [|done]. by split_and!.
Qed.

Lemma one_call_map_err {T Er Er'} (f : Er -> Er') x (conv : call_answer x -> result Er T) t :
  one_call x conv t -> one_call x (fun a => map_err f (conv a)) (map_err f <$> t).
Proof. intros Ht F Q I h Hpre HI Hmid Hpost. apply wp_map_err, Ht; cbn; auto. Qed.

End OneCall.

(** ** A series of calls *)

Section Steps.
Context {K : SshKeys} {A : AuthKeys} {L : Libraries} {S : Type} {E : Env S}.
#[local] Existing Instance any_budget.

(** The series: a session channel [c] is opened, then [requests c] are made. *)
Variable session : SshSession.
Variable requests : RawChannel -> list call.

Definition setup (c : RawChannel) : list call :=
  ChannelOpenSession (handle session) :: requests c.

(** So far, setting up has made the first few of these calls. *)
Definition setup_prefix (l : list call) : Prop :=
  l = [] \/ l = [ChannelOpenSession (handle session)] \/ exists c n, l = take n (setup c).

Definition set_up (h0 h : list event) : Prop :=
  exists l, issued h = issued h0 ++ l /\ setup_prefix l.

Lemma set_up_start h : set_up h h.
Proof. exists []. split; [by rewrite app_nil_r|by left]. Qed.

Lemma set_up_take h0 h c n : issued h = issued h0 ++ take n (setup c) -> set_up h0 h.
Proof. intros Hh. eexists. split; [exact Hh|]. right; right. by exists c, n. Qed.

(** What holds when setting up ends with [r]: only a prefix has been made, and all of it
    on the result's channel when it is a success. *)
Definition completed {T Er} (chan : T -> RawChannel -> list event -> Prop) (h0 : list event)
    (r : result Er T) (h : list event) : Prop :=
  set_up h0 h /\
  forall t, r = Ok t -> exists c, chan t c h /\ issued h = issued h0 ++ setup c.

Context {T Er : Type} (chan : T -> RawChannel -> list event -> Prop).

Lemma completed_Err h0 e h : set_up h0 h -> completed (T := T) (Er := Er) chan h0 (Err e) h.
Proof. by split. Qed.

(** Opening the channel: no call has been made before. *)
Lemma wp_setup_open ctx h (k : result SshError SshChannel -> fut (result Er T)) :
  (forall r, (forall c, r <> Ok c) -> exists e, k r = Ret (Err e)) ->
  (forall c h', issued h' = issued h ++ [ChannelOpenSession (handle session)] ->
     wp (F := always (set_up h)) (k (Ok c)) (completed chan h) (set_up h) h') ->
  wp (F := always (set_up h)) (open_session_channel_with_context session ctx ≫= k)
    (completed chan h) (set_up h) h.
Proof.
  intros Hke Hk.
  pose proof (set_up_start h) as H0.
  assert (forall r h', (forall c, r <> Ok c) -> set_up h h' -> wp (F := always (set_up h))
    (k r) (completed chan h) (set_up h) h') as Herr.
  { intros r h' Hr Hs. destruct (Hke r Hr) as [e ->]. by apply completed_Err. }
  unfold open_session_channel_with_context, open_raw_session_channel_with_context,
    run_with_timeout.
  apply wp_bind, wp_bind, wp_bind, wp_with_timeout_from_now; [done|]. intros d.
  assert (issued (h ++ [@Issued core_sig (ChannelOpenSession (handle session))]) =
    issued h ++ [ChannelOpenSession (handle session)]) as H1 by by rewrite issued_snoc.
  assert (set_up h (h ++ [@Issued core_sig (ChannelOpenSession (handle session))]))
    as Hs1 by (eexists; split; [exact H1|by right; left]).
  apply wp_run; [|by apply Herr].
  apply wp_map_err, (wp_await (Σ := core_sig) (ChannelOpenSession _)).
  { split_and!; [done|by apply Herr|intros _; by apply Herr]. }
  intros [c|e]; cbn [map_err wp mret fut_ret].
  - apply Hk. by rewrite issued_snoc, H1, app_nil_r.
  - apply Herr; [done|]. eexists. rewrite issued_snoc, H1, app_nil_r.
    split; [done|by right; left].
Qed.

(** One more call: [n] have been made before. *)
Lemma wp_setup_call {X Er'} h0 c n (x : call) (conv : call_answer x -> result Er' X)
    (t : fut (result Er' X)) (k : result Er' X -> fut (result Er T)) h :
  one_call x conv t ->
  setup c !! n = Some x ->
  issued h = issued h0 ++ take n (setup c) ->
  (forall e, exists e', k (Err e) = Ret (Err e')) ->
  (forall a v h', conv a = Ok v -> h' = (h ++ [@Issued core_sig x]) ++ [@Answered core_sig x a] ->
     issued h' = issued h0 ++ take (Datatypes.S n) (setup c) ->
     wp (F := always (set_up h0)) (k (Ok v)) (completed chan h0) (set_up h0) h') ->
  wp (F := always (set_up h0)) (t ≫= k) (completed chan h0) (set_up h0) h.
Proof.
  intros Ht Hx Hh Hke Hk.
  assert (forall e h', set_up h0 h' -> wp (F := always (set_up h0))
    (k (Err e)) (completed chan h0) (set_up h0) h') as Herr.
  { intros e h' Hs. destruct (Hke e) as [e' ->]. by apply completed_Err. }
  assert (issued (h ++ [@Issued core_sig x]) =
    issued h0 ++ take (Datatypes.S n) (setup c)) as Hn.
  { by rewrite issued_snoc, Hh, <-(assoc_L (++)), <-take_S_r. }
  apply wp_bind, Ht; [intros e; apply Herr|..|intros a].
  - by eapply set_up_take.
  - by eapply set_up_take.
  - intros e. apply Herr. by eapply set_up_take.
  - assert (issued ((h ++ [@Issued core_sig x]) ++ [@Answered core_sig x a]) =
      issued h0 ++ take (Datatypes.S n) (setup c)) as Ha by by rewrite issued_snoc, app_nil_r.
    destruct (conv a) as [v|e] eqn:Hc; [by eapply Hk|]. apply Herr. by eapply set_up_take.
Qed.

(** What it means for an execution. *)
Lemma setup_exec turns (t : fut (result Er T)) (w w' : world S) t' :
  wp (F := always (set_up (w_log w))) t (completed chan (w_log w)) (set_up (w_log w)) (w_log w) ->
  exec turns t w = (w', t') ->
  set_up (w_log w) (w_log w') /\ forall r, t' = Ret r -> completed chan (w_log w) r (w_log w').
Proof.
  intros Ht He.
  destruct (wp_adequacy (F := always (set_up (w_log w))) turns _ _ _ w Ht) as [Hr Hp].
  rewrite He in Hr, Hp. cbn [fst snd] in *. split.
  - destruct t'; first [exact (proj1 Hr)|exact Hr|exact (Hp eq_refl)].
  - intros r ->. exact Hr.
Qed.

End Steps.
