(* ===== verification/Terminal.v ===== *)
(** * Terminal: interactive terminals on a session channel ([src/terminal/]). *)

From S2P Require Export Setup.

Section Terminals.
Context {K : SshKeys} {A : AuthKeys} {L : Libraries}.

(** ** Options ([src/terminal/options.rs]) *)

(** [TerminalOptions] and its [Default]. *)
Record TerminalOptions := {
  term : string;
  columns : N;
  rows : N;
  pixel_width : N;
  pixel_height : N;
  want_reply : bool
}.

Definition default_options : TerminalOptions :=
  {| term := "xterm-256color"; columns := 80; rows := 24; pixel_width := 0;
     pixel_height := 0; want_reply := true |}.

Definition dimensions_error : SshError :=
  SshError.configuration "terminal dimensions must be positive".

(** [TerminalOptions::validate]. *)
Definition validate (o : TerminalOptions) : result SshError unit :=
  ensure (negb (str_is_empty (trim (term o))))
    (SshError.configuration "terminal type must not be empty");;
  ensure (negb ((columns o =? 0)%N || (rows o =? 0)%N)) dimensions_error.

(** [validate_dimensions] of [src/terminal/session.rs]. *)
Definition validate_dimensions (columns rows : N) : result SshError unit :=
  ensure (negb ((columns =? 0)%N || (rows =? 0)%N)) dimensions_error.

(** ** Events ([src/terminal/event.rs]) *)

(** [TerminalEvent]. *)
Inductive TerminalEvent :=
| TData (data : list byte)
| TExtendedData (ext : N) (data : list byte)
| TEof
| TClose
| TExitStatus (status : N)
| TExitSignal (signal : string) (core_dumped : bool) (error_message language_tag : string)
| TSuccess
| TFailure
| TOpenFailure (message : string).

(** [From<SshChannelEvent> for TerminalEvent]. *)
Definition from_channel_event (e : SshChannelEvent) : TerminalEvent :=
  match e with
  | Data data => TData data
  | ExtendedData ext data => TExtendedData ext data
  | Eof => TEof
  | Close => TClose
  | ExitStatus code => TExitStatus code
  | ExitSignal signal core_dumped error_message language_tag =>
      TExitSignal signal core_dumped error_message language_tag
  | Success => TSuccess
  | Failure => TFailure
  | OpenFailure message => TOpenFailure message
  end.

(** ** Sessions ([src/terminal/session.rs]) *)

(** [TerminalSession]. *)
Record TerminalSession := { channel : SshChannel }.

(** [TerminalSession::open_with_context] and [open]. *)
Definition open_with_context (session : SshSession) (options : TerminalOptions)
    (context : OperationContext) : fut (result SshError TerminalSession) :=
  lift (validate options);;?
  setup_context ← with_timeout_from_now (Config.operation_timeout (config session)) context;
  channel ←? open_session_channel_with_context session context;
  request_pty_with_context channel (want_reply options) (term options) (columns options)
    (rows options) (pixel_width options) (pixel_height options) [] setup_context;;?
  request_shell_with_context channel (want_reply options) setup_context;;?
  mret (Ok {| channel := channel |}).

Definition open (session : SshSession) (options : TerminalOptions)
  : fut (result SshError TerminalSession) :=
  open_with_context session options (base_context session).

Definition terminal_with_context (t : TerminalSession) (ctx : OperationContext)
  : TerminalSession :=
  {| channel := with_context (channel t) ctx |}.

Definition terminal_write (t : TerminalSession) (data : list byte) : fut (result SshError unit) :=
  write (channel t) data.
Definition terminal_write_with_context (t : TerminalSession) (data : list byte)
    (ctx : OperationContext) : fut (result SshError unit) :=
  write_with_context (channel t) data ctx.
Definition terminal_eof (t : TerminalSession) : fut (result SshError unit) := eof (channel t).
Definition terminal_eof_with_context (t : TerminalSession) (ctx : OperationContext)
  : fut (result SshError unit) :=
  eof_with_context (channel t) ctx.

(** [TerminalSession::resize] and [resize_with_context]. *)
Definition resize (t : TerminalSession) (columns rows : N) : fut (result SshError unit) :=
  lift (validate_dimensions columns rows);;? window_change (channel t) columns rows.
Definition resize_with_context (t : TerminalSession) (columns rows : N) (ctx : OperationContext)
  : fut (result SshError unit) :=
  lift (validate_dimensions columns rows);;?
  window_change_with_context (channel t) columns rows ctx.

Definition terminal_next_event (t : TerminalSession) : fut (option TerminalEvent) :=
  e ← next_event (channel t); mret (from_channel_event <$> (e : option SshChannelEvent)).
Definition terminal_next_event_with_context (t : TerminalSession) (ctx : OperationContext)
  : fut (result SshError (option TerminalEvent)) :=
  r ← next_event_with_context (channel t) ctx;
  mret (match r with
        | Ok event => Ok (from_channel_event <$> (event : option SshChannelEvent))
        | Err e => Err e
        end).

Definition terminal_close (t : TerminalSession) : fut (result SshError unit) := close (channel t).
Definition terminal_close_with_context (t : TerminalSession) (ctx : OperationContext)
  : fut (result SshError unit) :=
  close_with_context (channel t) ctx.
Definition terminal_into_stream (t : TerminalSession) : SshChannelStream :=
  into_stream (channel t).

(** ** Lemmas *)

Lemma terminal_options_Ok_iff o :
  validate o = Ok tt <-> trim (term o) <> "" /\ (0 < columns o)%N /\ (0 < rows o)%N.
Proof.
  unfold validate. rewrite ensure_bind_Ok, ensure_Ok, str_nonempty_iff, negb_true_iff,
    orb_false_iff, !N.eqb_neq. intuition lia.
Qed.

Lemma validate_dimensions_Ok c r :
  validate_dimensions c r = Ok tt <-> (0 < c)%N /\ (0 < r)%N.
Proof.
  unfold validate_dimensions. rewrite ensure_Ok, negb_true_iff, orb_false_iff, !N.eqb_neq.
  intuition lia.
Qed.

Lemma validate_dimensions_Err c r e :
  validate_dimensions c r = Err e <-> (c = 0 \/ r = 0)%N /\ e = dimensions_error.
Proof.
  unfold validate_dimensions.
  rewrite ensure_Err, negb_false_iff, orb_true_iff, !N.eqb_eq. done.
Qed.

(** A request a terminal makes of its channel's window. *)
Definition resize_sane (e : event) : Prop :=
  match e with
  | Issued (WindowChange _ columns rows _ _) => (0 < columns)%N /\ (0 < rows)%N
  | _ => True
  end.

Lemma emits_resize_with_context t columns rows ctx :
  emits resize_sane (resize_with_context t columns rows ctx).
Proof.
  unfold resize_with_context, window_change_with_context, lift.
  destruct (validate_dimensions columns rows) as [[]|e] eqn:Hv; [|done].
  apply validate_dimensions_Ok in Hv. apply emits_bind; [done|]. intros [|]; [|done].
  emits; by cbn.
Qed.

Lemma emits_resize t columns rows : emits resize_sane (resize t columns rows).
Proof.
  unfold resize, window_change, channel_default_context, window_change_with_context, lift.
  destruct (validate_dimensions columns rows) as [[]|e] eqn:Hv; [|done].
  apply validate_dimensions_Ok in Hv. apply emits_bind; [done|]. intros [|]; [|done].
  emits; by cbn.
Qed.

End Terminals.

(** ** Properties *)

Section Properties.
Context {K : SshKeys} {A : AuthKeys} {L : Libraries} {S : Type} {E : Env S}.
#[local] Existing Instance any_budget.

(** The calls that set up a terminal once its channel is open, in order. *)
Definition terminal_requests (o : TerminalOptions) (c : RawChannel) : list call :=
  [RequestPty c (want_reply o) (term o) (columns o) (rows o) (pixel_width o) (pixel_height o) [];
   RequestShell c (want_reply o)].

Definition terminal_setup (session : SshSession) (o : TerminalOptions) : RawChannel -> list call :=
  setup session (terminal_requests o).

Definition terminal_on (t : TerminalSession) (c : RawChannel) (_ : list event) : Prop :=
  inner (channel t) = c.

Lemma wp_open_with_context session o context h :
  wp (F := always (set_up session (terminal_requests o) h)) (open_with_context session o context)
    (completed session (terminal_requests o) terminal_on h)
    (set_up session (terminal_requests o) h) h.
Proof.
  unfold open_with_context, lift.
  pose proof (set_up_start session (terminal_requests o) h) as H0.
  apply wp_bind. cbn [wp]. destruct (validate o) as [[]|e]; [|by apply completed_Err].
  apply wp_bind, wp_with_timeout_from_now; [done|]. intros d.
  apply wp_setup_open. { intros [c|e] Hr; [by destruct (Hr c)|by eexists]. }
  intros c h1 H1.
  eapply (wp_setup_call _ _ _ h (inner c) 1); [apply one_call_run|done..|by eexists|].
  intros a1 u1 h2 _ _ H2.
  eapply (wp_setup_call _ _ _ h (inner c) 2); [apply one_call_run|done..|by eexists|].
  intros a2 u2 h3 _ _ H3. split; [by eapply set_up_take|]. intros t [= <-]. by exists (inner c).
Qed.

(** C38: opening a terminal makes, in this order, the calls that open a session channel,
    request a PTY of the configured size and start the shell, each at most once and
    whatever happens in between; it succeeds only when all three have been made on the
    same channel, and never for invalid options. *)
Theorem terminal_open_sequence session o context turns (w w' : world S) t' :
  exec turns (open_with_context session o context) w = (w', t') ->
  (exists l, issued (w_log w') = issued (w_log w) ++ l /\
     setup_prefix session (terminal_requests o) l) /\
  (forall t, t' = Ret (Ok t) ->
     trim (term o) <> "" /\ (0 < columns o)%N /\ (0 < rows o)%N /\
     issued (w_log w') = issued (w_log w) ++ terminal_setup session o (inner (channel t))).
Proof.
  intros He.
  destruct (setup_exec _ _ _ turns _ w w' t' (wp_open_with_context session o context (w_log w)) He)
    as [Hs Hr].
  split; [exact Hs|]. intros t ->. destruct (validate o) as [[]|e] eqn:Hv.
  - apply terminal_options_Ok_iff in Hv as (? & ? & ?). split_and!; [done..|].
    by destruct (proj2 (Hr _ eq_refl) t eq_refl) as (c & <- & ?).
  - unfold open_with_context, lift in He. rewrite Hv in He.
    rewrite exec_not_pending in He by done. by injection He.
Qed.

(** A resize is requested only with positive dimensions; otherwise it fails with
    [Configuration] and nothing is sent. *)
Lemma resize_validated t columns rows ctx turns (w : world S) :
  (exists l, w_log (fst (exec turns (resize_with_context t columns rows ctx) w)) = w_log w ++ l /\
     Forall resize_sane l) /\
  (exists l, w_log (fst (exec turns (resize t columns rows) w)) = w_log w ++ l /\
     Forall resize_sane l) /\
  (columns = 0%N \/ rows = 0%N ->
   poll (resize_with_context t columns rows ctx) w = (w, Ret (Err dimensions_error)) /\
   poll (resize t columns rows) w = (w, Ret (Err dimensions_error))).
Proof.
  split_and!.
  - apply exec_emits, emits_resize_with_context.
  - apply exec_emits, emits_resize.
  - intros Hbad. unfold resize, resize_with_context, lift.
    assert (validate_dimensions columns rows = Err dimensions_error) as ->
      by by apply validate_dimensions_Err.
    done.
Qed.

End Properties.
