(* ===== verification/Sftp.v ===== *)
(** * Sftp: the SFTP client on a session channel ([src/sftp/]). *)

From S2P Require Export Setup.

Section Clients.
Context {K : SshKeys} {A : AuthKeys} {L : Libraries}.

(** ** Errors ([src/sftp/error.rs]) *)

(** [SftpError]. *)
Inductive SftpError :=
| Core (error : SshError)
| SftpProtocol (message : string).

(** [From<SshError>] and [From<russh_sftp::client::error::Error>]. *)
Definition from_ssh (e : SshError) : SftpError := Core e.
Definition from_sftp (e : ForeignError) : SftpError := Core (source_error ErrorKind.Protocol e).

(** [Display], [source] and the accessors of [SftpError]. *)
Definition display (e : SftpError) : string :=
  match e with
  | Core error => "SSH core: " +:+ SshError.display error
  | SftpProtocol message => "SFTP: " +:+ message
  end.
Definition source (e : SftpError) : option SshError :=
  match e with Core error => Some error | SftpProtocol _ => None end.
Definition kind (e : SftpError) : option ErrorKind :=
  match e with Core error => Some (SshError.kind error) | SftpProtocol _ => None end.
Definition is_retryable (e : SftpError) : bool :=
  match e with Core error => SshError.is_retryable error | SftpProtocol _ => false end.
Definition operation (e : SftpError) : option string :=
  match e with Core error => SshError.operation error | SftpProtocol _ => None end.
Definition path (e : SftpError) : option string :=
  match e with Core error => SshError.path error | SftpProtocol _ => None end.
Definition with_path (p : string) (e : SftpError) : SftpError :=
  match e with Core error => Core (SshError.with_path p error) | error => error end.

(** ** Client ([src/sftp/client.rs]) *)

(** [RemoteDirEntry] ([src/sftp/types.rs]). *)
Record RemoteDirEntry := { entry_name : string; metadata_of : Metadata }.

(** [SftpClient]. *)
Record SftpClient := {
  sftp : RawSftp;
  context : OperationContext;
  operation_timeout : Duration
}.

(** [SftpClient::connect_with_context] and [connect]. *)
Definition sftp_error {T} : result ForeignError T -> result SftpError T := map_err from_sftp.

Definition connect_with_context (session : SshSession) (ctx : OperationContext)
  : fut (result SftpError SftpClient) :=
  setup_context ← with_timeout_from_now (Config.operation_timeout (config session)) ctx;
  channel ←? (map_err from_ssh <$> open_session_channel_with_context session ctx);
  (map_err from_ssh <$> request_subsystem_with_context channel true "sftp" setup_context);;?
  inner ←? run_with from_ssh setup_context "initialize SFTP subsystem"
    (sftp_error <$> await (SftpNew (st_inner (into_stream channel))));
  mret (Ok {| sftp := inner; context := ctx;
              operation_timeout := Config.operation_timeout (config session) |}).

Definition connect (session : SshSession) : fut (result SftpError SftpClient) :=
  connect_with_context session (base_context session).

Definition with_context (c : SftpClient) (ctx : OperationContext) : SftpClient :=
  {| sftp := sftp c; context := ctx; operation_timeout := operation_timeout c |}.

(** [SftpClient::run] and [run_path]. *)
Definition sftp_run {T} (c : SftpClient) (operation : string) (future : fut (result SftpError T))
  : fut (result SftpError T) :=
  ctx ← with_timeout_from_now (operation_timeout c) (context c);
  run_with from_ssh ctx operation future.

Definition run_path {T} (c : SftpClient) (operation path : string)
    (future : fut (result SftpError T)) : fut (result SftpError T) :=
  map_err (with_path path) <$> sftp_run c operation future.

Definition close (c : SftpClient) : fut (result SftpError unit) :=
  sftp_run c "close SFTP subsystem" (sftp_error <$> await (SftpClose (sftp c))).

Definition canonicalize (c : SftpClient) (path : string) : fut (result SftpError string) :=
  run_path c "canonicalize SFTP path" path
    (sftp_error <$> await (SftpCanonicalize (sftp c) path)).

Definition exists_ (c : SftpClient) (path : string) : fut (result SftpError bool) :=
  run_path c "check SFTP path existence" path
    (sftp_error <$> await (SftpTryExists (sftp c) path)).

Definition read (c : SftpClient) (path : string) : fut (result SftpError (list byte)) :=
  run_path c "read SFTP file" path (sftp_error <$> await (SftpRead (sftp c) path)).

Definition write (c : SftpClient) (path : string) (data : list byte)
  : fut (result SftpError unit) :=
  run_path c "write SFTP file" path (sftp_error <$> await (SftpWrite (sftp c) path data)).

Definition open (c : SftpClient) (path : string) : fut (result SftpError SftpFile) :=
  run_path c "open SFTP file" path (sftp_error <$> await (SftpOpen (sftp c) path)).

Definition create (c : SftpClient) (path : string) : fut (result SftpError SftpFile) :=
  run_path c "create SFTP file" path (sftp_error <$> await (SftpCreate (sftp c) path)).

Definition open_with_flags (c : SftpClient) (path : string) (flags : OpenFlags)
  : fut (result SftpError SftpFile) :=
  run_path c "open SFTP file with flags" path
    (sftp_error <$> await (SftpOpenWithFlags (sftp c) path flags)).

Definition create_dir (c : SftpClient) (path : string) : fut (result SftpError unit) :=
  run_path c "create SFTP directory" path (sftp_error <$> await (SftpCreateDir (sftp c) path)).

Definition remote_dir_entry (e : DirEntry) : RemoteDirEntry :=
  {| entry_name := entry_file_name e; metadata_of := entry_metadata e |}.

Definition read_dir (c : SftpClient) (path : string)
  : fut (result SftpError (list RemoteDirEntry)) :=
  entries ←? run_path c "read SFTP directory" path
    (sftp_error <$> await (SftpReadDir (sftp c) path));
  mret (Ok (List.map remote_dir_entry entries)).

Definition metadata (c : SftpClient) (path : string) : fut (result SftpError Metadata) :=
  run_path c "read SFTP metadata" path (sftp_error <$> await (SftpMetadata (sftp c) path)).

Definition remove_file (c : SftpClient) (path : string) : fut (result SftpError unit) :=
  run_path c "remove SFTP file" path (sftp_error <$> await (SftpRemoveFile (sftp c) path)).

Definition remove_dir (c : SftpClient) (path : string) : fut (result SftpError unit) :=
  run_path c "remove SFTP directory" path (sftp_error <$> await (SftpRemoveDir (sftp c) path)).

Definition rename (c : SftpClient) (old_path new_path : string) : fut (result SftpError unit) :=
  let display_path := old_path +:+ " -> " +:+ new_path in
  run_path c "rename SFTP path" display_path
    (sftp_error <$> await (SftpRename (sftp c) old_path new_path)).

End Clients.

(** ** Properties *)

Section Properties.
Context {K : SshKeys} {A : AuthKeys} {L : Libraries} {S : Type} {E : Env S}.
#[local] Existing Instance any_budget.

(** [path_op c o k operation path t]: [t] is the operation of the client that
    performs the call [o] on [path] and reads its answer with [k]. *)
Inductive path_op (c : SftpClient) : forall (o : call) (T : Type),
  (call_answer o -> result ForeignError T) -> string -> string ->
  fut (result SftpError T) -> Prop :=
| op_canonicalize p : path_op c (SftpCanonicalize (sftp c) p) _ (fun a => a)
    "canonicalize SFTP path" p (canonicalize c p)
| op_exists p : path_op c (SftpTryExists (sftp c) p) _ (fun a => a)
    "check SFTP path existence" p (exists_ c p)
| op_read p : path_op c (SftpRead (sftp c) p) _ (fun a => a) "read SFTP file" p (read c p)
| op_write p data : path_op c (SftpWrite (sftp c) p data) _ (fun a => a)
    "write SFTP file" p (write c p data)
| op_open p : path_op c (SftpOpen (sftp c) p) _ (fun a => a) "open SFTP file" p (open c p)
| op_create p : path_op c (SftpCreate (sftp c) p) _ (fun a => a)
    "create SFTP file" p (create c p)
| op_open_with_flags p flags : path_op c (SftpOpenWithFlags (sftp c) p flags) _ (fun a => a)
    "open SFTP file with flags" p (open_with_flags c p flags)
| op_create_dir p : path_op c (SftpCreateDir (sftp c) p) _ (fun a => a)
    "create SFTP directory" p (create_dir c p)
| op_read_dir p : path_op c (SftpReadDir (sftp c) p) _
    (fun a => match a with Ok es => Ok (List.map remote_dir_entry es) | Err e => Err e end)
    "read SFTP directory" p (read_dir c p)
| op_metadata p : path_op c (SftpMetadata (sftp c) p) _ (fun a => a)
    "read SFTP metadata" p (metadata c p)
| op_remove_file p : path_op c (SftpRemoveFile (sftp c) p) _ (fun a => a)
    "remove SFTP file" p (remove_file c p)
| op_remove_dir p : path_op c (SftpRemoveDir (sftp c) p) _ (fun a => a)
    "remove SFTP directory" p (remove_dir c p)
| op_rename p p' : path_op c (SftpRename (sftp c) p p') _ (fun a => a)
    "rename SFTP path" (p +:+ " -> " +:+ p') (rename c p p').

(** What an operation may return: the answer of its call, or an error that
    names the path and is the operation's own cancellation or timeout, or the
    library's error as it is. *)
Definition outcome {T} (o : call) (k : call_answer o -> result ForeignError T)
    (op path : string) (h0 : list event) (r : result SftpError T) (h : list event) : Prop :=
  match r with
  | Ok v => exists a, h = h0 ++ [@Issued core_sig o; @Answered core_sig o a] /\ k a = Ok v
  | Err e =>
      Sftp.path e = Some path /\
      (e = Core (SshError.with_path path (cancelled_error op)) \/
       e = Core (SshError.with_path path (timeout_error op)) \/
       exists a fe, h = h0 ++ [@Issued core_sig o; @Answered core_sig o a] /\ k a = Err fe /\
         e = Core (SshError.with_path path (source_error ErrorKind.Protocol fe)))
  end.

Lemma wp_run_path {T} c op p (o : call) (k : call_answer o -> result ForeignError T) h :
  wp (run_path c op p (sftp_error <$> (k <$> @await core_sig o))) (outcome o k op p h)
    (fun _ => True) h.
Proof.
  unfold run_path, sftp_run. apply wp_map_err.
  apply wp_bind, wp_with_timeout_from_now; [done|]. intros d.
  apply wp_run_with; [|by split; [|left]].
  apply wp_map_err. split.
  - split; [done|]. split; [by split; [|left]|]. intros _. split; [done|]. right. by left.
  - intros a. cbn. rewrite <-(assoc_L (++)). cbn.
    destruct (k a) as [v|fe] eqn:Hk; cbn.
    + by exists a.
    + split; [done|]. right; right. by exists a, fe.
Qed.

Lemma wp_path_op c o T k op p (t : fut (result SftpError T)) h :
  path_op c o T k op p t -> wp t (outcome o k op p h) (fun _ => True) h.
Proof.
  intros Ht. destruct Ht;
    try lazymatch goal with
      |- wp _ (outcome ?o ?k ?op ?p ?h) _ _ => exact (wp_run_path c op p o k h)
    end.
  apply wp_bind. eapply wp_mono;
    [| |exact (wp_run_path c "read SFTP directory" p (SftpReadDir (sftp c) p) (fun a => a) h)];
    [|done].
  intros [es|e] h'; cbn.
  - intros (a & -> & ->). by eexists.
  - intros (Hp & [->|[->|(a & fe & -> & -> & ->)]]); split_and!; try done; eauto 10.
Qed.

(** C40: each operation of the SFTP client on a path makes exactly its one call, on that
    path, and returns its answer; every error it returns names the path, and is its own
    cancellation or timeout or the library's error, unaltered, as a [Protocol] error. *)
Theorem sftp_operation_outcome c o T k op p (t : fut (result SftpError T)) turns
    (w w' : world S) r :
  path_op c o T k op p t -> exec turns t w = (w', Ret r) ->
  outcome o k op p (w_log w) r (w_log w').
Proof.
  intros Ht He. pose proof (wp_adequacy turns t _ _ w (wp_path_op c o T k op p t _ Ht)) as Hw.
  rewrite He in Hw. exact (proj1 Hw).
Qed.

(** Each of them returns within the client's operation timeout, and as soon as the
    client's context is cancelled, whatever the server does. *)
Lemma sftp_operation_bounded c o T k op p (t : fut (result SftpError T)) turns (w : world S) :
  path_op c o T k op p t ->
  (operation_timeout c <= total_advance turns)%N \/
  cancellation (context c) ∈ w_cancelled w ∪ all_cancelled turns ->
  is_pending (snd (exec turns t w)) = false.
Proof.
  intros Ht Hstop.
  assert (exists f, t = with_timeout_from_now (operation_timeout c) (context c) ≫= f /\
    forall ctx ctx' m, covers ctx ctx' -> guarded ctx m (f ctx')) as (f & -> & Hf).
  { destruct Ht; unfold canonicalize, exists_, read, write, open, create, open_with_flags,
      create_dir, read_dir, metadata, remove_file, remove_dir, rename, run_path, sftp_run, fmap,
      fut_fmap; rewrite !fut_bind_assoc; eexists; (split; [reflexivity|]);
      intros ctx ctx' m Hc;
      (apply guarded_bind; [by apply guarded_run_with|intros a m' _; by destruct a]). }
  destruct Hstop as [Hd|Hc].
  - apply exec_with_timeout_bounded; [|done]. intros ctx. by apply Hf.
  - apply (exec_guarded_stops (context c)); [|by left].
    apply guarded_with_timeout_from_now; [reflexivity|]. intros ctx m Hcov _. by apply Hf.
Qed.

(** The calls that start the SFTP subsystem once its channel is open, in order. *)
Definition sftp_requests (c : RawChannel) : list call :=
  [RequestSubsystem c true "sftp"; SftpNew (into_raw_stream c)].

Definition sftp_on (session : SshSession) (ctx : OperationContext) (cl : SftpClient)
    (c : RawChannel) (h : list event) : Prop :=
  context cl = ctx /\ operation_timeout cl = Config.operation_timeout (config session) /\
  exists h', h = h' ++ [@Issued core_sig (SftpNew (into_raw_stream c));
                        @Answered core_sig (SftpNew (into_raw_stream c)) (Ok (sftp cl))].

Lemma wp_sftp_connect session ctx h :
  wp (F := always (set_up session sftp_requests h)) (connect_with_context session ctx)
    (completed session sftp_requests (sftp_on session ctx) h)
    (set_up session sftp_requests h) h.
Proof.
  unfold connect_with_context.
  pose proof (set_up_start session sftp_requests h) as H0.
  apply wp_bind, wp_with_timeout_from_now; [done|]. intros d.
  rewrite (fut_map_bind _ (open_session_channel_with_context session ctx)).
  apply wp_setup_open. { intros [c|e] Hr; [by destruct (Hr c)|by eexists]. }
  intros c h1 H1.
  eapply (wp_setup_call _ _ _ h (inner c) 1);
    [apply one_call_map_err, one_call_run|done..|by eexists|].
  intros a1 u1 h2 _ _ H2.
  eapply (wp_setup_call _ _ _ h (inner c) 2 (SftpNew (into_raw_stream (inner c))) sftp_error);
    [apply one_call_run_with|done..|by eexists|].
  intros [a|e] cl h3 Ha Hh H3; [injection Ha as ->|done].
  split; [by eapply set_up_take|]. intros t [= <-]. exists (inner c). split; [|done].
  split_and!; [done..|]. exists h2. by rewrite Hh, <-(assoc_L (++)).
Qed.

(** C39: connecting an SFTP client makes, in this order, the calls that open a session
    channel, request the subsystem [sftp] on it and start the protocol on its stream,
    each at most once and whatever happens in between; it succeeds only when all three
    have been made on the same channel, with the client that the last one answered and
    with the caller's context. *)
Theorem sftp_connect_sequence session ctx turns (w w' : world S) t' :
  exec turns (connect_with_context session ctx) w = (w', t') ->
  (exists l, issued (w_log w') = issued (w_log w) ++ l /\ setup_prefix session sftp_requests l) /\
  (forall cl, t' = Ret (Ok cl) ->
     exists c, sftp_on session ctx cl c (w_log w') /\
       issued (w_log w') = issued (w_log w) ++ setup session sftp_requests c).
Proof.
  intros He.
  destruct (setup_exec _ _ _ turns _ w w' t' (wp_sftp_connect session ctx (w_log w)) He)
    as [Hs Hr].
  split; [exact Hs|]. intros cl ->. exact (proj2 (Hr _ eq_refl) cl eq_refl).
Qed.

End Properties.
