(* ===== verification/Net.v ===== *)
(** * Net: the standard library's IP address texts, and the byte relay both
    forwarders run between a local stream and an SSH channel
    ([src/core/relay.rs] and [src/core/socks5.rs]). *)

From S2P Require Export Channel.

(** ** [Display] of IP addresses *)

(** [Ipv4Addr::from(octets).to_string()]. *)
Definition show_byte (b : byte) : string := show (Byte.to_N b).

Definition ipv4_to_string (octets : vec byte 4) : string :=
  join "." (show_byte <$> vec_to_list octets).

(** [{:x}] of a [u16]. *)
Definition hex_digit (n : N) : ascii :=
  ascii_of_N (if (n <? 10)%N then 48 + n else 87 + n).

Fixpoint hex_digits (fuel : nat) (n : N) (acc : string) : string :=
  match fuel with
  | 0 => acc
  | S fuel =>
      let acc := String (hex_digit (n mod 16)) acc in
      if (n / 16 =? 0)%N then acc else hex_digits fuel (n / 16) acc
  end.

Definition show_hex (n : N) : string := hex_digits 4 n "".

(** [Ipv6Addr::segments]. *)
Fixpoint segments (octets : list byte) : list N :=
  match octets with
  | hi :: lo :: rest => u16_from_be_bytes hi lo :: segments rest
  | _ => []
  end.

(** The longest run of zero segments, the first among equals: start, length. *)
Fixpoint longest_zeros (i : nat) (current longest : nat * nat) (segs : list N) : nat * nat :=
  match segs with
  | [] => longest
  | s :: rest =>
      if (s =? 0)%N then
        let current := (if snd current =? 0 then i else fst current, S (snd current)) in
        let longest := if snd longest <? snd current then current else longest in
        longest_zeros (S i) current longest rest
      else longest_zeros (S i) (0, 0) longest rest
  end.

Definition show_segments (segs : list N) : string := join ":" (show_hex <$> segs).

(** [Ipv6Addr::from(octets).to_string()]. *)
Definition ipv6_to_string (octets : vec byte 16) : string :=
  let l := vec_to_list octets in
  let segs := segments l in
  match segs, l with
  | [0; 0; 0; 0; 0; 65535; _; _]%N, [_; _; _; _; _; _; _; _; _; _; _; _; a; b; c; d] =>
      "::ffff:" +:+ ipv4_to_string [#a; b; c; d]
  | _, _ =>
      let '(start, len) := longest_zeros 0 (0, 0) (0, 0) segs in
      if 1 <? len
      then show_segments (take start segs) +:+ "::" +:+ show_segments (drop (start + len) segs)
      else show_segments segs
  end.

Example ipv4_text : ipv4_to_string [#x7f; x00; x00; x01]%byte = "127.0.0.1".
Proof. vm_compute. reflexivity. Qed.

Example ipv6_text :
  ipv6_to_string [#x20; x01; x0d; xb8; x00; x00; x00; x00; x00; x00; x00; x00; x00; x00; x00;
                  x01]%byte = "2001:db8::1".
Proof. vm_compute. reflexivity. Qed.

Example ipv6_mapped_text :
  ipv6_to_string [#x00; x00; x00; x00; x00; x00; x00; x00; x00; x00; xff; xff; x0a; x00; x00;
                  x01]%byte = "::ffff:10.0.0.1".
Proof. vm_compute. reflexivity. Qed.

(** ** Relaying bytes *)

Section Relay.
Context {K : SshKeys} {A : AuthKeys} {L : Libraries}.

(** The [select!] between the cancellation signal and [copy_bidirectional]. *)
Definition relay_select (t : token) (local remote : io) (cancelled_message failed_message : string)
  : fut (result SshError unit) :=
  Scope (result ForeignError (N * N)) None t (await (CopyBidirectional local remote))
    (fun ended =>
       match ended with
       | Interrupted =>
           _ ← await (IoShutdown local);
           _ ← await (IoShutdown remote);
           mret (Err (SshError.cancelled cancelled_message))
       | Completed result =>
           mret (map_err (message_error ErrorKind.Channel failed_message)
                   ((fun _ => tt) <$> (result : Prelude.result ForeignError (N * N))))
       | Elapsed => Panic "unreachable"
       end).

(** The relay under the connection's context. *)
Definition relay_streams (ctx : OperationContext) (operation : string) (local remote : io)
    (cancelled_message failed_message : string) : fut (result SshError unit) :=
  let cancellation := cancellation_token ctx in
  run ctx operation (relay_select cancellation local remote cancelled_message failed_message).

(** The relay copies between its two streams, and shuts them down. *)
Lemma emits_relay_streams (P : event -> Prop) ctx op a b m1 m2 :
  P (@Issued core_sig (CopyBidirectional a b)) ->
  P (@Issued core_sig (IoShutdown a)) -> P (@Issued core_sig (IoShutdown b)) ->
  (forall o x, P (@Answered core_sig o x)) -> emits P (relay_streams ctx op a b m1 m2).
Proof.
  intros Hc Ha Hb HP. apply emits_run. split; [by split|].
  intros [r| |]; cbn; [done| |done]. by split_and!.
Qed.

End Relay.
