(* ===== verification/Socks5.v ===== *)
(** * Socks5: the local SOCKS5 proxy ([src/core/socks5.rs]). *)

From S2P Require Export Net.

Definition SOCKS5_VERSION : byte := x05.
Definition SOCKS5_NO_AUTH : byte := x00.
Definition SOCKS5_USER_PASSWORD : byte := x02.
Definition SOCKS5_NO_ACCEPTABLE_METHOD : byte := xff.
Definition SOCKS5_USER_PASSWORD_VERSION : byte := x01.
Definition SOCKS5_CONNECT : byte := x01.
Definition SOCKS5_ATYP_IPV4 : byte := x01.
Definition SOCKS5_ATYP_DOMAIN : byte := x03.
Definition SOCKS5_ATYP_IPV6 : byte := x04.

(** ** Options *)

(** [Socks5Authentication]. *)
Inductive Socks5Authentication :=
| NoAuth
| UsernamePassword (username : string) (password : SecretString).

Definition no_auth : Socks5Authentication := NoAuth.
Definition username_password (username password : string) : Socks5Authentication :=
  UsernamePassword username (SecretString_new password).

(** [Socks5ProxyOptions] and its [Default]. *)
Record Socks5ProxyOptions := {
  max_connections : N;
  handshake_timeout : Duration;
  authentication : Socks5Authentication
}.

Definition default_options : Socks5ProxyOptions :=
  {| max_connections := 128; handshake_timeout := duration_from_secs 30;
     authentication := NoAuth |}.

Definition str_len (s : string) : N := N.of_nat (String.length s).

(** [Socks5ProxyOptions::validate]. *)
Definition validate (o : Socks5ProxyOptions) : result SshError unit :=
  ensure (negb (max_connections o =? 0)%N)
    (SshError.configuration "SOCKS5 max_connections must be greater than zero");;
  ensure (negb (is_zero (handshake_timeout o)))
    (SshError.configuration "SOCKS5 handshake_timeout must be greater than zero");;
  match authentication o with
  | UsernamePassword username password =>
      ensure (negb (str_is_empty username || (u8_max <? str_len username)%N))
        (SshError.configuration "SOCKS5 username must contain between 1 and 255 bytes");;
      ensure (negb (u8_max <? str_len (as_str password))%N)
        (SshError.configuration "SOCKS5 password must contain at most 255 bytes")
  | NoAuth => Ok tt
  end.

Section Proxy.
Context {K : SshKeys} {A : AuthKeys} {L : Libraries}.

(** ** Framed input and output *)

(** [read_exact] and [write_all]. *)
Definition read_exact (stream : io) (n : nat) (ctx : OperationContext) (operation : string)
  : fut (result SshError (vec byte n)) :=
  run ctx operation
    (map_err (message_error ErrorKind.Protocol "invalid SOCKS5 client data") <$>
       await (IoReadExact stream n)).

Definition write_all (stream : io) (data : list byte) (ctx : OperationContext)
    (operation : string) : fut (result SshError unit) :=
  run ctx operation
    (map_err (message_error ErrorKind.Channel "failed to write SOCKS5 data") <$>
       await (IoWriteAll stream data)).

(** [str::as_bytes]. *)
Definition as_bytes (s : string) : list byte := list_byte_of_string s.

Definition byte_len (b : byte) : nat := N.to_nat (Byte.to_N b).

Definition contains_byte (b : byte) (l : list byte) : bool := existsb (Byte.eqb b) l.

Definition bytes_eqb (l l' : list byte) : bool := bool_decide (l = l').

(** ** Client authentication *)

(** What [authenticate] does when the client does not offer [method]. *)
Definition refuse_methods (stream : io) (ctx : OperationContext) (message : string)
  : fut (result SshError unit) :=
  write_all stream [SOCKS5_VERSION; SOCKS5_NO_ACCEPTABLE_METHOD] ctx
    "reject SOCKS5 authentication";;?
  mret (Err (SshError.authentication message)).

(** The username/password sub-negotiation. *)
Definition check_credentials (stream : io) (username password : string) (ctx : OperationContext)
  : fut (result SshError unit) :=
  write_all stream [SOCKS5_VERSION; SOCKS5_USER_PASSWORD] ctx "select SOCKS5 username/password";;?
  auth_header ←? read_exact stream 2 ctx "read SOCKS5 credentials";
  if negb (Byte.eqb (auth_header !!! 0%fin) SOCKS5_USER_PASSWORD_VERSION)
  then mret (Err (SshError.protocol "SOCKS5 client sent an unsupported credential version"))
  else
    received_username ←? read_exact stream (byte_len (auth_header !!! 1%fin)) ctx
      "read SOCKS5 username";
    password_length ←? read_exact stream 1 ctx "read SOCKS5 password length";
    received_password ←? read_exact stream (byte_len (password_length !!! 0%fin)) ctx
      "read SOCKS5 password";
    let accepted := bytes_eqb (vec_to_list received_username) (as_bytes username) &&
                    bytes_eqb (vec_to_list received_password) (as_bytes password) in
    write_all stream [SOCKS5_USER_PASSWORD_VERSION; if accepted then x00 else x01] ctx
      "reply to SOCKS5 credentials";;?
    if accepted then mret (Ok tt)
    else mret (Err (SshError.authentication "invalid SOCKS5 credentials")).

(** [authenticate]. *)
Definition authenticate (stream : io) (auth : Socks5Authentication) (ctx : OperationContext)
  : fut (result SshError unit) :=
  header ←? read_exact stream 2 ctx "read SOCKS5 methods";
  if negb (Byte.eqb (header !!! 0%fin) SOCKS5_VERSION)
  then mret (Err (SshError.protocol "SOCKS5 client sent an unsupported version"))
  else
    methods ←? read_exact stream (byte_len (header !!! 1%fin)) ctx "read SOCKS5 methods";
    match auth with
    | NoAuth =>
        if negb (contains_byte SOCKS5_NO_AUTH (vec_to_list methods))
        then refuse_methods stream ctx "SOCKS5 client does not offer the no-auth method"
        else write_all stream [SOCKS5_VERSION; SOCKS5_NO_AUTH] ctx "select SOCKS5 no-auth"
    | UsernamePassword username password =>
        if negb (contains_byte SOCKS5_USER_PASSWORD (vec_to_list methods))
        then refuse_methods stream ctx
               "SOCKS5 client does not offer username/password authentication"
        else check_credentials stream username (as_str password) ctx
    end.

(** ** Requests *)

(** [ReplyCode] and its [repr(u8)]. *)
Inductive ReplyCode := Succeeded | GeneralFailure | CommandNotSupported | AddressTypeNotSupported.

Definition reply_byte (r : ReplyCode) : byte :=
  match r with
  | Succeeded => x00 | GeneralFailure => x01 | CommandNotSupported => x07
  | AddressTypeNotSupported => x08
  end.

(** [ConnectRequest] and [RequestError]. *)
Record ConnectRequest := { req_host : string; req_port : N; req_command : byte }.

Record RequestError := { code : ReplyCode; error : SshError }.

(** [From<SshError> for RequestError]. *)
Definition request_error (e : SshError) : RequestError :=
  {| code := GeneralFailure; error := e |}.

(** The target host, by address type. *)
Definition read_host (stream : io) (atyp : byte) (ctx : OperationContext)
  : fut (result RequestError string) :=
  if Byte.eqb atyp SOCKS5_ATYP_IPV4 then
    bytes ←? (map_err request_error <$> read_exact stream 4 ctx "read SOCKS5 IPv4 target");
    mret (Ok (ipv4_to_string bytes))
  else if Byte.eqb atyp SOCKS5_ATYP_DOMAIN then
    length ←? (map_err request_error <$> read_exact stream 1 ctx "read SOCKS5 domain length");
    if Byte.eqb (length !!! 0%fin) x00
    then mret (Err (request_error (SshError.protocol "SOCKS5 domain target must not be empty")))
    else
      bytes ←? (map_err request_error <$>
        read_exact stream (byte_len (length !!! 0%fin)) ctx "read SOCKS5 domain target");
      mret (match string_from_utf8 (vec_to_list bytes) with
            | Some host => Ok host
            | None => Err (request_error
                (SshError.protocol "SOCKS5 domain target is not valid UTF-8"))
            end)
  else if Byte.eqb atyp SOCKS5_ATYP_IPV6 then
    bytes ←? (map_err request_error <$> read_exact stream 16 ctx "read SOCKS5 IPv6 target");
    mret (Ok (ipv6_to_string bytes))
  else
    mret (Err {| code := AddressTypeNotSupported;
                 error := SshError.protocol "SOCKS5 target address type is not supported" |}).

(** [read_connect_request]. *)
Definition read_connect_request (stream : io) (ctx : OperationContext)
  : fut (result RequestError ConnectRequest) :=
  header ←? (map_err request_error <$> read_exact stream 4 ctx "read SOCKS5 connect request");
  if negb (Byte.eqb (header !!! 0%fin) SOCKS5_VERSION) || negb (Byte.eqb (header !!! 2%fin) x00)
  then mret (Err (request_error (SshError.protocol "invalid SOCKS5 connect request header")))
  else
    host ←? read_host stream (header !!! 3%fin) ctx;
    port ←? (map_err request_error <$> read_exact stream 2 ctx "read SOCKS5 target port");
    let port := u16_from_be_bytes (port !!! 0%fin) (port !!! 1%fin) in
    if (port =? 0)%N
    then mret (Err (request_error
           (SshError.protocol "SOCKS5 target port must be greater than zero")))
    else mret (Ok {| req_host := host; req_port := port; req_command := header !!! 1%fin |}).

(** [write_reply]. *)
Definition reply_message (r : ReplyCode) : list byte :=
  [SOCKS5_VERSION; reply_byte r; x00; SOCKS5_ATYP_IPV4; x00; x00; x00; x00; x00; x00].

Definition write_reply (stream : io) (r : ReplyCode) (ctx : OperationContext)
  : fut (result SshError unit) :=
  write_all stream (reply_message r) ctx "write SOCKS5 reply".

(** ** Connections *)

(** [handle_connection]. *)
Definition handle_connection (stream : io) (session : SshSession) (options : Socks5ProxyOptions)
    (ctx : OperationContext) : fut (result SshError unit) :=
  handshake_context ← with_timeout_from_now (handshake_timeout options) ctx;
  authenticate stream (authentication options) handshake_context;;?
  request ← read_connect_request stream handshake_context;
  match request with
  | Err request_error =>
      _ ← write_reply stream (code request_error) handshake_context;
      mret (Err (error request_error))
  | Ok request =>
      if negb (Byte.eqb (req_command request) SOCKS5_CONNECT) then
        write_reply stream CommandNotSupported handshake_context;;?
        mret (Ok tt)
      else
        channel ← open_direct_tcpip_with_context session (req_host request) (req_port request)
          handshake_context;
        match channel with
        | Err error =>
            _ ← write_reply stream GeneralFailure handshake_context;
            mret (Err error)
        | Ok channel =>
            write_reply stream Succeeded handshake_context;;?
            relay_streams ctx "relay SOCKS5 connection" stream
              (SshIo (st_inner (into_stream channel)))
              "SOCKS5 relay was cancelled" "SOCKS5 relay failed"
        end
  end.

(** ** The proxy *)

(** [Socks5Proxy]. *)
Record Socks5Proxy := {
  listener : TcpListener;
  session : SshSession;
  options : Socks5ProxyOptions
}.

(** [bind_with_options], [bind], [from_listener] and [from_listener_with_options]. *)
Definition bind_with_options (session : SshSession) (address : BindAddress)
    (options : Socks5ProxyOptions) : fut (result SshError Socks5Proxy) :=
  lift (validate options);;?
  listener ←? (map_err (message_error ErrorKind.Connection "failed to bind SOCKS5 listener") <$>
                 await (TcpBind address));
  mret (Ok {| listener := listener; session := session; options := options |}).

Definition bind (session : SshSession) (address : BindAddress)
  : fut (result SshError Socks5Proxy) :=
  bind_with_options session address default_options.

Definition from_listener (session : SshSession) (listener : TcpListener) : Socks5Proxy :=
  {| listener := listener; session := session; options := default_options |}.

Definition from_listener_with_options (session : SshSession) (listener : TcpListener)
    (options : Socks5ProxyOptions) : result SshError Socks5Proxy :=
  validate options;; mret {| listener := listener; session := session; options := options |}.

Definition local_addr (p : Socks5Proxy) : fut (result SshError SocketAddr) :=
  r ← ask (TcpLocalAddr (listener p));
  mret (map_err (message_error ErrorKind.Connection "failed to inspect SOCKS5 listener address") r).

(** What [run_with_context] gives [tokio::spawn]: the captured values, and the
    future made of them. *)
Record connection_task := {
  task_permit : N;
  task_stream : TcpStream;
  task_session : SshSession;
  task_options : Socks5ProxyOptions;
  task_context : OperationContext
}.

Definition task_body (t : connection_task) : fut unit :=
  _ ← handle_connection (TcpIo (task_stream t)) (task_session t) (task_options t)
        (task_context t);
  mret tt.

(** [run_with_context]: [fuel] iterations of its [loop]. *)
Fixpoint serve (fuel : nat) (p : Socks5Proxy) (permits : N) (ctx : OperationContext)
  : fut (result SshError unit) :=
  match fuel with
  | 0 => OutOfFuel
  | S fuel =>
      accepted ←? run ctx "accept SOCKS5 proxy connection"
        (map_err (message_error ErrorKind.Connection
                    "failed to accept SOCKS5 proxy connection") <$>
           await (TcpAccept (listener p)));
      permit ← ask (TryAcquire permits);
      match permit with
      | None => serve fuel p permits ctx
      | Some permit =>
          _ ← ask (Spawn connection_task
                {| task_permit := permit; task_stream := fst accepted;
                   task_session := session p; task_options := options p;
                   task_context := ctx |});
          serve fuel p permits ctx
      end
  end.

Definition run_with_context (fuel : nat) (p : Socks5Proxy) (ctx : OperationContext)
  : fut (result SshError unit) :=
  permits ← ask (SemaphoreNew (max_connections (options p)));
  match permits with
  | Some permits => serve fuel p permits ctx
  | None => Panic "a semaphore may not have more than MAX_PERMITS permits"
  end.

Definition run_proxy (fuel : nat) (p : Socks5Proxy) (cancellation : token)
  : fut (result SshError unit) :=
  ctx ← OperationContext_new;
  run_with_context fuel p (with_cancellation cancellation ctx).

End Proxy.

(** ** The wire protocol (RFC 1928 and RFC 1929)

    What the client sends and what it is answered, independently of the code. *)

Section Protocol.
Context {K : SshKeys} {A : AuthKeys} {L : Libraries}.

(** [n] announces the length of [l]. *)
Definition announces (n : byte) (l : list byte) : Prop := byte_len n = length l.

(** [client_auth auth received sent]: the dialogue that admits a client. *)
Inductive client_auth : Socks5Authentication -> list byte -> list byte -> Prop :=
| auth_none n methods :
    announces n methods -> SOCKS5_NO_AUTH ∈ methods ->
    client_auth NoAuth (SOCKS5_VERSION :: n :: methods) [SOCKS5_VERSION; SOCKS5_NO_AUTH]
| auth_password u p n methods nu np :
    announces n methods -> SOCKS5_USER_PASSWORD ∈ methods ->
    announces nu (as_bytes u) -> announces np (as_bytes (as_str p)) ->
    client_auth (UsernamePassword u p)
      ((SOCKS5_VERSION :: n :: methods) ++
       (SOCKS5_USER_PASSWORD_VERSION :: nu :: as_bytes u) ++ np :: as_bytes (as_str p))
      [SOCKS5_VERSION; SOCKS5_USER_PASSWORD; SOCKS5_USER_PASSWORD_VERSION; x00].

(** [target_bytes atyp bytes host]: the target host of a request. *)
Inductive target_bytes : byte -> list byte -> string -> Prop :=
| target_ipv4 (v : vec byte 4) :
    target_bytes SOCKS5_ATYP_IPV4 (vec_to_list v) (ipv4_to_string v)
| target_domain n bytes host :
    announces n bytes -> bytes <> [] -> string_from_utf8 bytes = Some host ->
    target_bytes SOCKS5_ATYP_DOMAIN (n :: bytes) host
| target_ipv6 (v : vec byte 16) :
    target_bytes SOCKS5_ATYP_IPV6 (vec_to_list v) (ipv6_to_string v).

Inductive request_bytes : list byte -> ConnectRequest -> Prop :=
| connect_request cmd atyp target host hi lo :
    target_bytes atyp target host -> u16_from_be_bytes hi lo <> 0%N ->
    request_bytes ((SOCKS5_VERSION :: cmd :: x00 :: atyp :: target) ++ [hi; lo])
      {| req_host := host; req_port := u16_from_be_bytes hi lo; req_command := cmd |}.

(** ** Bytes exchanged in a history *)

Definition received_in (e : event) : list byte :=
  match e with
  | Answered o a =>
      match o return answer o -> list byte with
      | IoReadExact _ n => fun a => match a with Ok v => vec_to_list v | Err _ => [] end
      | _ => fun _ => []
      end a
  | _ => []
  end.

Definition sent_in (e : event) : list byte :=
  match e with Issued (IoWriteAll _ data) => data | _ => [] end.

Definition received (h : list event) : list byte := h ≫= received_in.
Definition sent (h : list event) : list byte := h ≫= sent_in.

Lemma received_snoc h e : received (h ++ [e]) = received h ++ received_in e.
Proof. unfold received. rewrite bind_app. cbn. by rewrite app_nil_r. Qed.

Lemma sent_snoc h e : sent (h ++ [e]) = sent h ++ sent_in e.
Proof. unfold sent. rewrite bind_app. cbn. by rewrite app_nil_r. Qed.

(** Since [h0], [l] has been received and [s] sent. *)
Definition exchanged (h0 : list event) (l s : list byte) (h : list event) : Prop :=
  received h = received h0 ++ l /\ sent h = sent h0 ++ s.

Lemma exchanged_nil h : exchanged h [] [] h.
Proof. split; by rewrite app_nil_r. Qed.

Lemma contains_byte_iff b l : contains_byte b l = true <-> b ∈ l.
Proof.
  unfold contains_byte. rewrite existsb_exists. split.
  - intros (x & Hx & ->%Byte.byte_dec_bl). by apply list_elem_of_In.
  - intros Hb%list_elem_of_In. exists b. split; [done|]. by apply Byte.byte_dec_lb.
Qed.

Lemma byte_eqb_iff b b' : Byte.eqb b b' = true <-> b = b'.
Proof. split; [apply Byte.byte_dec_bl|apply Byte.byte_dec_lb]. Qed.

#[local] Existing Instance any_budget.

(** Reading and writing under [run]. *)
Lemma wp_read_exact stream n ctx op h0 l s
    (Q : result SshError (vec byte n) -> list event -> Prop) h :
  exchanged h0 l s h ->
  (forall v h', exchanged h0 (l ++ vec_to_list v) s h' -> Q (Ok v) h') ->
  (forall e h', Q (Err e) h') ->
  wp (read_exact stream n ctx op) Q (fun _ => True) h.
Proof.
  intros [Hr Hs] HQ HE. unfold read_exact. apply wp_run; [|apply HE].
  apply wp_map_err, (wp_await (Σ := core_sig) (IoReadExact _ _)).
  - split; [done|]. by split.
  - intros [v|e]; [|apply HE]. apply HQ. split.
    + rewrite !received_snoc. cbn. by rewrite app_nil_r, Hr, (assoc_L (++)).
    + rewrite !sent_snoc. cbn. by rewrite !app_nil_r.
Qed.

Lemma wp_write_all stream data ctx op h0 l s
    (Q : result SshError unit -> list event -> Prop) h :
  exchanged h0 l s h ->
  (forall h', exchanged h0 l (s ++ data) h' -> Q (Ok tt) h') ->
  (forall e h', Q (Err e) h') ->
  wp (write_all stream data ctx op) Q (fun _ => True) h.
Proof.
  intros [Hr Hs] HQ HE. unfold write_all. apply wp_run; [|apply HE].
  apply wp_map_err, (wp_await (Σ := core_sig) (IoWriteAll _ _)).
  - split; [done|]. by split.
  - intros [[]|e]; [|apply HE]. apply HQ. split.
    + rewrite !received_snoc. cbn. by rewrite !app_nil_r.
    + rewrite !sent_snoc. cbn. by rewrite app_nil_r, Hs, (assoc_L (++)).
Qed.

Lemma vec2 {T} (v : vec T 2) : vec_to_list v = [v !!! 0%fin; v !!! 1%fin].
Proof. by inv_vec v. Qed.

Lemma vec1 {T} (v : vec T 1) : vec_to_list v = [v !!! 0%fin].
Proof. by inv_vec v. Qed.

Lemma vec4 {T} (v : vec T 4) :
  vec_to_list v = [v !!! 0%fin; v !!! 1%fin; v !!! 2%fin; v !!! 3%fin].
Proof. by inv_vec v. Qed.

Lemma announces_vec b (v : vec byte (byte_len b)) : announces b (vec_to_list v).
Proof. unfold announces. by rewrite length_vec_to_list. Qed.

(** What [authenticate] establishes. *)
Definition admitted (auth : Socks5Authentication) (h0 : list event)
    (r : result SshError unit) (h : list event) : Prop :=
  r = Ok tt -> exists l s, client_auth auth l s /\ exchanged h0 l s h.

Lemma wp_refuse_methods auth stream ctx message h0 l s h :
  exchanged h0 l s h ->
  wp (refuse_methods stream ctx message) (admitted auth h0) (fun _ => True) h.
Proof.
  intros Hh. unfold refuse_methods. apply wp_bind.
  eapply wp_write_all; [exact Hh|by intros ?? [=]..].
Qed.

Lemma wp_check_credentials stream u p ctx n methods h0 h :
  announces n methods -> SOCKS5_USER_PASSWORD ∈ methods ->
  exchanged h0 (SOCKS5_VERSION :: n :: methods) [] h ->
  wp (check_credentials stream u (as_str p) ctx) (admitted (UsernamePassword u p) h0)
    (fun _ => True) h.
Proof.
  intros Hn Hm Hh. unfold check_credentials.
  apply wp_bind. eapply wp_write_all; [exact Hh| |by intros ?? [=]]. intros h1 H1.
  apply wp_bind. eapply wp_read_exact; [exact H1| |by intros ?? [=]]. intros hd h2 H2.
  destruct (Byte.eqb (hd !!! 0%fin) SOCKS5_USER_PASSWORD_VERSION) eqn:Hv; [|by intros [=]].
  apply byte_eqb_iff in Hv. rewrite vec2, Hv in H2. cbn [negb].
  apply wp_bind. eapply wp_read_exact; [exact H2| |by intros ?? [=]]. intros ru h3 H3.
  apply wp_bind. eapply wp_read_exact; [exact H3| |by intros ?? [=]]. intros pl h4 H4.
  rewrite vec1 in H4.
  apply wp_bind. eapply wp_read_exact; [exact H4| |by intros ?? [=]]. intros rp h5 H5.
  cbn zeta. destruct (bytes_eqb (vec_to_list ru) (as_bytes u) && _) eqn:Hok.
  - apply andb_true_iff in Hok as [Hu Hp].
    unfold bytes_eqb in Hu, Hp. apply bool_decide_eq_true in Hu, Hp.
    apply wp_bind. eapply wp_write_all; [exact H5| |by intros ?? [=]]. intros h6 H6 _.
    eexists _, _. split; [|].
    + eapply (auth_password u p n methods (hd !!! 1%fin) (pl !!! 0%fin)); try done.
      * rewrite <-Hu. apply announces_vec.
      * rewrite <-Hp. apply announces_vec.
    + rewrite Hu, Hp in H6. destruct H6 as [Hr Hs]. split; [rewrite Hr|by rewrite Hs].
      f_equal. cbn. rewrite <-!(assoc_L (++)). done.
  - apply wp_bind. eapply wp_write_all; [exact H5|by intros ?? [=]..].
Qed.

Lemma wp_authenticate stream auth ctx h :
  wp (authenticate stream auth ctx) (admitted auth h) (fun _ => True) h.
Proof.
  unfold authenticate.
  apply wp_bind. eapply wp_read_exact; [apply exchanged_nil| |by intros ?? [=]]. intros hd h1 H1.
  destruct (Byte.eqb (hd !!! 0%fin) SOCKS5_VERSION) eqn:Hv; [|by intros [=]].
  apply byte_eqb_iff in Hv. rewrite vec2, Hv in H1. cbn [negb].
  apply wp_bind. eapply wp_read_exact; [exact H1| |by intros ?? [=]]. intros ms h2 H2.
  destruct auth as [|u p].
  - destruct (contains_byte SOCKS5_NO_AUTH ms) eqn:Hc; cbn [negb]; [|by eapply wp_refuse_methods].
    apply contains_byte_iff in Hc.
    eapply wp_write_all; [exact H2| |by intros ?? [=]]. intros h3 H3 _.
    eexists _, _. split; [|exact H3]. by apply auth_none; [apply announces_vec|].
  - destruct (contains_byte SOCKS5_USER_PASSWORD ms) eqn:Hc; cbn [negb];
      [|by eapply wp_refuse_methods].
    apply contains_byte_iff in Hc. by eapply wp_check_credentials; [apply announces_vec|..].
Qed.

(** What [read_connect_request] establishes. *)
Definition requested (h0 : list event) (l s : list byte) (r : result RequestError ConnectRequest)
    (h : list event) : Prop :=
  match r with
  | Ok req => exists l', request_bytes l' req /\ exchanged h0 (l ++ l') s h
  | Err e => code e <> Succeeded
  end.

Lemma wp_read_host stream atyp ctx h0 l s h
    (Q : result RequestError string -> list event -> Prop) :
  exchanged h0 l s h ->
  (forall host target h', target_bytes atyp target host -> exchanged h0 (l ++ target) s h' ->
     Q (Ok host) h') ->
  (forall e h', code e <> Succeeded -> Q (Err e) h') ->
  wp (read_host stream atyp ctx) Q (fun _ => True) h.
Proof.
  intros Hh HQ HE. unfold read_host.
  destruct (Byte.eqb atyp SOCKS5_ATYP_IPV4) eqn:E4.
  { apply byte_eqb_iff in E4 as ->. apply wp_bind, wp_map_err.
    eapply wp_read_exact; [exact Hh| |intros; by apply HE]. intros v h' Hh'.
    eapply HQ; [apply target_ipv4|exact Hh']. }
  destruct (Byte.eqb atyp SOCKS5_ATYP_DOMAIN) eqn:ED.
  { apply byte_eqb_iff in ED as ->. apply wp_bind, wp_map_err.
    eapply wp_read_exact; [exact Hh| |intros; by apply HE]. intros len h1 H1. rewrite vec1 in H1.
    cbn [map_err]. destruct (Byte.eqb (len !!! 0%fin) x00) eqn:Ez; [by apply HE|].
    apply wp_bind, wp_map_err.
    eapply wp_read_exact; [exact H1| |intros; by apply HE]. intros bytes h2 H2. cbn [map_err wp mret fut_ret].
    destruct (string_from_utf8 (vec_to_list bytes)) as [host|] eqn:Hu; [|by apply HE].
    eapply HQ; [eapply target_domain; [apply announces_vec| |exact Hu]|].
    - intros Hnil. apply (f_equal length) in Hnil. rewrite length_vec_to_list in Hnil.
      apply not_true_iff_false in Ez. apply Ez, byte_eqb_iff.
      unfold byte_len in Hnil. cbn in Hnil. destruct (len !!! 0%fin); cbn in Hnil; done || lia.
    - by rewrite <-(assoc_L (++)) in H2. }
  destruct (Byte.eqb atyp SOCKS5_ATYP_IPV6) eqn:E6; [|by apply HE].
  apply byte_eqb_iff in E6 as ->. apply wp_bind, wp_map_err.
  eapply wp_read_exact; [exact Hh| |intros; by apply HE]. intros v h' Hh'.
  eapply HQ; [apply target_ipv6|exact Hh'].
Qed.

Lemma wp_read_connect_request stream ctx h0 l s h :
  exchanged h0 l s h ->
  wp (read_connect_request stream ctx) (requested h0 l s) (fun _ => True) h.
Proof.
  intros Hh. unfold read_connect_request.
  apply wp_bind, wp_map_err. eapply wp_read_exact; [exact Hh| |done].
  intros hd h1 H1. cbn [map_err]. rewrite vec4 in H1.
  destruct (Byte.eqb (hd !!! 0%fin) SOCKS5_VERSION) eqn:Hv; [|done].
  destruct (Byte.eqb (hd !!! 2%fin) x00) eqn:Hz; [|done].
  apply byte_eqb_iff in Hv, Hz. rewrite Hv, Hz in H1. cbn [negb orb].
  apply wp_bind. eapply wp_read_host; [exact H1| |done].
  intros host target h2 Ht H2.
  apply wp_bind, wp_map_err. eapply wp_read_exact; [exact H2| |done].
  intros port h3 H3. cbn [map_err]. rewrite vec2 in H3. cbn zeta.
  destruct (N.eqb_spec (u16_from_be_bytes (port !!! 0%fin) (port !!! 1%fin)) 0) as [He|He];
    [done|].
  eexists. split; [by apply (connect_request (hd !!! 1%fin))|].
  by rewrite <-!(assoc_L (++)) in H3.
Qed.

End Protocol.

(** ** What a connection does with the session *)

Section Tunnels.
Context {K : SshKeys} {A : AuthKeys} {L : Libraries}.
Variables (stream : io) (session : SshSession) (options : Socks5ProxyOptions).

(** Since [h0] the server has opened [raw] for one of this session's requests. *)
Definition channel_opened (h0 : list event) (raw : RawChannel) (h : list event) : Prop :=
  since h0 (fun e => exists host port orig orig_port, e = @Answered core_sig
    (ChannelOpenDirectTcpip (Session.handle session) host port orig orig_port) (Ok raw)) h.

(** The conditions under which the proxy opens a channel, reports success and
    relays bytes, in terms of what has happened before. *)
Definition tunnel_event (h0 h : list event) (e : event) : Prop :=
  match e with
  | Issued (ChannelOpenDirectTcpip hd host port _ _) =>
      hd = Session.handle session /\
      exists la sa lr, client_auth (authentication options) la sa /\
        request_bytes lr {| req_host := host; req_port := port; req_command := SOCKS5_CONNECT |} /\
        exchanged h0 (la ++ lr) sa h
  | Issued (IoWriteAll _ data) =>
      data = reply_message Succeeded -> exists raw, channel_opened h0 raw h
  | Issued (CopyBidirectional a b) =>
      a = stream /\ exists raw, b = SshIo (into_raw_stream raw) /\ channel_opened h0 raw h
  | _ => True
  end.

(** Nothing the proxy does while it talks to the client. *)
Definition quiet (e : event) : Prop :=
  match e with
  | Issued (ChannelOpenDirectTcpip _ _ _ _ _) | Issued (CopyBidirectional _ _) => False
  | Issued (IoWriteAll _ data) => data <> reply_message Succeeded
  | _ => True
  end.

Lemma quiet_tunnel_event h0 e : quiet e -> forall h, tunnel_event h0 h e.
Proof. destruct e as [o|o a|q r]; [destruct o|..]; by cbn. Qed.

Lemma emits_read_exact s n ctx op : emits quiet (read_exact s n ctx op).
Proof. unfold read_exact. by emits. Qed.

Lemma emits_write_all s data ctx op :
  data <> reply_message Succeeded -> emits quiet (write_all s data ctx op).
Proof. intros Hd. unfold write_all. by emits. Qed.

Lemma emits_refuse_methods s ctx m : emits quiet (refuse_methods s ctx m).
Proof.
  unfold refuse_methods. apply emits_bind; [by apply emits_write_all|]. by intros [].
Qed.

Lemma emits_check_credentials s u p ctx : emits quiet (check_credentials s u p ctx).
Proof.
  unfold check_credentials. apply emits_bind; [by apply emits_write_all|]. intros [[]|]; [|done].
  apply emits_bind; [apply emits_read_exact|]. intros [hd|]; [|done].
  destruct (negb _); [done|].
  apply emits_bind; [apply emits_read_exact|]. intros [ru|]; [|done].
  apply emits_bind; [apply emits_read_exact|]. intros [pl|]; [|done].
  apply emits_bind; [apply emits_read_exact|]. intros [rp|]; [|done].
  cbn zeta. destruct (_ && _);
    (apply emits_bind; [by apply emits_write_all|]; by intros [[]|]).
Qed.

Lemma emits_authenticate s auth ctx : emits quiet (authenticate s auth ctx).
Proof.
  unfold authenticate. apply emits_bind; [apply emits_read_exact|]. intros [hd|]; [|done].
  destruct (negb _); [done|].
  apply emits_bind; [apply emits_read_exact|]. intros [ms|]; [|done].
  destruct auth; (destruct (negb _); [apply emits_refuse_methods|]).
  - by apply emits_write_all.
  - apply emits_check_credentials.
Qed.

Lemma emits_read_host s atyp ctx : emits quiet (read_host s atyp ctx).
Proof.
  unfold read_host. destruct (Byte.eqb atyp SOCKS5_ATYP_IPV4).
  { apply emits_bind; [apply emits_fmap, emits_read_exact|]. by intros []. }
  destruct (Byte.eqb atyp SOCKS5_ATYP_DOMAIN).
  { apply emits_bind; [apply emits_fmap, emits_read_exact|]. intros [len|]; [|done].
    destruct (Byte.eqb _ _); [done|].
    apply emits_bind; [apply emits_fmap, emits_read_exact|]. by intros []. }
  destruct (Byte.eqb atyp SOCKS5_ATYP_IPV6); [|done].
  apply emits_bind; [apply emits_fmap, emits_read_exact|]. by intros [].
Qed.

Lemma emits_read_connect_request s ctx : emits quiet (read_connect_request s ctx).
Proof.
  unfold read_connect_request.
  apply emits_bind; [apply emits_fmap, emits_read_exact|]. intros [hd|]; [|done].
  destruct (_ || _); [done|].
  apply emits_bind; [apply emits_read_host|]. intros [host|]; [|done].
  apply emits_bind; [apply emits_fmap, emits_read_exact|]. intros [port|]; [|done].
  cbn zeta. by destruct (_ =? 0)%N.
Qed.

Lemma channel_opened_step h0 raw h e : channel_opened h0 raw h -> channel_opened h0 raw (h ++ [e]).
Proof. apply since_app. Qed.

(** From the opened channel on: report success, then relay. *)
Lemma wp_established_tunnel h0 raw ctx hctx h :
  each h0 (tunnel_event h0) h -> channel_opened h0 raw h ->
  wp (F := always (each h0 (tunnel_event h0)))
    (write_reply stream Succeeded hctx;;?
     relay_streams ctx "relay SOCKS5 connection" stream (SshIo (into_raw_stream raw))
       "SOCKS5 relay was cancelled" "SOCKS5 relay failed")
    (fun _ => each h0 (tunnel_event h0)) (each h0 (tunnel_event h0)) h.
Proof.
  intros Hh Hc. eapply wp_mono; [| |eapply (wp_each_under h0 _ (channel_opened h0 raw))].
  - by intros a h' [].
  - done.
  - apply channel_opened_step.
  - apply emits_bind.
    + unfold write_reply, write_all. emits; try done. intros h' Hc' _. by exists raw.
    + intros [[]|]; [|done]. apply emits_relay_streams; try done.
      intros h' Hc'. split; [done|]. by exists raw.
  - done.
  - done.
Qed.

Lemma wp_handle_connection ctx h :
  wp (F := always (each h (tunnel_event h)))
    (handle_connection stream session options ctx)
    (fun _ => each h (tunnel_event h)) (each h (tunnel_event h)) h.
Proof.
  set (J := each h (tunnel_event h)).
  assert (forall B (t : fut B) h', emits quiet t -> J h' ->
    wp (F := always J) t (fun _ => J) J h') as Hq.
  { intros B t h' Ht Hh'. apply wp_each; [|done].
    eapply emits_mono; [|exact Ht]. intros e He h1. by apply quiet_tunnel_event. }
  assert (forall c h', c <> Succeeded -> forall hctx (e : SshError), J h' ->
    wp (F := always J) (_ ← write_reply stream c hctx; mret (Err (T := unit) e)) (fun _ => J) J h') as Hfail.
  { intros c h' Hc hctx e Hh'. apply Hq; [|done]. apply emits_bind; [|done].
    apply emits_write_all. by destruct c. }
  assert (J h) as H0 by apply each_refl.
  unfold handle_connection. apply wp_bind, wp_with_timeout_from_now; [done|]. intros d.
  set (hctx := {| deadline := Some d; cancellation := cancellation ctx |}).
  apply wp_bind. eapply wp_mono; [| |exact (wp_and (always J) any_budget _ _ _ _ _ _
    (Hq _ _ _ (emits_authenticate stream (authentication options) hctx) H0)
    (wp_authenticate stream (authentication options) hctx h))]; [|by intros ? []].
  intros [[]|e] h1 [H1 Hadm]; [|exact H1].
  destruct (Hadm eq_refl) as (la & sa & Hauth & Hex1).
  apply wp_bind. eapply wp_mono; [| |exact (wp_and (always J) any_budget _ _ _ _ _ _
    (Hq _ _ _ (emits_read_connect_request stream hctx) H1)
    (wp_read_connect_request stream hctx h la sa h1 Hex1))]; [|by intros ? []].
  intros [req|e] h2 [H2 Hreq]; [|by apply Hfail].
  destruct Hreq as (lr & Hlr & Hex2).
  destruct (Byte.eqb (req_command req) SOCKS5_CONNECT) eqn:Hcmd; cbn [negb]; cycle 1.
  { apply Hq; [|done]. apply emits_bind; [by apply emits_write_all|]. by intros []. }
  apply byte_eqb_iff in Hcmd.
  unfold open_direct_tcpip_with_context, open_direct_tcpip_from_with_context,
    open_raw_direct_tcpip_with_context, lift.
  apply wp_bind. apply wp_bind. cbn [wp].
  destruct (validate_direct_tcpip _ _ _) as [[]|e]; [|by apply Hfail].
  apply wp_bind, wp_run; [|by apply Hfail].
  set (o := ChannelOpenDirectTcpip (Session.handle session) (req_host req) (req_port req)
              "127.0.0.1" 0).
  assert (J (h2 ++ [@Issued core_sig o])) as H3.
  { apply each_snoc; [done|]. split; [done|]. exists la, sa, lr. split_and!; [done| |done].
    destruct req as [host port cmd]. cbn in Hcmd. by subst cmd. }
  apply wp_map_err, (wp_await (Σ := core_sig) o).
  { split; [done|]. split; [by apply Hfail|]. intros _. by apply Hfail. }
  intros a. assert (J ((h2 ++ [@Issued core_sig o]) ++ [@Answered core_sig o a])) as H4
    by by apply each_snoc.
  destruct a as [raw|e]; [|by apply Hfail]. cbn [map_err wp mret fut_ret].
  apply wp_established_tunnel; [done|].
  apply since_here; [|by eexists _, _, _, _]. apply extends_app. by destruct H2.
Qed.

End Tunnels.

(** ** A client that has sent its bytes

    The total counterpart of [wp] on the client's side of the protocol: while the client's
    bytes are there, nothing waits. *)

Section Feed.
Context {K : SshKeys} {A : AuthKeys} {L : Libraries}.

(** An environment in which [stream]'s bytes are there, [unread] those to come: reads take
    them in order, writes succeed. *)
Record feeds {S : Type} (E : Env S) (stream : io) (unread : S -> list byte) : Prop := {
  feeds_read : forall n (v : vec byte n) rest s, unread s = vec_to_list v ++ rest ->
    replies (IoReadExact stream n) s (fun r s' => r = Ok v /\ unread s' = rest);
  feeds_write : forall data s,
    replies (IoWriteAll stream data) s (fun r s' => r = Ok tt /\ unread s' = unread s)
}.

(** The one in which nothing else ever happens. *)
Fixpoint take_vec (n : nat) (l : list byte) : option (vec byte n * list byte) :=
  match n with
  | 0 => Some ([#], l)
  | Datatypes.S n =>
      match l with
      | [] => None
      | b :: l => '(v, rest) ← take_vec n l; Some (b ::: v, rest)
      end
  end.

Definition feed_poll (o : call) (s : list byte) : list byte * option (call_answer o) :=
  match o return list byte * option (call_answer o) with
  | IoReadExact _ n =>
      match take_vec n s with
      | Some (v, rest) => (rest, Some (Ok v))
      | None => (s, None)
      end
  | IoWriteAll _ _ => (s, Some (Ok tt))
  | _ => (s, None)
  end.

Definition feed_query (q : request) : request_reply q :=
  match q return request_reply q with
  | HandleIsClosed _ => true
  | MpscChannel _ => 0%N
  | SemaphoreNew _ => Some 0%N
  | TcpLocalAddr _ | UnixBind _ => Err (io_invalid_data "no listener")
  | TryAcquire _ => None
  | Spawn _ _ => tt
  end.

Instance feed_env : Env (list byte) := {
  env_poll o _ s := feed_poll o s;
  env_query q s := (s, feed_query q)
}.

Lemma take_vec_app n (v : vec byte n) rest : take_vec n (vec_to_list v ++ rest) = Some (v, rest).
Proof. induction v as [|b n v IH]; cbn; [done|]. by rewrite IH. Qed.

Lemma feed_env_feeds stream : feeds feed_env stream (fun unread => unread).
Proof.
  split.
  - intros n v rest s Hs id. cbn. rewrite Hs, take_vec_app. by eexists _, _.
  - intros data s id. by eexists _, _.
Qed.

End Feed.

Section Conversations.
Context {K : SshKeys} {A : AuthKeys} {L : Libraries} {S : Type} {E : Env S}.
Context (unread : S -> list byte).

(** [t] returns [a] at once, having read exactly [l] and written exactly [s]. *)
Definition converses {T} (t : fut T) (l s : list byte) (a : T) : Prop :=
  forall (w : world S) rest, unread (w_ext w) = l ++ rest -> w_cancelled w = ∅ ->
    settles t w (fun x w' => x = a /\ unread (w_ext w') = rest /\ w_cancelled w' = ∅ /\
      w_now w' = w_now w /\ exchanged (w_log w) l s (w_log w')).

Lemma exchanged_trans h0 l s h l' s' h' :
  exchanged h0 l s h -> exchanged h l' s' h' -> exchanged h0 (l ++ l') (s ++ s') h'.
Proof. intros [H1 H2] [H1' H2']. split; by rewrite (assoc_L (++)), <-?H1, <-?H2. Qed.

Lemma converses_ret {T} (a : T) : converses (mret a) [] [] a.
Proof. intros w rest Hw Hc. apply settles_ret. split_and!; try done. apply exchanged_nil. Qed.

Lemma converses_bind {T U} (t : fut T) (f : T -> fut U) l s l' s' a b :
  converses t l s a -> converses (f a) l' s' b -> converses (t ≫= f) (l ++ l') (s ++ s') b.
Proof.
  intros Ht Hf w rest Hw Hc. rewrite <-(assoc_L (++)) in Hw. apply settles_bind.
  eapply settles_mono; [|exact (Ht w _ Hw Hc)]. intros x w1 (-> & Hw1 & Hc1 & Hn1 & He1).
  eapply settles_mono; [|exact (Hf w1 _ Hw1 Hc1)]. intros y w2 (-> & Hw2 & Hc2 & Hn2 & He2).
  split_and!; [done..|by rewrite Hn2|by eapply exchanged_trans].
Qed.

Lemma converses_map_err {X Y T} (f : X -> Y) (t : fut (result X T)) l s x :
  converses t l s (Ok x) -> converses (map_err f <$> t) l s (Ok x).
Proof.
  intros Ht w rest Hw Hc. apply settles_fmap. eapply settles_mono; [|exact (Ht w rest Hw Hc)].
  intros y w' [-> H]. by split.
Qed.

Lemma not_set c (w : world S) : w_cancelled w = ∅ -> is_set c w = false.
Proof. unfold is_set. intros ->. by apply bool_decide_eq_false, not_elem_of_empty. Qed.

Lemma converses_run {T} ctx op (body : fut (result SshError T)) l s x :
  converses body l s (Ok x) -> converses (run ctx op body) l s (Ok x).
Proof.
  intros Hb w rest Hw Hc. pose proof (toss_clock w) as [Hn Hc'].
  apply settles_run; [by apply not_set|].
  assert (w_log (snd (toss w)) = w_log w) as <- by (unfold toss; by destruct (w_coins w)).
  rewrite <-Hn. eapply settles_mono; [|apply Hb; [by rewrite w_ext_toss|by rewrite Hc']].
  intros y w' [-> H]. by split.
Qed.

Context (stream : io) (Hfeed : feeds E stream unread).

Lemma converses_read_exact n ctx op (v : vec byte n) :
  converses (read_exact stream n ctx op) (vec_to_list v) [] (Ok v).
Proof.
  unfold read_exact. apply converses_run, converses_map_err. intros w rest Hw Hc.
  eapply settles_mono; [|exact (settles_clock _ _ _ (settles_replies_logged (IoReadExact stream n)
    w _ (feeds_read _ _ _ Hfeed n v rest _ Hw)))].
  intros r w' (Hn & Hc' & (-> & Hr) & ->). rewrite Hc'. split_and!; try done.
  split; unfold received, sent; rewrite bind_app; cbn; by rewrite app_nil_r.
Qed.

Lemma converses_write_all data ctx op : converses (write_all stream data ctx op) [] data (Ok tt).
Proof.
  unfold write_all. apply converses_run, converses_map_err. intros w rest Hw Hc.
  eapply settles_mono; [|exact (settles_clock _ _ _ (settles_replies_logged (IoWriteAll stream data)
    w _ (feeds_write _ _ _ Hfeed data _)))].
  intros r w' (Hn & Hc' & (-> & Hr) & ->). rewrite Hc', Hr. split_and!; try done.
  split; unfold received, sent; rewrite bind_app; cbn; by rewrite !app_nil_r.
Qed.

(** Reading a list announced by its length. *)
Lemma announces_list n l : announces n l -> exists v : vec byte (byte_len n), vec_to_list v = l.
Proof.
  unfold announces. intros Hn. rewrite Hn. exists (list_to_vec l). apply vec_to_list_to_vec.
Qed.

Lemma converses_announced n l ctx op :
  announces n l -> exists v, vec_to_list v = l /\
    converses (read_exact stream (byte_len n) ctx op) l [] (Ok v).
Proof.
  intros (v & Hv)%announces_list. exists v. split; [done|]. rewrite <-Hv. apply converses_read_exact.
Qed.

Lemma vec_of_1 {T} (x : T) : exists v : vec T 1, vec_to_list v = [x] /\ v !!! 0%fin = x.
Proof. by exists [#x]. Qed.

Lemma vec_of_2 {T} (x y : T) :
  exists v : vec T 2, vec_to_list v = [x; y] /\ v !!! 0%fin = x /\ v !!! 1%fin = y.
Proof. by exists [#x; y]. Qed.

Lemma vec_of_4 {T} (x y z t : T) :
  exists v : vec T 4, vec_to_list v = [x; y; z; t] /\
    v !!! 0%fin = x /\ v !!! 1%fin = y /\ v !!! 2%fin = z /\ v !!! 3%fin = t.
Proof. by exists [#x; y; z; t]. Qed.

Lemma converses_read_host atyp target host ctx :
  target_bytes atyp target host -> converses (read_host stream atyp ctx) target [] (Ok host).
Proof.
  intros Ht. unfold read_host. destruct Ht as [v|n bytes host Hn Hne Hu|v]; cbn [Byte.eqb].
  - rewrite <-(app_nil_r (vec_to_list v)).
    eapply (converses_bind _ _ _ [] _ []); [apply converses_map_err, (converses_read_exact 4)|apply converses_ret].
  - destruct (vec_of_1 n) as (len & Hl & Hlen). change (n :: bytes) with ([n] ++ bytes).
    rewrite <-Hl. eapply (converses_bind _ _ _ [] _ []); [apply converses_map_err, (converses_read_exact 1)|].
    cbn beta iota. rewrite Hlen.
    destruct (Byte.eqb n x00) eqn:Hz.
    { apply byte_eqb_iff in Hz as ->. unfold announces in Hn. by destruct bytes. }
    destruct (converses_announced n bytes ctx "read SOCKS5 domain target" Hn) as (v & Hv & Hr).
    rewrite <-(app_nil_r bytes).
    eapply (converses_bind _ _ _ [] _ []); [apply converses_map_err, Hr|]. cbn beta iota. rewrite Hv, Hu. apply converses_ret.
  - rewrite <-(app_nil_r (vec_to_list v)).
    eapply (converses_bind _ _ _ [] _ []); [apply converses_map_err, (converses_read_exact 16)|apply converses_ret].
Qed.

Lemma converses_read_connect_request l req ctx :
  request_bytes l req -> converses (read_connect_request stream ctx) l [] (Ok req).
Proof.
  intros [cmd atyp target host hi lo Ht Hp]. unfold read_connect_request.
  destruct (vec_of_4 SOCKS5_VERSION cmd x00 atyp) as (hd & Hl & H0 & H1 & H2 & H3).
  change (SOCKS5_VERSION :: cmd :: x00 :: atyp :: target)
    with ([SOCKS5_VERSION; cmd; x00; atyp] ++ target).
  rewrite <-Hl, <-(assoc_L (++)).
  eapply (converses_bind _ _ _ [] _ []); [apply converses_map_err, (converses_read_exact 4)|].
  cbn beta iota. rewrite H0, H1, H2, H3. cbn [negb orb Byte.eqb].
  eapply (converses_bind _ _ _ [] _ []); [by apply converses_read_host|].
  destruct (vec_of_2 hi lo) as (v & Hv & Hhi & Hlo).
  rewrite <-(app_nil_r [hi; lo]), <-Hv.
  eapply (converses_bind _ _ _ [] _ []); [apply converses_map_err, (converses_read_exact 2)|].
  cbn beta iota. rewrite Hhi, Hlo. cbn zeta.
  apply N.eqb_neq in Hp. rewrite Hp. apply converses_ret.
Qed.

Lemma converses_bind_write {U} data ctx op (f : result SshError unit -> fut U) l s b :
  converses (f (Ok tt)) l s b -> converses (write_all stream data ctx op ≫= f) l (data ++ s) b.
Proof. intros Hf. by eapply (converses_bind _ _ []); [apply converses_write_all|]. Qed.

Lemma converses_bind_read {U} n ctx op (f : result SshError (vec byte n) -> fut U) v l0 l s b :
  vec_to_list v = l0 -> converses (f (Ok v)) l s b ->
  converses (read_exact stream n ctx op ≫= f) (l0 ++ l) s b.
Proof. intros <- Hf. by eapply (converses_bind _ _ _ []); [apply converses_read_exact|]. Qed.

Lemma converses_bind_read_last {U} n ctx op (f : result SshError (vec byte n) -> fut U)
    v l0 s b :
  vec_to_list v = l0 -> converses (f (Ok v)) [] s b ->
  converses (read_exact stream n ctx op ≫= f) l0 s b.
Proof. intros Hv Hf. rewrite <-(app_nil_r l0). by eapply converses_bind_read. Qed.

Lemma converses_check_credentials u p ctx nu np :
  announces nu (as_bytes u) -> announces np (as_bytes p) ->
  converses (check_credentials stream u p ctx)
    ((SOCKS5_USER_PASSWORD_VERSION :: nu :: as_bytes u) ++ np :: as_bytes p)
    [SOCKS5_VERSION; SOCKS5_USER_PASSWORD; SOCKS5_USER_PASSWORD_VERSION; x00] (Ok tt).
Proof.
  intros Hu Hp. unfold check_credentials.
  apply (converses_bind_write [SOCKS5_VERSION; SOCKS5_USER_PASSWORD] _ _ _ _
    [SOCKS5_USER_PASSWORD_VERSION; x00]).
  destruct (vec_of_2 SOCKS5_USER_PASSWORD_VERSION nu) as (hd & Hl & H0 & H1).
  destruct (vec_of_1 np) as (pl & Hpl & Hp0).
  change ((SOCKS5_USER_PASSWORD_VERSION :: nu :: as_bytes u) ++ np :: as_bytes p)
    with ([SOCKS5_USER_PASSWORD_VERSION; nu] ++ as_bytes u ++ [np] ++ as_bytes p).
  apply (converses_bind_read _ _ _ _ hd); [done|]. rewrite H0, H1. cbn [Byte.eqb negb].
  destruct (announces_list _ _ Hu) as (ru & Hru). destruct (announces_list _ _ Hp) as (rp & Hrp).
  apply (converses_bind_read _ _ _ _ ru); [done|].
  apply (converses_bind_read _ _ _ _ pl); [done|]. rewrite Hp0.
  apply (converses_bind_read_last _ _ _ _ rp); [done|].
  rewrite Hru, Hrp. unfold bytes_eqb. rewrite !bool_decide_eq_true_2 by done. cbn [andb].
  rewrite <-(app_nil_r [SOCKS5_USER_PASSWORD_VERSION; x00]).
  apply converses_bind_write, converses_ret.
Qed.

Lemma converses_authenticate auth l s ctx :
  client_auth auth l s -> converses (authenticate stream auth ctx) l s (Ok tt).
Proof.
  intros Ha. unfold authenticate.
  assert (forall n methods (f : result SshError (vec byte (byte_len n)) -> fut (result SshError unit)) l s,
    announces n methods ->
    (forall v, vec_to_list v = methods -> converses (f (Ok v)) l s (Ok tt)) ->
    converses (read_exact stream (byte_len n) ctx "read SOCKS5 methods" ≫= f) (methods ++ l) s (Ok tt))
    as Hm.
  { intros n methods f l' s' (v & Hv)%announces_list Hf.
    apply (converses_bind_read _ _ _ _ v); [done|]. by apply Hf. }
  destruct Ha as [n methods Hn Hin|u p n methods nu np Hn Hin Hu Hp];
    destruct (vec_of_2 SOCKS5_VERSION n) as (hd & Hl & H0 & H1).
  - change (SOCKS5_VERSION :: n :: methods) with ([SOCKS5_VERSION; n] ++ methods).
    rewrite <-(app_nil_r methods). apply (converses_bind_read _ _ _ _ hd); [done|]. rewrite H0, H1.
    cbn [Byte.eqb negb]. apply Hm; [done|]. intros v Hv. rewrite Hv.
    rewrite (proj2 (contains_byte_iff _ _) Hin). cbn [negb].
    apply converses_write_all.
  - change ((SOCKS5_VERSION :: n :: methods) ++ ?x) with ([SOCKS5_VERSION; n] ++ methods ++ x).
    apply (converses_bind_read _ _ _ _ hd); [done|]. rewrite H0, H1.
    cbn [Byte.eqb negb]. apply Hm; [done|]. intros v Hv. rewrite Hv.
    rewrite (proj2 (contains_byte_iff _ _) Hin). cbn [negb].
    by apply converses_check_credentials.
Qed.

End Conversations.

(** ** The accept loop *)

Section Serving.
Context {K : SshKeys} {A : AuthKeys} {L : Libraries}.
Variables (p : Socks5Proxy) (permits : N) (ctx : OperationContext).

Definition spawns (e : event) : Prop :=
  match e with Asked (Spawn _ _) _ => True | _ => False end.

(** A task is spawned only right after a permit was acquired for it. *)
Definition permitted (h : list event) (e : event) : Prop :=
  spawns e -> exists t permit,
    e = @Asked core_sig (Spawn connection_task t) tt /\
    list.last h = Some (@Asked core_sig (TryAcquire permits) (Some permit)) /\
    task_permit t = permit /\ task_session t = session p /\ task_options t = options p /\
    task_context t = ctx.

(** Number of connections accepted. *)
Definition accepts (e : event) : bool :=
  match e with
  | Answered o a =>
      match o return answer o -> bool with
      | TcpAccept _ => fun a => is_ok a
      | _ => fun _ => false
      end a
  | _ => false
  end.

Definition connections (h : list event) : nat := length (List.filter accepts h).

Lemma connections_snoc h e : connections (h ++ [e]) = connections h + (if accepts e then 1 else 0).
Proof.
  unfold connections. rewrite List.filter_app, length_app. cbn. by destruct (accepts e).
Qed.

Lemma wp_serve fuel h0 total h :
  each h0 permitted h -> total <= connections h + fuel ->
  wp (F := {| panicked _ := False;
              exhausted h' := each h0 permitted h' /\ total <= connections h' |})
    (serve fuel p permits ctx)
    (fun r h' => each h0 permitted h' /\ r <> Ok tt) (each h0 permitted) h.
Proof.
  revert h. induction fuel as [|fuel IH]; intros h Hh Ht; cbn [serve].
  { split; [done|lia]. }
  apply wp_bind, wp_run; [|by split].
  assert (each h0 permitted (h ++ [@Issued core_sig (TcpAccept (listener p))])) as H1
    by (apply each_snoc; [done|by intros []]).
  apply wp_map_err, (wp_await (Σ := core_sig) (TcpAccept _)).
  { split; [done|]. split; [by split|]. intros _. by split. }
  intros a.
  assert (each h0 permitted ((h ++ [@Issued core_sig (TcpAccept (listener p))]) ++
    [@Answered core_sig (TcpAccept (listener p)) a])) as H2
    by (apply each_snoc; [done|by intros []]).
  destruct a as [[stream peer]|e]; [|by split]. cbn [map_err].
  set (h2 := (h ++ _) ++ _) in *.
  assert (connections h2 = S (connections h)) as Hc2.
  { unfold h2. rewrite !connections_snoc. cbn. lia. }
  apply wp_bind, (wp_ask (Σ := core_sig) (TryAcquire permits)). intros [permit|].
  - apply wp_bind, (wp_ask (Σ := core_sig) (Spawn connection_task _)). intros [].
    apply IH.
    + apply each_snoc; [apply each_snoc; [done|by intros []]|]. intros _. eexists _, permit.
      rewrite last_snoc. by split_and!.
    + rewrite !connections_snoc. cbn. lia.
  - apply IH; [apply each_snoc; [done|by intros []]|]. rewrite connections_snoc. cbn. lia.
Qed.

Lemma guarded_serve fuel n : guarded ctx n (serve fuel p permits ctx).
Proof.
  revert n. induction fuel as [|fuel IH]; intros n; cbn [serve]; [done|].
  apply guarded_bind; [by apply guarded_run|]. intros [[s a]|e] m _; [|done].
  apply guarded_bind; [exact (fun _ => I)|]. intros [permit|] m' _; [|apply IH].
  apply guarded_bind; [exact (fun _ => I)|]. intros u m'' _. apply IH.
Qed.

End Serving.

(** ** Options *)

(** The options some client can satisfy. *)
Definition usable_options (o : Socks5ProxyOptions) : Prop :=
  (0 < max_connections o)%N /\ (0 < handshake_timeout o)%N /\
  match authentication o with
  | NoAuth => True
  | UsernamePassword u p =>
      (0 < str_len u <= u8_max)%N /\ (str_len (as_str p) <= u8_max)%N
  end.

Lemma str_is_empty_len s : str_is_empty s = (str_len s =? 0)%N.
Proof. by destruct s. Qed.

Lemma validate_usable o : validate o = Ok tt <-> usable_options o.
Proof.
  unfold validate, usable_options.
  rewrite !ensure_bind_Ok, is_zero_false, negb_true_iff, N.eqb_neq.
  destruct (authentication o) as [|u p].
  - intuition lia.
  - rewrite ensure_bind_Ok, ensure_Ok, !negb_true_iff, orb_false_iff, str_is_empty_len,
      !N.ltb_ge, N.eqb_neq. intuition lia.
Qed.

Lemma length_as_bytes s : length (as_bytes s) = String.length s.
Proof.
  unfold as_bytes, list_byte_of_string. rewrite length_map.
  induction s as [|a s IH]; [done|]. cbn. by rewrite IH.
Qed.

Lemma announces_short s : (str_len s <= u8_max)%N -> exists n, announces n (as_bytes s).
Proof.
  intros Hs. destruct (Byte.of_N (str_len s)) as [n|] eqn:Hn.
  - exists n. unfold announces, byte_len. apply Byte.to_of_N in Hn. rewrite Hn, length_as_bytes.
    unfold str_len. lia.
  - apply Byte.of_N_None_iff in Hn. unfold u8_max in Hs. lia.
Qed.

(** ** Properties *)

Section Properties.
Context {K : SshKeys} {A : AuthKeys} {L : Libraries} {S : Type} {E : Env S}.
#[local] Existing Instance any_budget.

(** C8: in every execution of a proxy connection, under any client, server and schedule:
    a channel is requested only for a client admitted under the configured
    authentication that has then sent, byte for byte, a well-formed CONNECT request for
    exactly that host and port; success is reported, and bytes are relayed, only
    between that client and a channel the server has opened for it. *)
Theorem socks_tunnels_only_admitted_requests stream session options ctx turns (w : world S) :
  exists l, w_log (fst (exec turns (handle_connection stream session options ctx) w)) =
      w_log w ++ l /\
    forall l1 e l2, l = l1 ++ e :: l2 ->
      tunnel_event stream session options (w_log w) (w_log w ++ l1) e.
Proof.
  apply each_elim, (exec_always (each (w_log w) (tunnel_event stream session options (w_log w)))).
  apply wp_handle_connection.
Qed.

(** C20: the clients [authenticate] admits are exactly those the protocol describes: an
    admitted client has sent a complete dialogue of the configured method (with exactly
    the configured credentials) and been answered as prescribed; and a client that sends
    such a dialogue is admitted at once and answered as prescribed, none of its further
    bytes being consumed, in any environment in which its bytes are there. *)
Theorem socks_authentication_exact stream auth ctx :
  (forall turns (w w' : world S),
     exec turns (authenticate stream auth ctx) w = (w', Ret (Ok tt)) ->
     exists l s, client_auth auth l s /\ exchanged (w_log w) l s (w_log w')) /\
  (forall unread l s, feeds E stream unread -> client_auth auth l s ->
     converses unread (authenticate stream auth ctx) l s (Ok tt)).
Proof.
  split; [|intros unread l s Hf; by apply converses_authenticate]. intros turns w w' He.
  pose proof (wp_adequacy turns _ _ _ w (wp_authenticate stream auth ctx _)) as Hw.
  rewrite He in Hw. exact (proj1 Hw eq_refl).
Qed.

(** C21: [read_connect_request] reads exactly the requests of the protocol: a request it
    returns is spelled, byte for byte, by what the client sent, and every well-formed
    request whose bytes are there is read back at once, none of the bytes after it being
    consumed. *)
Theorem socks_request_exact stream ctx :
  (forall turns (w w' : world S) req,
     exec turns (read_connect_request stream ctx) w = (w', Ret (Ok req)) ->
     exists l, request_bytes l req /\ exchanged (w_log w) l [] (w_log w')) /\
  (forall unread l req, feeds E stream unread -> request_bytes l req ->
     converses unread (read_connect_request stream ctx) l [] (Ok req)).
Proof.
  split; [|intros unread l req Hf; by apply converses_read_connect_request]. intros turns w w' req He.
  pose proof (wp_adequacy turns _ _ _ w
    (wp_read_connect_request stream ctx (w_log w) [] [] _ (exchanged_nil _))) as Hw.
  rewrite He in Hw. exact (proj1 Hw).
Qed.

(** [validate] accepts exactly the options with positive limits and, if credentials
    are required, a user name of 1 to 255 bytes and a password of at most 255; under
    accepted options some client dialogue is admitted. *)
Lemma socks_options_valid o :
  (validate o = Ok tt <-> usable_options o) /\
  (validate o = Ok tt -> exists l s, client_auth (authentication o) l s).
Proof.
  split; [apply validate_usable|]. intros (_ & _ & Ha)%validate_usable.
  destruct (authentication o) as [|u p].
  - exists [SOCKS5_VERSION; x01; SOCKS5_NO_AUTH], [SOCKS5_VERSION; SOCKS5_NO_AUTH].
    constructor; [done|]. by constructor.
  - destruct Ha as [[_ Hu] Hp].
    destruct (announces_short _ Hu) as [nu Hnu]. destruct (announces_short _ Hp) as [np Hnp].
    eexists _, _. eapply (auth_password u p x01 [SOCKS5_USER_PASSWORD]); try done.
    by constructor.
Qed.

(** The accept loop never ends by itself: it returns only errors, [fuel] iterations
    suffice unless that many connections were accepted, and it spawns a connection only
    with a permit it has just acquired for it. *)
Lemma socks_serve_permits fuel p permits ctx turns (w w' : world S) t' :
  exec turns (serve fuel p permits ctx) w = (w', t') ->
  (exists l, w_log w' = w_log w ++ l /\
     forall l1 e l2, l = l1 ++ e :: l2 -> permitted p permits ctx (w_log w ++ l1) e) /\
  t' <> Ret (Ok tt) /\
  (t' = OutOfFuel -> connections (w_log w) + fuel <= connections (w_log w')).
Proof.
  intros He.
  pose (F := {| panicked _ := False;
                exhausted h' := each (w_log w) (permitted p permits ctx) h' /\
                  connections (w_log w) + fuel <= connections h' |}).
  destruct (wp_adequacy (F := F) turns _ _ _ w
    (wp_serve p permits ctx fuel (w_log w) (connections (w_log w) + fuel) (w_log w)
       (each_refl _ _) (le_n _))) as [Hr Hp].
  rewrite He in Hr, Hp. cbn [fst snd] in *.
  split; [|split].
  - apply each_elim. destruct t'; first [exact (proj1 Hr)|exact (Hp eq_refl)|by destruct Hr].
  - intros ->. by destruct Hr.
  - intros ->. apply Hr.
Qed.

(** The accept loop is over once its context is cancelled or past its deadline. *)
Lemma socks_serve_stops fuel p permits ctx turns (w : world S) :
  cancellation ctx ∈ w_cancelled w ∪ all_cancelled turns \/
  (exists d, deadline ctx = Some d /\ (d <= w_now w + total_advance turns)%N) ->
  is_pending (snd (exec turns (serve fuel p permits ctx) w)) = false.
Proof. apply exec_guarded_stops, guarded_serve. Qed.

End Properties.
