(* ===== verification/SocksService.v ===== *)
(** * SocksService: a SOCKS5 client that speaks the protocol is served
    ([handle_connection] of [src/core/socks5.rs]).

    [Socks5] shows what a connection can only do; here is what it does do.  The client's
    bytes are there, the SSH server answers requests for channels and the relay between
    client and channel ends: [handle_connection] then returns, and what it returns and
    sends is a function of the request. *)

From S2P Require Export Socks5.

Section Service.
Context {K : SshKeys} {A : AuthKeys} {L : Libraries} {S : Type} {E : Env S}.
Variables (stream : io) (session : SshSession) (options : Socks5ProxyOptions).
Variables (unread : S -> list byte).

(** The server's answer to a request for a channel, and how a relay over it ends. *)
Variables (opened : string -> N -> result ForeignError RawChannel)
  (copied : RawChannel -> result ForeignError (N * N)).

(** The world around the connection. *)
Record serves_tunnels : Prop := {
  st_feeds : feeds E stream unread;
  st_open : forall host port s,
    replies (ChannelOpenDirectTcpip (Session.handle session) host port "127.0.0.1" 0) s
      (fun r s' => r = opened host port /\ unread s' = unread s);
  st_copy : forall raw s, replies (CopyBidirectional stream (SshIo (into_raw_stream raw))) s
      (fun r _ => r = copied raw)
}.

(** ** The service

    What a request is answered, and what is made of the connection. *)
Definition service (req : ConnectRequest) : result SshError unit * ReplyCode :=
  if negb (Byte.eqb (req_command req) SOCKS5_CONNECT) then (Ok tt, CommandNotSupported)
  else if str_is_empty (trim (req_host req)) then
    (Err (SshError.configuration "direct-tcpip target host must not be empty"), GeneralFailure)
  else
    match opened (req_host req) (req_port req) with
    | Err e =>
        (Err (SshError.with_operation "open direct-tcpip channel"
                (source_error ErrorKind.Channel e)), GeneralFailure)
    | Ok raw =>
        (match copied raw with
         | Ok _ => Ok tt
         | Err e => Err (SshError.with_operation "relay SOCKS5 connection"
                           (message_error ErrorKind.Channel "SOCKS5 relay failed" e))
         end, Succeeded)
    end.

Hypothesis Htunnels : serves_tunnels.

Lemma validate_request host port :
  port <> 0%N ->
  validate_direct_tcpip host port "127.0.0.1" =
    if str_is_empty (trim host)
    then Err (SshError.configuration "direct-tcpip target host must not be empty") else Ok tt.
Proof.
  intros Hp. unfold validate_direct_tcpip. destruct (str_is_empty (trim host)); [done|].
  cbn [negb ensure]. apply N.eqb_neq in Hp. by rewrite Hp.
Qed.

(** Nothing is sent or received on the stream while a channel is opened. *)
Lemma settles_open_tunnel host port ctx (w : world S) l s h0
    (Q : result SshError SshChannel -> world S -> Prop) :
  w_cancelled w = ∅ -> exchanged h0 l s (w_log w) -> port <> 0%N ->
  (forall w', w_cancelled w' = ∅ -> exchanged h0 l s (w_log w') ->
     Q (if str_is_empty (trim host)
        then Err (SshError.configuration "direct-tcpip target host must not be empty")
        else match opened host port with
             | Ok raw => Ok (from_inner raw ctx (Config.operation_timeout (config session)))
             | Err e => Err (SshError.with_operation "open direct-tcpip channel"
                               (source_error ErrorKind.Channel e))
             end) w') ->
  settles (open_direct_tcpip_with_context session host port ctx) w Q.
Proof.
  intros Hc He Hp HQ. unfold open_direct_tcpip_with_context, open_direct_tcpip_from_with_context.
  rewrite validate_request by done. destruct (str_is_empty (trim host)).
  { apply settles_bind, settles_lift, settles_ret. by apply HQ. }
  apply settles_bind, settles_lift, settles_bind.
  apply settles_run; [by apply not_set|]. apply settles_fmap.
  pose proof (toss_clock w) as [_ Hc'].
  assert (w_log (snd (toss w)) = w_log w) as Hlog by (unfold toss; by destruct (w_coins w)).
  eapply settles_mono; [|exact (settles_clock _ _ _ (settles_replies_logged
    (ChannelOpenDirectTcpip _ _ _ _ _) _ _ (st_open Htunnels host port _)))].
  intros r w' (_ & Hc2 & [-> _] & Hl). rewrite Hc' in Hc2.
  assert (exchanged h0 l s (w_log w')) as He'.
  { rewrite Hl, Hlog. destruct He as [Hr Hs]. split; unfold received, sent in *;
      rewrite bind_app; cbn; by rewrite app_nil_r. }
  specialize (HQ w' ltac:(congruence) He').
  destruct (opened host port) as [raw|e]; by apply settles_ret.
Qed.

Lemma settles_relay_tunnel raw ctx (w : world S) l s h0 :
  w_cancelled w = ∅ -> exchanged h0 l s (w_log w) ->
  settles (relay_streams ctx "relay SOCKS5 connection" stream (SshIo (into_raw_stream raw))
             "SOCKS5 relay was cancelled" "SOCKS5 relay failed") w
    (fun r w' => r = match copied raw with
                     | Ok _ => Ok tt
                     | Err e => Err (SshError.with_operation "relay SOCKS5 connection"
                                       (message_error ErrorKind.Channel "SOCKS5 relay failed" e))
                     end /\ exchanged h0 l s (w_log w')).
Proof.
  intros Hc He. assert (forall w : world S, w_log (snd (toss w)) = w_log w) as Hlog
    by (intros w'; unfold toss; by destruct (w_coins w')).
  pose proof (toss_clock w) as [_ Hc1].
  apply settles_run; [by apply not_set|]. apply settles_scope; [apply not_set; congruence|].
  eapply settles_mono; [|exact (settles_replies_logged (CopyBidirectional _ _) _ _
    (st_copy Htunnels raw _))].
  intros r w' [-> Hl]. rewrite !Hlog in Hl. apply settles_ret. split.
  - by destruct (copied raw).
  - rewrite Hl. destruct He as [Hr Hs]. split; unfold received, sent in *;
      rewrite bind_app; cbn; by rewrite app_nil_r.
Qed.

(** The reply, and the end of the connection. *)
Lemma settles_reply {T} code ctx (f : result SshError unit -> fut T) (w : world S) l s h0 rest Q :
  unread (w_ext w) = rest -> w_cancelled w = ∅ -> exchanged h0 l s (w_log w) ->
  (forall w', w_cancelled w' = ∅ -> exchanged h0 l (s ++ reply_message code) (w_log w') ->
     settles (f (Ok tt)) w' Q) ->
  settles (write_reply stream code ctx ≫= f) w Q.
Proof.
  intros Hw Hc He HQ. apply settles_bind. eapply settles_mono;
    [|exact (converses_write_all unread stream (st_feeds Htunnels) _ _ _ w rest Hw Hc)].
  intros r w' (-> & _ & Hc' & _ & He'). apply HQ; [done|].
  rewrite <-(app_nil_r l). by eapply exchanged_trans.
Qed.

Lemma settles_handle_connection ctx (w : world S) l s lr req rest :
  client_auth (authentication options) l s -> request_bytes lr req ->
  unread (w_ext w) = l ++ lr ++ rest -> w_cancelled w = ∅ ->
  (w_now w + handshake_timeout options <= INSTANT_MAX)%N ->
  settles (handle_connection stream session options ctx) w (fun r w' =>
    r = fst (service req) /\
    exchanged (w_log w) (l ++ lr) (s ++ reply_message (snd (service req))) (w_log w')).
Proof.
  intros Ha Hr Hw Hc Hn. pose proof (st_feeds Htunnels) as Hfeed.
  apply settles_bind, settles_with_timeout_from_now; [exact Hn|]. intros d _.
  apply settles_bind. eapply settles_mono;
    [|exact (converses_authenticate unread stream Hfeed _ _ _ _ Ha w _ Hw Hc)].
  intros x w1 (-> & Hw1 & Hc1 & _ & He1). apply settles_bind. eapply settles_mono;
    [|exact (converses_read_connect_request unread stream Hfeed _ _ _ Hr w1 _ Hw1 Hc1)].
  intros y w2 (-> & Hw2 & Hc2 & _ & He2).
  pose proof (exchanged_trans _ _ _ _ _ _ _ He1 He2) as He. rewrite app_nil_r in He.
  assert (req_port req <> 0%N) as Hp by (by destruct Hr). clear He1 He2 Hr.
  unfold service. destruct (Byte.eqb (req_command req) SOCKS5_CONNECT); cbn [negb]; cycle 1.
  { eapply settles_reply; [done..|]. intros w3 _ He3. by apply settles_ret. }
  apply settles_bind. eapply settles_open_tunnel; [done..|]. intros w3 Hc3 He3.
  destruct (str_is_empty (trim (req_host req))).
  { eapply settles_reply; [done..|]. intros w4 _ He4. by apply settles_ret. }
  destruct (opened (req_host req) (req_port req)) as [raw|e]; cycle 1.
  { eapply settles_reply; [done..|]. intros w4 _ He4. by apply settles_ret. }
  eapply settles_reply; [done..|]. intros w4 Hc4 He4. by apply settles_relay_tunnel.
Qed.

End Service.

(** ** Properties *)

Section Properties.
Context {K : SshKeys} {A : AuthKeys} {L : Libraries} {S : Type} {E : Env S}.

(** C9: a client that speaks the protocol is served: once it has sent a dialogue that admits
    it and a well-formed request, and if the SSH server answers the request for a channel
    at once, the relayed copy ends at once and nothing is cancelled (nor the handshake timeout beyond what
    the clock represents), its connection returns, having read exactly these bytes and written exactly the
    prescribed method and authentication replies followed by one reply to the request:
    success if and only if the request is a CONNECT to a non-blank host to which the
    server opened a channel (then the result is the relay's own), command not supported
    for the other commands, general failure with the error otherwise. *)
Theorem socks_clients_served stream session options unread opened copied ctx (w : world S)
    l s lr req rest :
  serves_tunnels stream session unread opened copied ->
  client_auth (authentication options) l s -> request_bytes lr req ->
  unread (w_ext w) = l ++ lr ++ rest -> w_cancelled w = ∅ ->
  (w_now w + handshake_timeout options <= INSTANT_MAX)%N ->
  exists w',
    poll (handle_connection stream session options ctx) w =
      (w', Ret (fst (service opened copied req))) /\
    exchanged (w_log w) (l ++ lr) (s ++ reply_message (snd (service opened copied req))) (w_log w').
Proof.
  intros Ht Ha Hr Hw Hc Hn.
  destruct (settles_handle_connection stream session options unread opened copied Ht ctx w
    l s lr req rest Ha Hr Hw Hc Hn) as (r & w' & Hp & -> & He).
  by exists w'.
Qed.

End Properties.
