(* ===== verification/Socks5Pool.v ===== *)
(** * Socks5Pool: the proxy's accept loop together with the connections it spawns.

    The environment is refined: [tokio]'s semaphore and the tasks that hold its
    permits are given a state, everything else stays arbitrary. *)

From S2P Require Export Socks5.

Section Pool.
Context {K : SshKeys} {A : AuthKeys} {L : Libraries} {SL : SemaphoreLib}.
Context {S0 : Type} {E0 : Env S0}.

(** ** The semaphore and the spawned tasks

    [spawned] tasks each took over the permit acquired before them; [ended] of
    them are over and have dropped it. *)
Record pool := {
  semaphore : option Sem;
  spawned : N;
  ended : N;
  others : S0
}.

Definition running_tasks (s : pool) : N := spawned s - ended s.

Definition with_others (s0 : S0) (s : pool) : pool :=
  {| semaphore := semaphore s; spawned := spawned s; ended := ended s; others := s0 |}.

Definition with_semaphore (sem : Sem) (s : pool) : pool :=
  {| semaphore := Some sem; spawned := spawned s; ended := ended s; others := others s |}.

(** There is one semaphore; its name is 0. *)
Definition pool_query (q : request) (s : pool) : pool * request_reply q :=
  match q return pool * request_reply q with
  | SemaphoreNew n =>
      match semaphore s, sem_new n with
      | None, Some sem => (with_semaphore sem s, Some 0%N)
      | _, _ => (s, None)
      end
  | TryAcquire _ =>
      match semaphore s ≫= sem_try_acquire with
      | Some sem => (with_semaphore sem s, Some 0%N)
      | None => (s, None)
      end
  | Spawn _ _ =>
      ({| semaphore := semaphore s; spawned := spawned s + 1; ended := ended s;
          others := others s |}, tt)
  | q => let '(s0, r) := @env_query core_sig S0 E0 q (others s) in (with_others s0 s, r)
  end.

#[export] Instance pool_env : Env pool := {|
  env_poll := fun (o : @op core_sig) n s =>
    let '(s0, a) := @env_poll core_sig S0 E0 o n (others s) in (with_others s0 s, a);
  env_query := fun (q : @query core_sig) s => pool_query q s
|}.

(** A running task ends and drops its permit. *)
Definition task_ends (s : pool) : pool :=
  match semaphore s with
  | Some sem =>
      if (ended s <? spawned s)%N
      then {| semaphore := Some (sem_release sem); spawned := spawned s;
              ended := ended s + 1; others := others s |}
      else s
  | None => s
  end.

(** Between two polls of the accept loop any number of its tasks end, and the
    rest of the world does as it likes. *)
Inductive meanwhile : pool -> pool -> Prop :=
| mw_none s s0 : meanwhile s (with_others s0 s)
| mw_ends s s' : meanwhile s s' -> meanwhile s (task_ends s').

(** ** Accounting *)

Definition acquires (e : event) : bool :=
  match e with
  | Asked q r =>
      match q return reply q -> bool with
      | TryAcquire _ => fun r => is_some r
      | _ => fun _ => false
      end r
  | _ => false
  end.

Definition spawns_task (e : event) : bool :=
  match e with Asked (Spawn _ _) _ => true | _ => false end.

Definition occurs (p : event -> bool) (h : list event) : N :=
  N.of_nat (length (List.filter p h)).

Lemma occurs_snoc p h e : occurs p (h ++ [e]) = (occurs p h + if p e then 1 else 0)%N.
Proof.
  unfold occurs. rewrite List.filter_app, length_app. cbn. destruct (p e); cbn; lia.
Qed.

Context (limit : N).

(** The only semaphore asked for has [limit] permits. *)
Definition creates_limit (e : event) : Prop :=
  match e with Asked (SemaphoreNew n) _ => n = limit | _ => True end.

(** Permits: the available ones, and those acquired and not yet dropped. *)
Definition pool_accounts (s : pool) (h : list event) : Prop :=
  spawned s = occurs spawns_task h /\ (ended s <= spawned s)%N /\
  match semaphore s with
  | Some sem => Forall creates_limit h ->
      (sem_available sem + occurs acquires h)%N = (limit + ended s)%N
  | None => occurs acquires h = 0%N /\ ended s = 0%N
  end.

Lemma pool_accounts_others s0 s h : pool_accounts s h -> pool_accounts (with_others s0 s) h.
Proof. done. Qed.

(** Events that are neither an acquired permit nor a new task. *)
Lemma pool_accounts_snoc s h e :
  acquires e = false -> spawns_task e = false ->
  pool_accounts s h -> pool_accounts s (h ++ [e]).
Proof.
  intros Ha Hs (H1 & H2 & H3). unfold pool_accounts.
  rewrite !occurs_snoc, Ha, Hs, !N.add_0_r. split_and!; [done|done|].
  destruct (semaphore s); [|done]. intros [Hf _]%Forall_app. by apply H3.
Qed.

Lemma pool_preserves : preserves (E := pool_env) pool_accounts.
Proof.
  split.
  - intros o s h. by apply pool_accounts_snoc.
  - intros o n s h Hs. cbn. destruct (env_poll o n (others s)) as [s0 [a|]]; [|done].
    by apply pool_accounts_snoc.
  - intros q s h Hs. destruct q; cbn [env_query pool_env pool_query];
      try (destruct (env_query _ (others s)) as [s0 r]; by apply pool_accounts_snoc).
    + destruct Hs as (H1 & H2 & H3). destruct (semaphore s) as [sem|] eqn:Hsem.
      { apply pool_accounts_snoc; [done..|]. split_and!; [done|done|by rewrite Hsem]. }
      destruct (sem_new permits) as [sem|] eqn:Hn.
      * unfold pool_accounts. cbn. rewrite !occurs_snoc, !N.add_0_r.
        destruct H3 as [-> ->]. split_and!; [done|lia|].
        intros [_ Hl]%Forall_app. apply Forall_cons_1 in Hl as [Hl _]. cbn in Hl.
        rewrite (sem_new_available _ _ Hn). lia.
      * apply pool_accounts_snoc; [done..|]. split_and!; [done|done|by rewrite Hsem].
    + destruct (semaphore s) as [sem|] eqn:Hsem; cbn [mbind option_bind];
        [|by apply pool_accounts_snoc].
      destruct (sem_try_acquire sem) as [sem'|] eqn:Ht; [|by apply pool_accounts_snoc].
      destruct Hs as (H1 & H2 & H3). rewrite Hsem in H3. unfold pool_accounts. cbn.
      rewrite !occurs_snoc, !N.add_0_r. cbn. split_and!; [done|done|].
      intros [Hf _]%Forall_app. apply sem_try_acquire_Some in Ht. specialize (H3 Hf). lia.
    + destruct Hs as (H1 & H2 & H3). unfold pool_accounts. cbn. rewrite !occurs_snoc. cbn.
      rewrite N.add_0_r. split_and!; [lia|lia|]. destruct (semaphore s); [|done].
      intros [Hf _]%Forall_app. by apply H3.
Qed.

Lemma task_ends_accounts s h : pool_accounts s h -> pool_accounts (task_ends s) h.
Proof.
  intros (H1 & H2 & H3). unfold task_ends. destruct (semaphore s) as [sem|] eqn:Hsem.
  - destruct (N.ltb_spec (ended s) (spawned s)); (split_and!; cbn; try done; try lia).
    + intros Hf%H3. rewrite sem_release_available. lia.
    + by rewrite Hsem.
  - split_and!; [done|done|by rewrite Hsem].
Qed.

Lemma meanwhile_accounts s s' h : meanwhile s s' -> pool_accounts s h -> pool_accounts s' h.
Proof.
  induction 1 as [s s0|s s' _ IH]; [done|]. intros Hs. by apply task_ends_accounts, IH.
Qed.

(** ** The accept loop *)

Context (p : Socks5Proxy) (Hlimit : max_connections (options p) = limit).

(** Every permit acquired has gone to a task. *)
Definition balanced (h : list event) : Prop :=
  Forall creates_limit h /\ occurs acquires h = occurs spawns_task h.

Lemma balanced_snoc h e :
  creates_limit e -> acquires e = spawns_task e -> balanced h -> balanced (h ++ [e]).
Proof.
  intros Hc He [Hf Ho]. split; [apply Forall_app; by repeat constructor|].
  by rewrite !occurs_snoc, He, Ho.
Qed.

Lemma wp_serve_balanced fuel permits ctx h :
  balanced h ->
  wp (F := always balanced) (serve fuel p permits ctx) (fun _ => balanced) balanced h.
Proof.
  revert h. induction fuel as [|fuel IH]; intros h Hh; cbn [serve]; [done|].
  apply wp_bind, wp_run; [|done].
  assert (balanced (h ++ [@Issued core_sig (TcpAccept (listener p))])) as H1
    by (by apply balanced_snoc).
  apply wp_map_err, (wp_await (Σ := core_sig) (TcpAccept _)); [by split|].
  intros a. assert (balanced ((h ++ [@Issued core_sig (TcpAccept (listener p))]) ++
    [@Answered core_sig (TcpAccept (listener p)) a])) as H2 by (by apply balanced_snoc).
  destruct a as [[stream peer]|e]; [|done]. cbn [map_err].
  apply wp_bind, (wp_ask (Σ := core_sig) (TryAcquire permits)). intros [permit|].
  - apply wp_bind, (wp_ask (Σ := core_sig) (Spawn connection_task _)). intros [].
    apply IH. destruct H2 as [Hf Ho]. split.
    + apply Forall_app; split; [|by constructor]. apply Forall_app; split; [done|by constructor].
    + rewrite 2!(occurs_snoc acquires), 2!(occurs_snoc spawns_task). cbn. rewrite Ho. lia.
  - apply IH. by apply balanced_snoc.
Qed.

Lemma wp_run_balanced fuel ctx h :
  balanced h ->
  wp (F := always balanced) (run_with_context fuel p ctx) (fun _ => balanced) balanced h.
Proof.
  intros Hh. apply wp_bind, (wp_ask (Σ := core_sig) (SemaphoreNew _)). intros [permits|].
  - by apply wp_serve_balanced, balanced_snoc.
  - by apply balanced_snoc.
Qed.

End Pool.

(** ** Property *)

Section Properties.
Context {K : SshKeys} {A : AuthKeys} {L : Libraries} {SL : SemaphoreLib}.
Context {S0 : Type} {E0 : Env S0}.

(** C13: whatever clients, servers and schedule do, and however the spawned connections
    end meanwhile: whenever the proxy's accept loop is suspended or over, the
    connections still running and the permits left are together exactly
    [max_connections], so never more than that many run at once. *)
Theorem socks_connections_bounded fuel p ctx turns (w : world pool) :
  semaphore (w_ext w) = None -> spawned (w_ext w) = 0%N -> ended (w_ext w) = 0%N ->
  w_log w = [] -> Forall (fun u => forall s, meanwhile s (t_env u s)) turns ->
  let s := w_ext (fst (exec (E := pool_env) turns (run_with_context fuel p ctx) w)) in
  (running_tasks s <= max_connections (options p))%N /\
  (forall sem, semaphore s = Some sem ->
     (sem_available sem + running_tasks s)%N = max_connections (options p)).
Proof.
  intros Hn Hs He Hl Hturns. cbn zeta. set (limit := max_connections (options p)).
  assert (pool_accounts limit (w_ext w) (w_log w)) as H0.
  { rewrite Hl. split_and!; [done|lia|by rewrite Hn]. }
  apply (exec_preserves (E := pool_env) _ turns (run_with_context fuel p ctx) w
    (pool_preserves limit)) in H0.
  2: { eapply Forall_impl; [|exact Hturns]. cbn. intros u Hu s h. by apply meanwhile_accounts. }
  assert (balanced limit (w_log w)) as Hb by (by rewrite Hl; split; [constructor|]).
  apply (wp_run_balanced limit p eq_refl fuel ctx) in Hb.
  apply (exec_always (E := pool_env) _ turns) in Hb as [Hf Ho].
  destruct (exec turns (run_with_context fuel p ctx) w) as [w' t']. cbn [fst snd] in *.
  destruct H0 as (H1 & H2 & H3). unfold running_tasks.
  destruct (semaphore (w_ext w')) as [sem|].
  - specialize (H3 Hf). split; [lia|]. intros ? [= <-]. lia.
  - split; [lia|done].
Qed.

End Properties.
