(* ===== verification/Relay.v ===== *)
(** * Relay: local listeners forwarded over SSH channels ([src/core/relay.rs]). *)

From stdpp Require Export fin_maps gmap.
From S2P Require Export Net.

Section Relays.
Context {K : SshKeys} {A : AuthKeys} {L : Libraries}.

(** ** Targets, access policy and options *)

(** [ForwardingTarget]. *)
Inductive ForwardingTarget :=
| Tcp (host : string) (port : N)
| Streamlocal (socket_path : string).

(** [validate_socket_path]. *)
Definition validate_socket_path (path : string) : result SshError unit :=
  ensure (negb (str_is_empty (trim path)))
    (SshError.configuration "forwarding streamlocal socket path must not be empty");;
  ensure (negb (contains_char nul path))
    (SshError.configuration "forwarding streamlocal socket path must not contain NUL").

(** The two guards of [ForwardingTarget::tcp] and of [validate]. *)
Definition validate_tcp (host : string) (port : N) : result SshError unit :=
  ensure (negb (str_is_empty (trim host)))
    (SshError.configuration "forwarding target host must not be empty");;
  ensure (negb (port =? 0)%N)
    (SshError.configuration "forwarding target port must be greater than zero").

Definition target_tcp (host : string) (port : N) : result SshError ForwardingTarget :=
  validate_tcp host port;; mret (Tcp host port).

Definition target_streamlocal (path : string) : result SshError ForwardingTarget :=
  validate_socket_path path;; mret (Streamlocal path).

(** [ForwardingTarget::validate] and [open_channel]. *)
Definition validate_target (t : ForwardingTarget) : result SshError unit :=
  match t with
  | Tcp host port => validate_tcp host port
  | Streamlocal path => validate_socket_path path
  end.

Definition open_channel (t : ForwardingTarget) (s : SshSession) (ctx : OperationContext)
  : fut (result SshError SshChannel) :=
  match t with
  | Tcp host port => open_direct_tcpip_with_context s host port ctx
  | Streamlocal path => open_direct_streamlocal_with_context s path ctx
  end.

(** [ForwardingAccessPolicy]. *)
Record ForwardingAccessPolicy := { allowed_peer_ips : list IpAddr }.

Definition allow_all : ForwardingAccessPolicy := {| allowed_peer_ips := [] |}.
Definition allow_peer_ips (ips : list IpAddr) : ForwardingAccessPolicy :=
  {| allowed_peer_ips := ips |}.

Definition allows (p : ForwardingAccessPolicy) (peer_ip : option IpAddr) : bool :=
  match allowed_peer_ips p with
  | [] => true
  | ips => match peer_ip with Some ip => bool_decide (ip ∈ ips) | None => false end
  end.

(** [ForwardingRelayOptions], its [Default] and [validate]. *)
Record ForwardingRelayOptions := {
  max_connections : N;
  connection_timeout : Duration;
  access_policy : ForwardingAccessPolicy
}.

Definition default_options : ForwardingRelayOptions :=
  {| max_connections := 128; connection_timeout := duration_from_secs 15;
     access_policy := allow_all |}.

Definition validate_options (o : ForwardingRelayOptions) : result SshError unit :=
  ensure (negb (max_connections o =? 0)%N)
    (SshError.configuration "forwarding max_connections must be greater than zero");;
  ensure (negb (is_zero (connection_timeout o)))
    (SshError.configuration "forwarding connection_timeout must be greater than zero").

(** [validate_relay_inputs]. *)
Definition validate_relay_inputs (t : ForwardingTarget) (o : ForwardingRelayOptions)
  : result SshError unit :=
  validate_options o;; validate_target t.

(** ** Statistics *)

(** [RelayStats]: seven [AtomicU64] and the instant they were created. *)
Record RelayStats := {
  started_at : Instant;
  accepted_connections : N;
  rejected_connections : N;
  active_connections : N;
  completed_connections : N;
  failed_connections : N;
  bytes_local_to_remote : N;
  bytes_remote_to_local : N
}.

Definition RelayStats_new (now : Instant) : RelayStats :=
  {| started_at := now; accepted_connections := 0; rejected_connections := 0;
     active_connections := 0; completed_connections := 0; failed_connections := 0;
     bytes_local_to_remote := 0; bytes_remote_to_local := 0 |}.

Definition record_accepted (s : RelayStats) : RelayStats :=
  {| started_at := started_at s;
     accepted_connections := u64_wrapping_add (accepted_connections s) 1;
     rejected_connections := rejected_connections s;
     active_connections := active_connections s;
     completed_connections := completed_connections s;
     failed_connections := failed_connections s;
     bytes_local_to_remote := bytes_local_to_remote s;
     bytes_remote_to_local := bytes_remote_to_local s |}.

Definition record_rejected (s : RelayStats) : RelayStats :=
  {| started_at := started_at s;
     accepted_connections := accepted_connections s;
     rejected_connections := u64_wrapping_add (rejected_connections s) 1;
     active_connections := active_connections s;
     completed_connections := completed_connections s;
     failed_connections := failed_connections s;
     bytes_local_to_remote := bytes_local_to_remote s;
     bytes_remote_to_local := bytes_remote_to_local s |}.

Definition set_active (f : N -> N) (s : RelayStats) : RelayStats :=
  {| started_at := started_at s;
     accepted_connections := accepted_connections s;
     rejected_connections := rejected_connections s;
     active_connections := f (active_connections s);
     completed_connections := completed_connections s;
     failed_connections := failed_connections s;
     bytes_local_to_remote := bytes_local_to_remote s;
     bytes_remote_to_local := bytes_remote_to_local s |}.

(** [start_connection], and [Drop for ActiveConnectionGuard]. *)
Definition start_connection : RelayStats -> RelayStats :=
  set_active (fun n => u64_wrapping_add n 1).
Definition drop_active_guard : RelayStats -> RelayStats :=
  set_active (fun n => u64_wrapping_sub n 1).

(** [record_completed]: a result counts as failed unless it is a cancellation. *)
Definition is_failure (r : result SshError unit) : bool :=
  match r with
  | Ok _ => false
  | Err e => negb (bool_decide (SshError.kind e = ErrorKind.Cancelled))
  end.

Definition record_completed (r : result SshError unit) (s : RelayStats) : RelayStats :=
  {| started_at := started_at s;
     accepted_connections := accepted_connections s;
     rejected_connections := rejected_connections s;
     active_connections := active_connections s;
     completed_connections := u64_wrapping_add (completed_connections s) 1;
     failed_connections :=
       if is_failure r then u64_wrapping_add (failed_connections s) 1
       else failed_connections s;
     bytes_local_to_remote := bytes_local_to_remote s;
     bytes_remote_to_local := bytes_remote_to_local s |}.

(** [record_read]. *)
Definition record_read (d : CounterDirection) (bytes : N) (s : RelayStats) : RelayStats :=
  {| started_at := started_at s;
     accepted_connections := accepted_connections s;
     rejected_connections := rejected_connections s;
     active_connections := active_connections s;
     completed_connections := completed_connections s;
     failed_connections := failed_connections s;
     bytes_local_to_remote :=
       match d with
       | LocalToRemote => u64_wrapping_add (bytes_local_to_remote s) bytes
       | RemoteToLocal => bytes_local_to_remote s
       end;
     bytes_remote_to_local :=
       match d with
       | LocalToRemote => bytes_remote_to_local s
       | RemoteToLocal => u64_wrapping_add (bytes_remote_to_local s) bytes
       end |}.

(** [ForwardingRelayStatsSnapshot] and [snapshot]. *)
Record ForwardingRelayStatsSnapshot := {
  snap_accepted : N;
  snap_rejected : N;
  snap_active : N;
  snap_completed : N;
  snap_failed : N;
  snap_local_to_remote : N;
  snap_remote_to_local : N;
  snap_elapsed : Duration
}.

Definition snapshot (s : RelayStats) (now : Instant) : ForwardingRelayStatsSnapshot :=
  {| snap_accepted := accepted_connections s; snap_rejected := rejected_connections s;
     snap_active := active_connections s; snap_completed := completed_connections s;
     snap_failed := failed_connections s; snap_local_to_remote := bytes_local_to_remote s;
     snap_remote_to_local := bytes_remote_to_local s; snap_elapsed := (now - started_at s)%N |}.

(** [ForwardingRelayStatsSnapshot::total_bytes]. *)
Definition total_bytes (s : ForwardingRelayStatsSnapshot) : N :=
  u64_saturating_add (snap_local_to_remote s) (snap_remote_to_local s).

(** ** Listeners *)

(** [RelayListener]. *)
Inductive RelayListener :=
| TcpListening (l : TcpListener)
| UnixListening (l : UnixListener) (path : PathBuf).

Definition local_addr (l : RelayListener) : fut (result SshError SocketAddr) :=
  match l with
  | TcpListening l =>
      r ← ask (TcpLocalAddr l);
      mret (map_err (message_error ErrorKind.Connection
              "failed to inspect forwarding listener address") r)
  | UnixListening _ _ =>
      mret (Err (SshError.configuration
              "Unix forwarding listener does not have an IP socket address"))
  end.

Definition local_unix_path (l : RelayListener) : option PathBuf :=
  match l with TcpListening _ => None | UnixListening _ path => Some path end.

(** [RelayListener::accept]. *)
Definition accept (l : RelayListener) : fut (result SshError (io * option IpAddr)) :=
  match l with
  | TcpListening l =>
      accepted ←? (map_err (message_error ErrorKind.Connection
                      "failed to accept forwarding TCP connection") <$> await (TcpAccept l));
      mret (Ok (TcpIo (fst accepted), Some (socket_addr_ip (snd accepted))))
  | UnixListening l _ =>
      stream ←? (map_err (message_error ErrorKind.Connection
                    "failed to accept forwarding Unix connection") <$> await (UnixAccept l));
      mret (Ok (UnixIo stream, None))
  end.

(** ** Connections *)

(** [RelayConnection]. *)
Record RelayConnection := {
  rc_local : io;
  rc_session : SshSession;
  rc_target : ForwardingTarget;
  rc_options : ForwardingRelayOptions;
  rc_context : OperationContext
}.

(** [RelayConnection::relay_streams] and [run]. *)
Definition relay_channel (c : RelayConnection) (channel : SshChannel)
  : fut (result SshError unit) :=
  let local := CountingIo LocalToRemote (rc_local c) in
  let remote := CountingIo RemoteToLocal (SshIo (st_inner (into_stream channel))) in
  relay_streams (rc_context c) "relay forwarding connection" local remote
    "forwarding relay was cancelled" "forwarding relay failed".

Definition run_connection (c : RelayConnection) : fut (result SshError unit) :=
  open_context ← with_timeout_from_now (connection_timeout (rc_options c)) (rc_context c);
  channel ←? open_channel (rc_target c) (rc_session c) open_context;
  relay_channel c channel.

(** ** The relay *)

(** [RelayRuntime] and [SshForwardingRelay]; the counters they share with their
    tasks are those of the state below, these are their values before [run]. *)
Record RelayRuntime := {
  listener : RelayListener;
  session : SshSession;
  target : ForwardingTarget;
  options : ForwardingRelayOptions;
  counters_before : RelayStats
}.

(** [RelayRuntime::new], behind [from_tcp_listener] and [from_unix_listener]. *)
Definition RelayRuntime_new (l : RelayListener) (s : SshSession) (t : ForwardingTarget)
    (o : ForwardingRelayOptions) : fut (result SshError RelayRuntime) :=
  lift (validate_relay_inputs t o);;?
  started ← now;
  mret (Ok {| listener := l; session := s; target := t; options := o;
              counters_before := RelayStats_new started |}).

Definition from_tcp_listener (s : SshSession) (l : TcpListener) (t : ForwardingTarget)
    (o : ForwardingRelayOptions) : fut (result SshError RelayRuntime) :=
  RelayRuntime_new (TcpListening l) s t o.

Definition from_unix_listener (s : SshSession) (l : UnixListener) (path : PathBuf)
    (t : ForwardingTarget) (o : ForwardingRelayOptions) : fut (result SshError RelayRuntime) :=
  RelayRuntime_new (UnixListening l path) s t o.

(** [bind_tcp] and [bind_unix]. *)
Definition bind_tcp (s : SshSession) (address : BindAddress) (t : ForwardingTarget)
    (o : ForwardingRelayOptions) : fut (result SshError RelayRuntime) :=
  lift (validate_relay_inputs t o);;?
  l ←? (map_err (message_error ErrorKind.Connection "failed to bind forwarding listener") <$>
          await (TcpBind address));
  from_tcp_listener s l t o.

Definition bind_unix (s : SshSession) (path : PathBuf) (t : ForwardingTarget)
    (o : ForwardingRelayOptions) : fut (result SshError RelayRuntime) :=
  lift (validate_relay_inputs t o);;?
  l ← ask (UnixBind path);
  l ←? lift (map_err (message_error ErrorKind.Connection
                        "failed to bind Unix forwarding listener") l);
  from_unix_listener s l path t o.

(** [SshForwardingRelay::stats], [local_addr] and [local_unix_path], which the runtime
    answers from the shared counters and from its listener. *)
Definition relay_stats (stats : RelayStats) : fut ForwardingRelayStatsSnapshot :=
  t ← now; mret (snapshot stats t).

Definition relay_local_addr (r : RelayRuntime) : fut (result SshError SocketAddr) :=
  local_addr (listener r).

Definition relay_local_unix_path (r : RelayRuntime) : option PathBuf :=
  local_unix_path (listener r).

(** The context of [SshForwardingRelay::run]. *)
Definition relay_context (cancellation : token) : fut OperationContext :=
  with_cancellation cancellation <$> OperationContext_new.

(** The awaited part of one iteration of [RelayRuntime::run]. *)
Definition accept_once (r : RelayRuntime) (ctx : OperationContext)
  : fut (result SshError (io * option IpAddr)) :=
  run ctx "accept forwarding relay connection" (accept (listener r)).

(** ** Concurrent state

    The values the accept loop shares with the tasks it spawns.  A task holds
    its permit from its creation to its end. *)
Context {SL : SemaphoreLib}.

(** Where the body given to [tokio::spawn] stands. *)
Inductive phase :=
| Spawned
| Running
| Unguarded (r : result SshError unit)
| Recorded.

Record relay_state := {
  stats : RelayStats;
  permits : Sem;
  tasks : gmap N (RelayConnection * phase);
  next_task : N;
  returned : option SshError
}.

Definition with_stats (f : RelayStats -> RelayStats) (st : relay_state) : relay_state :=
  {| stats := f (stats st); permits := permits st; tasks := tasks st;
     next_task := next_task st; returned := returned st |}.

Definition with_task (i : N) (c : RelayConnection) (p : phase) (st : relay_state) : relay_state :=
  {| stats := stats st; permits := permits st; tasks := <[i := (c, p)]> (tasks st);
     next_task := next_task st; returned := returned st |}.

(** A task ends: its state is dropped, its permit released. *)
Definition end_task (i : N) (st : relay_state) : relay_state :=
  {| stats := stats st; permits := sem_release (permits st); tasks := delete i (tasks st);
     next_task := next_task st; returned := returned st |}.

(** [RelayRuntime::dispatch]. *)
Definition dispatch (r : RelayRuntime) (ctx : OperationContext) (stream : io)
    (peer_ip : option IpAddr) (st : relay_state) : relay_state :=
  let st := with_stats record_accepted st in
  if negb (allows (access_policy (options r)) peer_ip)
  then with_stats record_rejected st
  else
    match sem_try_acquire (permits st) with
    | None => with_stats record_rejected st
    | Some permits =>
        let connection :=
          {| rc_local := stream; rc_session := session r; rc_target := target r;
             rc_options := options r; rc_context := ctx |} in
        {| stats := stats st; permits := permits;
           tasks := <[next_task st := (connection, Spawned)]> (tasks st);
           next_task := next_task st + 1; returned := returned st |}
    end.

(** [RelayRuntime::run] before its loop. *)
Definition initial (r : RelayRuntime) : option relay_state :=
  permits ← sem_new (max_connections (options r));
  Some {| stats := counters_before r; permits := permits; tasks := ∅; next_task := 0;
          returned := None |}.

(** A result of the accept call, in some environment. *)
Definition accept_returns (r : RelayRuntime) (ctx : OperationContext)
    (x : result SshError (io * option IpAddr)) : Prop :=
  exists (S : Type) (E : Env S) turns (w w' : world S),
    exec turns (accept_once r ctx) w = (w', Ret x).

(** A result of a connection's future, in some environment. *)
Definition connection_returns (c : RelayConnection) (x : result SshError unit) : Prop :=
  exists (S : Type) (E : Env S) turns (w w' : world S),
    exec turns (run_connection c) w = (w', Ret x).

Inductive label :=
| LAccept (stream : io) (peer_ip : option IpAddr)
| LStop (e : SshError)
| LStart (i : N)
| LRead (i : N) (d : CounterDirection) (bytes : N)
| LReturn (i : N) (r : result SshError unit)
| LRecord (i : N)
| LFinish (i : N)
| LUnwind (i : N).

(** One step of the accept loop or of a task.  [LUnwind] is a task dropped while
    it is suspended or panicking: its guards run, the rest of its body does not. *)
Inductive step (r : RelayRuntime) (ctx : OperationContext)
  : relay_state -> label -> relay_state -> Prop :=
| step_accept st stream peer_ip :
    returned st = None -> accept_returns r ctx (Ok (stream, peer_ip)) ->
    step r ctx st (LAccept stream peer_ip) (dispatch r ctx stream peer_ip st)
| step_stop st e :
    returned st = None -> accept_returns r ctx (Err e) ->
    step r ctx st (LStop e)
      {| stats := stats st; permits := permits st; tasks := tasks st;
         next_task := next_task st; returned := Some e |}
| step_start st i c :
    tasks st !! i = Some (c, Spawned) ->
    step r ctx st (LStart i) (with_stats start_connection (with_task i c Running st))
| step_read st i c d bytes :
    tasks st !! i = Some (c, Running) ->
    step r ctx st (LRead i d bytes) (with_stats (record_read d bytes) st)
| step_return st i c x :
    tasks st !! i = Some (c, Running) -> connection_returns c x ->
    step r ctx st (LReturn i x) (with_stats drop_active_guard (with_task i c (Unguarded x) st))
| step_record st i c x :
    tasks st !! i = Some (c, Unguarded x) ->
    step r ctx st (LRecord i) (with_stats (record_completed x) (with_task i c Recorded st))
| step_finish st i c :
    tasks st !! i = Some (c, Recorded) ->
    step r ctx st (LFinish i) (end_task i st)
| step_unwind_spawned st i c :
    tasks st !! i = Some (c, Spawned) ->
    step r ctx st (LUnwind i) (end_task i st)
| step_unwind_running st i c :
    tasks st !! i = Some (c, Running) ->
    step r ctx st (LUnwind i) (with_stats drop_active_guard (end_task i st)).

Inductive steps (r : RelayRuntime) (ctx : OperationContext) (st0 : relay_state)
  : list label -> relay_state -> Prop :=
| steps_nil : steps r ctx st0 [] st0
| steps_snoc ls l st st' :
    steps r ctx st0 ls st -> step r ctx st l st' -> steps r ctx st0 (ls ++ [l]) st'.

End Relays.

(** ** Counting tasks *)

Section Counting.
Context {V : Type}.

Definition count (p : V -> bool) (m : gmap N V) : N :=
  N.of_nat (length (List.filter (fun kv => p (snd kv)) (map_to_list m))).

Definition weight (p : V -> bool) (x : V) : N := if p x then 1 else 0.

Lemma count_empty p : count p ∅ = 0%N.
Proof. unfold count. by rewrite map_to_list_empty. Qed.

Lemma count_insert p m i x : m !! i = None -> count p (<[i := x]> m) = (weight p x + count p m)%N.
Proof.
  intros Hi. unfold count, weight.
  assert (length (List.filter (fun kv => p (snd kv)) (map_to_list (<[i:=x]> m))) =
    length (List.filter (fun kv => p (snd kv)) ((i, x) :: map_to_list m))) as ->.
  { apply Permutation_length. pose proof (map_to_list_insert m i x Hi) as Hp.
    induction Hp; cbn; repeat case_match; eauto using perm_trans, perm_skip, perm_swap. }
  cbn. destruct (p x); cbn; lia.
Qed.

Lemma count_delete p m i x : m !! i = Some x -> count p m = (weight p x + count p (delete i m))%N.
Proof.
  intros Hi. rewrite <-(insert_delete_id m i x Hi) at 1.
  by rewrite count_insert by apply lookup_delete_eq.
Qed.

Lemma count_update p m i x y :
  m !! i = Some x -> (count p (<[i := y]> m) + weight p x = weight p y + count p m)%N.
Proof.
  intros Hi. rewrite <-insert_delete_eq, count_insert by apply lookup_delete_eq.
  rewrite (count_delete p m i x Hi). lia.
Qed.

Lemma count_le p q m : (forall x, p x = true -> q x = true) -> (count p m <= count q m)%N.
Proof.
  intros Hpq. unfold count. induction (map_to_list m) as [|[k x] l IH]; [done|]. cbn.
  destruct (p x) eqn:Hp.
  - rewrite (Hpq _ Hp). cbn. lia.
  - destruct (q x); cbn; lia.
Qed.

End Counting.

(** ** The accounting of a relay *)

Section Accounting.
Context {K : SshKeys} {A : AuthKeys} {L : Libraries} {SL : SemaphoreLib}.
Variables (r : RelayRuntime) (ctx : OperationContext) (st0 : relay_state) (now0 : Instant).
Hypothesis Hst0 : initial r = Some st0.
Hypothesis Hnew : counters_before r = RelayStats_new now0.

(** Tasks by phase. *)
Definition running (t : RelayConnection * phase) : bool :=
  match snd t with Running => true | _ => false end.
Definition unrecorded (t : RelayConnection * phase) : bool :=
  match snd t with Recorded => false | _ => true end.
Definition any_phase (t : RelayConnection * phase) : bool := true.
Definition failing (t : RelayConnection * phase) : bool :=
  match snd t with Unguarded x => is_failure x | _ => false end.

(** Connections accepted, tasks that ended before their result was recorded, results that
    are failures, and bytes read from one side. *)
Definition is_accept (l : label) : bool := match l with LAccept _ _ => true | _ => false end.
Definition is_unwind (l : label) : bool := match l with LUnwind _ => true | _ => false end.
Definition is_failed_return (l : label) : bool :=
  match l with LReturn _ x => is_failure x | _ => false end.
Definition bytes_of (d : CounterDirection) (l : label) : N :=
  match d, l with
  | LocalToRemote, LRead _ LocalToRemote n | RemoteToLocal, LRead _ RemoteToLocal n => n
  | _, _ => 0
  end.
Definition bytes_read (d : CounterDirection) (ls : list label) : N :=
  foldr (fun l n => bytes_of d l + n)%N 0%N ls.
Definition occurrences (p : label -> bool) (ls : list label) : N :=
  N.of_nat (length (List.filter p ls)).

Lemma occurrences_snoc p ls l :
  occurrences p (ls ++ [l]) = (occurrences p ls + if p l then 1 else 0)%N.
Proof.
  unfold occurrences. rewrite List.filter_app, length_app. cbn. destruct (p l); cbn; lia.
Qed.

Lemma bytes_read_snoc d ls l : bytes_read d (ls ++ [l]) = (bytes_read d ls + bytes_of d l)%N.
Proof. unfold bytes_read. induction ls as [|l' ls IH]; [apply N.add_0_r|]. cbn. rewrite IH. lia. Qed.

Definition bytes_counter (d : CounterDirection) (s : RelayStats) : N :=
  match d with LocalToRemote => bytes_local_to_remote s | RemoteToLocal => bytes_remote_to_local s end.

(** The counters hold these true counts modulo 2^64. *)
Record counters (s : RelayStats) (accepted rejected active completed failed : N) : Prop := {
  cs_accepted : accepted_connections s = (accepted mod u64_modulus)%N;
  cs_rejected : rejected_connections s = (rejected mod u64_modulus)%N;
  cs_active : active_connections s = (active mod u64_modulus)%N;
  cs_completed : completed_connections s = (completed mod u64_modulus)%N;
  cs_failed : failed_connections s = (failed mod u64_modulus)%N
}.

(** [accepted], [rejected], [completed], [failed] and [lost] connections balance
    with the tasks alive, and the permits with the limit. *)
Record accounts (ls : list label) (st : relay_state) : Prop := {
  ac_counts : exists rejected completed failed,
    counters (stats st) (occurrences is_accept ls) rejected (count running (tasks st))
      completed failed /\
    occurrences is_accept ls =
      (rejected + completed + occurrences is_unwind ls + count unrecorded (tasks st))%N /\
    occurrences is_failed_return ls = (failed + count failing (tasks st))%N /\
    (failed <= completed)%N;
  ac_permits : (sem_available (permits st) + count any_phase (tasks st))%N =
    max_connections (options r);
  ac_fresh : forall i, (next_task st <= i)%N -> tasks st !! i = None
}.

Lemma accounts_initial : accounts [] st0.
Proof.
  unfold initial in Hst0. destruct (sem_new _) as [s|] eqn:Hs; [|done].
  injection Hst0 as <-. split; cbn [stats permits tasks next_task].
  - rewrite Hnew. exists 0%N, 0%N, 0%N. rewrite !count_empty.
    split; [split; by rewrite N.Div0.mod_0_l|]. done.
  - rewrite count_empty, (sem_new_available _ _ Hs). lia.
  - intros i _. apply lookup_empty.
Qed.

Ltac count_up := cbn; by rewrite ?u64_wrapping_add_mod.

Lemma counters_accepted s a rej act c f :
  counters s a rej act c f -> counters (record_accepted s) (a + 1) rej act c f.
Proof. intros [Ha ? ? ? ?]. split; [cbn; rewrite Ha; count_up|done..]. Qed.

Lemma counters_rejected s a rej act c f :
  counters s a rej act c f -> counters (record_rejected s) a (rej + 1) act c f.
Proof. intros [? Ha ? ? ?]. split; try done. cbn. rewrite Ha. count_up. Qed.

Lemma counters_start s a rej act c f :
  counters s a rej act c f -> counters (start_connection s) a rej (act + 1) c f.
Proof. intros [? ? Ha ? ?]. split; try done. cbn. rewrite Ha. count_up. Qed.

Lemma counters_drop s a rej act c f :
  counters s a rej (act + 1) c f -> counters (drop_active_guard s) a rej act c f.
Proof.
  intros [? ? Ha ? ?]. split; try done. cbn. rewrite Ha, u64_wrapping_sub_mod by lia. by rewrite N.add_sub.
Qed.

Lemma counters_completed s a rej act c f x :
  counters s a rej act c f ->
  counters (record_completed x s) a rej act (c + 1) (f + if is_failure x then 1 else 0).
Proof.
  intros [? ? ? Ha Hf]. split; try done; cbn; [rewrite Ha; count_up|rewrite Hf].
  destruct (is_failure x); [count_up|by rewrite N.add_0_r].
Qed.

Lemma counters_read s a rej act c f d n :
  counters s a rej act c f -> counters (record_read d n s) a rej act c f.
Proof. by intros []. Qed.

(** A step of the accept loop. *)
Lemma accounts_dispatch ls st stream peer :
  accounts ls st ->
  accounts (ls ++ [LAccept stream peer]) (dispatch r ctx stream peer st).
Proof.
  intros [(rej & comp & failed & Hc & Hb & Hr & Hf) Hp Hfr].
  apply counters_accepted in Hc. unfold dispatch.
  assert (accounts (ls ++ [LAccept stream peer])
    (with_stats record_rejected (with_stats record_accepted st))) as Hrej.
  { split; [|done|done]. exists (rej + 1)%N, comp, failed.
    rewrite !occurrences_snoc. cbn. split; [by apply counters_rejected|lia]. }
  destruct (negb _); [exact Hrej|].
  destruct (sem_try_acquire _) as [s|] eqn:Hs; [|exact Hrej]. cbn in Hs.
  apply sem_try_acquire_Some in Hs.
  assert (tasks st !! next_task st = None) as Hn by by apply Hfr.
  split; cbn.
  - exists rej, comp, failed. rewrite !occurrences_snoc, !count_insert by done. cbn.
    split; [exact Hc|lia].
  - rewrite count_insert by done. cbn. lia.
  - intros i Hi. rewrite lookup_insert_ne by lia. apply Hfr. lia.
Qed.

(** Replacing the phase of a task. *)
Lemma fresh_with_task st i c p x :
  (forall i, (next_task st <= i)%N -> tasks st !! i = None) -> tasks st !! i = Some x ->
  forall j, (next_task st <= j)%N -> <[i := (c, p)]> (tasks st) !! j = None.
Proof.
  intros Hfr Hi j Hj. rewrite lookup_insert_ne; [by apply Hfr|].
  intros ->. rewrite Hfr in Hi by done. done.
Qed.

Lemma accounts_phase ls l st i c p q f :
  is_accept l = false -> is_unwind l = false ->
  accounts ls st -> tasks st !! i = Some (c, p) ->
  (forall rej comp failed, counters (stats st) (occurrences is_accept ls) rej
      (count running (tasks st)) comp failed -> (failed <= comp)%N ->
     exists d failed', counters (f (stats st)) (occurrences is_accept ls) rej
        (count running (<[i := (c, q)]> (tasks st))) (comp + d) failed' /\
      (failed' <= comp + d)%N /\
      (failed' + weight failing (c, q) =
       failed + weight failing (c, p) + if is_failed_return l then 1 else 0)%N /\
      (weight unrecorded (c, q) + d)%N = weight unrecorded (c, p)) ->
  accounts (ls ++ [l]) (with_stats f (with_task i c q st)).
Proof.
  intros Hl1 Hl2 [(rej & comp & failed & Hc & Hb & Hr & Hf) Hp Hfr] Hi Hstep.
  destruct (Hstep _ _ _ Hc Hf) as (d & failed' & Hc' & Hf' & Hx & Hw).
  pose proof (count_update failing _ _ _ (c, q) Hi) as Hg.
  pose proof (count_update unrecorded _ _ _ (c, q) Hi) as Hu.
  pose proof (count_update any_phase _ _ _ (c, q) Hi) as Ha.
  split; cbn.
  - exists rej, (comp + d)%N, failed'. rewrite !occurrences_snoc, Hl1, Hl2, !N.add_0_r.
    split; [exact Hc'|]. split_and!; [| |done]; lia.
  - unfold weight in Ha. cbn in Ha. lia.
  - by eapply fresh_with_task.
Qed.

(** A task ends. *)
Lemma accounts_end ls l st i c p f :
  is_accept l = false -> is_failed_return l = false -> accounts ls st ->
  tasks st !! i = Some (c, p) -> weight failing (c, p) = 0%N ->
  (if is_unwind l then 1 else 0)%N = weight unrecorded (c, p) ->
  (forall a rej comp failed n, counters (stats st) a rej (weight running (c, p) + n) comp failed ->
     counters (f (stats st)) a rej n comp failed) ->
  accounts (ls ++ [l]) (with_stats f (end_task i st)).
Proof.
  intros Hl Hl' [(rej & comp & failed & Hc & Hb & Hr & Hf) Hp Hfr] Hi Hw' Hw Hstep.
  rewrite (count_delete failing _ _ _ Hi) in Hr.
  rewrite (count_delete unrecorded _ _ _ Hi) in Hb.
  rewrite (count_delete any_phase _ _ _ Hi) in Hp.
  rewrite (count_delete running _ _ _ Hi) in Hc.
  split; cbn.
  - exists rej, comp, failed. rewrite !occurrences_snoc, Hl, Hl', !N.add_0_r.
    split; [by apply Hstep|]. split_and!; [| |done]; lia.
  - rewrite sem_release_available. cbn in Hp. lia.
  - intros j Hj. rewrite lookup_delete_None. right. by apply Hfr.
Qed.

Lemma accounts_step ls l st st' : accounts ls st -> step r ctx st l st' -> accounts (ls ++ [l]) st'.
Proof.
  intros Hac Hstep.
  destruct Hstep as [st stream peer Hn Ha|st e Hn Ha|st i c Hi|st i c d bytes Hi|st i c x Hi Hx
    |st i c x Hi|st i c Hi|st i c Hi|st i c Hi].
  - by apply accounts_dispatch.
  - destruct Hac as [(rej & comp & failed & Hc & Hb & Hr & Hf) Hp Hfr]. split; [|done|done].
    exists rej, comp, failed. rewrite !occurrences_snoc. cbn. by rewrite !N.add_0_r.
  - eapply accounts_phase; try done. intros rej comp failed Hc Hf. exists 0%N, failed.
    rewrite !N.add_0_r. split_and!; [|done..].
    apply counters_start in Hc.
    pose proof (count_update running _ _ _ (c, Running) Hi) as Hu. cbn in Hu.
    by replace (count running (<[i:=(c, Running)]> (tasks st)))
      with (count running (tasks st) + 1)%N by lia.
  - destruct Hac as [(rej & comp & failed & Hc & Hb & Hr & Hf) Hp Hfr]. split; [|done|done].
    exists rej, comp, failed. rewrite !occurrences_snoc. cbn. rewrite !N.add_0_r.
    split; [by apply counters_read|done].
  - eapply accounts_phase; try done. intros rej comp failed Hc Hf. exists 0%N, failed.
    rewrite !N.add_0_r. split_and!; [|done|cbn; unfold weight; cbn; lia|done].
    pose proof (count_update running _ _ _ (c, Unguarded x) Hi) as Hu. cbn in Hu.
    apply counters_drop.
    by replace (count running (<[i:=(c, Unguarded x)]> (tasks st)) + 1)%N
      with (count running (tasks st)) by lia.
  - eapply accounts_phase; try done. intros rej comp failed Hc Hf.
    exists 1%N, (failed + if is_failure x then 1 else 0)%N.
    pose proof (count_update running _ _ _ (c, Recorded) Hi) as Hu. cbn in Hu.
    split_and!; [|destruct (is_failure x); lia|cbn; unfold weight; cbn; lia|done].
    apply counters_completed.
    by replace (count running (<[i:=(c, Recorded)]> (tasks st)))
      with (count running (tasks st)) by lia.
  - by apply (accounts_end ls _ st i c Recorded (fun s => s)).
  - by apply (accounts_end ls _ st i c Spawned (fun s => s)).
  - apply (accounts_end ls _ st i c Running drop_active_guard); try done.
    intros a rej comp failed n Hc. cbn in Hc. rewrite N.add_comm in Hc. by apply counters_drop.
Qed.

Lemma accounts_steps ls st : steps r ctx st0 ls st -> accounts ls st.
Proof.
  induction 1 as [|ls l st st' Hs IH Hl]; [apply accounts_initial|by eapply accounts_step].
Qed.

(** Only what a task reads changes the byte counters. *)
Lemma bytes_step l st st' d n :
  step r ctx st l st' -> bytes_counter d (stats st) = (n mod u64_modulus)%N ->
  bytes_counter d (stats st') = ((n + bytes_of d l) mod u64_modulus)%N.
Proof.
  intros Hs Hn. destruct Hs; try (destruct d; cbn in *; by rewrite N.add_0_r).
  - unfold dispatch. repeat case_match; destruct d; cbn in *; by rewrite N.add_0_r.
  - destruct d, d0; cbn in *; rewrite Hn, ?N.add_0_r; done || apply u64_wrapping_add_mod.
Qed.

Lemma bytes_steps ls st d :
  steps r ctx st0 ls st -> bytes_counter d (stats st) = (bytes_read d ls mod u64_modulus)%N.
Proof.
  induction 1 as [|ls l st st' Hs IH Hl].
  - unfold initial in Hst0. destruct (sem_new _) as [s|]; [|done].
    injection Hst0 as <-. cbn [stats]. rewrite Hnew. by destruct d.
  - rewrite bytes_read_snoc. by eapply bytes_step.
Qed.

(** Every task runs for the relay's own session, target and context. *)
Definition own_task (t : RelayConnection * phase) : Prop :=
  rc_session (fst t) = session r /\ rc_target (fst t) = target r /\
  rc_options (fst t) = options r /\ rc_context (fst t) = ctx.

Definition own_map (m : gmap N (RelayConnection * phase)) : Prop :=
  forall i t, m !! i = Some t -> own_task t.

Definition own_tasks (st : relay_state) : Prop := own_map (tasks st).

Lemma own_insert m i t : own_task t -> own_map m -> own_map (<[i := t]> m).
Proof. intros Ht Hm j t' [[_ <-]|[_ Hj]]%lookup_insert_Some; [done|by eapply Hm]. Qed.

Lemma own_delete m i : own_map m -> own_map (delete i m).
Proof. intros Hm j t' [_ Hj]%lookup_delete_Some. by eapply Hm. Qed.

Lemma own_dispatch stream peer st : own_tasks st -> own_tasks (dispatch r ctx stream peer st).
Proof.
  intros Ho. unfold dispatch. destruct (negb _); [exact Ho|].
  destruct (sem_try_acquire _); [|exact Ho]. apply own_insert; [by split_and!|exact Ho].
Qed.

Lemma own_tasks_steps ls st : steps r ctx st0 ls st -> own_tasks st.
Proof.
  induction 1 as [|ls l st st' Hs IH Hl].
  - unfold initial in Hst0. destruct (sem_new _); [|done]. injection Hst0 as <-.
    intros i t Hi. cbn in Hi. by rewrite lookup_empty in Hi.
  - destruct Hl as [st stream peer Hr Ha|st e Hr Ha|st i c Hi|st i c d bytes Hi|st i c x Hi Hx
      |st i c x Hi|st i c Hi|st i c Hi|st i c Hi]; try exact IH.
    + by apply own_dispatch.
    + apply own_insert; [exact (IH _ _ Hi)|exact IH].
    + apply own_insert; [exact (IH _ _ Hi)|exact IH].
    + apply own_insert; [exact (IH _ _ Hi)|exact IH].
    + by apply own_delete.
    + by apply own_delete.
    + by apply own_delete.
Qed.

End Accounting.

(** ** Validation *)

Section Validation.
Context {K : SshKeys} {A : AuthKeys} {L : Libraries}.

Lemma validate_tcp_Ok host port :
  validate_tcp host port = Ok tt <-> trim host <> "" /\ port <> 0%N.
Proof.
  unfold validate_tcp.
  by rewrite ensure_bind_Ok, ensure_Ok, str_nonempty_iff, negb_true_iff, N.eqb_neq.
Qed.

Lemma validate_socket_path_Ok path :
  validate_socket_path path = Ok tt <-> trim path <> "" /\ contains_char nul path = false.
Proof.
  unfold validate_socket_path. by rewrite ensure_bind_Ok, ensure_Ok, str_nonempty_iff, negb_true_iff.
Qed.

Definition usable_target (t : ForwardingTarget) : Prop :=
  match t with
  | Tcp host port => trim host <> "" /\ port <> 0%N
  | Streamlocal path => trim path <> "" /\ contains_char nul path = false
  end.

Lemma validate_target_Ok t : validate_target t = Ok tt <-> usable_target t.
Proof. destruct t; [apply validate_tcp_Ok|apply validate_socket_path_Ok]. Qed.

Lemma validate_relay_inputs_Ok t o :
  validate_relay_inputs t o = Ok tt <->
  (0 < max_connections o)%N /\ (0 < connection_timeout o)%N /\ usable_target t.
Proof.
  unfold validate_relay_inputs, validate_options.
  rewrite result_bind_Ok. split.
  - intros ([] & [Hm Ht%ensure_Ok]%ensure_bind_Ok & Hu%validate_target_Ok).
    apply negb_true_iff, N.eqb_neq in Hm. apply is_zero_false in Ht.
    split_and!; [lia|lia|done].
  - intros (Hm & Ht & Hu). exists tt. split; [|by apply validate_target_Ok].
    apply ensure_bind_Ok. rewrite ensure_Ok, is_zero_false.
    split; [apply negb_true_iff, N.eqb_neq; lia|done].
Qed.

Lemma validate_relay_inputs_Err t o e :
  validate_relay_inputs t o = Err e -> SshError.kind e = ErrorKind.Configuration.
Proof.
  unfold validate_relay_inputs, validate_options, validate_target, validate_tcp,
    validate_socket_path, ensure.
  intros He. repeat (case_match; cbn in He; simplify_eq; try done).
Qed.

(** Validated targets pass the validation of the channel operations. *)
Definition usable_at_opening (t : ForwardingTarget) : Prop :=
  match t with
  | Tcp host port => validate_direct_tcpip host port "127.0.0.1" = Ok tt
  | Streamlocal path => validate_streamlocal_path path = Ok path
  end.

Lemma usable_target_opens t :
  usable_target t -> usable_at_opening t.
Proof.
  destruct t as [host port|path]; cbn [usable_target usable_at_opening]; intros [H1 H2].
  - unfold validate_direct_tcpip. rewrite ensure_bind_Ok, ensure_bind_Ok, ensure_Ok.
    by rewrite str_nonempty_iff, negb_true_iff, N.eqb_neq.
  - unfold validate_streamlocal_path. rewrite !ensure_bind_Ok.
    by rewrite str_nonempty_iff, negb_true_iff.
Qed.

Lemma guarded_open_channel t s ctx n : guarded ctx n (open_channel t s ctx).
Proof.
  destruct t; cbn [open_channel];
    unfold open_direct_tcpip_with_context, open_direct_tcpip_from_with_context,
      open_raw_direct_tcpip_with_context, open_direct_streamlocal_with_context,
      open_raw_direct_streamlocal_with_context; guarded.
Qed.

Lemma guarded_covers {T} ctx ctx' n (t : fut T) :
  covers ctx ctx' -> guarded ctx' n t -> guarded ctx n t.
Proof.
  intros [Hc Hd]. revert n. induction t; intros m; cbn; auto.
  intros [[Hw Hd'] Hk]. split; [|auto]. split; [congruence|].
  intros d0 (d1 & Hd1 & Hle)%Hd. destruct (Hd' _ Hd1) as (d2 & -> & ?).
  exists d2. split; [done|lia].
Qed.

Lemma guarded_run_connection c n : guarded (rc_context c) n (run_connection c).
Proof.
  unfold run_connection. apply guarded_with_timeout_from_now; [reflexivity|].
  intros ctx m Hc _. apply guarded_bind.
  - eapply guarded_covers; [exact Hc|]. apply guarded_open_channel.
  - intros [ch|e] m' _; [|done]. apply guarded_run. reflexivity.
Qed.

End Validation.

(** ** Properties *)

Section Properties.
Context {K : SshKeys} {A : AuthKeys} {L : Libraries}.
#[local] Existing Instance any_budget.

(** C11: at every moment of a relay's first run, under any interleaving of its accept loop and
    its tasks and whatever they do: at most [max_connections] tasks are alive, the
    permits left are the others; the active counter is exactly the number of running
    connections; every accepted connection is accounted for (modulo the counters' 2^64):
    rejected, completed, still alive, or dropped before its result was recorded; the failed
    ones are those that returned a failure and recorded it; and the byte counters hold the
    bytes the tasks read from either side. *)
Theorem relay_accounting `{SemaphoreLib} r ctx now st0 ls st :
  initial r = Some st0 -> counters_before r = RelayStats_new now ->
  steps r ctx st0 ls st ->
  (max_connections (options r) < u64_modulus)%N ->
  let alive := count any_phase (tasks st) in
  (alive <= max_connections (options r))%N /\
  sem_available (permits st) = (max_connections (options r) - alive)%N /\
  active_connections (stats st) = count running (tasks st) /\
  exists rejected completed failed,
    counters (stats st) (occurrences is_accept ls) rejected (count running (tasks st))
      completed failed /\
    occurrences is_accept ls =
      (rejected + completed + occurrences is_unwind ls + count unrecorded (tasks st))%N /\
    occurrences is_failed_return ls = (failed + count failing (tasks st))%N /\
    (failed <= completed)%N /\
    forall d, bytes_counter d (stats st) = (bytes_read d ls mod u64_modulus)%N.
Proof.
  intros H0 Hn Hs Hm. destruct (accounts_steps r ctx st0 now H0 Hn ls st Hs) as [Hc Hp _].
  cbn zeta. pose proof (count_le running any_phase (tasks st) ltac:(done)) as Hle.
  split_and!; [lia|lia| |].
  2: { destruct Hc as (rej & comp & failed & Hc & Hb & Hr & Hf). exists rej, comp, failed.
       split_and!; [exact Hc|exact Hb|exact Hr|exact Hf|]. intros d. by eapply bytes_steps. }
  destruct Hc as (? & ? & ? & [_ _ -> _ _] & _). apply N.mod_small. lia.
Qed.

(** Who the access policy admits. *)
Definition admitted (p : ForwardingAccessPolicy) (peer_ip : option IpAddr) : Prop :=
  allowed_peer_ips p = [] \/ exists ip, peer_ip = Some ip /\ ip ∈ allowed_peer_ips p.

Lemma allows_iff p peer_ip : allows p peer_ip = true <-> admitted p peer_ip.
Proof.
  unfold allows, admitted. destruct (allowed_peer_ips p) as [|x l].
  - split; [by left|done].
  - destruct peer_ip as [ip|]; [rewrite bool_decide_eq_true|]; split.
    + intros Hip. right. by exists ip.
    + by intros [?|(y & [= ->] & Hy)].
    + done.
    + by intros [?|(y & ? & _)].
Qed.

(** [dispatch] gives a connection to a new task exactly when the access policy admits
    its peer (everyone if it is empty, otherwise the IP addresses it lists, so no peer
    of a Unix socket) and a permit is left; the task serves that stream for the relay's
    own session, target and context; every other connection is dropped and counted as
    rejected, and nothing else changes. *)
Lemma relay_dispatch_decision `{SemaphoreLib} r ctx stream peer_ip st :
  let st' := dispatch r ctx stream peer_ip st in
  (admitted (access_policy (options r)) peer_ip /\ sem_available (permits st) <> 0%N /\
   exists s c, sem_try_acquire (permits st) = Some s /\ permits st' = s /\
    rc_local c = stream /\ own_task r ctx (c, Spawned) /\
    tasks st' = <[next_task st := (c, Spawned)]> (tasks st) /\
    stats st' = record_accepted (stats st)) \/
  ((~ admitted (access_policy (options r)) peer_ip \/ sem_available (permits st) = 0%N) /\
   tasks st' = tasks st /\ permits st' = permits st /\
   stats st' = record_rejected (record_accepted (stats st))).
Proof.
  cbn zeta. unfold dispatch. rewrite <-allows_iff.
  destruct (allows _ _); cbn [negb]; [|right; by split; [left|]].
  pose proof (sem_try_acquire_None (permits st)) as Hn. cbn [permits with_stats].
  destruct (sem_try_acquire (permits st)) as [s|] eqn:Hs.
  - left. split; [done|]. split; [by intros Hz%Hn|].
    exists s, {| rc_local := stream; rc_session := session r; rc_target := target r;
                 rc_options := options r; rc_context := ctx |}. by split_and!.
  - right. split; [|done]. right. by apply Hn.
Qed.

(** A relay is made only from positive limits and a usable target, and starts with
    zero counters; a listener is bound for it only then.  Its target passes the
    validation done again when a channel is opened for a connection. *)
Lemma relay_creation_validated l s t o {S : Type} {E : Env S} (w : world S) :
  match validate_relay_inputs t o with
  | Ok _ =>
      (0 < max_connections o)%N /\ (0 < connection_timeout o)%N /\
      poll (RelayRuntime_new l s t o) w =
        (w, Ret (Ok {| listener := l; session := s; target := t; options := o;
                       counters_before := RelayStats_new (w_now w) |})) /\
      usable_at_opening t
  | Err e =>
      SshError.kind e = ErrorKind.Configuration /\
      RelayRuntime_new l s t o = Ret (Err e) /\
      (forall address, bind_tcp s address t o = Ret (Err e)) /\
      (forall path, bind_unix s path t o = Ret (Err e))
  end.
Proof.
  destruct (validate_relay_inputs t o) as [[]|e] eqn:Hv.
  - apply validate_relay_inputs_Ok in Hv as Hu. destruct Hu as (Hm & Ht & Hu).
    split_and!; [done|done| |by apply usable_target_opens].
    unfold RelayRuntime_new. by rewrite Hv.
  - split_and!; [by eapply validate_relay_inputs_Err| | |]; intros;
      unfold RelayRuntime_new, bind_tcp, bind_unix; by rewrite Hv.
Qed.

(** A connection whose relay has been cancelled, or whose deadline has passed, is
    over: neither opening its channel nor relaying its bytes outlives the context. *)
Lemma relay_connection_stops c {S : Type} {E : Env S} turns (w : world S) :
  cancellation (rc_context c) ∈ w_cancelled w ∪ all_cancelled turns \/
  (exists d, deadline (rc_context c) = Some d /\ (d <= w_now w + total_advance turns)%N) ->
  is_pending (snd (exec turns (run_connection c) w)) = false.
Proof. apply exec_guarded_stops, guarded_run_connection. Qed.

End Properties.
