(* ===== verification/RelayTunnels.v ===== *)
(** * RelayTunnels: what a forwarding relay does with its session, from the accepted
    connection to the bytes copied ([src/core/relay.rs]).

    Two halves meet in the theorem at the end.  The concurrent state of [Relay] only ever
    holds tasks for streams the accept call returned and the access policy admits; and
    the future of such a task, followed event by event as [Socks5] follows its
    connections, asks the session for one kind of channel and copies between the stream
    and a channel it was given. *)

From S2P Require Export Relay.

(** ** What a connection does *)

Section Tunnels.
Context {K : SshKeys} {A : AuthKeys} {L : Libraries}.
Variables (s : SshSession) (t : ForwardingTarget) (stream : io).

(** The channel request of a target. *)
Definition channel_request : call :=
  match t with
  | Tcp host port => ChannelOpenDirectTcpip (Session.handle s) host port "127.0.0.1" 0
  | Streamlocal path => ChannelOpenDirectStreamlocal (Session.handle s) path
  end.

(** The server's answer to it, with the channel [raw]. *)
Definition channel_answer (raw : RawChannel) : event :=
  match t with
  | Tcp host port =>
      @Answered core_sig
        (ChannelOpenDirectTcpip (Session.handle s) host port "127.0.0.1" 0) (Ok raw)
  | Streamlocal path =>
      @Answered core_sig (ChannelOpenDirectStreamlocal (Session.handle s) path) (Ok raw)
  end.

(** Since [h0] the server has opened [raw] for that request. *)
Definition target_opened (h0 : list event) (raw : RawChannel) (h : list event) : Prop :=
  since h0 (fun e => e = channel_answer raw) h.

(** The counted streams a connection relays. *)
Definition local_end : io := CountingIo LocalToRemote stream.
Definition remote_end (raw : RawChannel) : io :=
  CountingIo RemoteToLocal (SshIo (into_raw_stream raw)).

(** All a connection ever does: ask for its channel first of all, copy between the two
    counted streams once it has the channel, shut these two streams down. *)
Definition relay_event (h0 h : list event) (e : event) : Prop :=
  match e with
  | Issued (CopyBidirectional a b) =>
      a = local_end /\ exists raw, b = remote_end raw /\ target_opened h0 raw h
  | Issued (IoShutdown a) =>
      exists raw, (a = local_end \/ a = remote_end raw) /\ target_opened h0 raw h
  | Issued o => o = channel_request /\ h = h0
  | Answered _ _ => True
  | Asked _ _ => False
  end.

End Tunnels.

Section Connections.
Context {K : SshKeys} {A : AuthKeys} {L : Libraries}.

(** The call [o] under the caller's limits: an interruption or an error is left to [He],
    an answered channel to [Ho]. *)
Ltac opens o He Ho :=
  apply wp_bind, wp_run; [|by apply He];
  apply wp_map_err, (wp_await (Σ := core_sig) o);
  [split; [done|split; [by apply He|intros _; by apply He]]|];
  let raw := fresh "raw" in
  intros [raw|?]; [by apply Ho|by apply He, each_snoc].

(** Opening the channel asks for nothing else, and a channel it returns is the answer. *)
Lemma wp_open_target {T} s t stream ctx (k : result SshError SshChannel -> fut T) h :
  let J := each h (relay_event s t stream h) in
  (forall c h', J h' -> target_opened s t h (inner c) h' ->
     wp (F := always J) (k (Ok c)) (fun _ => J) J h') ->
  (forall e h', J h' -> wp (F := always J) (k (Err e)) (fun _ => J) J h') ->
  wp (F := always J) (open_channel t s ctx ≫= k) (fun _ => J) J h.
Proof.
  intros J Hok Herr. assert (J h) as Hh by apply each_refl.
  assert (J (h ++ [@Issued core_sig (channel_request s t)])) as Hi.
  { apply each_snoc; [exact Hh|]. unfold channel_request. by destruct t. }
  assert (forall raw ctx d, wp (F := always J) (k (Ok (from_inner raw ctx d))) (fun _ => J) J
    ((h ++ [@Issued core_sig (channel_request s t)]) ++ [channel_answer s t raw])) as Hopen.
  { intros raw ctx' d. apply Hok.
    - apply each_snoc; [exact Hi|]. unfold channel_answer. by destruct t.
    - apply since_here; [|done]. apply extends_app, Hh. }
  unfold open_channel, channel_request, channel_answer in *. destruct t as [host port|path];
    unfold open_direct_tcpip_with_context, open_direct_tcpip_from_with_context,
      open_raw_direct_tcpip_with_context, open_direct_streamlocal_with_context,
      open_raw_direct_streamlocal_with_context, lift;
    apply wp_bind, wp_bind; cbn [wp].
  - destruct (validate_direct_tcpip _ _ _) as [[]|e]; [|by apply Herr].
    opens (ChannelOpenDirectTcpip (Session.handle s) host port "127.0.0.1" 0) Herr Hopen.
  - destruct (validate_streamlocal_path path) as [path'|e] eqn:Hv; [|by apply Herr].
    apply validate_streamlocal_path_Ok in Hv as [-> _].
    opens (ChannelOpenDirectStreamlocal (Session.handle s) path) Herr Hopen.
Qed.

(** Copying between the two ends of an opened channel. *)
Lemma wp_relay_channel c ch h0 h :
  let P := relay_event (rc_session c) (rc_target c) (rc_local c) in
  each h0 (P h0) h -> target_opened (rc_session c) (rc_target c) h0 (inner ch) h ->
  wp (F := always (each h0 (P h0))) (relay_channel c ch) (fun _ => each h0 (P h0))
    (each h0 (P h0)) h.
Proof.
  intros P Hh Hopen.
  eapply wp_mono; [| |eapply (wp_each_under h0 _
    (target_opened (rc_session c) (rc_target c) h0 (inner ch)))];
    [by intros ? ? []|done|intros; by apply since_app| |done|done].
  apply emits_relay_streams; [..|done]; intros h' Hh'.
  - split; [done|]. by exists (inner ch).
  - exists (inner ch). split; [by left|done].
  - exists (inner ch). split; [by right|done].
Qed.

Lemma wp_run_connection c h :
  let P := relay_event (rc_session c) (rc_target c) (rc_local c) in
  wp (F := always (each h (P h))) (run_connection c) (fun _ => each h (P h)) (each h (P h)) h.
Proof.
  intros P. pose proof (each_refl h (P h)) as H0.
  unfold run_connection. apply wp_bind, wp_with_timeout_from_now; [exact H0|]. intros d.
  apply wp_open_target; [|done]. intros ch h' Hh' Hopen. by apply wp_relay_channel.
Qed.

End Connections.

(** ** Which connections are served *)

Section Serving.
Context {K : SshKeys} {A : AuthKeys} {L : Libraries} {SL : SemaphoreLib}.
Variables (r : RelayRuntime) (ctx : OperationContext) (st0 : relay_state).
Hypothesis Hst0 : initial r = Some st0.

(** The [k]-th step accepted [c]'s stream, from a peer the policy admits. *)
Definition accepted (ls : list label) (k : nat) (c : RelayConnection) : Prop :=
  exists peer, ls !! k = Some (LAccept (rc_local c) peer) /\
    admitted (access_policy (options r)) peer.

(** [f] gives the step that accepted each task's stream. *)
Record origins (f : N -> nat) (ls : list label) (st : relay_state) : Prop := {
  or_tasks : map_Forall (fun i t => (i < next_task st)%N /\ accepted ls (f i) (fst t)) (tasks st);
  or_past : forall i, (i < next_task st)%N -> f i < length ls;
  or_increasing : forall i j, (i < j)%N -> (j < next_task st)%N -> f i < f j
}.

Lemma accepted_app ls ls' k c : accepted ls k c -> accepted (ls ++ ls') k c.
Proof. intros (peer & Hk & Hp). exists peer. split; [by apply lookup_app_l_Some|done]. Qed.

(** A step that starts no task. *)
Lemma origins_kept f ls l st st' :
  origins f ls st -> next_task st' = next_task st ->
  (forall i t', tasks st' !! i = Some t' -> exists t, tasks st !! i = Some t /\ fst t = fst t') ->
  origins f (ls ++ [l]) st'.
Proof.
  intros [Ht Hp Hi] Hn Hm. split; [|rewrite Hn; intros i Hlt%Hp; rewrite length_app; lia|by rewrite Hn].
  intros i t' (t & Hit & <-)%Hm. destruct (Ht _ _ Hit) as [Hlt Ha].
  rewrite Hn. split; [done|by apply accepted_app].
Qed.

Lemma kept_insert (m : gmap N (RelayConnection * phase)) i c p q :
  m !! i = Some (c, p) ->
  forall j t', <[i := (c, q)]> m !! j = Some t' -> exists t, m !! j = Some t /\ fst t = fst t'.
Proof. intros Hi j t' [[<- <-]|[_ Hj]]%lookup_insert_Some; eauto. Qed.

Lemma kept_delete (m : gmap N (RelayConnection * phase)) i :
  forall j t', delete i m !! j = Some t' -> exists t, m !! j = Some t /\ fst t = fst t'.
Proof. intros j t' [_ Hj]%lookup_delete_Some. eauto. Qed.

Lemma origins_dispatch f ls stream peer st :
  origins f ls st ->
  exists f', origins f' (ls ++ [LAccept stream peer]) (dispatch r ctx stream peer st).
Proof.
  intros Ho. unfold dispatch. destruct (allows _ peer) eqn:Hal; cbn [negb];
    [|exists f; apply (origins_kept _ _ _ _ _ Ho); eauto].
  destruct (sem_try_acquire _); [|exists f; apply (origins_kept _ _ _ _ _ Ho); eauto].
  destruct Ho as [Ht Hp Hi].
  exists (fun i => if decide (i = next_task st) then length ls else f i). split; cbn.
  - apply map_Forall_insert_2.
    + split; [lia|]. rewrite decide_True by done. exists peer.
      split; [by apply list_lookup_middle|by apply allows_iff].
    + intros i t Hit. destruct (Ht _ _ Hit) as [Hlt Ha]. rewrite decide_False by lia.
      split; [lia|by apply accepted_app].
  - intros i Hlt. rewrite length_app. cbn. case_decide; [lia|].
    specialize (Hp i ltac:(lia)). lia.
  - intros i j Hij Hj. rewrite (decide_False (P := i = next_task st)) by lia.
    case_decide; [apply Hp; lia|apply Hi; lia].
Qed.

Lemma origins_steps ls st : steps r ctx st0 ls st -> exists f, origins f ls st.
Proof.
  induction 1 as [|ls l st st' Hs [f IH] Hl].
  - exists (fun _ => 0). unfold initial in Hst0. destruct (sem_new _); [|done].
    injection Hst0 as <-. split; cbn; [apply map_Forall_empty|lia..].
  - destruct Hl as [st stream peer Hr Ha|st e Hr Ha|st i c Hi|st i c d bytes Hi|st i c x Hi Hx
      |st i c x Hi|st i c Hi|st i c Hi|st i c Hi]; [by eapply origins_dispatch|..];
      exists f; apply (origins_kept _ _ _ _ _ IH);
      cbn; eauto using kept_insert, kept_delete.
Qed.

End Serving.

(** ** Properties *)

Section Properties.
Context {K : SshKeys} {A : AuthKeys} {L : Libraries} {SL : SemaphoreLib}.

(** C10: whatever its clients, its accept loop and its tasks do, a relay tunnels only what it
    is configured to: every connection it is serving came from its own accept call, from a
    peer its access policy admits, each accepted stream being served by one task only, in
    the order of acceptance; and all that any execution of such a connection ever calls
    is: first, and once, a request for a channel to the relay's target, on the relay's
    session; then a copy between that stream and a channel the server has opened in answer to this very
    request, and the shutdown of these two. *)
Theorem relay_tunnels_only_admitted r ctx st0 ls st :
  initial r = Some st0 -> steps r ctx st0 ls st ->
  exists origin : N -> nat,
    (forall i j, is_Some (tasks st !! i) -> is_Some (tasks st !! j) ->
       (i < j)%N -> origin i < origin j) /\
    forall i c p, tasks st !! i = Some (c, p) ->
      (exists peer, ls !! origin i = Some (LAccept (rc_local c) peer) /\
         admitted (access_policy (options r)) peer) /\
      forall (S : Type) (E : Env S) turns (w : world S), exists l,
        w_log (fst (exec turns (run_connection c) w)) = w_log w ++ l /\
        forall l1 e l2, l = l1 ++ e :: l2 ->
          relay_event (session r) (target r) (rc_local c) (w_log w) (w_log w ++ l1) e.
Proof.
  intros H0 Hs. destruct (origins_steps _ _ _ H0 _ _ Hs) as [f [Ht _ Hi]].
  exists f. split.
  - intros i j _ [t Hj] Hij. apply Hi; [done|]. apply (Ht _ _ Hj).
  - intros i c p Hic. split; [apply (Ht _ _ Hic)|]. intros S E turns w.
    destruct (own_tasks_steps _ _ _ H0 _ _ Hs _ _ Hic) as (<- & <- & _). cbn [fst].
    apply each_elim, exec_always, wp_run_connection.
Qed.

End Properties.
