(* ===== verification/Streams.v ===== *)
(** * Streams: the stream types that wrap another stream.

    [SshChannelStream] ([src/core/channel.rs]) hands every poll on to russh's channel
    stream, and [CountingStream] ([src/core/relay.rs]) also counts what is read in the
    statistics its relay shares between all its streams.  [AsyncRead] and [AsyncWrite]
    are tokio's traits: a stream of type [I] is polled in a world [W], which holds
    everything its polls can reach by other ways than the stream itself.  A counting
    stream's world is the shared [RelayStats] beside the inner stream's world.  The
    theorem at the end follows a relay's two streams together. *)

From S2P Require Export Relay.

(** [Poll]. *)
Inductive poll_result (T : Type) := Pending | Ready (x : T).
Arguments Pending {T}.
Arguments Ready {T} x.

(** [ReadBuf]: its capacity, and the part of it that is filled. *)
Record ReadBuf := { capacity : nat; filled : list byte }.

Section Streams.
Context {K : SshKeys} {A : AuthKeys} {L : Libraries}.

(** ** The traits *)

Class AsyncRead (W I : Type) :=
  poll_read : I -> ReadBuf -> W -> W * I * ReadBuf * poll_result (result ForeignError unit).

Class AsyncWrite (W I : Type) := {
  poll_write : I -> list byte -> W -> W * I * poll_result (result ForeignError nat);
  poll_flush : I -> W -> W * I * poll_result (result ForeignError unit);
  poll_shutdown : I -> W -> W * I * poll_result (result ForeignError unit)
}.

(** ** Channel streams *)

Definition with_st_inner (s : SshChannelStream) (inner : RawStream) : SshChannelStream :=
  {| st_inner := inner; st_context := st_context s;
     st_operation_timeout := st_operation_timeout s |}.

Definition stream_poll_read `{AsyncRead W RawStream} (s : SshChannelStream) (buffer : ReadBuf)
    (w : W) : W * SshChannelStream * ReadBuf * poll_result (result ForeignError unit) :=
  let '(w, inner, buffer, result) := poll_read (st_inner s) buffer w in
  (w, with_st_inner s inner, buffer, result).

Definition stream_poll_write `{AsyncWrite W RawStream} (s : SshChannelStream) (data : list byte)
    (w : W) : W * SshChannelStream * poll_result (result ForeignError nat) :=
  let '(w, inner, result) := poll_write (st_inner s) data w in
  (w, with_st_inner s inner, result).

Definition stream_poll_flush `{AsyncWrite W RawStream} (s : SshChannelStream) (w : W)
  : W * SshChannelStream * poll_result (result ForeignError unit) :=
  let '(w, inner, result) := poll_flush (st_inner s) w in
  (w, with_st_inner s inner, result).

Definition stream_poll_shutdown `{AsyncWrite W RawStream} (s : SshChannelStream) (w : W)
  : W * SshChannelStream * poll_result (result ForeignError unit) :=
  let '(w, inner, result) := poll_shutdown (st_inner s) w in
  (w, with_st_inner s inner, result).

#[export] Instance stream_async_read `{AsyncRead W RawStream} : AsyncRead W SshChannelStream :=
  stream_poll_read.
#[export] Instance stream_async_write `{AsyncWrite W RawStream} : AsyncWrite W SshChannelStream :=
  {| poll_write := stream_poll_write; poll_flush := stream_poll_flush;
     poll_shutdown := stream_poll_shutdown |}.

(** ** Counting streams *)

(** [CountingStream], whose [stats] is the shared part of the world. *)
Record CountingStream (I : Type) := Counting { cs_inner : I; read_direction : CounterDirection }.
Arguments Counting {I} cs_inner read_direction.
Arguments cs_inner {I} c.
Arguments read_direction {I} c.

Definition counting_local {I} (inner : I) : CountingStream I := Counting inner LocalToRemote.
Definition counting_remote {I} (inner : I) : CountingStream I := Counting inner RemoteToLocal.

(** [CountingStream::add_bytes]. *)
Definition add_bytes (direction : CounterDirection) (bytes : nat) (stats : RelayStats)
  : RelayStats :=
  record_read direction (N.of_nat bytes) stats.

Definition counting_poll_read {W I : Type} `{AsyncRead W I} (s : CountingStream I) (buffer : ReadBuf)
    (w : RelayStats * W)
  : RelayStats * W * CountingStream I * ReadBuf * poll_result (result ForeignError unit) :=
  let '(stats, w) := w in
  let before := length (filled buffer) in
  let '(w, inner, buffer, result) := poll_read (cs_inner s) buffer w in
  let stats :=
    match result with
    | Ready (Ok _) =>
        let bytes := (length (filled buffer) - before)%nat in
        add_bytes (read_direction s) bytes stats
    | _ => stats
    end in
  ((stats, w), Counting inner (read_direction s), buffer, result).

Definition counting_poll_write {W I : Type} `{AsyncWrite W I} (s : CountingStream I) (buffer : list byte)
    (w : RelayStats * W)
  : RelayStats * W * CountingStream I * poll_result (result ForeignError nat) :=
  let '(stats, w) := w in
  let '(w, inner, result) := poll_write (cs_inner s) buffer w in
  ((stats, w), Counting inner (read_direction s), result).

Definition counting_poll_flush {W I : Type} `{AsyncWrite W I} (s : CountingStream I) (w : RelayStats * W)
  : RelayStats * W * CountingStream I * poll_result (result ForeignError unit) :=
  let '(stats, w) := w in
  let '(w, inner, result) := poll_flush (cs_inner s) w in
  ((stats, w), Counting inner (read_direction s), result).

Definition counting_poll_shutdown {W I : Type} `{AsyncWrite W I} (s : CountingStream I) (w : RelayStats * W)
  : RelayStats * W * CountingStream I * poll_result (result ForeignError unit) :=
  let '(stats, w) := w in
  let '(w, inner, result) := poll_shutdown (cs_inner s) w in
  ((stats, w), Counting inner (read_direction s), result).

#[export] Instance counting_async_read {W I : Type} `{AsyncRead W I}
  : AsyncRead (RelayStats * W) (CountingStream I) := counting_poll_read.
#[export] Instance counting_async_write {W I : Type} `{AsyncWrite W I}
  : AsyncWrite (RelayStats * W) (CountingStream I) :=
  {| poll_write := counting_poll_write; poll_flush := counting_poll_flush;
     poll_shutdown := counting_poll_shutdown |}.

(** ** Series of polls *)

(** One poll of a stream, and what it gave. *)
Inductive stream_op :=
| PollRead (buffer : ReadBuf)
| PollWrite (data : list byte)
| PollFlush
| PollShutdown.

Inductive stream_reply :=
| ReadReply (buffer : ReadBuf) (r : poll_result (result ForeignError unit))
| WriteReply (r : poll_result (result ForeignError nat))
| DoneReply (r : poll_result (result ForeignError unit)).

Definition poll_op {W I : Type} `{AsyncRead W I, !AsyncWrite W I} (s : I) (o : stream_op) (w : W)
  : W * I * stream_reply :=
  match o with
  | PollRead buffer =>
      let '(w, s, buffer, r) := poll_read s buffer w in (w, s, ReadReply buffer r)
  | PollWrite data => let '(w, s, r) := poll_write s data w in (w, s, WriteReply r)
  | PollFlush => let '(w, s, r) := poll_flush s w in (w, s, DoneReply r)
  | PollShutdown => let '(w, s, r) := poll_shutdown s w in (w, s, DoneReply r)
  end.

(** The polls that a copy between two streams makes of them, in any order. *)
Inductive side := LocalSide | RemoteSide.
#[export] Instance side_eq_decision : EqDecision side.
Proof. solve_decision. Defined.

Fixpoint poll_ops {W I J : Type} `{AsyncRead W I, !AsyncWrite W I, AsyncRead W J, !AsyncWrite W J}
    (ops : list (side * stream_op)) (local : I) (remote : J) (w : W)
  : W * I * J * list stream_reply :=
  match ops with
  | [] => (w, local, remote, [])
  | (LocalSide, o) :: ops =>
      let '(w, local, r) := poll_op local o w in
      let '(w, local, remote, rs) := poll_ops ops local remote w in
      (w, local, remote, r :: rs)
  | (RemoteSide, o) :: ops =>
      let '(w, remote, r) := poll_op remote o w in
      let '(w, local, remote, rs) := poll_ops ops local remote w in
      (w, local, remote, r :: rs)
  end.

(** The bytes that a poll delivered to its reader. *)
Definition delivered (o : stream_op) (r : stream_reply) : nat :=
  match o, r with
  | PollRead buffer, ReadReply buffer' (Ready (Ok _)) =>
      length (filled buffer') - length (filled buffer)
  | _, _ => 0
  end.

Fixpoint delivered_total (from : side) (ops : list (side * stream_op)) (rs : list stream_reply)
  : nat :=
  match ops, rs with
  | (sd, o) :: ops, r :: rs =>
      (if decide (sd = from) then delivered o r else 0) + delivered_total from ops rs
  | _, _ => 0
  end.

(** ** Counters *)

(** The counter of the bytes read on a side, and everything else. *)
Definition read_counter (sd : side) (s : RelayStats) : N :=
  match sd with
  | LocalSide => bytes_local_to_remote s
  | RemoteSide => bytes_remote_to_local s
  end.

Definition without_bytes (s : RelayStats) : RelayStats :=
  {| started_at := started_at s; accepted_connections := accepted_connections s;
     rejected_connections := rejected_connections s;
     active_connections := active_connections s;
     completed_connections := completed_connections s;
     failed_connections := failed_connections s;
     bytes_local_to_remote := 0; bytes_remote_to_local := 0 |}.

(** [s'] is [s] with [n sd] more bytes counted on each side. *)
Definition tallied (n : side -> nat) (s s' : RelayStats) : Prop :=
  (forall sd, read_counter sd s' mod u64_modulus =
              (read_counter sd s + N.of_nat (n sd)) mod u64_modulus)%N /\
  without_bytes s' = without_bytes s.

Lemma tallied_zero n s : (forall sd, n sd = 0) -> tallied n s s.
Proof. intros Hn. split; [|done]. intros sd. by rewrite Hn, N.add_0_r. Qed.

Lemma tallied_trans m n s s' s'' :
  tallied m s s' -> tallied n s' s'' -> tallied (fun sd => m sd + n sd) s s''.
Proof.
  intros [H1 E1] [H2 E2]. split; [|congruence]. intros sd.
  by rewrite H2, Nat2N.inj_add, N.add_assoc, <-N.Div0.add_mod_idemp_l, H1,
    N.Div0.add_mod_idemp_l.
Qed.

Definition side_direction (sd : side) : CounterDirection :=
  match sd with LocalSide => LocalToRemote | RemoteSide => RemoteToLocal end.

Lemma tallied_add_bytes sd n s :
  tallied (fun sd' => if decide (sd = sd') then n else 0) s
    (add_bytes (side_direction sd) n s).
Proof.
  split; [|by destruct sd]. intros []; destruct sd; cbn;
    unfold u64_wrapping_add; by rewrite ?N.Div0.mod_mod, ?N.add_0_r.
Qed.

End Streams.

Arguments Counting {I} cs_inner read_direction.

(** ** Wrapped streams *)

Section Wrappers.
Context {K : SshKeys} {A : AuthKeys} {L : Libraries}.

(** What a poll of a counting stream adds to the statistics. *)
Definition count_op (d : CounterDirection) (o : stream_op) (r : stream_reply) (s : RelayStats)
  : RelayStats :=
  match o, r with
  | PollRead buffer, ReadReply buffer' (Ready (Ok _)) =>
      add_bytes d (length (filled buffer') - length (filled buffer)) s
  | _, _ => s
  end.

Lemma poll_op_stream `{!AsyncRead W RawStream, !AsyncWrite W RawStream} (s : SshChannelStream)
    o (w : W) :
  poll_op s o w =
  let '(w, inner, r) := poll_op (st_inner s) o w in (w, with_st_inner s inner, r).
Proof.
  destruct o as [b|data| |]; cbn.
  - unfold poll_read at 1, stream_async_read, stream_poll_read.
    by destruct (poll_read (st_inner s) b w) as [[[w' i] b'] r].
  - unfold stream_poll_write. by destruct (poll_write (st_inner s) data w) as [[w' i] r].
  - unfold stream_poll_flush. by destruct (poll_flush (st_inner s) w) as [[w' i] r].
  - unfold stream_poll_shutdown. by destruct (poll_shutdown (st_inner s) w) as [[w' i] r].
Qed.

Lemma poll_op_counting {W I : Type} `{!AsyncRead W I, !AsyncWrite W I} (s : I) d o stats (w : W) :
  poll_op (Counting s d) o (stats, w) =
  let '(w, s, r) := poll_op s o w in ((count_op d o r stats, w), Counting s d, r).
Proof.
  destruct o as [b|data| |]; cbn.
  - unfold poll_read at 1, counting_async_read, counting_poll_read, poll_read; cbn.
    destruct (AsyncRead0 s b w) as [[[w' s'] b'] [|[]]]; done.
  - unfold counting_poll_write; cbn. by destruct (poll_write s data w) as [[w' s'] r].
  - unfold counting_poll_flush; cbn. by destruct (poll_flush s w) as [[w' s'] r].
  - unfold counting_poll_shutdown; cbn. by destruct (poll_shutdown s w) as [[w' s'] r].
Qed.

Lemma tallied_count_op sd o r s :
  tallied (fun sd' => if decide (sd = sd') then delivered o r else 0) s
    (count_op (side_direction sd) o r s).
Proof.
  destruct o, r as [b r| |]; cbn [count_op delivered];
    try (apply tallied_zero; intros sd'; by case_decide).
  destruct r as [|[]]; cbn;
    first [apply tallied_add_bytes|apply tallied_zero; intros; by case_decide].
Qed.

End Wrappers.

(** ** Properties *)

Section Properties.
Context {K : SshKeys} {A : AuthKeys} {L : Libraries}.

(** C33: a relay's two streams, the counting stream around its local socket and the one
    around the SSH channel stream, are transparent: any series of reads, writes, flushes
    and shutdowns of the two, in any order, gives the replies that the bare socket and the
    bare channel would have given and leaves them in the same state; the shared
    statistics have then grown, in each direction, by exactly the bytes the reads on that
    side delivered (modulo 2^64), failed and pending polls and writes adding nothing,
    and nothing else in them has changed. *)
Theorem counting_stream_exact {W I : Type}
    `{!AsyncRead W I, !AsyncWrite W I, !AsyncRead W RawStream, !AsyncWrite W RawStream}
    ops (local : I) (remote : RawStream) ctx timeout stats (w : W) :
  let channel inner :=
    {| st_inner := inner; st_context := ctx; st_operation_timeout := timeout |} in
  let '(w', local', remote', replies) := poll_ops ops local remote w in
  exists stats',
    poll_ops ops (counting_local local) (counting_remote (channel remote)) (stats, w) =
      ((stats', w'), counting_local local', counting_remote (channel remote'), replies) /\
    tallied (fun sd => delivered_total sd ops replies) stats stats'.
Proof.
  cbn zeta. revert local remote stats w.
  induction ops as [|[sd o] ops IH]; intros local remote stats w; cbn [poll_ops].
  { exists stats. split; [done|]. by apply tallied_zero. }
  destruct sd.
  - unfold counting_local at 1. rewrite poll_op_counting.
    destruct (poll_op local o w) as [[w1 local1] r].
    specialize (IH local1 remote (count_op LocalToRemote o r stats) w1).
    destruct (poll_ops ops local1 remote w1) as [[[w' local'] remote'] replies].
    destruct IH as (stats' & Hops & Ht). fold (counting_local local1). rewrite Hops.
    exists stats'. split; [done|]. eapply (tallied_trans _ _ _ _ _ (tallied_count_op LocalSide o r stats) Ht).
  - unfold counting_remote at 1. rewrite poll_op_counting, poll_op_stream. cbn [st_inner].
    destruct (poll_op remote o w) as [[w1 remote1] r].
    specialize (IH local remote1 (count_op RemoteToLocal o r stats) w1).
    destruct (poll_ops ops local remote1 w1) as [[[w' local'] remote'] replies].
    destruct IH as (stats' & Hops & Ht).
    change (Counting (with_st_inner _ remote1) RemoteToLocal) with
      (counting_remote {| st_inner := remote1; st_context := ctx; st_operation_timeout := timeout |}).
    rewrite Hops. exists stats'. split; [done|].
    eapply (tallied_trans _ _ _ _ _ (tallied_count_op RemoteSide o r stats) Ht).
Qed.

End Properties.
