(* ===== verification/Doubles.v ===== *)
(** * Doubles: IEEE 754 binary64 arithmetic, as far as the statistics use it.

    [f64] is [SpecFloat.spec_float] with 53 bits of precision and exponents up to 1024,
    rounded to nearest, ties to even.  Shown here: the operations keep the sign, 64-bit
    integers are finite, and, away from overflow and underflow, conversion, sum and quotient
    are accurate: the result is the exact one up to a relative error of 2^-52. *)

From Stdlib Require Import Floats.SpecFloat QArith Qpower Lqa.
From S2P Require Export Prelude.
#[local] Open Scope nat_scope.

(** ** Doubles *)

Abbreviation f64 := spec_float (only parsing).
Abbreviation f64_prec := 53%Z (only parsing).
Abbreviation f64_emax := 1024%Z (only parsing).

(** [n as f64], for an unsigned integer. *)
Definition f64_from (n : N) : f64 := binary_normalize f64_prec f64_emax (Z.of_N n) 0 false.
Definition f64_add : f64 -> f64 -> f64 := SFadd f64_prec f64_emax.
Definition f64_div : f64 -> f64 -> f64 := SFdiv f64_prec f64_emax.
Definition f64_zero : f64 := S754_zero false.

(** ** Rounding keeps the sign *)

(** Not negative, and a number. *)
Definition f64_nonneg (x : f64) : bool :=
  match x with
  | S754_zero s | S754_infinity s | S754_finite s _ _ => negb s
  | S754_nan => false
  end.

Definition f64_finite (x : f64) : bool :=
  match x with S754_zero _ | S754_finite _ _ _ => true | _ => false end.

Section Rounding.
#[local] Open Scope Z_scope.

Lemma shr_1_bounds mrs : 0 <= shr_m mrs -> 0 <= shr_m (shr_1 mrs) <= shr_m mrs.
Proof. destruct mrs as [[|[p|p|]|p] r s]; cbn; lia. Qed.

Lemma iter_shr_1_bounds (p : positive) (mrs : shr_record) :
  0 <= shr_m mrs -> 0 <= shr_m (SpecFloat.iter_pos shr_1 p mrs) <= shr_m mrs.
Proof.
  revert mrs. induction p as [p IH|p IH|]; intros mrs Hm; cbn.
  - pose proof (shr_1_bounds mrs Hm). pose proof (IH (shr_1 mrs)) as H1.
    pose proof (IH (SpecFloat.iter_pos shr_1 p (shr_1 mrs))) as H2. lia.
  - pose proof (IH mrs Hm) as H1. pose proof (IH (SpecFloat.iter_pos shr_1 p mrs)) as H2. lia.
  - by apply shr_1_bounds.
Qed.

(** Shifting a mantissa right leaves it between 0 and itself, and raises its exponent at
    most to that of its leading digits. *)
Lemma shr_fexp_bounds prec emax m e l mrs e' :
  0 <= m -> shr_fexp prec emax m e l = (mrs, e') ->
  0 <= shr_m mrs <= m /\ e' = Z.max e (fexp prec emax (Zdigits2 m + e)).
Proof.
  intros Hm. unfold shr_fexp, shr.
  assert (shr_m (shr_record_of_loc m l) = m) as Hl by by destruct l as [|[]].
  destruct (fexp prec emax (Zdigits2 m + e) - e) as [|p|p] eqn:Hd; intros [= <- <-].
  - rewrite Hl. lia.
  - pose proof (iter_shr_1_bounds p (shr_record_of_loc m l)). lia.
  - rewrite Hl. lia.
Qed.

Lemma round_nearest_even_bounds m l : 0 <= m -> 0 <= round_nearest_even m l <= m + 1.
Proof. intros Hm. destruct l as [|[]]; cbn; try lia. destruct (Z.even m); lia. Qed.

Lemma binary_round_aux_nonneg prec emax m e l :
  0 <= m -> f64_nonneg (binary_round_aux prec emax false m e l) = true.
Proof.
  intros Hm. unfold binary_round_aux.
  destruct (shr_fexp prec emax m e l) as [mrs e'] eqn:H1.
  destruct (shr_fexp_bounds _ _ _ _ _ _ _ Hm H1) as [Hb _].
  destruct (round_nearest_even_bounds (shr_m mrs) (loc_of_shr_record mrs)) as [Hr _]; [lia|].
  destruct (shr_fexp prec emax _ e' loc_Exact) as [mrs' e''] eqn:H2.
  destruct (shr_fexp_bounds _ _ _ _ _ _ _ Hr H2) as [Hb' _].
  destruct (shr_m mrs') as [|p|p]; [done| |lia]. by case_match.
Qed.

Lemma binary_normalize_nonneg prec emax m e :
  0 <= m -> f64_nonneg (binary_normalize prec emax m e false) = true.
Proof.
  intros Hm. destruct m as [|p|p]; cbn; [done| |lia]. unfold binary_round.
  destruct (shl_align _ _ _) as [mz ez]. by apply binary_round_aux_nonneg.
Qed.

Lemma f64_from_nonneg n : f64_nonneg (f64_from n) = true.
Proof. apply binary_normalize_nonneg. lia. Qed.

Lemma f64_add_nonneg x y :
  f64_nonneg x = true -> f64_nonneg y = true -> f64_nonneg (f64_add x y) = true.
Proof.
  unfold f64_add. destruct x as [[]|[]| |[]], y as [[]|[]| |[]]; try done.
  intros _ _. apply binary_normalize_nonneg. cbn. lia.
Qed.

(** A quotient is a number unless it is 0/0 or inf/inf. *)
Lemma f64_div_nonneg x y :
  f64_nonneg x = true -> f64_nonneg y = true -> f64_finite x = true ->
  SFeqb y f64_zero = false -> f64_nonneg (f64_div x y) = true.
Proof.
  unfold f64_div. destruct x as [[]|[]| |[] m e], y as [[]|[]| |[] m' e']; try done.
  intros _ _ _ _. unfold SFdiv.
  destruct (SFdiv_core_binary _ _ _ _ _ _) as [[q e1] l] eqn:Hq.
  apply binary_round_aux_nonneg. unfold SFdiv_core_binary in Hq.
  match type of Hq with context [Z.div_eucl ?a ?b] => 
    pose proof (Z.div_pos a b) as Hd; unfold Z.div in Hd;
    destruct (Z.div_eucl a b) as [q' r'] end.
  injection Hq as <- _ _. apply Hd; [|done].
  case_match; [done| |done]. apply Z.shiftl_nonneg. done.
Qed.

(** ** 64-bit integers are finite *)

Lemma iter_xO p q : Zpos (Pos.iter xO p q) = Zpos p * 2 ^ Zpos q.
Proof.
  induction q as [|q IH] using Pos.peano_ind; [cbn; lia|].
  rewrite Pos.iter_succ, Pos2Z.inj_xO, IH, Pos2Z.inj_succ, Z.pow_succ_r by done. lia.
Qed.

Lemma digits2_log2 p : Zpos (digits2_pos p) = Z.log2 (Zpos p) + 1.
Proof.
  induction p as [p IH|p IH|]; [| |done]; cbn [digits2_pos]; rewrite Pos2Z.inj_succ, IH.
  - rewrite (Pos2Z.inj_xI p), Z.log2_succ_double by done. lia.
  - rewrite (Pos2Z.inj_xO p), Z.log2_double by done. lia.
Qed.

Lemma Zdigits2_bound m k : 0 <= m < 2 ^ k -> 0 <= k -> 0 <= Zdigits2 m <= k.
Proof.
  intros Hm Hk. destruct m as [|p|p]; cbn; [lia| |lia].
  rewrite digits2_log2. pose proof (Z.log2_nonneg (Zpos p)).
  assert (Z.log2 (Zpos p) < k) by (apply Z.log2_lt_pow2; lia). lia.
Qed.

Lemma binary_round_aux_finite m e l :
  0 <= m < 2 ^ 120 -> e <= 0 -> f64_finite (binary_round_aux f64_prec f64_emax false m e l) = true.
Proof.
  intros Hm He. unfold binary_round_aux.
  destruct (shr_fexp f64_prec f64_emax m e l) as [mrs e'] eqn:H1.
  destruct (shr_fexp_bounds _ _ _ _ _ _ _ (proj1 Hm) H1) as [Hb ->].
  pose proof (Zdigits2_bound m 120 Hm) as Hd.
  destruct (round_nearest_even_bounds (shr_m mrs) (loc_of_shr_record mrs)) as [Hr Hr']; [lia|].
  destruct (shr_fexp f64_prec f64_emax _ _ loc_Exact) as [mrs' e''] eqn:H2.
  destruct (shr_fexp_bounds _ _ _ _ _ _ _ Hr H2) as [Hb' ->].
  set (m1 := round_nearest_even _ _) in *.
  pose proof (Zdigits2_bound m1 121) as Hd'.
  assert (2 ^ 121 = 2 * 2 ^ 120) as Hp by done.
  assert (Z.max (Z.max e (fexp 53 1024 (Zdigits2 m + e)))
    (fexp 53 1024 (Zdigits2 m1 + Z.max e (fexp 53 1024 (Zdigits2 m + e)))) <= 1024 - 53) as Hle.
  { unfold fexp, emin. lia. }
  destruct (shr_m mrs') as [|p|p]; [done| |lia].
  by destruct (Z.leb_spec (Z.max (Z.max e (fexp 53 1024 (Zdigits2 m + e)))
    (fexp 53 1024 (Zdigits2 m1 + Z.max e (fexp 53 1024 (Zdigits2 m + e))))) (1024 - 53)); [|lia].
Qed.

Lemma f64_from_finite n : (n < u64_modulus)%N -> f64_finite (f64_from n) = true.
Proof.
  intros Hn. unfold f64_from. destruct n as [|p]; [done|].
  assert (Zpos p < 2 ^ 64) as Hp.
  { change (2 ^ 64) with (Z.of_N u64_modulus). lia. }
  cbn [Z.of_N binary_normalize]. unfold binary_round, shl_align.
  pose proof (Zdigits2_bound (Zpos p) 64 ltac:(lia)) as Hd. cbn [Zdigits2] in Hd.
  rewrite Z.add_0_r, Z.sub_0_r.
  destruct (fexp f64_prec f64_emax (Zpos (digits2_pos p))) as [|q|q] eqn:He;
    try (apply binary_round_aux_finite; [|done]; lia).
  apply binary_round_aux_finite; [|lia].
  assert (Zpos q <= 52) as Hq by (unfold fexp, emin in He; lia).
  rewrite iter_xO. split; [lia|].
  pose proof (Z.pow_le_mono_r 2 (Zpos q) 52 ltac:(done) Hq) as Hpow.
  assert (2 ^ 120 = 2 ^ 64 * 2 ^ 52 * 2 ^ 4) as -> by done. nia.
Qed.

End Rounding.


(** ** Values *)

(** 2^-52. *)
Abbreviation ulp := (1 # 4503599627370496)%Q (only parsing).

Section Accuracy.
#[local] Open Scope Z_scope.

(** The rational [m * 2^e]. *)
Definition dyadic (m e : Z) : Q := (inject_Z m * 2 ^ e)%Q.

Lemma pow2_pos e : (0 < 2 ^ e)%Q.
Proof. by apply Qpower_0_lt. Qed.

Lemma pow2_add a b : (2 ^ (a + b) == 2 ^ a * 2 ^ b)%Q.
Proof. by apply Qpower_plus. Qed.

Lemma inject_pow2 k : 0 <= k -> (inject_Z (2 ^ k) == 2 ^ k)%Q.
Proof. intros Hk. by rewrite Zpower_Qpower. Qed.

Lemma dyadic_shift m e k : 0 <= k -> (dyadic (m * 2 ^ k) (e - k) == dyadic m e)%Q.
Proof.
  intros Hk. unfold dyadic. rewrite inject_Z_mult, inject_pow2 by done.
  rewrite <-Qmult_assoc, <-pow2_add. by replace (k + (e - k)) with e by lia.
Qed.

Lemma dyadic_le m m' e : m <= m' -> (dyadic m e <= dyadic m' e)%Q.
Proof.
  intros Hm. unfold dyadic. apply Qmult_le_compat_r; [by rewrite <-Zle_Qle|].
  apply Qlt_le_weak, pow2_pos.
Qed.

Lemma dyadic_pos m e : 0 < m -> (0 < dyadic m e)%Q.
Proof.
  intros Hm. unfold dyadic. apply Qmult_lt_0_compat; [|apply pow2_pos].
  by change 0%Q with (inject_Z 0); rewrite <-Zlt_Qlt.
Qed.

(** Digits are the place of the leading one. *)
Lemma Zdigits2_spec m : 0 < m -> 2 ^ (Zdigits2 m - 1) <= m < 2 ^ Zdigits2 m /\ 0 < Zdigits2 m.
Proof.
  intros Hm. destruct m as [|p|p]; [done| |done]. cbn [Zdigits2]. rewrite digits2_log2.
  pose proof (Z.log2_spec (Zpos p) ltac:(done)) as [H1 H2].
  pose proof (Z.log2_nonneg (Zpos p)). rewrite Z.add_simpl_r, Z.add_1_r. lia.
Qed.

Lemma Zdigits2_unique m d : 0 < d -> 2 ^ (d - 1) <= m < 2 ^ d -> Zdigits2 m = d.
Proof.
  intros Hd [H1 H2]. assert (0 < m) as Hm by (pose proof (Z.pow_pos_nonneg 2 (d - 1)); lia).
  destruct m as [|p|p]; [done| |done]. cbn [Zdigits2]. rewrite digits2_log2.
  rewrite (Z.log2_unique (Zpos p) (d - 1)); [lia|lia|]. by replace (Z.succ (d - 1)) with d by lia.
Qed.

Lemma Zdigits2_mono m m' : 0 < m -> m <= m' -> Zdigits2 m <= Zdigits2 m'.
Proof.
  intros Hm Hle. destruct (Zdigits2_spec m Hm) as [[H1 _] _].
  destruct (Zdigits2_spec m' ltac:(lia)) as [[_ H2] Hd].
  apply Z.lt_pred_le, (Z.pow_lt_mono_r_iff 2); lia.
Qed.

Lemma Zdigits2_shift m k : 0 < m -> 0 <= k -> Zdigits2 (m * 2 ^ k) = Zdigits2 m + k.
Proof.
  intros Hm Hk. destruct (Zdigits2_spec m Hm) as [[H1 H2] Hd].
  apply Zdigits2_unique; [lia|].
  replace (Zdigits2 m + k - 1) with (Zdigits2 m - 1 + k) by lia.
  rewrite !Z.pow_add_r by lia. pose proof (Z.pow_pos_nonneg 2 k). nia.
Qed.

(** ** Shifting right *)

Lemma shr_1_half mrs : 0 <= shr_m mrs -> shr_m (shr_1 mrs) = shr_m mrs / 2.
Proof.
  destruct mrs as [[|[p|p|]|p] r s]; cbn [shr_1 shr_m]; intros Hm; try done.
  - rewrite (Pos2Z.inj_xI p). by rewrite Z.mul_comm, Z.div_add_l.
  - rewrite (Pos2Z.inj_xO p). by rewrite Z.mul_comm, Z.div_mul.
Qed.

Lemma iter_shr_1_div p mrs :
  0 <= shr_m mrs -> shr_m (SpecFloat.iter_pos shr_1 p mrs) = shr_m mrs / 2 ^ Zpos p.
Proof.
  revert mrs. induction p as [p IH|p IH|]; intros mrs Hm; cbn [SpecFloat.iter_pos].
  - pose proof (shr_1_bounds mrs Hm). pose proof (iter_shr_1_bounds p (shr_1 mrs)).
    rewrite !IH, shr_1_half by lia. rewrite !Z.div_div by lia.
    f_equal. rewrite (Pos2Z.inj_xI p). rewrite Z.pow_add_r, Z.pow_mul_r by lia.
    replace (2 ^ 2) with (2 * 2) by done. rewrite Z.pow_mul_l. lia.
  - pose proof (iter_shr_1_bounds p mrs). rewrite !IH by lia. rewrite Z.div_div by lia.
    f_equal. rewrite (Pos2Z.inj_xO p), Z.pow_mul_r by lia.
    replace (2 ^ 2) with (2 * 2) by done. by rewrite Z.pow_mul_l.
  - by apply shr_1_half.
Qed.

Lemma shr_m_of_loc m l : shr_m (shr_record_of_loc m l) = m.
Proof. by destruct l as [|[]]. Qed.

(** What [shr_fexp] keeps of a number whose exponent is in the normal range: 53 digits. *)
Lemma shr_fexp_normal m e l :
  0 < m -> -1021 <= Zdigits2 m + e ->
  shr_fexp f64_prec f64_emax m e l =
    if Zdigits2 m <=? 53 then (shr_record_of_loc m l, e)
    else (SpecFloat.iter_pos shr_1 (Z.to_pos (Zdigits2 m - 53)) (shr_record_of_loc m l),
          e + (Zdigits2 m - 53)).
Proof.
  intros Hm Hr. unfold shr_fexp. assert (fexp f64_prec f64_emax (Zdigits2 m + e) - e = Zdigits2 m - 53) as ->.
  { unfold fexp, emin. lia. }
  destruct (Z.leb_spec (Zdigits2 m) 53) as [Hd|Hd]; unfold shr.
  - by destruct (Zdigits2 m - 53) eqn:Hz; [|lia|].
  - destruct (Zdigits2 m - 53) as [|p|p] eqn:Hz; [lia|done|lia].
Qed.

(** ** One rounding *)

(** [x] is [v] up to a relative error of [u]. *)
Definition near (u x v : Q) : Prop := ((1 - u) * v <= x <= (1 + u) * v)%Q.

(** [v] lies in the interval of [m * 2^e] and its successor, and at its start, with nothing
    lost, when [m] has fewer than 53 digits. *)
Record located (m e : Z) (l : SpecFloat.location) (v : Q) : Prop := {
  lc_between : (dyadic m e <= v < dyadic (m + 1) e)%Q;
  lc_digits : 2 ^ 52 <= m \/ l = loc_Exact /\ (v == dyadic m e)%Q
}.

(** Neither overflow nor underflow is near. *)
Definition in_range (m e : Z) : Prop := -1000 <= Zdigits2 m + e <= 900 /\ e <= 900.

Lemma located_scale m e k v :
  0 <= k -> (dyadic m e <= v < dyadic (m + 1) e)%Q ->
  (dyadic (m / 2 ^ k) (e + k) <= v < dyadic (m / 2 ^ k + 1) (e + k))%Q.
Proof.
  intros Hk [H1 H2]. pose proof (Z.pow_pos_nonneg 2 k ltac:(done) Hk) as Hp.
  pose proof (Z.div_mod m (2 ^ k)) as Hdm. pose proof (Z.mod_pos_bound m (2 ^ k) Hp).
  rewrite <-(dyadic_shift (m / 2 ^ k) (e + k) k), <-(dyadic_shift (m / 2 ^ k + 1) (e + k) k) by done.
  replace (e + k - k) with e by lia. split.
  - eapply Qle_trans; [|exact H1]. apply dyadic_le. lia.
  - eapply Qlt_le_trans; [exact H2|]. apply dyadic_le. lia.
Qed.

(** The first shift: 53 digits are kept, or fewer when that is all there were. *)
Lemma shr_fexp_located m e l v :
  0 < m -> in_range m e -> located m e l v ->
  exists mrs e', shr_fexp f64_prec f64_emax m e l = (mrs, e') /\
    0 < shr_m mrs < 2 ^ 53 /\ -1000 <= Zdigits2 (shr_m mrs) + e' <= 900 /\ e' <= 900 /\
    located (shr_m mrs) e' (loc_of_shr_record mrs) v.
Proof.
  intros Hm Hr [Hb Hd]. destruct (Zdigits2_spec m Hm) as [[H1 H2] Hd0].
  rewrite shr_fexp_normal by (done || (unfold in_range in Hr; lia)).
  destruct (Z.leb_spec (Zdigits2 m) 53) as [Hle|Hgt]; eexists _, _; (split; [reflexivity|]).
  - rewrite shr_m_of_loc. pose proof (Z.pow_le_mono_r 2 (Zdigits2 m) 53 ltac:(done) Hle).
    split; [lia|]. split; [apply Hr|]. split; [apply Hr|].
    split; [done|]. destruct Hd as [?|[-> ?]]; [by left|by right].
  - set (k := Zdigits2 m - 53) in *. rewrite iter_shr_1_div, shr_m_of_loc
      by (rewrite shr_m_of_loc; lia).
    rewrite Z2Pos.id by lia.
    assert (2 ^ 52 <= m / 2 ^ k < 2 ^ 53) as Hm0.
    { split.
      - apply Z.div_le_lower_bound; [apply Z.pow_pos_nonneg; lia|].
        rewrite <-Z.pow_add_r by lia. by replace (k + 52) with (Zdigits2 m - 1) by lia.
      - apply Z.div_lt_upper_bound; [apply Z.pow_pos_nonneg; lia|].
        rewrite <-Z.pow_add_r by lia. by replace (k + 53) with (Zdigits2 m) by lia. }
    assert (Zdigits2 (m / 2 ^ k) = 53) as -> by (by apply Zdigits2_unique).
    unfold in_range in Hr. split; [lia|]. split; [lia|]. split; [lia|].
    split; [apply located_scale; [lia|done]|left; lia].
Qed.

(** The second shift loses nothing. *)
Lemma shr_fexp_exact m e :
  0 < m <= 2 ^ 53 -> -1000 <= Zdigits2 m + e -> e <= 900 ->
  exists mrs e', shr_fexp f64_prec f64_emax m e loc_Exact = (mrs, e') /\
    0 < shr_m mrs /\ e' <= 901 /\ (dyadic (shr_m mrs) e' == dyadic m e)%Q.
Proof.
  intros [Hm Hm2] Hr He. rewrite shr_fexp_normal by lia.
  destruct (Zdigits2_spec m Hm) as [[H1 H2] Hd0].
  destruct (Z.leb_spec (Zdigits2 m) 53) as [Hle|Hgt]; eexists _, _; (split; [reflexivity|]).
  - by split; [|split; [lia|]].
  - assert (m = 2 ^ 53) as ->.
    { pose proof (Z.pow_le_mono_r 2 53 (Zdigits2 m - 1) ltac:(done)). lia. }
    change (Zdigits2 (2 ^ 53)) with 54. change (shr_m _) with (2 ^ 52).
    split; [done|]. split; [lia|].
    rewrite <-(dyadic_shift (2 ^ 52) (e + (54 - 53)) 1) by done.
    by replace (e + (54 - 53) - 1) with e by lia.
Qed.

Lemma round_cases m l :
  round_nearest_even m l = m \/ (l <> loc_Exact /\ round_nearest_even m l = m + 1).
Proof. destruct l as [|[]]; cbn; [by left| |by left|by right]. destruct (Z.even m); auto. Qed.

(** Either end of the interval is near what lies in it. *)
Lemma dyadic_near m m' e v :
  2 ^ 52 <= m -> m <= m' <= m + 1 -> (dyadic m e <= v < dyadic (m + 1) e)%Q ->
  near ulp (dyadic m' e) v.
Proof.
  intros Hm Hm' [H1 H2]. unfold near, dyadic in *. pose proof (pow2_pos e) as Hp.
  rewrite inject_Z_plus in H2. change (inject_Z 1) with 1%Q in H2.
  assert (inject_Z (2 ^ 52) <= inject_Z m)%Q as Hq by (by rewrite <-Zle_Qle).
  assert (inject_Z m <= inject_Z m' <= inject_Z m + 1)%Q as [Hl Hh].
  { change 1%Q with (inject_Z 1). rewrite <-inject_Z_plus, <-!Zle_Qle. lia. }
  set (x := inject_Z m) in *. set (y := inject_Z m') in *. set (p := (2 ^ e)%Q) in *.
  change (inject_Z (2 ^ 52)) with (4503599627370496 # 1)%Q in Hq.
  assert ((4503599627370496 # 1) * p <= v)%Q by nra.
  assert (x * p <= y * p)%Q by nra. assert (y * p <= x * p + p)%Q by nra.
  split; lra.
Qed.

Lemma binary_round_aux_near m e l v :
  0 < m -> in_range m e -> located m e l v ->
  exists m' e', binary_round_aux f64_prec f64_emax false m e l = S754_finite false m' e' /\
    near ulp (dyadic (Zpos m') e') v.
Proof.
  intros Hm Hr Hl. destruct (shr_fexp_located m e l v Hm Hr Hl)
    as (mrs & e0 & H1 & Hm0 & Hr0 & He0 & [Hb Hd]).
  unfold binary_round_aux. rewrite H1.
  set (m1 := round_nearest_even _ _).
  assert (shr_m mrs <= m1 <= shr_m mrs + 1) as Hm1.
  { unfold m1. destruct (round_cases (shr_m mrs) (loc_of_shr_record mrs)) as [->|[_ ->]]; lia. }
  pose proof (Zdigits2_mono (shr_m mrs) m1 ltac:(lia) ltac:(lia)) as Hdd.
  destruct (shr_fexp_exact m1 e0) as (mrs' & e' & H2 & Hp & He' & Hv); [lia|lia|lia|].
  rewrite H2. destruct (shr_m mrs') as [|p|p] eqn:Hq; [lia| |lia].
  destruct (Z.leb_spec e' (f64_emax - f64_prec)) as [_|Ho]; [|lia].
  exists p, e'. split; [done|]. unfold near. rewrite Hv. change (near ulp (dyadic m1 e0) v).
  destruct Hd as [Hd|[Hd Hx]]; [by eapply dyadic_near|].
  unfold m1. rewrite Hd. cbn [round_nearest_even]. unfold near. rewrite Hx.
  pose proof (dyadic_pos (shr_m mrs) e0 ltac:(lia)). lra.
Qed.

(** ** Operations *)

(** A positive double, near [v]. *)
Definition approx (u : Q) (x : f64) (v : Q) : Prop :=
  exists m e, x = S754_finite false m e /\ near u (dyadic (Zpos m) e) v.

Lemma pow2_lt_inv a b : (2 ^ a < 2 ^ b)%Q -> a < b.
Proof.
  intros Hab. destruct (Z.lt_ge_cases a b) as [|Hba]; [done|].
  apply (Qpower_le_compat_l 2 b a) in Hba; [|by vm_compute]. lra.
Qed.

Lemma dyadic_pow2 d e : 0 <= d -> (dyadic (2 ^ d) e == 2 ^ (d + e))%Q.
Proof. intros Hd. unfold dyadic. by rewrite inject_pow2, pow2_add. Qed.

(** A value between two powers of two says where the leading digit is. *)
Lemma dyadic_digits m e a b :
  0 < m -> (2 ^ a <= dyadic m e < 2 ^ b)%Q -> a < Zdigits2 m + e <= b.
Proof.
  intros Hm [Ha Hb]. destruct (Zdigits2_spec m Hm) as [[H1 H2] Hd]. split.
  - apply pow2_lt_inv. eapply Qle_lt_trans; [exact Ha|]. rewrite <-dyadic_pow2 by lia.
    unfold dyadic. apply Qmult_lt_compat_r; [apply pow2_pos|]. by rewrite <-Zlt_Qlt.
  - assert (Zdigits2 m - 1 + e < b) as Hlt; [|lia].
    apply pow2_lt_inv. eapply Qle_lt_trans; [|exact Hb]. rewrite <-dyadic_pow2 by lia.
    by apply dyadic_le.
Qed.

Lemma shl_align_dyadic p e e' :
  let '(p', e2) := shl_align p e e' in
  e2 = Z.min e e' /\ Zpos p' = Zpos p * 2 ^ (e - e2) /\ (dyadic (Zpos p') e2 == dyadic (Zpos p) e)%Q.
Proof.
  unfold shl_align. destruct (e' - e) as [|q|q] eqn:Hq.
  1, 2: split; [lia|]; by rewrite Z.sub_diag, Z.mul_1_r.
  rewrite iter_xO. replace (Zpos q) with (e - e') by lia. split; [lia|]. split; [done|].
  rewrite <-(dyadic_shift (Zpos p) e (e - e')) by lia. by replace (e - (e - e')) with e' by lia.
Qed.

Lemma binary_round_approx p e :
  -1000 <= Zdigits2 (Zpos p) + e <= 900 ->
  approx ulp (binary_round f64_prec f64_emax false p e) (dyadic (Zpos p) e).
Proof.
  intros Hr. unfold binary_round. pose proof (shl_align_dyadic p e
    (fexp f64_prec f64_emax (Zpos (digits2_pos p) + e))) as Ha.
  destruct (shl_align _ _ _) as [p' e'] eqn:Hal. destruct Ha as (He & Hp & Hv).
  change (Zpos (digits2_pos p)) with (Zdigits2 (Zpos p)) in He.
  assert (fexp f64_prec f64_emax (Zdigits2 (Zpos p) + e) = Zdigits2 (Zpos p) + e - 53) as Hf
    by (unfold fexp, emin; lia).
  rewrite Hf in He.
  assert (Zdigits2 (Zpos p') = Zdigits2 (Zpos p) + (e - e')) as Hd.
  { rewrite Hp. apply Zdigits2_shift; lia. }
  destruct (Zdigits2_spec (Zpos p') ltac:(done)) as [[H1 _] _].
  apply binary_round_aux_near; [done|unfold in_range; lia|]. split.
  - rewrite <-Hv. split; [apply Qle_refl|]. unfold dyadic. rewrite inject_Z_plus.
    change (inject_Z 1) with 1%Q. pose proof (pow2_pos e'). nra.
  - right. split; [done|]. by rewrite Hv.
Qed.

Lemma f64_from_approx n :
  (0 < n < u64_modulus)%N -> approx ulp (f64_from n) (inject_Z (Z.of_N n)).
Proof.
  intros [Hn Hm]. destruct n as [|p]; [done|]. unfold f64_from. cbn [Z.of_N binary_normalize].
  destruct (binary_round_approx p 0) as (m & e & Hx & Hv).
  - pose proof (Zdigits2_bound (Zpos p) 64). assert (2 ^ 64 = Z.of_N u64_modulus) by done. lia.
  - exists m, e. split; [done|]. unfold near, dyadic in Hv. rewrite !Qmult_1_r in Hv. exact Hv.
Qed.

(** A sum, when both terms are positive. *)
Lemma f64_add_approx m1 e1 m2 e2 a b :
  let v := (dyadic (Zpos m1) e1 + dyadic (Zpos m2) e2)%Q in
  (2 ^ a <= v < 2 ^ b)%Q -> -1000 <= a -> b <= 900 ->
  approx ulp (f64_add (S754_finite false m1 e1) (S754_finite false m2 e2)) v.
Proof.
  intros v Hv Ha Hb. unfold f64_add, SFadd. cbn [cond_Zopp].
  pose proof (shl_align_dyadic m1 e1 (Z.min e1 e2)) as H1.
  pose proof (shl_align_dyadic m2 e2 (Z.min e1 e2)) as H2.
  destruct (shl_align m1 _ _) as [p1 q1], (shl_align m2 _ _) as [p2 q2]. cbn [fst].
  destruct H1 as (-> & _ & H1), H2 as (-> & _ & H2).
  replace (Z.min e1 (Z.min e1 e2)) with (Z.min e1 e2) in H1 by lia.
  replace (Z.min e2 (Z.min e1 e2)) with (Z.min e1 e2) in H2 by lia.
  set (e := Z.min e1 e2) in *. cbn [Z.add binary_normalize].
  assert (v == dyadic (Zpos (p1 + p2)) e)%Q as Hs.
  { unfold v. rewrite <-H1, <-H2. unfold dyadic. rewrite Pos2Z.inj_add, inject_Z_plus. ring. }
  rewrite Hs in Hv. pose proof (dyadic_digits (Zpos (p1 + p2)) e a b ltac:(done) Hv).
  destruct (binary_round_approx (p1 + p2) e) as (m & e' & Hx & Hn); [lia|].
  exists m, e'. split; [exact Hx|]. unfold near in *. by rewrite Hs.
Qed.

(** A remainder of zero is exact. *)
Lemma new_location_exact n r : 0 < n -> new_location n r = loc_Exact -> r = 0.
Proof.
  intros Hn. unfold new_location, new_location_even, new_location_odd.
  destruct (Z.even n), (Z.eqb_spec r 0); done.
Qed.

Lemma quotient_dyadic e1 m2 e2 s q :
  (dyadic q (e1 - e2 - s) * dyadic m2 e2 == dyadic (q * m2) (e1 - s))%Q.
Proof.
  unfold dyadic. rewrite inject_Z_mult.
  replace (e1 - s) with (e1 - e2 - s + e2) by lia. rewrite pow2_add. ring.
Qed.

(** The leading digit of a quotient. *)
Lemma quotient_digits m1 m2 s q r :
  0 < m1 -> 0 <= r < m2 -> 0 <= s -> m1 * 2 ^ s = m2 * q + r ->
  let n := Zdigits2 m1 + s - Zdigits2 m2 in
  1 <= n -> 2 ^ (n - 1) <= q < 2 ^ (n + 1).
Proof.
  intros Hm1 Hr Hs Hq n Hn.
  destruct (Zdigits2_spec m1 Hm1) as [[A1 A2] A3].
  destruct (Zdigits2_spec m2 ltac:(lia)) as [[B1 B2] B3].
  set (d1 := Zdigits2 m1) in *. set (d2 := Zdigits2 m2) in *.
  assert (2 ^ (d1 - 1 + s) <= m1 * 2 ^ s < 2 ^ (d1 + s)) as Hm.
  { rewrite !Z.pow_add_r by lia. pose proof (Z.pow_pos_nonneg 2 s). nia. }
  replace (d1 - 1 + s) with (d2 + (n - 1)) in Hm by lia.
  replace (d1 + s) with (d2 - 1 + (n + 1)) in Hm by lia.
  rewrite !Z.pow_add_r in Hm by lia.
  pose proof (Z.pow_pos_nonneg 2 (n - 1)). pose proof (Z.pow_pos_nonneg 2 (n + 1)).
  rewrite !Z.pow_sub_r, Z.pow_add_r in * by lia.
  split.
  - apply Z.lt_succ_r, (Z.mul_lt_mono_pos_l m2); [lia|]. nia.
  - apply (Z.mul_lt_mono_pos_l m2); [lia|]. nia.
Qed.

(** A quotient and its remainder locate the exact quotient. *)
Lemma quotient_located m1 e1 m2 e2 s q r :
  0 < m2 -> 0 <= r < m2 -> 0 <= s -> m1 * 2 ^ s = m2 * q + r -> 2 ^ 52 <= q ->
  located q (e1 - e2 - s) (new_location m2 r) (dyadic m1 e1 / dyadic m2 e2).
Proof.
  intros Hm2 Hr Hs Hq Hq52. pose proof (dyadic_pos m2 e2 Hm2) as Hd. split; [|by left].
  rewrite <-(dyadic_shift m1 e1 s Hs). split.
  - apply Qle_shift_div_l; [exact Hd|]. rewrite quotient_dyadic. apply dyadic_le. lia.
  - apply Qlt_shift_div_r; [exact Hd|]. rewrite quotient_dyadic. unfold dyadic.
    apply Qmult_lt_compat_r; [apply pow2_pos|]. rewrite <-Zlt_Qlt. lia.
Qed.

Lemma f64_div_approx m1 e1 m2 e2 :
  let k := Zdigits2 (Zpos m1) + e1 - (Zdigits2 (Zpos m2) + e2) in
  -400 <= k <= 400 ->
  approx ulp (f64_div (S754_finite false m1 e1) (S754_finite false m2 e2))
    (dyadic (Zpos m1) e1 / dyadic (Zpos m2) e2).
Proof.
  intros k Hk. unfold f64_div, SFdiv, SFdiv_core_binary. cbn [xorb]. fold k.
  assert (fexp f64_prec f64_emax k = k - 53) as -> by (unfold fexp, emin; lia).
  set (e' := Z.min (k - 53) (e1 - e2)). set (s := e1 - e2 - e').
  assert (0 <= s) as Hs by lia.
  assert (match s with Zpos _ => Z.shiftl (Zpos m1) s | 0 => Zpos m1 | Zneg _ => 0 end =
          Zpos m1 * 2 ^ s) as ->.
  { destruct s as [|s'|s'] eqn:He; [lia| |lia]. by rewrite Z.shiftl_mul_pow2. }
  pose proof (Z_div_mod (Zpos m1 * 2 ^ s) (Zpos m2) ltac:(done)) as Hq.
  destruct (Z.div_eucl _ _) as [q r]. destruct Hq as [Hq Hr].
  pose proof (quotient_digits (Zpos m1) (Zpos m2) s q r ltac:(done) Hr Hs Hq ltac:(lia)) as [Hq1 Hq2].
  replace (Zdigits2 (Zpos m1) + s - Zdigits2 (Zpos m2)) with (k - e') in Hq1, Hq2 by lia.
  assert (2 ^ 52 <= q) as Hq52.
  { eapply Z.le_trans; [|exact Hq1]. apply Z.pow_le_mono_r; lia. }
  destruct (Zdigits2_spec q ltac:(lia)) as [[C1 C2] C3].
  assert (k - e' - 1 < Zdigits2 q) by (apply (Z.pow_lt_mono_r_iff 2); lia).
  assert (Zdigits2 q - 1 < k - e' + 1) by (apply (Z.pow_lt_mono_r_iff 2); lia).
  apply binary_round_aux_near; [lia|unfold in_range; lia|].
  replace e' with (e1 - e2 - s) by lia. by apply quotient_located.
Qed.

(** ** Composing errors *)

#[local] Open Scope Q_scope.

Lemma near_weaken u u' x v : u <= u' -> 0 <= v -> near u x v -> near u' x v.
Proof. intros Hu Hv [H1 H2]. unfold near. split; nra. Qed.

Lemma near_trans u w x y v :
  0 <= u <= 1 -> 0 <= w <= 1 -> 0 <= v -> near u x y -> near w y v -> near (w + 2 * u) x v.
Proof.
  intros [Hu Hu1] [Hw Hw1] Hv [H1 H2] [H3 H4]. unfold near.
  assert (0 <= w * v <= v) by nra. assert (0 <= u * (w * v) <= u * v) by nra.
  assert (0 <= u * v) by nra. split; nra.
Qed.

Lemma near_add u x y v z : near u x v -> near u y z -> near u (x + y) (v + z).
Proof. intros [? ?] [? ?]. unfold near. split; lra. Qed.

Lemma near_div u w x y v z :
  0 <= u -> 0 <= w -> u + 2 * w <= 1 -> 0 < v -> 0 < z -> near u x v -> near w y z ->
  near (u + 2 * w) (x / y) (v / z).
Proof.
  intros Hu Hw Huw Hv Hz [H1 H2] [H3 H4].
  assert (0 < y) as Hy by nra. assert (0 < v / z) as Hr by (apply Qlt_shift_div_l; lra).
  assert (v == v / z * z) as Hvz by (field; lra). set (r := v / z) in *.
  assert (0 < r * z) as Ht by nra. unfold near.
  assert (r * ((1 + w) * z) == (1 + w) * (r * z)) as E1 by ring.
  assert (r * ((1 - w) * z) == (1 - w) * (r * z)) as E2 by ring.
  assert (r * ((1 - w) * z) <= r * y <= r * ((1 + w) * z)) as [F1 F2] by (split; nra).
  rewrite E2 in F1. rewrite E1 in F2. rewrite Hvz in H1, H2. set (t := r * z) in *.
  assert (0 <= w * t) as P1 by nra. assert (0 <= u * (w * t)) by nra.
  assert (0 <= w * (w * t)) by nra. assert (w * (w * t) <= w * t) by nra.
  assert ((u + 2 * w) * (w * t) <= w * t) by nra.
  split; [apply Qle_shift_div_l|apply Qle_shift_div_r]; [done| |done|].
  - assert ((1 - (u + 2 * w)) * (r * y) <= (1 - (u + 2 * w)) * ((1 + w) * t)) by nra. nra.
  - assert ((1 + (u + 2 * w)) * ((1 - w) * t) <= (1 + (u + 2 * w)) * (r * y)) by nra. nra.
Qed.

#[export] Instance near_proper : Proper (Qeq ==> Qeq ==> Qeq ==> iff) near.
Proof. intros u u' Hu x x' Hx v v' Hv. unfold near. by rewrite Hu, Hx, Hv. Qed.

#[export] Instance approx_proper u x : Proper (Qeq ==> iff) (approx u x).
Proof.
  intros v v' Hv. split; intros (m & e & -> & Hn); exists m, e; (split; [done|]);
    [by rewrite <-Hv|by rewrite Hv].
Qed.

Lemma approx_weaken u u' x v : u <= u' -> 0 <= v -> approx u x v -> approx u' x v.
Proof. intros Hu Hv (m & e & -> & Hn). exists m, e. split; [done|by eapply near_weaken]. Qed.

(** Where the leading digit of a double near [v] is. *)
Lemma near_digits u m e v a b :
  0 <= u <= (1 # 2) -> near u (dyadic (Zpos m) e) v -> 2 ^ a <= v < 2 ^ b ->
  (a - 1 < Zdigits2 (Zpos m) + e <= b + 1)%Z.
Proof.
  intros [Hu Hu'] [H1 H2] [Ha Hb]. pose proof (pow2_pos a). apply dyadic_digits; [done|].
  assert (2 ^ a == 2 ^ (a - 1) * 2) as Ea.
  { replace a with (a - 1 + 1)%Z at 1 by lia. by rewrite pow2_add. }
  rewrite pow2_add. change (2 ^ 1) with 2. split; nra.
Qed.

Lemma approx_div u w x y v z :
  0 <= u -> 0 <= w -> u + 2 * w <= (1 # 2) -> 2 ^ (-90) <= v < 2 ^ 90 -> 2 ^ (-90) <= z < 2 ^ 90 ->
  approx u x v -> approx w y z -> approx (u + 2 * w + 2 * ulp) (f64_div x y) (v / z).
Proof.
  intros Hu Hw Huw Hv Hz (m1 & e1 & -> & H1) (m2 & e2 & -> & H2).
  pose proof (near_digits u m1 e1 v (-90) 90 ltac:(lra) H1 Hv).
  pose proof (near_digits w m2 e2 z (-90) 90 ltac:(lra) H2 Hz).
  pose proof (pow2_pos (-90)).
  assert (0 < v / z) as Hr by (apply Qlt_shift_div_l; lra).
  pose proof (near_div u w _ _ v z Hu Hw ltac:(lra) ltac:(lra) ltac:(lra) H1 H2) as Hq.
  destruct (f64_div_approx m1 e1 m2 e2) as (m & e & -> & Hn); [lia|]. exists m, e. split; [done|].
  apply (near_trans ulp (u + 2 * w) _ _ (v / z)) in Hn; [exact Hn|lra..|exact Hq].
Qed.

Lemma approx_add u x y v z :
  0 <= u <= (1 # 2) -> 2 ^ (-90) <= v -> 0 <= z -> v + z < 2 ^ 90 ->
  approx u x v -> approx u y z -> approx (u + 2 * ulp) (f64_add x y) (v + z).
Proof.
  intros Hu Hv Hz Hb (m1 & e1 & -> & H1) (m2 & e2 & -> & H2).
  pose proof (near_add u _ _ v z H1 H2) as Hs. pose proof (pow2_pos (-90)).
  destruct (f64_add_approx m1 e1 m2 e2 (-91) 91) as (m & e & -> & Hn); [|done|done|].
  - change (-91)%Z with (-90 + -1)%Z. change 91%Z with (90 + 1)%Z. rewrite !pow2_add.
    change (2 ^ (-1)) with (1 # 2). change (2 ^ 1) with 2. destruct Hs. split; nra.
  - exists m, e. split; [done|].
    apply (near_trans ulp u _ _ (v + z)) in Hn; [exact Hn|lra..|exact Hs].
Qed.

End Accuracy.
