(* ===== verification/Statistics.v ===== *)
(** * Statistics: the numbers a relay reports ([src/core/relay.rs]).

    The counters of [RelayStats] are 64-bit words that every relay task adds to; a
    [ForwardingRelayStatsSnapshot] copies them and derives a total and a throughput.  This
    file gives the throughput on the doubles of [Doubles], shows how near it is to the exact
    rate, and that every number of every snapshot is of its type. *)

From Stdlib Require Import Floats.SpecFloat QArith Qpower Lqa.
From S2P Require Export Doubles Relay.
#[local] Open Scope nat_scope.

(** [Duration::as_secs_f64]: the seconds plus the fraction of a second. *)
Definition as_secs_f64 (d : Duration) : f64 :=
  f64_add (f64_from (d / 1000000000)%N)
    (f64_div (f64_from (d mod 1000000000)%N) (f64_from 1000000000)).

Section Throughput.
Context {K : SshKeys} {A : AuthKeys} {L : Libraries}.

(** [ForwardingRelayStatsSnapshot::bytes_per_second]. *)
Definition bytes_per_second (s : ForwardingRelayStatsSnapshot) : f64 :=
  let seconds := as_secs_f64 (snap_elapsed s) in
  if SFeqb seconds f64_zero then f64_zero
  else f64_div (f64_from (total_bytes s)) seconds.

End Throughput.

(** ** Statistics are of their types *)

Section Typing.
Context {K : SshKeys} {A : AuthKeys} {L : Libraries}.

Definition is_u64 (n : N) : Prop := (n < u64_modulus)%N.

Record stats_typed (s : RelayStats) : Prop := {
  typed_accepted : is_u64 (accepted_connections s);
  typed_rejected : is_u64 (rejected_connections s);
  typed_active : is_u64 (active_connections s);
  typed_completed : is_u64 (completed_connections s);
  typed_failed : is_u64 (failed_connections s);
  typed_local_to_remote : is_u64 (bytes_local_to_remote s);
  typed_remote_to_local : is_u64 (bytes_remote_to_local s)
}.

Lemma u64_wrapping_add_typed a b : is_u64 (u64_wrapping_add a b).
Proof. apply N.mod_lt. pose proof u64_modulus_pos. lia. Qed.

Lemma u64_wrapping_sub_typed a b : is_u64 (u64_wrapping_sub a b).
Proof. apply N.mod_lt. pose proof u64_modulus_pos. lia. Qed.

#[local] Hint Resolve u64_wrapping_add_typed u64_wrapping_sub_typed : core.

(** Every operation on the counters keeps them in their type. *)
Lemma stats_new_typed now : stats_typed (RelayStats_new now).
Proof. by split. Qed.

Lemma record_accepted_typed s : stats_typed s -> stats_typed (record_accepted s).
Proof. intros []. by split; cbn. Qed.

Lemma record_rejected_typed s : stats_typed s -> stats_typed (record_rejected s).
Proof. intros []. by split; cbn. Qed.

Lemma start_connection_typed s : stats_typed s -> stats_typed (start_connection s).
Proof. intros []. by split; cbn. Qed.

Lemma drop_active_guard_typed s : stats_typed s -> stats_typed (drop_active_guard s).
Proof. intros []. by split; cbn. Qed.

Lemma record_completed_typed r s : stats_typed s -> stats_typed (record_completed r s).
Proof. intros []. split; cbn; try done. by case_match. Qed.

Lemma record_read_typed d n s : stats_typed s -> stats_typed (record_read d n s).
Proof. intros []. by destruct d; split; cbn. Qed.

#[local] Hint Resolve record_accepted_typed record_rejected_typed start_connection_typed
  drop_active_guard_typed record_completed_typed record_read_typed : core.

Lemma dispatch_typed `{!SemaphoreLib} r ctx stream peer_ip st :
  stats_typed (stats st) -> stats_typed (stats (dispatch r ctx stream peer_ip st)).
Proof.
  intros Hs. unfold dispatch. repeat case_match; cbn; auto.
Qed.

Lemma step_typed `{!SemaphoreLib} r ctx st l st' :
  step r ctx st l st' -> stats_typed (stats st) -> stats_typed (stats st').
Proof. intros []; cbn; auto using dispatch_typed. Qed.

Lemma steps_typed `{!SemaphoreLib} r ctx st0 ls st :
  stats_typed (stats st0) -> steps r ctx st0 ls st -> stats_typed (stats st).
Proof. intros H0. induction 1; eauto using step_typed. Qed.

(** What a snapshot reports: 64-bit counts, the exact total where it fits, and a
    throughput that is a non-negative number. *)
Record snapshot_typed (s : ForwardingRelayStatsSnapshot) : Prop := {
  snapshot_counts : Forall is_u64 [snap_accepted s; snap_rejected s; snap_active s;
    snap_completed s; snap_failed s; snap_local_to_remote s; snap_remote_to_local s];
  snapshot_total : is_u64 (total_bytes s);
  snapshot_throughput : f64_nonneg (bytes_per_second s) = true
}.

Lemma total_bytes_typed s : is_u64 (total_bytes s).
Proof. unfold total_bytes, u64_saturating_add, is_u64. pose proof u64_modulus_pos. lia. Qed.

Lemma as_secs_f64_nonneg d : f64_nonneg (as_secs_f64 d) = true.
Proof.
  apply f64_add_nonneg; [apply f64_from_nonneg|].
  apply f64_div_nonneg; [apply f64_from_nonneg..| |by vm_compute].
  apply f64_from_finite. pose proof (N.mod_lt d 1000000000). unfold u64_modulus. lia.
Qed.

Lemma bytes_per_second_nonneg s : f64_nonneg (bytes_per_second s) = true.
Proof.
  unfold bytes_per_second. destruct (SFeqb _ _) eqn:Hz; [done|].
  apply f64_div_nonneg; [apply f64_from_nonneg|apply as_secs_f64_nonneg| |done].
  apply f64_from_finite, total_bytes_typed.
Qed.

Lemma bytes_per_second_no_time s : snap_elapsed s = 0%N -> bytes_per_second s = f64_zero.
Proof. intros Hs. unfold bytes_per_second. by rewrite Hs. Qed.

Lemma snapshot_is_typed s now : stats_typed s -> snapshot_typed (snapshot s now).
Proof.
  intros []. split; [|apply total_bytes_typed|apply bytes_per_second_nonneg].
  by repeat constructor.
Qed.

End Typing.

(** ** The throughput is the right number *)

Section Throughput.
Context {K : SshKeys} {A : AuthKeys} {L : Libraries}.
#[local] Open Scope Q_scope.

(** The number a double stands for. *)
Definition f64_value (x : f64) : option Q :=
  match x with
  | S754_zero _ => Some 0
  | S754_finite sign m e => Some (dyadic (cond_Zopp sign (Zpos m)) e)
  | _ => None
  end.

Definition Q_of (n : N) : Q := inject_Z (Z.of_N n).

(** Bytes per second, exactly. *)
Definition exact_rate (s : ForwardingRelayStatsSnapshot) : Q :=
  if (snap_elapsed s =? 0)%N then 0
  else Q_of (total_bytes s) / (Q_of (snap_elapsed s) / Q_of 1000000000).

Lemma Q_of_range n : (0 < n < u64_modulus)%N -> 1 <= Q_of n <= 2 ^ 64.
Proof.
  intros [Hn Hm]. unfold Q_of. change 1 with (inject_Z 1).
  change (2 ^ 64) with (inject_Z (Z.of_N u64_modulus)). rewrite <-!Zle_Qle. lia.
Qed.

Lemma Q_of_0_div t : Q_of 0 / t == 0.
Proof. unfold Qdiv. change (Q_of 0) with 0. apply Qmult_0_l. Qed.

Lemma Q_of_split d n :
  (0 < n)%N -> Q_of d / Q_of n == Q_of (d / n) + Q_of (d mod n) / Q_of n.
Proof.
  intros Hn. assert (~ Q_of n == 0) as Hq.
  { unfold Q_of. change 0 with (inject_Z 0). rewrite inject_Z_injective. lia. }
  assert (Q_of d == Q_of n * Q_of (d / n) + Q_of (d mod n)) as ->; [|by field].
  unfold Q_of. rewrite <-inject_Z_mult, <-inject_Z_plus, inject_Z_injective.
  pose proof (N.div_mod d n). lia.
Qed.

Lemma Q_of_nanos n : (0 < n < 1000000000)%N -> 2 ^ (-90) <= Q_of n / Q_of 1000000000 < 1.
Proof.
  intros [Hn Hm]. change (Q_of 1000000000) with (1000000000 # 1).
  assert (1 <= Q_of n < (1000000000 # 1)) as [H1 H2].
  { unfold Q_of. change 1 with (inject_Z 1). change (1000000000 # 1) with (inject_Z 1000000000).
    rewrite <-Zle_Qle, <-Zlt_Qlt. lia. }
  assert (2 ^ (-90) <= 1 / (1000000000 # 1)) as Hp by (by vm_compute).
  split; [|apply Qlt_shift_div_r; [done|]; lra].
  eapply Qle_trans; [exact Hp|]. apply Qle_shift_div_l; [done|]. field_simplify; lra.
Qed.

Lemma f64_from_zero_nanos : f64_div (f64_from 0) (f64_from 1000000000) = f64_zero.
Proof. by vm_compute. Qed.

(** The two parts of a duration, and their sum. *)
Lemma nanos_approx n :
  (0 < n < 1000000000)%N ->
  approx (5 * ulp) (f64_div (f64_from n) (f64_from 1000000000)) (Q_of n / Q_of 1000000000).
Proof.
  intros Hn. assert (0 < n < u64_modulus)%N as Hu by (unfold u64_modulus; lia).
  pose proof (Q_of_range n Hu) as Hr.
  assert (2 ^ 64 < 2 ^ 90) as H64 by (by vm_compute). assert (2 ^ (-90) <= 1) as H90 by (by vm_compute).
  apply (approx_weaken (ulp + 2 * ulp + 2 * ulp)); [lra|apply Q_of_nanos in Hn; pose proof (pow2_pos (-90)); lra|].
  apply approx_div; [lra|lra|lra|lra| |by apply f64_from_approx|].
  - by vm_compute.
  - by apply f64_from_approx.
Qed.

Lemma as_secs_f64_approx d :
  (0 < d)%N -> (d / 1000000000 < u64_modulus)%N ->
  approx (7 * ulp) (as_secs_f64 d) (Q_of d / Q_of 1000000000).
Proof.
  intros Hd Hs. rewrite Q_of_split by done. unfold as_secs_f64.
  pose proof (N.div_mod d 1000000000 ltac:(done)) as Hdm.
  pose proof (N.mod_lt d 1000000000 ltac:(done)) as Hm.
  set (secs := (d / 1000000000)%N) in *. set (n := (d mod 1000000000)%N) in *.
  destruct (N.eq_dec n 0%N) as [Hn|Hn].
  - rewrite Hn, f64_from_zero_nanos. assert (0 < secs < u64_modulus)%N as Hu by lia.
    pose proof (Q_of_range secs Hu) as Hr.
    destruct (f64_from_approx secs Hu) as (m & e & -> & Hv). exists m, e. split; [done|].
    rewrite Q_of_0_div, Qplus_0_r.
    by apply (near_weaken ulp); [lra|lra|].
  - pose proof (Q_of_nanos n ltac:(lia)) as Hq. pose proof (nanos_approx n ltac:(lia)) as Ha.
    pose proof (pow2_pos (-90)) as Hp.
    destruct (N.eq_dec secs 0%N) as [Hz|Hz].
    + rewrite Hz. change (Q_of 0) with 0. rewrite Qplus_0_l.
      destruct Ha as (m & e & -> & Hv). exists m, e. split; [done|].
      by apply (near_weaken (5 * ulp)); [lra|lra|].
    + assert (0 < secs < u64_modulus)%N as Hu by lia. pose proof (Q_of_range secs Hu) as Hr.
      assert (2 ^ 64 + 1 < 2 ^ 90) as H64 by (by vm_compute).
      assert (2 ^ (-90) <= 1) as H90 by (by vm_compute).
      apply (approx_weaken (5 * ulp + 2 * ulp)); [lra|lra|].
      apply approx_add; [lra|lra|lra|lra| |exact Ha].
      apply (approx_weaken ulp); [lra|lra|]. by apply f64_from_approx.
Qed.

Lemma seconds_range d :
  (0 < d)%N -> (d / 1000000000 < u64_modulus)%N ->
  2 ^ (-90) <= Q_of d / Q_of 1000000000 < 2 ^ 90.
Proof.
  intros Hd Hs. rewrite Q_of_split by done.
  pose proof (N.div_mod d 1000000000 ltac:(done)) as Hdm.
  pose proof (N.mod_lt d 1000000000 ltac:(done)) as Hm.
  set (secs := (d / 1000000000)%N) in *. set (n := (d mod 1000000000)%N) in *.
  assert (2 ^ 64 + 1 < 2 ^ 90) as H64 by (by vm_compute).
  assert (2 ^ (-90) <= 1) as H90 by (by vm_compute). pose proof (pow2_pos (-90)) as Hp.
  assert (0 <= Q_of secs <= 2 ^ 64 /\ (secs <> 0%N -> 1 <= Q_of secs)) as [Hsq Hsp].
  { destruct (N.eq_dec secs 0%N) as [->|Hz]; [by split|].
    pose proof (Q_of_range secs ltac:(lia)). split; [lra|]. intros _. lra. }
  destruct (N.eq_dec n 0%N) as [Hn|Hn].
  - rewrite Hn, Q_of_0_div.
    assert (1 <= Q_of secs) by (apply Hsp; lia). lra.
  - pose proof (Q_of_nanos n ltac:(lia)). lra.
Qed.

Lemma f64_value_pos x q : f64_value x = Some q -> (SFltb f64_zero x = true <-> 0 < q).
Proof.
  destruct x as [s|s| |s m e]; try done; intros [= <-].
  - by destruct s.
  - pose proof (pow2_pos e) as Hp. destruct s; [|split; [intros _; by apply dyadic_pos|done]].
    split; [done|]. intros Hq. change (0 < inject_Z (Zneg m) * 2 ^ e) in Hq.
    assert (inject_Z (Zneg m) < 0) as Hm by done.
    set (x := inject_Z (Zneg m)) in *. set (p := 2 ^ e) in *. nra.
Qed.

Lemma Q_of_nonneg n : 0 <= Q_of n.
Proof. unfold Q_of. change 0 with (inject_Z 0). rewrite <-Zle_Qle. lia. Qed.

Lemma Q_of_pos n : n <> 0%N -> 0 < Q_of n.
Proof. intros Hn. unfold Q_of. change 0 with (inject_Z 0). rewrite <-Zlt_Qlt. lia. Qed.

(** A number near a rate is positive when there is something to count. *)
Lemma near_rate_pos u q n t :
  0 <= u -> u < 1 -> 0 < t -> near u q (Q_of n / t) -> (0 < q <-> n <> 0%N).
Proof.
  intros Hu Hu1 Ht [H1 H2]. split.
  - intros Hq ->. rewrite Q_of_0_div in H2. lra.
  - intros Hn%Q_of_pos. assert (0 < Q_of n / t) by (apply Qlt_shift_div_l; lra). nra.
Qed.

(** The throughput is the exact rate but for the roundings of the five operations. *)
Lemma bytes_per_second_near s :
  (snap_elapsed s / 1000000000 < u64_modulus)%N ->
  exists q, f64_value (bytes_per_second s) = Some q /\ near (17 * ulp) q (exact_rate s).
Proof.
  intros Hs. unfold exact_rate. destruct (N.eqb_spec (snap_elapsed s) 0) as [Hz|Hz].
  { exists 0. rewrite bytes_per_second_no_time by done. split; [done|]. unfold near. lra. }
  assert (0 < snap_elapsed s)%N as Hd by lia.
  pose proof (seconds_range _ Hd Hs) as Hr. pose proof (as_secs_f64_approx _ Hd Hs) as Ha.
  pose proof (pow2_pos (-90)) as Hp. unfold bytes_per_second.
  destruct (SFeqb _ _) eqn:Heq; [by destruct Ha as (m & e & Hx & _); rewrite Hx in Heq|].
  set (t := Q_of (snap_elapsed s) / Q_of 1000000000) in *.
  destruct (N.eq_dec (total_bytes s) 0%N) as [Hb|Hb].
  - destruct Ha as (m & e & -> & _). rewrite Hb. exists 0. split; [done|].
    unfold near. rewrite Q_of_0_div. lra.
  - assert (0 < total_bytes s < u64_modulus)%N as Hu.
    { split; [lia|]. apply total_bytes_typed. }
    pose proof (Q_of_range _ Hu). assert (2 ^ 64 < 2 ^ 90) by (by vm_compute).
    assert (2 ^ (-90) <= 1) by (by vm_compute).
    assert (approx (ulp + 2 * (7 * ulp) + 2 * ulp)
      (f64_div (f64_from (total_bytes s)) (as_secs_f64 (snap_elapsed s))) (Q_of (total_bytes s) / t))
      as (m & e & -> & Hv) by (apply approx_div; [lra|lra|lra|lra|exact Hr|by apply f64_from_approx|exact Ha]).
    exists (dyadic (Zpos m) e). split; [done|].
    apply (near_weaken (ulp + 2 * (7 * ulp) + 2 * ulp)); [lra| |exact Hv].
    apply Qle_shift_div_l; lra.
Qed.



(** It is positive when there was something to count and some time to count it. *)
Lemma bytes_per_second_pos s :
  (0 < snap_elapsed s)%N -> (snap_elapsed s / 1000000000 < u64_modulus)%N ->
  SFltb f64_zero (bytes_per_second s) = true <-> total_bytes s <> 0%N.
Proof.
  intros He Hs. destruct (bytes_per_second_near s Hs) as (q & Hq & Hn). unfold exact_rate in Hn.
  destruct (N.eqb_spec (snap_elapsed s) 0) as [Hz|_]; [lia|].
  pose proof (seconds_range _ He Hs). pose proof (pow2_pos (-90)).
  etrans; [by apply f64_value_pos|]. eapply near_rate_pos; [| | |exact Hn]; [by vm_compute..|lra].
Qed.

End Throughput.

(** ** What the counters of a relay count *)

Section Counting.
Context {K : SshKeys} {A : AuthKeys} {L : Libraries} {SL : SemaphoreLib}.

Lemma step_started r ctx st l st' : step r ctx st l st' -> started_at (stats st') = started_at (stats st).
Proof. intros []; try done. unfold dispatch. by repeat case_match. Qed.

Lemma snapshot_rate r ctx started st0 ls st now :
  initial r = Some st0 -> counters_before r = RelayStats_new started -> steps r ctx st0 ls st ->
  let s := snapshot (stats st) now in
  (bytes_read LocalToRemote ls + bytes_read RemoteToLocal ls < u64_modulus)%N ->
  snap_elapsed s = (now - started)%N /\
  total_bytes s = (bytes_read LocalToRemote ls + bytes_read RemoteToLocal ls)%N.
Proof.
  intros H0 Hn Hs s Hb. split.
  - cbn. f_equal. induction Hs as [|ls l st st' Hs IH Hl].
    + unfold initial in H0. destruct (sem_new _); [|done]. injection H0 as <-. cbn. by rewrite Hn.
    + rewrite (step_started _ _ _ _ _ Hl). apply IH.
      rewrite !bytes_read_snoc in Hb. lia.
  - pose proof (fun d => bytes_steps r ctx st0 started H0 Hn ls st d Hs) as Hd.
    pose proof (Hd LocalToRemote) as Hl. pose proof (Hd RemoteToLocal) as Hr.
    rewrite N.mod_small in Hl, Hr by lia. cbn [bytes_counter] in Hl, Hr.
    unfold total_bytes, u64_saturating_add, s, snapshot. cbn [snap_local_to_remote snap_remote_to_local].
    rewrite Hl, Hr. lia.
Qed.

End Counting.

(** ** Properties *)

Section Properties.
Context {K : SshKeys} {A : AuthKeys} {L : Libraries}.

(** C34: whatever a relay and its connections do, every counter stays a 64-bit word, and so
    do those of every snapshot; the snapshot's total is the sum of the bytes of both
    directions, or 2^64 - 1 where that does not fit, and its throughput is a non-negative
    double, never NaN, and 0.0 when no time has passed. *)
Theorem relay_statistics_typed `{!SemaphoreLib} r ctx st0 ls st now :
  stats_typed (stats st0) -> steps r ctx st0 ls st ->
  let s := snapshot (stats st) now in
  stats_typed (stats st) /\ snapshot_typed s /\
  total_bytes s = N.min (snap_local_to_remote s + snap_remote_to_local s) (2 ^ 64 - 1) /\
  (snap_elapsed s = 0%N -> bytes_per_second s = f64_zero).
Proof.
  intros H0 Hs. pose proof (steps_typed r ctx st0 ls st H0 Hs) as Ht.
  split_and!; [done|by apply snapshot_is_typed|done|apply bytes_per_second_no_time].
Qed.

(** C12: the throughput a relay reports is right: while the bytes its tasks have read fit in 64
    bits and some time has passed, it is a finite double, positive as soon as a byte was
    read, and equal to bytes over seconds up to a relative error of 2^-47, through the five
    roundings it is made of, whatever the numbers and however the tasks interleaved. *)
Theorem throughput_accurate `{!SemaphoreLib} r ctx started st0 ls st now :
  initial r = Some st0 -> counters_before r = RelayStats_new started ->
  steps r ctx st0 ls st -> (started < now <= INSTANT_MAX)%N ->
  let bytes := (bytes_read LocalToRemote ls + bytes_read RemoteToLocal ls)%N in
  (bytes < u64_modulus)%N ->
  let throughput := bytes_per_second (snapshot (stats st) now) in
  exists q, f64_value throughput = Some q /\
    near (1 # 2 ^ 47) q (Q_of bytes / (Q_of (now - started) / Q_of 1000000000)) /\
    (SFltb f64_zero throughput = true <-> bytes <> 0%N).
Proof.
  intros H0 Hn Hs Hnow bytes Hb throughput.
  destruct (snapshot_rate r ctx started st0 ls st now H0 Hn Hs Hb) as [He Ht]. fold bytes in Ht.
  assert (now - started < INSTANT_MAX + 1)%N as Hm by lia.
  assert ((now - started) / 1000000000 < u64_modulus)%N as Hd.
  { apply N.Div0.div_lt_upper_bound. unfold INSTANT_MAX in Hm. unfold u64_modulus. lia. }
  destruct (bytes_per_second_near (snapshot (stats st) now)) as (q & Hq & Hv); [by rewrite He|].
  pose proof (seconds_range (now - started) ltac:(lia) Hd) as Hr. pose proof (pow2_pos (-90)).
  unfold exact_rate in Hv. rewrite He, Ht in Hv.
  destruct (N.eqb_spec (now - started) 0) as [Hz|_]; [lia|].
  exists q. split_and!; [exact Hq| |rewrite <-Ht; apply bytes_per_second_pos; rewrite He; [lia|done]].
  apply (near_weaken (17 * ulp)); [by vm_compute| |exact Hv].
  apply Qle_shift_div_l; [lra|]. rewrite Qmult_0_l. apply Q_of_nonneg.
Qed.

End Properties.

(** ** Examples *)

(** 1500 ms are the double 1.5, and 1500 bytes in two seconds are 750 a second. *)
Example as_secs_f64_example :
  as_secs_f64 1500000000 = S754_finite false 6755399441055744 (-52) /\
  f64_div (f64_from 1500) (as_secs_f64 2000000000) = f64_from 750.
Proof. by vm_compute. Qed.
