(* ===== verification/UnitTests.v ===== *)
(** * UnitTests: the crate's synchronous unit tests.

    Every test is the function the source has, with its [unwrap]s and assertions, and a
    lemma that it passes.  Tests on keys drawn at random are functions of the keys and pass
    for all keys that satisfy what the tests take for granted of them. *)

From S2P Require Export Relay Terminal.

(** ** Tests that may panic *)

Section Asserting.

#[export] Instance or_panic_ret : MRet or_panic := fun A x => Returned x.
#[export] Instance or_panic_bind : MBind or_panic := fun A B f m =>
  match m with Returned x => f x | Panicked => Panicked end.

Definition unwrap {E T} (r : result E T) : or_panic T :=
  match r with Ok x => Returned x | Err _ => Panicked end.
Definition unwrap_some {T} (o : option T) : or_panic T :=
  match o with Some x => Returned x | None => Panicked end.
Definition assert (b : bool) : or_panic unit := if b then Returned tt else Panicked.
Definition assert_eq {T} `{EqDecision T} (x y : T) : or_panic unit := assert (bool_decide (x = y)).

End Asserting.

(** A test passes when it returns. *)
Abbreviation passes t := (t = Returned tt).

(** ** [src/core/error.rs] *)

Definition error_keeps_its_phase : or_panic unit :=
  let error := SshError.timeout "SSH handshake timed out" in
  assert_eq (SshError.kind error) ErrorKind.Timeout;;
  assert_eq (SshError.message error) "SSH handshake timed out";;
  assert (contains_str "Timeout" (SshError.display error));;
  assert (SshError.is_retryable error).

Lemma error_keeps_its_phase_passes : passes error_keeps_its_phase.
Proof. reflexivity. Qed.

Definition error_has_structured_context : or_panic unit :=
  let error :=
    SshError.with_path "/tmp/a.txt" (SshError.with_endpoint "example.com" 2222
      (SshError.with_operation "ssh connect" (SshError.timeout "operation deadline exceeded"))) in
  assert_eq (SshError.operation error) (Some "ssh connect");;
  assert_eq (SshError.host error) (Some "example.com");;
  assert_eq (SshError.port error) (Some 2222%N);;
  assert_eq (SshError.path error) (Some "/tmp/a.txt").

Lemma error_has_structured_context_passes : passes error_has_structured_context.
Proof. reflexivity. Qed.

(** ** [src/core/config.rs] *)

Definition with_port (port : N) (c : SshConfig) : SshConfig :=
  {| cfg_host := cfg_host c; cfg_port := port; cfg_username := cfg_username c;
     connect_timeout := connect_timeout c;
     authentication_timeout := authentication_timeout c;
     Config.operation_timeout := Config.operation_timeout c;
     keepalive_interval := keepalive_interval c |}.

Definition defaults_are_suitable_for_an_ssh_client : or_panic unit :=
  config ← unwrap (SshConfig_new "example.com" "alice");
  assert_eq (cfg_port config) 22%N;;
  assert_eq (connect_timeout config) (duration_from_secs 15);;
  assert_eq (authentication_timeout config) (duration_from_secs 15);;
  assert_eq (Config.operation_timeout config) (duration_from_secs 30);;
  assert_eq (keepalive_interval config) (Some (duration_from_secs 30)).

Lemma defaults_are_suitable_passes : passes defaults_are_suitable_for_an_ssh_client.
Proof. reflexivity. Qed.

Definition invalid_config_is_rejected : or_panic unit :=
  config ← unwrap (SshConfig_new "example.com" "alice");
  assert (is_err (Config.validate (with_port 0 config))).

Lemma invalid_config_is_rejected_passes : passes invalid_config_is_rejected.
Proof. reflexivity. Qed.

Definition ipv6_addresses_are_bracketed : or_panic unit :=
  config ← unwrap (SshConfig_new "2001:db8::1" "alice");
  assert_eq (socket_address (with_port 2200 config)) "[2001:db8::1]:2200".

Lemma ipv6_addresses_are_bracketed_passes : passes ipv6_addresses_are_bracketed.
Proof. reflexivity. Qed.

(** ** [src/core/relay.rs] *)

Definition access_policy_matches_exact_peer_ips (parse_ip : string -> result string IpAddr)
  : or_panic unit :=
  ip1 ← unwrap (parse_ip "127.0.0.1");
  let policy := allow_peer_ips [ip1] in
  assert (allows policy (Some ip1));;
  ip2 ← unwrap (parse_ip "127.0.0.2");
  assert (negb (allows policy (Some ip2)));;
  assert (negb (allows policy None)).

(** [str::parse::<IpAddr>] reads the two addresses as what they are. *)
Lemma access_policy_matches_exact_peer_ips_passes (parse_ip : string -> result string IpAddr) :
  parse_ip "127.0.0.1" = Ok (IpV4 [#x7f; x00; x00; x01]) ->
  parse_ip "127.0.0.2" = Ok (IpV4 [#x7f; x00; x00; x02]) ->
  passes (access_policy_matches_exact_peer_ips parse_ip).
Proof. intros H1 H2. unfold access_policy_matches_exact_peer_ips. by rewrite H1, H2. Qed.

Definition target_and_options_reject_invalid_values : or_panic unit :=
  assert (is_err (target_tcp "" 22));;
  assert (is_err (target_tcp "server" 0));;
  assert (is_err (target_streamlocal ("/tmp/a" +:+ String nul "b")));;
  assert (is_err (target_streamlocal " "));;
  assert (is_err (validate_options
    {| max_connections := 0;
       connection_timeout := connection_timeout Relay.default_options;
       access_policy := access_policy Relay.default_options |})).

Lemma target_and_options_reject_invalid_values_passes :
  passes target_and_options_reject_invalid_values.
Proof. reflexivity. Qed.

(** ** [src/terminal/options.rs] *)

Definition terminal_defaults_are_usable : or_panic unit :=
  let options := Terminal.default_options in
  assert_eq (term options) "xterm-256color";;
  assert_eq (columns options, rows options) (80, 24)%N;;
  assert (is_ok (Terminal.validate options)).

Lemma terminal_defaults_are_usable_passes : passes terminal_defaults_are_usable.
Proof. reflexivity. Qed.

(** ** [src/core/auth.rs] *)

Section AuthTests.
Context {K : SshKeys} {A : AuthKeys}.

Definition quote : string := String (ascii_of_N 34) "".

(** What [{:?}] writes, given [str::escape_debug]. *)
Fixpoint format_debug (escape : string -> string) (v : debug_value) : string :=
  match v with
  | DText text => text
  | DStr s => quote +:+ escape s +:+ quote
  | DBool b => if b then "true" else "false"
  | DOption None => "None"
  | DOption (Some v) => "Some(" +:+ format_debug escape v +:+ ")"
  | DStruct name fields =>
      name +:+ " { " +:+
      join ", " ((fun '(field, v) => field +:+ ": " +:+ format_debug escape v) <$> fields) +:+ " }"
  end.

Definition secrets_are_redacted (escape : string -> string) : or_panic unit :=
  let secret := SecretString_new "correct horse battery staple" in
  assert (negb (contains_str "correct" (secret_debug secret)));;
  assert (negb (contains_str "correct" (secret_display secret)));;
  assert (contains_str "REDACTED" (format_debug escape (auth_method_debug (password "password"))));;
  assert (contains_str "Agent" (format_debug escape (auth_method_debug agent))).

Lemma secrets_are_redacted_passes escape : passes (secrets_are_redacted escape).
Proof. reflexivity. Qed.

Definition authentication_plan_preserves_fallback_order : or_panic unit :=
  let plan := AuthenticationPlan_new [password "password"; agent_with_rsa_hash Sha512] in
  assert (negb (plan_is_empty plan));;
  assert (length (into_methods plan) =? 2).

Lemma authentication_plan_preserves_fallback_order_passes :
  passes authentication_plan_preserves_fallback_order.
Proof. reflexivity. Qed.

End AuthTests.

(** ** [src/core/host_key.rs] *)

Section HostKeyTests.
Context {K : SshKeys} {F : KnownHostsFormat}.

(** [verifier.verify(host, port, key).unwrap()]. *)
Definition verify_now {V} `{!HostKeyVerifier V} (v : V) (host : string) (port : N)
    (key : PublicKey) : or_panic HostKeyDecision :=
  r ← snd (verify v host port key); unwrap r.

Definition known_key_can_be_trusted_and_changed_keys_are_rejected
    (first_key other_key : PublicKey) : or_panic unit :=
  verifier ← insert_key KnownHostKeyVerifier_new "example.com" 22 first_key;
  d ← verify_now verifier "example.com" 22 first_key;
  assert_eq d Trusted;;
  d ← verify_now verifier "example.com" 22 other_key;
  assert_eq d Changed;;
  d ← verify_now verifier "other.example.com" 22 first_key;
  assert_eq d Unknown;;
  assert (starts_with "SHA256:" (fingerprint_sha256 first_key)).

(** [format!("{prefix} {}\n", key.to_openssh().unwrap())]. *)
Definition known_hosts_line (prefix : string) (key : PublicKey) : or_panic string :=
  text ← unwrap (key_to_openssh key);
  mret (prefix +:+ " " +:+ text +:+ String newline "").

Definition parses_nonstandard_ports_wildcards_and_changed_details
    (first_key other_key : PublicKey) : or_panic unit :=
  line ← known_hosts_line "[*.example.com]:2200" first_key;
  verifier ← unwrap (from_known_hosts line);
  r ← snd (check verifier "db.example.com" 2200 other_key);
  observation ← unwrap r;
  assert_eq (decision observation) Changed;;
  assert_eq (matched_lines observation) [1%N];;
  assert (length (expected_fingerprints observation) =? 1);;
  assert_eq (hko_host observation) "db.example.com".

(** [Base64::encode_string] and [Mac::finalize] are the encoders of the same libraries. *)
Definition matches_openssh_hashed_hosts (encode_string : list N -> string)
    (finalize : Mac -> list N) (key : PublicKey) : or_panic unit :=
  let host := "hashed.example.com" in
  let salt := bytes_of_string "known-host-salt" in
  mac ← unwrap_some (hmac_new salt);
  let mac := hmac_update mac (bytes_of_string host) in
  line ← known_hosts_line
    ("|1|" +:+ encode_string salt +:+ "|" +:+ encode_string (finalize mac)) key;
  verifier ← unwrap (from_known_hosts line);
  d ← verify_now verifier host 22 key;
  assert_eq d Trusted.

Definition revoked_keys_are_never_trusted (key : PublicKey) : or_panic unit :=
  line ← known_hosts_line "@revoked example.com" key;
  verifier ← unwrap (from_known_hosts line);
  d ← verify_now verifier "example.com" 22 key;
  assert_eq d Revoked.

Definition a_different_key_is_changed_when_only_the_old_key_is_revoked
    (revoked_key current_key : PublicKey) : or_panic unit :=
  line ← known_hosts_line "@revoked example.com" revoked_key;
  verifier ← unwrap (from_known_hosts line);
  d ← verify_now verifier "example.com" 22 current_key;
  assert_eq d Changed.

(** The verifier's state after the first call is what the later ones see. *)
Definition tofu_records_unknown_keys_and_exposes_a_snapshot (first_key other_key : PublicKey)
  : or_panic unit :=
  let '(verifier, r) := verify TofuHostKeyVerifier_default
                          "first.example.com" 22 first_key in
  r ← r; d ← unwrap r;
  assert_eq d Trusted;;
  snapshot ← unwrap (snapshot verifier);
  d ← verify_now snapshot "first.example.com" 22 first_key;
  assert_eq d Trusted;;
  d ← verify_now snapshot "first.example.com" 22 other_key;
  assert_eq d Changed;;
  assert (negb (str_is_empty (to_openssh (known_hosts snapshot)))).

Definition insert_replaces_the_legacy_host_entry (first_key second_key : PublicKey)
  : or_panic unit :=
  verifier ← insert_key KnownHostKeyVerifier_new "example.com" 22 first_key;
  verifier ← insert_key verifier "example.com" 22 second_key;
  d ← verify_now verifier "example.com" 22 first_key;
  assert_eq d Changed;;
  d ← verify_now verifier "example.com" 22 second_key;
  assert_eq d Trusted.

Definition bracketed_ipv6_hosts_use_the_openssh_host_token (key : PublicKey) : or_panic unit :=
  verifier ← insert_key KnownHostKeyVerifier_new "2001:db8::1" 2200 key;
  d ← verify_now verifier "[2001:db8::1]" 2200 key;
  assert_eq d Trusted;;
  assert (starts_with "[2001:db8::1]:2200 " (to_openssh (known_hosts verifier))).

Definition known_hosts_render_round_trips_entries (key : PublicKey) : or_panic unit :=
  input ← known_hosts_line "example.com" key;
  parsed ← unwrap (parse input);
  assert (length (entries parsed) =? 1);;
  assert (contains_str "example.com" (to_openssh parsed)).

(** ** They pass *)

(** What the tests rely on: a random key can be written, on one line and without a comment
    of the [known_hosts] format, and its fingerprint is a SHA-256 one. *)
Record random_key (key : PublicKey) (text : string) : Prop := {
  rk_text : key_to_openssh key = Ok text;
  rk_sha256 : starts_with "SHA256:" (fingerprint_sha256 key) = true;
  rk_line : one_line text = true;
  rk_comment : contains_char "#" text = false
}.

(** Two random keys have different fingerprints. *)
Definition distinct (key1 key2 : PublicKey) : Prop :=
  String.eqb (fingerprint_sha256 key1) (fingerprint_sha256 key2) = false.

(** The entry a test's line stands for. *)
Definition entry_of (m : option KnownHostMarker) (patterns : string) (key : PublicKey)
    (text : string) : KnownHostEntry :=
  {| host_patterns := patterns; marker := m; fingerprint := fingerprint_sha256 key;
     public_key := text; line := 0 |}.

(** Patterns that [ssh-key] keeps as they stand. *)
Definition kept_patterns (patterns : string) : Prop :=
  host_field patterns = true /\ contains_char "#" patterns = false /\
  reread_host_patterns patterns = Some patterns.

Definition of_entries (es : list KnownHostEntry) : KnownHostKeyVerifier :=
  {| known_hosts := {| entries := es |} |}.

Lemma known_hosts_line_read m patterns prefix key text :
  random_key key text -> kept_patterns patterns -> prefix = marker_text m +:+ patterns ->
  exists l, known_hosts_line prefix key = Returned l /\
    from_known_hosts l = Ok (of_entries [set_line 1 (entry_of m patterns key text)]).
Proof.
  intros [Ht _ Hl Hc] (Hf & Hh & Hr) ->. unfold known_hosts_line. rewrite Ht. eexists. split; [reflexivity|].
  assert (writable (entry_of m patterns key text)) as Hw.
  { split; try done; [cbn; by rewrite contains_char_app, Hh|by exists key]. }
  destruct (writable_written _ Hw) as (line & Hwr). pose proof (wt_line _ _ Hwr) as Hline.
  assert (line = marker_text m +:+ patterns +:+ " " +:+ text) as ->.
  { unfold to_line in Hline. cbn in Hline. by destruct (str_is_empty text); [|injection Hline as <-]. }
  unfold from_known_hosts, parse, lines.
  replace ((marker_text m +:+ patterns) +:+ " " +:+ text +:+ String newline "")
    with (join (String newline "") [marker_text m +:+ patterns +:+ " " +:+ text] +:+ String newline "")
    by (cbn; by rewrite !str_app_assoc).
  rewrite split_char_join, line_pieces_join;
    [|repeat constructor; apply Hwr|done|repeat constructor; apply Hwr].
  erewrite (parse_lines_written [_] [_] 0); [reflexivity|]. by constructor.
Qed.

Lemma verify_now_known v host port key :
  verify_now v host port key = Returned (decide_key (matching v host port) (fingerprint_sha256 key)).
Proof. unfold verify_now. cbn. by rewrite check_known_decision. Qed.

(** The verdicts of a store of one entry. *)
Lemma decide_one e fp :
  decide_key [e] fp =
    match marker e with
    | None => if String.eqb (fingerprint e) fp then Trusted else Changed
    | Some RevokedMarker => if String.eqb (fingerprint e) fp then Revoked else Changed
    | Some CertificateAuthority => Unknown
    end.
Proof.
  unfold decide_key, revokes, vouches, is_ca. cbn. rewrite !orb_false_r.
  by destruct (marker e) as [[]|], (String.eqb (fingerprint e) fp).
Qed.

Lemma matching_one e host port :
  matching (of_entries [e]) host port =
    if host_patterns_match (host_patterns e) host port then [e] else [].
Proof. unfold matching, of_entries. cbn. by destruct (host_patterns_match _ _ _). Qed.

(** Patterns given as a literal, not hashed. *)
Ltac kept :=
  split_and!; [vm_compute; reflexivity..|apply reread_pattern_list; vm_compute; reflexivity].

(** A store with one entry, looked up under a concrete name. *)
Ltac look_up :=
  rewrite ?verify_now_known, ?matching_one; cbn [host_patterns set_line entry_of];
  repeat match goal with
  | |- context [host_patterns_match ?p ?h ?n] =>
      let b := eval vm_compute in (host_patterns_match p h n) in
      change (host_patterns_match p h n) with b
  end; cbv beta iota; rewrite ?decide_one; cbn [marker fingerprint set_line entry_of];
  rewrite ?String.eqb_refl.

Lemma insert_key_new host port key text :
  key_to_openssh key = Ok text ->
  insert_key KnownHostKeyVerifier_new host port key =
    Returned (of_entries [entry_of None (host_token host port) key text]).
Proof. intros Ht. unfold insert_key. by rewrite Ht. Qed.

Lemma known_key_can_be_trusted_passes key1 key2 text :
  random_key key1 text -> distinct key1 key2 ->
  passes (known_key_can_be_trusted_and_changed_keys_are_rejected key1 key2).
Proof.
  intros [Ht Hs _ _] Hd. unfold known_key_can_be_trusted_and_changed_keys_are_rejected.
  rewrite (insert_key_new _ _ _ _ Ht). cbn [mbind or_panic_bind]. look_up.
  rewrite Hd, Hs. reflexivity.
Qed.

Lemma parses_nonstandard_ports_passes key1 key2 text :
  random_key key1 text -> distinct key1 key2 ->
  passes (parses_nonstandard_ports_wildcards_and_changed_details key1 key2).
Proof.
  intros Hk Hd. unfold parses_nonstandard_ports_wildcards_and_changed_details.
  destruct (known_hosts_line_read None "[*.example.com]:2200" "[*.example.com]:2200"
    _ _ Hk ltac:(kept) eq_refl) as (l & -> & Hl).
  cbn [mbind or_panic_bind]. rewrite Hl. cbn [unwrap mbind or_panic_bind check
    known_host_key_verifier snd]. rewrite check_known_unfold. cbv zeta.
  cbn [unwrap mbind or_panic_bind decision matched_lines expected_fingerprints hko_host].
  look_up. rewrite Hd. reflexivity.
Qed.

Lemma revoked_keys_are_never_trusted_passes key text :
  random_key key text -> passes (revoked_keys_are_never_trusted key).
Proof.
  intros Hk. unfold revoked_keys_are_never_trusted.
  destruct (known_hosts_line_read (Some RevokedMarker) "example.com" "@revoked example.com"
    _ _ Hk ltac:(kept) eq_refl) as (l & -> & Hl).
  cbn [mbind or_panic_bind]. rewrite Hl. cbn [unwrap mbind or_panic_bind]. by look_up.
Qed.

Lemma a_different_key_is_changed_passes key1 key2 text :
  random_key key1 text -> distinct key1 key2 ->
  passes (a_different_key_is_changed_when_only_the_old_key_is_revoked key1 key2).
Proof.
  intros Hk Hd. unfold a_different_key_is_changed_when_only_the_old_key_is_revoked.
  destruct (known_hosts_line_read (Some RevokedMarker) "example.com" "@revoked example.com"
    _ _ Hk ltac:(kept) eq_refl) as (l & -> & Hl).
  cbn [mbind or_panic_bind]. rewrite Hl. cbn [unwrap mbind or_panic_bind]. look_up. by rewrite Hd.
Qed.

(** The store the first call leaves behind. *)
Lemma tofu_first_use host port key text :
  key_to_openssh key = Ok text ->
  verify TofuHostKeyVerifier_default host port key =
    (TofuHostKeyVerifier_new (of_entries [entry_of None (host_token host port) key text]),
     Returned (Ok Trusted)).
Proof.
  intros Ht. cbn [verify tofu_host_key_verifier].
  unfold tofu_verify, TofuHostKeyVerifier_default.
  cbn [poisoned TofuHostKeyVerifier_new HostKey.inner]. rewrite check_known_decision.
  unfold accept_key, push_key. rewrite Ht. reflexivity.
Qed.

Lemma tofu_records_unknown_keys_passes key1 key2 text :
  random_key key1 text -> distinct key1 key2 ->
  passes (tofu_records_unknown_keys_and_exposes_a_snapshot key1 key2).
Proof.
  intros [Ht _ [Hne _]%one_line_spec _] Hd. unfold tofu_records_unknown_keys_and_exposes_a_snapshot.
  rewrite (tofu_first_use _ _ _ _ Ht). cbn [unwrap mbind or_panic_bind snapshot poisoned
    HostKey.inner TofuHostKeyVerifier_new].
  look_up. rewrite Hd. destruct text; [done|]. reflexivity.
Qed.

Lemma insert_replaces_passes key1 key2 text1 text2 :
  random_key key1 text1 -> random_key key2 text2 -> distinct key2 key1 ->
  passes (insert_replaces_the_legacy_host_entry key1 key2).
Proof.
  intros [Ht1 _ _ _] [Ht2 _ _ _] Hd. unfold insert_replaces_the_legacy_host_entry.
  rewrite (insert_key_new _ _ _ _ Ht1). cbn [mbind or_panic_bind].
  assert (insert_key (of_entries [entry_of None (host_token "example.com" 22) key1 text1])
    "example.com" 22 key2 =
    Returned (of_entries [entry_of None (host_token "example.com" 22) key2 text2])) as ->
    by (unfold insert_key; by rewrite Ht2).
  cbn [mbind or_panic_bind]. look_up. by rewrite Hd.
Qed.

Lemma bracketed_ipv6_hosts_passes key text :
  random_key key text ->
  passes (bracketed_ipv6_hosts_use_the_openssh_host_token key).
Proof.
  intros [Ht _ [Hne _]%one_line_spec _]. unfold bracketed_ipv6_hosts_use_the_openssh_host_token.
  rewrite (insert_key_new _ _ _ _ Ht). cbn [mbind or_panic_bind]. look_up.
  destruct text; [done|]. reflexivity.
Qed.

Lemma known_hosts_render_round_trips_passes key text :
  random_key key text ->
  passes (known_hosts_render_round_trips_entries key).
Proof.
  intros Hk. unfold known_hosts_render_round_trips_entries.
  destruct (known_hosts_line_read None "example.com" "example.com"
    _ _ Hk ltac:(kept) eq_refl) as (l & -> & Hl).
  unfold from_known_hosts in Hl. cbn [mbind or_panic_bind].
  destruct (parse l) as [h|e]; [|done]. injection Hl as ->.
  pose proof (rk_line _ _ Hk) as [Hne _]%one_line_spec. destruct text; [done|]. reflexivity.
Qed.

(** A salted line: the encoder's text is decoded to what was encoded and has none of the
    separators, and a MAC verifies what it produced. *)
Lemma matches_openssh_hashed_hosts_passes encode_string finalize key text mac :
  let salt := bytes_of_string "known-host-salt" in
  let digest := finalize (hmac_update mac (bytes_of_string "hashed.example.com")) in
  let patterns := "|1|" +:+ encode_string salt +:+ "|" +:+ encode_string digest in
  (forall l, base64_decode (encode_string l) = Some l) ->
  (forall l, contains_char "," (encode_string l) = false) ->
  (forall l, contains_char "|" (encode_string l) = false) ->
  (forall m, hmac_verify m (finalize m) = true) ->
  hmac_new salt = Some mac ->
  random_key key text -> kept_patterns patterns ->
  passes (matches_openssh_hashed_hosts encode_string finalize key).
Proof.
  intros salt digest patterns Hdec Hcomma Hbar Hver Hnew Hk Hr.
  unfold matches_openssh_hashed_hosts. fold salt. rewrite Hnew. cbn [mbind or_panic_bind unwrap_some].
  destruct (known_hosts_line_read None patterns patterns _ _ Hk Hr eq_refl) as (l & Hl1 & Hl).
  change (known_hosts_line _ key) with (known_hosts_line patterns key). rewrite Hl1.
  cbn [mbind or_panic_bind]. rewrite Hl. cbn [unwrap mbind or_panic_bind].
  rewrite verify_now_known, matching_one. cbn [host_patterns set_line entry_of].
  assert (host_patterns_match patterns "hashed.example.com" 22 = true) as ->.
  { unfold host_patterns_match. change (host_token _ _) with "hashed.example.com".
    rewrite split_char_no; [|unfold patterns; by rewrite !contains_char_app, !Hcomma].
    cbn [patterns_loop]. change (str_is_empty patterns) with false.
    change (strip_prefix "!" patterns) with (@None string). cbv iota.
    unfold single_host_pattern_matches, patterns. rewrite strip_prefix_app.
    change ("|" +:+ encode_string digest) with (String "|" (encode_string digest)).
    rewrite split_once_app by done. unfold decode_base64. rewrite !Hdec, Hnew.
    unfold digest. by rewrite Hver. }
  rewrite decide_one. cbn. by rewrite String.eqb_refl.
Qed.

End HostKeyTests.
