(* ===== verification/SessionTests.v ===== *)
(** * SessionTests: the integration tests of [src/core/session.rs].

    Each test is the program it is, [unwrap]s and assertions included, run against a
    server with the test's own handler.  The lemmas show that the tests about connecting
    pass for every server key, every port and every responsive environment, where the
    test suite tries one. *)

From S2P Require Export Loopback Channel.

(** ** Tests *)

Section Testing.
Context {Σ : Sig}.

(** [Result::unwrap], [Option::unwrap], [assert!] and [assert_eq!]. *)
Definition unwrap {X T} (r : result X T) : fut T :=
  match r with
  | Ok x => mret x
  | Err _ => Panic "called `Result::unwrap()` on an `Err` value"
  end.

Definition unwrap_some {T} (o : option T) : fut T :=
  match o with
  | Some x => mret x
  | None => Panic "called `Option::unwrap()` on a `None` value"
  end.

Definition unwrap_err {X T} (r : result X T) : fut X :=
  match r with
  | Err e => mret e
  | Ok _ => Panic "called `Result::unwrap_err()` on an `Ok` value"
  end.

Definition assert (b : bool) : fut unit :=
  if b then mret tt else Panic "assertion failed".

(** A call that may panic. *)
Definition may_panic {T} (r : or_panic T) : fut T :=
  match r with Returned x => mret x | Panicked => Panic "explicit panic" end.

End Testing.

Section Tests.
Context {K : SshKeys} {A : AuthKeys} {L : Libraries}.

(** ** The servers *)

Definition test_password (user password : string) : Auth :=
  if String.eqb password "test-password" then Accept else Auth_reject.

Definition PasswordServer : Handler :=
  {| auth_password := test_password;
     auth_publickey := auth_publickey rejecting;
     auth_openssh_certificate := auth_openssh_certificate rejecting;
     auth_keyboard_interactive := auth_keyboard_interactive rejecting |}.

(** The servers of the channel and forward tests: what they open and forward is below, how
    they authenticate is the same. *)
Definition DirectTcpipServer : Handler :=
  {| auth_password user password :=
       if String.eqb password "test-password" then Accept else Auth_reject;
     auth_publickey := auth_publickey rejecting;
     auth_openssh_certificate := auth_openssh_certificate rejecting;
     auth_keyboard_interactive := auth_keyboard_interactive rejecting |}.

Definition DirectStreamlocalServer : Handler :=
  {| auth_password user password :=
       if String.eqb password "test-password" then Accept else Auth_reject;
     auth_publickey := auth_publickey rejecting;
     auth_openssh_certificate := auth_openssh_certificate rejecting;
     auth_keyboard_interactive := auth_keyboard_interactive rejecting |}.

Definition JumpServer : Handler :=
  {| auth_password user password :=
       if String.eqb password "test-password" then Accept else Auth_reject;
     auth_publickey := auth_publickey rejecting;
     auth_openssh_certificate := auth_openssh_certificate rejecting;
     auth_keyboard_interactive := auth_keyboard_interactive rejecting |}.

Definition RemoteForwardServer : Handler :=
  {| auth_password user password :=
       if String.eqb password "test-password" then Accept else Auth_reject;
     auth_publickey := auth_publickey rejecting;
     auth_openssh_certificate := auth_openssh_certificate rejecting;
     auth_keyboard_interactive := auth_keyboard_interactive rejecting |}.

(** [PublicKeyServer]; [same_key_data] compares the [key_data] of two keys. *)
Definition PublicKeyServer (same_key_data : PublicKey -> PublicKey -> bool) (expected : PublicKey)
  : Handler :=
  {| auth_password := auth_password rejecting;
     auth_publickey user public_key :=
       if same_key_data public_key expected then Accept else Auth_reject;
     auth_openssh_certificate := auth_openssh_certificate rejecting;
     auth_keyboard_interactive := auth_keyboard_interactive rejecting |}.

(** [CertificateServer], given the [valid_principals] of a certificate. *)
Definition CertificateServer (valid_principals : Certificate -> list string) : Handler :=
  {| auth_password := auth_password rejecting;
     auth_publickey := auth_publickey rejecting;
     auth_openssh_certificate user certificate :=
       if certificate_is_user certificate &&
          existsb (fun principal => String.eqb principal user) (valid_principals certificate)
       then Accept else Auth_reject;
     auth_keyboard_interactive := auth_keyboard_interactive rejecting |}.

Definition KeyboardInteractiveServer : Handler :=
  {| auth_password := auth_password rejecting;
     auth_publickey := auth_publickey rejecting;
     auth_openssh_certificate := auth_openssh_certificate rejecting;
     auth_keyboard_interactive user submethods response :=
       match response with
       | None => Partial "Verification" "Enter the one-time code" [("Code: ", false)]
       | Some response =>
           let accepted := match response with
                           | answer :: rest =>
                               String.eqb answer "654321" &&
                               match rest with [] => true | _ => false end
                           | [] => false
                           end in
           if accepted then Accept else Auth_reject
       end |}.

(** ** What the tests have in common *)

(** The verifier that knows the server, and alice's settings. *)
Definition known_server (server_key : PublicKey) (port : N) : fut KnownHostKeyVerifier :=
  may_panic (insert_key KnownHostKeyVerifier_new "127.0.0.1" port server_key).

Definition alice_config (port : N) : fut SshConfig :=
  config ← unwrap (SshConfig_new "127.0.0.1" "alice");
  mret {| cfg_host := cfg_host config; cfg_port := port; cfg_username := cfg_username config;
          connect_timeout := duration_from_secs 5;
          authentication_timeout := authentication_timeout config;
          Config.operation_timeout := Config.operation_timeout config;
          keepalive_interval := keepalive_interval config |}.

Definition known_hosts_verifier (v : KnownHostKeyVerifier) : dyn_verifier :=
  DynVerifier _ known_host_key_verifier v.

Definition connect_with (fuel : nat) (server_key : PublicKey) (port : N) (auth : AuthenticationPlan)
  : fut (result SshError SshSession) :=
  verifier ← known_server server_key port;
  config ← alice_config port;
  connect fuel config (known_hosts_verifier verifier) auth.

(** ** The tests *)

(** The test sleeps for a millisecond: the part before, and the part after. *)
Definition connects_verifies_host_key_and_authenticates (server_key : PublicKey) (port : N)
  : fut (SshSession * Instant) :=
  r ← connect_with 0 server_key port (plan_from_method (password "test-password"));
  session ← unwrap r;
  closed ← is_closed session;
  assert (negb closed);;
  context ← operation_context session;
  first_deadline ← unwrap_some (deadline context);
  mret (session, first_deadline).

Definition deadlines_move_and_session_disconnects (session : SshSession) (first_deadline : Instant)
  : fut unit :=
  context ← operation_context session;
  second_deadline ← unwrap_some (deadline context);
  assert (first_deadline <? second_deadline)%N;;
  r ← disconnect session;
  unwrap r.

Definition tofu_accepts_and_records_the_first_server_key (port : N) : fut SshSession :=
  let verifier := TofuHostKeyVerifier_default in
  config ← alice_config port;
  r ← connect 0 config (DynVerifier _ tofu_host_key_verifier verifier)
        (plan_from_method (password "test-password"));
  unwrap r.

(** The closure that answers the challenge; it also sets the flag [challenged], which
    [load_challenged] reads. *)
Definition one_time_code (challenge : KeyboardInteractiveChallenge)
  : or_panic (result SshError (list SecretString)) :=
  if String.eqb (challenge_name challenge) "Verification" &&
     match challenge_prompts challenge with [p] => negb (prompt_echo p) | _ => false end
  then Returned (Ok [SecretString_new "654321"])
  else Panicked.

Definition keyboard_interactive_answers_server_challenges (server_key : PublicKey) (port : N)
    (handler : KeyboardInteractiveHandler) (load_challenged : fut bool) : fut unit :=
  r ← connect_with 2 server_key port (plan_from_method (keyboard_interactive handler));
  session ← unwrap r;
  challenged ← load_challenged;
  assert challenged;;
  r ← disconnect session;
  unwrap r.

Definition rsa_sha512_private_key_authenticates (server_key : PublicKey) (port : N)
    (client_key : PrivateKey) : fut unit :=
  r ← connect_with 0 server_key port
        (plan_from_method (private_key_with_rsa_hash client_key Sha512));
  session ← unwrap r;
  r ← disconnect session;
  unwrap r.

Definition openssh_user_certificate_authenticates (server_key : PublicKey) (port : N)
    (client_key : PrivateKey) (certificate : Certificate) : fut unit :=
  r ← connect_with 0 server_key port
        (plan_from_method (openssh_certificate client_key certificate));
  session ← unwrap r;
  r ← disconnect session;
  unwrap r.

Definition authentication_plan_falls_back_after_an_unavailable_agent (server_key : PublicKey)
    (port : N) : fut unit :=
  r ← connect_with 0 server_key port (AuthenticationPlan_new
        [agent_from_socket "/tmp/xssh-rust-lib-missing-agent.sock"; password "test-password"]);
  session ← unwrap r;
  r ← disconnect session;
  unwrap r.

Definition failed_authentication_exposes_attempts_and_remaining_methods (server_key : PublicKey)
    (port : N) : fut unit :=
  r ← connect_with 0 server_key port (plan_from_method (password "wrong-password"));
  error ← unwrap_err r;
  assert (bool_decide (SshError.kind error = ErrorKind.Authentication));;
  observation ← unwrap_some (SshError.authentication_observation error);
  assert (length (attempts observation) =? 1);;
  assert (match attempts observation with
          | a :: _ => bool_decide (at_method a = KPassword) | [] => false end);;
  assert (bool_decide (SrvPublicKey ∈ ob_remaining_methods observation)).

(** The queues of the test have room for one connection. *)
Definition changed_key_error_exposes_a_structured_observation
    (expected_key presented_key : PublicKey) : fut unit :=
  verifier ← may_panic (insert_key KnownHostKeyVerifier_new "server.example.com" 22 expected_key);
  forwarded_tcpip_sender ← ask (MpscChannel 1 : @query core_sig);
  forwarded_streamlocal_sender ← ask (MpscChannel 1 : @query core_sig);
  let handler :=
    {| ch_host := "server.example.com"; ch_port := 22; verifier := known_hosts_verifier verifier;
       forwarded_tcpip_sender := forwarded_tcpip_sender;
       forwarded_streamlocal_sender := forwarded_streamlocal_sender |} in
  r ← may_panic (snd (check_server_key handler presented_key));
  error ← unwrap_err r;
  observation ← unwrap_some (SshError.host_key_observation error);
  assert (bool_decide (decision observation = Changed));;
  assert (String.eqb (hko_host observation) "server.example.com");;
  assert (length (expected_fingerprints observation) =? 1);;
  assert (starts_with "SHA256:" (presented_fingerprint observation)).

(** The part of the test after the jump session is there. *)
Definition connects_to_a_target_ssh_server_through_a_jump_session (target_server_key : PublicKey)
    (target_port : N) (jump_session : SshSession) : fut unit :=
  target_verifier ← known_server target_server_key target_port;
  target_config ← alice_config target_port;
  r ← connect_via_jump 0 jump_session target_config (known_hosts_verifier target_verifier)
        (plan_from_method (password "test-password"));
  target_session ← unwrap r;
  assert (cfg_port (config target_session) =? target_port)%N;;
  closed ← is_closed target_session;
  assert (negb closed);;
  r ← disconnect target_session;
  unwrap r;;
  r ← disconnect jump_session;
  unwrap r.

(** ** Channels and forwards *)

(** What the task of [DirectTcpipServer] sends back for the messages of a channel. *)
Inductive echo_action := EchoData (data : list byte) | EchoEof | EchoClose.

Fixpoint echo_task (messages : list ChannelMsg) : list echo_action :=
  match messages with
  | [] => []
  | message :: rest =>
      match message with
      | MsgData data => EchoData data :: echo_task rest
      | MsgEof => [EchoEof; EchoClose]
      | MsgClose => []
      | _ => echo_task rest
      end
  end.

Definition echo_bytes (actions : list echo_action) : list byte :=
  actions ≫= (fun a => match a with EchoData data => data | _ => [] end).

(** [DirectTcpipServer::channel_open_direct_tcpip]: whether the channel is opened. *)
Definition DirectTcpipServer_opens (host_to_connect : string) (port_to_connect : N) : bool :=
  negb (negb (String.eqb host_to_connect "echo.internal") || negb (port_to_connect =? 7)%N).

Definition direct_tcpip_channel_round_trips_data (server_key : PublicKey) (port : N) : fut unit :=
  r ← connect_with 0 server_key port (plan_from_method (password "test-password"));
  session ← unwrap r;
  r ← open_direct_tcpip session "echo.internal" 7;
  channel ← unwrap r;
  let stream := into_stream channel in
  r ← stream_write stream (list_byte_of_string ("hello through ssh" +:+ String newline ""));
  unwrap r;;
  r ← stream_read stream 18;
  read ← unwrap r;
  assert (bool_decide (proj1_sig read =
            list_byte_of_string ("hello through ssh" +:+ String newline "")));;
  r ← disconnect session;
  unwrap r.

(** Over a Unix socket behind the server, whose other end copies what it reads back. *)
Definition direct_streamlocal_channel_round_trips_data (server_key : PublicKey) (port : N)
    (socket_path : string) : fut unit :=
  r ← connect_with 0 server_key port (plan_from_method (password "test-password"));
  session ← unwrap r;
  r ← open_direct_streamlocal session socket_path;
  channel ← unwrap r;
  let stream := into_stream channel in
  r ← stream_write stream (list_byte_of_string ("hello through unix ssh" +:+ String newline ""));
  unwrap r;;
  r ← stream_read stream 23;
  read ← unwrap r;
  assert (bool_decide (proj1_sig read =
            list_byte_of_string ("hello through unix ssh" +:+ String newline "")));;
  r ← disconnect session;
  unwrap r.

(** What [RemoteForwardServer::tcpip_forward] and [streamlocal_forward] do when they accept:
    the port they grant, and the connection they open and the data they send over it. *)
Record granted_forward := { granted_port : N; forwarded_from : string * N; forwarded_data : string }.

Definition RemoteForwardServer_tcpip_forward (address : string) (port : N) : option granted_forward :=
  if negb (String.eqb address "127.0.0.1") || negb (port =? 0)%N then None
  else Some {| granted_port := 4242; forwarded_from := ("10.0.0.2", 50000%N);
               forwarded_data := "remote hello" |}.

Definition RemoteForwardServer_streamlocal_forward (socket_path : string) : option string :=
  if negb (String.eqb socket_path "/tmp/xssh-rust-lib-remote.sock") then None
  else Some "remote unix hello".

(** The two halves of the test, given its session. *)
Definition remote_tcpip_forward_is_received (session : SshSession) : fut unit :=
  r ← request_remote_tcpip_forward session "127.0.0.1" 0;
  forward ← unwrap r;
  assert (String.eqb (fwd_address forward) "127.0.0.1");;
  assert (fwd_port forward =? 4242)%N;;
  r ← next_forwarded_tcpip session;
  r ← unwrap r;
  incoming ← unwrap_some r;
  assert (String.eqb (connected_address incoming) "127.0.0.1");;
  assert (connected_port incoming =? 4242)%N;;
  assert (String.eqb (originator_address incoming) "10.0.0.2");;
  assert (originator_port incoming =? 50000)%N;;
  let stream := forwarded_into_stream incoming in
  r ← stream_read stream 12;
  read ← unwrap r;
  assert (bool_decide (proj1_sig read = list_byte_of_string "remote hello"));;
  r ← cancel_remote_tcpip_forward session forward;
  unwrap r.

Definition remote_streamlocal_forward_is_received (session : SshSession) : fut unit :=
  r ← request_remote_streamlocal_forward session "/tmp/xssh-rust-lib-remote.sock";
  streamlocal_forward ← unwrap r;
  assert (String.eqb (fwd_socket_path streamlocal_forward) "/tmp/xssh-rust-lib-remote.sock");;
  r ← next_forwarded_streamlocal session;
  r ← unwrap r;
  incoming ← unwrap_some r;
  assert (String.eqb (socket_path incoming) "/tmp/xssh-rust-lib-remote.sock");;
  let stream := streamlocal_into_stream incoming in
  r ← stream_read stream 17;
  read ← unwrap r;
  assert (bool_decide (proj1_sig read = list_byte_of_string "remote unix hello"));;
  r ← cancel_remote_streamlocal_forward session streamlocal_forward;
  unwrap r;;
  r ← disconnect session;
  unwrap r.

Definition remote_tcpip_forward_receives_and_cancels_channels (server_key : PublicKey) (port : N)
  : fut unit :=
  r ← connect_with 0 server_key port (plan_from_method (password "test-password"));
  session ← unwrap r;
  remote_tcpip_forward_is_received session;;
  remote_streamlocal_forward_is_received session.

End Tests.

(** ** They pass *)

Section Passing.
Context {K : SshKeys} {A : AuthKeys} {L : Libraries} {S : Type} {E : Env S}.

(** A moment at which a test can start: the clock is not at its end, and the token about
    to be made is not one that was cancelled. *)
Record startable (w : world S) : Prop := {
  st_now : (w_now w + duration_from_secs 30 <= INSTANT_MAX)%N;
  st_token : w_next_token w ∉ w_cancelled w
}.

(** A test passes when it returns instead of panicking. *)
Definition passes (t : fut unit) (w : world S) : Prop := settles t w (fun _ _ => True).

Lemma settles_unwrap {X T} (r : result X T) x w (Q : T -> world S -> Prop) :
  r = Ok x -> Q x w -> settles (unwrap r) w Q.
Proof. intros -> Hq. by apply settles_ret. Qed.

Lemma settles_assert b w (Q : unit -> world S -> Prop) : b = true -> Q tt w -> settles (assert b) w Q.
Proof. intros -> Hq. by apply settles_ret. Qed.

Definition alice (port : N) : SshConfig :=
  {| cfg_host := "127.0.0.1"; cfg_port := port; cfg_username := "alice";
     connect_timeout := duration_from_secs 5; authentication_timeout := duration_from_secs 15;
     Config.operation_timeout := duration_from_secs 30;
     keepalive_interval := Some (duration_from_secs 30) |}.

Lemma settles_alice_config port w (Q : SshConfig -> world S -> Prop) :
  Q (alice port) w -> settles (alice_config port) w Q.
Proof. intros Hq. by exists (alice port), w. Qed.

Lemma alice_valid port : (0 < port)%N -> valid_config (alice port).
Proof.
  intros Hp. split; cbn [alice cfg_host cfg_username cfg_port connect_timeout authentication_timeout
    Config.operation_timeout keepalive_interval]; [by vm_compute|by vm_compute|done|by vm_compute..|].
  by intros d [= <-].
Qed.

(** The local host has a plain name, so a verifier made for it pins the key. *)
Lemma local_token port : plain_token (host_token "127.0.0.1" port) = true.
Proof. apply plain_host_token; [done|]. by repeat constructor. Qed.

Section Connecting.
Context {P : Peer}.

(** A context of the test, alive. *)
Definition alive (ctx : OperationContext) (w : world S) : Prop :=
  is_set (cancellation ctx) w = false /\ (w_now w + duration_from_secs 30 <= INSTANT_MAX)%N.

Lemma alive_clock ctx (w w' : world S) :
  w_now w' = w_now w -> w_cancelled w' = w_cancelled w -> alive ctx w -> alive ctx w'.
Proof. intros Hn Hc [? ?]. split; [by rewrite (is_set_clock _ w w')|by rewrite Hn]. Qed.

Lemma alice_unhindered port ctx (w : world S) :
  alive ctx w -> unhindered (alice port) ctx w.
Proof.
  intros [Hc Hn]. unfold duration_from_secs in Hn.
  split; cbn [alice connect_timeout authentication_timeout]; unfold duration_from_secs; lia || done.
Qed.

(** The session the tests get. *)
Record session_with (port : N) (s : SshSession) (w : world S) : Prop := {
  sw_handle : handle s = peer;
  sw_config : config s = alice port;
  sw_deadline : deadline (base_context s) = None;
  sw_alive : alive (base_context s) w
}.

(** Connecting under a new context to a server the verifier trusts. *)
Lemma settles_connect_new fuel port v plan w Q :
  startable w -> reached None -> (0 < port)%N ->
  trusts (alice port) v (w_ext w) ->
  (forall tcpip streamlocal w' ctx, deadline ctx = None -> alive ctx w' ->
     shared (w_ext w') v = consulted (alice port) v (w_ext w) ->
     settles (login fuel (alice port) plan ctx "ssh authentication" tcpip streamlocal
                peer) w' Q) ->
  settles (connect fuel (alice port) v plan) w Q.
Proof.
  intros [Hn Ht] Hre Hp Htr Hlogin.
  set (ctx := {| deadline := None; cancellation := w_next_token w |}).
  change (settles (connect_with_context fuel (alice port) v plan ctx) (snd (fresh w)) Q).
  assert (alive ctx (snd (fresh w))) as Ha.
  { split; [|done]. apply bool_decide_eq_false. exact Ht. }
  apply settles_connect; [done|by apply alice_valid|by apply alice_unhindered| |done].
  intros tcpip streamlocal w' Hn' Hc' _ Hv. apply Hlogin; [done| |exact Hv].
  by eapply alive_clock.
Qed.

(** A verifier that was given the server's key, and whose state nobody else changed. *)
Definition keeps (v : dyn_verifier) (w : world S) : Prop := shared (w_ext w) v = v.

Lemma known_server_trusts port w :
  is_ok (key_to_openssh server_key) = true -> (forall v, keeps v w) ->
  settles (known_server server_key port) w (fun v w' =>
    w' = w /\ trusts (alice port) (known_hosts_verifier v) (w_ext w)).
Proof.
  intros Hk Hv. unfold known_server.
  destruct (insert_key KnownHostKeyVerifier_new "127.0.0.1" port server_key) as [v|] eqn:Hi.
  2: { unfold insert_key in Hi. by destruct (key_to_openssh _). }
  apply settles_ret. split; [done|].
  unfold trusts, trusted_by. rewrite Hv. unfold dyn_verify. cbn.
  rewrite (pinned_check v "127.0.0.1" port (fingerprint_sha256 server_key)).
  - by rewrite String.eqb_refl.
  - by apply insert_key_pins; [apply local_token|].
Qed.

Lemma settles_known_server {X} port (f : KnownHostKeyVerifier -> fut X) w Q :
  is_ok (key_to_openssh server_key) = true -> (forall v, keeps v w) ->
  (forall v, trusts (alice port) (known_hosts_verifier v) (w_ext w) -> settles (f v) w Q) ->
  settles (known_server server_key port ≫= f) w Q.
Proof.
  intros Hk Hv Hf. apply settles_bind. eapply settles_mono; [|by apply known_server_trusts].
  intros v w' [-> Ht]. by apply Hf.
Qed.

Lemma settles_connect_with fuel port plan w (Q : result SshError SshSession -> world S -> Prop) :
  startable w -> is_ok (key_to_openssh server_key) = true -> (forall v, keeps v w) ->
  (forall v, trusts (alice port) v (w_ext w) -> settles (connect fuel (alice port) v plan) w Q) ->
  settles (connect_with fuel server_key port plan) w Q.
Proof.
  intros Hst Hk Hv Hc. apply settles_known_server; [done|done|]. intros v Htr.
  by apply settles_bind, settles_alice_config, Hc.
Qed.

(** What is common to the tests that connect, use the session and disconnect. *)
Record test_world (w : world S) : Prop := {
  tw_start : startable w;
  tw_reached : reached None;
  tw_key : is_ok (key_to_openssh server_key) = true;
  (** no state of a known-hosts verifier is shared: it has none *)
  tw_keeps : forall v, keeps v w
}.

End Connecting.

Context (srv : Handler) {V : Serves srv}.

(** A plan the server accepts gets a session. *)
Lemma settles_login_session fuel port plan ctx op tcpip streamlocal w :
  deadline ctx = None -> alive ctx w ->
  within_fuel srv fuel "alice" plan -> admitted srv fuel "alice" plan ->
  settles (login fuel (alice port) plan ctx op tcpip streamlocal peer) w (fun r w' =>
    exists s, r = Ok s /\ session_with port s w' /\ shared (w_ext w') = shared (w_ext w)).
Proof.
  intros Hd Ha Hf Hadm.
  eapply settles_mono; [|apply settles_clock, (settles_login _ _ _ _ _ _ _ _ (fun r w2 =>
    shared (w_ext w2) = shared (w_ext w) /\ (r = Ok tt <-> admitted srv fuel "alice" plan)))].
  - intros r w2 (Hn & Hc & r0 & -> & Hsh & Hr). apply Hr in Hadm as ->.
    eexists. split; [reflexivity|]. split; [|exact Hsh].
    split; [done..|]. by eapply alive_clock.
  - by apply alice_unhindered.
  - intros w2 Hw2. eapply settles_mono; [|by apply yields_authenticate].
    intros r w3 [Hs Hr]. by rewrite Hw2 in Hs.
Qed.

Lemma settles_session fuel port v plan w :
  startable w -> reached None -> (0 < port)%N -> trusts (alice port) v (w_ext w) ->
  within_fuel srv fuel "alice" plan -> admitted srv fuel "alice" plan ->
  settles (connect fuel (alice port) v plan) w (fun r w' =>
    exists s, r = Ok s /\ session_with port s w' /\
      shared (w_ext w') v = consulted (alice port) v (w_ext w)).
Proof.
  intros Hst Hre Hp Htr Hf Hadm. apply settles_connect_new; [done..|].
  intros tcpip streamlocal w' ctx Hd Ha Hv.
  eapply settles_mono; [|by apply settles_login_session].
  intros r w2 (s & -> & Hs & Hsh). exists s. by rewrite Hsh.
Qed.

Lemma settles_disconnect port s w (Q : result SshError unit -> world S -> Prop) :
  session_with port s w -> (forall w', Q (Ok tt) w') -> settles (disconnect s) w Q.
Proof.
  intros [Hh Hc Hd [Ha Hn]] HQ. apply settles_bind, settles_with_timeout_from_now.
  { rewrite Hc. exact Hn. }
  intros d _. apply settles_run; [exact Ha|]. apply settles_fmap. rewrite Hh.
  eapply settles_mono; [|apply (settles_replies (HandleDisconnect _ _ _)), serves_disconnect].
  intros r w' [_ ->]. apply HQ.
Qed.

Lemma settles_test_session fuel port plan w (f : SshSession -> fut unit) :
  test_world w -> (0 < port)%N ->
  within_fuel srv fuel "alice" plan -> admitted srv fuel "alice" plan ->
  (forall s w', session_with port s w' -> passes (f s) w') ->
  passes (r ← connect_with fuel server_key port plan; session ← unwrap r; f session) w.
Proof.
  intros [Hst Hre Hk Hv] Hp Hf Ha Hs. apply settles_bind, settles_connect_with; [done..|].
  intros v Htr. eapply settles_mono; [|by apply settles_session].
  intros r w' (s & -> & Hses & _). apply settles_bind, settles_ret. by apply Hs.
Qed.

Lemma disconnecting_passes port s w :
  session_with port s w -> passes (r ← disconnect s; unwrap r) w.
Proof.
  intros Hs. apply settles_bind. eapply settles_disconnect; [exact Hs|].
  intros w'. by apply settles_ret.
Qed.

(** A call under a context that is alive, with the wrapper around its answer. *)
Lemma settles_call {X} ctx name (o : call) (k : call_answer o -> result SshError X) w
    (P : call_answer o -> S -> Prop) (Q : result SshError X -> world S -> Prop) :
  alive ctx w -> replies o (w_ext w) P ->
  (forall a w', alive ctx w' -> P a (w_ext w') -> Q (map_err (SshError.with_operation name) (k a)) w') ->
  settles (run ctx name (k <$> await (o : @op core_sig))) w Q.
Proof.
  intros Ha Hr HQ. apply settles_run; [apply Ha|]. apply settles_fmap.
  pose proof (toss_clock w) as [Hn Hc].
  rewrite <-(w_ext_toss w) in Hr.
  eapply settles_mono; [|exact (settles_clock _ _ _ (settles_replies o _ _ Hr))].
  intros a w' (Hn' & Hc' & Hp). apply HQ; [|exact Hp].
  eapply alive_clock; [| |exact Ha]; congruence.
Qed.

(** The context of an operation that takes none. *)
Lemma settles_default_context {X} ctx (f : OperationContext -> fut X) w Q :
  alive ctx w -> (forall ctx', alive ctx' w ->
    (forall w' : world S, alive ctx' w' -> alive ctx w') -> settles (f ctx') w Q) ->
  settles (with_timeout_from_now (duration_from_secs 30) ctx ≫= f) w Q.
Proof.
  intros [Hs Hn] HQ. apply settles_bind, settles_with_timeout_from_now; [exact Hn|].
  intros d _. by apply HQ.
Qed.

(** The shape of three of the tests: one method, which the server accepts. *)
Lemma one_method_passes fuel port m w :
  test_world w -> (0 < port)%N -> accepts srv fuel "alice" m = Some true ->
  passes (r ← connect_with fuel server_key port (plan_from_method m);
          session ← unwrap r; r ← disconnect session; unwrap r) w.
Proof.
  intros Hw Hp Hm. apply settles_test_session; [done|done| | |].
  - repeat constructor. by eexists.
  - by apply Exists_cons_hd.
  - intros s w'. apply disconnecting_passes.
Qed.

End Passing.

(** ** Each test *)

Section Results.
Context {K : SshKeys} {A : AuthKeys} {L : Libraries} {S : Type} {E : Env S}.

(** The session after the first half serves any later moment of the environment's. *)
Lemma connects_and_authenticates_passes {V : Serves (S := S) PasswordServer} port w :
  test_world w -> (0 < port)%N ->
  settles (connects_verifies_host_key_and_authenticates server_key port) w
    (fun '(session, first_deadline) w' =>
       first_deadline = (w_now w' + duration_from_secs 30)%N /\
       alive (base_context session) w' /\
       forall w2 : world S,
         (w_now w' < w_now w2)%N -> alive (base_context session) w2 ->
         passes (deadlines_move_and_session_disconnects session first_deadline) w2).
Proof.
  intros [Hst Hre Hk Hv] Hp. apply settles_bind, settles_connect_with; [done..|].
  intros v Htr. eapply settles_mono; [|apply (settles_session PasswordServer); try done].
  - intros r w' (s & -> & Hs & _). apply settles_bind, settles_ret.
    destruct (serves_open (srv := PasswordServer) (w_ext w')) as (s' & Hq & _).
    apply settles_bind, (settles_ask (HandleIsClosed (handle s) : @query core_sig)).
    rewrite (sw_handle _ _ _ Hs), Hq. apply settles_bind, settles_ret.
    destruct Hs as [Hh Hc Hd [Ha Hn]].
    apply settles_bind, settles_with_timeout_from_now; [by rewrite Hc|]. intros d Hd2.
    unfold base_context in Hd. rewrite Hd, Hc in Hd2. subst d.
    apply settles_bind, settles_ret, settles_ret. split; [done|]. split; [done|].
    intros w2 Hlt Ha2. apply settles_bind, settles_with_timeout_from_now.
    { rewrite Hc. apply Ha2. }
    intros d Hd2. rewrite Hd, Hc in Hd2. subst d.
    apply settles_bind, settles_ret, settles_bind, settles_assert.
    { apply N.ltb_lt. cbn in Hlt |- *. lia. }
    by apply (disconnecting_passes PasswordServer port).
  - repeat constructor. by eexists.
  - by apply Exists_cons_hd.
Qed.

Lemma tofu_records_the_server_key_passes {V : Serves (S := S) PasswordServer} port w :
  let t := TofuHostKeyVerifier_default in
  let verifier := DynVerifier _ tofu_host_key_verifier t in
  startable w -> reached None -> (0 < port)%N ->
  is_ok (key_to_openssh server_key) = true ->
  keeps verifier w ->
  settles (tofu_accepts_and_records_the_first_server_key port) w (fun session w' =>
    exists t', shared (w_ext w') verifier =
                 DynVerifier _ tofu_host_key_verifier t' /\
    exists v, snapshot t' = Ok v /\
    snd (verify v "127.0.0.1" port server_key) = Returned (Ok Trusted) /\
    passes (r ← disconnect session; unwrap r) w').
Proof.
  intros t verifier Hst Hre Hp Hk Hkeep. unfold keeps in Hkeep. subst verifier t.
  apply settles_bind, settles_alice_config, settles_bind.
  assert (exists v', accept_key KnownHostKeyVerifier_new "127.0.0.1" port server_key = Returned v')
    as [v' Hacc].
  { unfold accept_key, push_key. destruct (key_to_openssh _); [by eexists|done]. }
  assert (dyn_verify (DynVerifier _ tofu_host_key_verifier
      TofuHostKeyVerifier_default) "127.0.0.1" port server_key =
    (DynVerifier _ tofu_host_key_verifier (TofuHostKeyVerifier_new v'), Returned (Ok Trusted))) as Hv.
  { unfold dyn_verify. cbn [dv_type dv_impl dv_state verify tofu_host_key_verifier].
    unfold tofu_verify, TofuHostKeyVerifier_default.
    cbn [poisoned TofuHostKeyVerifier_new HostKey.inner].
    rewrite check_known_decision. cbn [matching]. rewrite Hacc. reflexivity. }
  eapply settles_mono; [|apply (settles_session PasswordServer); try done].
  - intros r w' (s & -> & Hs & Hsh). apply settles_ret.
    exists (TofuHostKeyVerifier_new v'). split.
    { etransitivity; [exact Hsh|]. unfold consulted. rewrite Hkeep. cbn [alice cfg_host cfg_port].
      by rewrite Hv. }
    exists v'. split; [done|]. split; [|by eapply disconnecting_passes].
    cbn. rewrite (pinned_check v' "127.0.0.1" port (fingerprint_sha256 server_key)).
    + by rewrite String.eqb_refl.
    + eapply accept_key_pins; [apply local_token| |exact Hacc]. by rewrite check_known_decision.
  - unfold trusts, trusted_by. rewrite Hkeep. cbn [alice cfg_host cfg_port]. by rewrite Hv.
  - repeat constructor. by eexists.
  - by apply Exists_cons_hd.
Qed.

(** The handler has been called. *)
Definition called (k : KeyboardInteractiveHandler) (w : world S) : Prop :=
  exists challenge r, Answered (HandlerRespond k challenge : @op core_sig) r ∈ w_log w.

Lemma settles_one_time_code {V : Serves (S := S) KeyboardInteractiveServer} k w :
  (forall challenge r, one_time_code challenge = Returned r ->
     respond (srv := KeyboardInteractiveServer) k challenge = r) ->
  settles (authenticate 2 peer "alice" (plan_from_method (keyboard_interactive k))) w (fun r w' =>
    r = Ok tt /\ called k w').
Proof.
  intros Hk. apply settles_bind, settles_bind, settles_fmap.
  eapply settles_mono; [|apply (settles_replies (KeyboardStart _ _ _)), (serves_keyboard_start (srv := KeyboardInteractiveServer))].
  intros r w1 (_ & Hx & a & -> & Ht). cbn in Ht. subst a. cbn [map_err keyboard_loop].
  apply settles_bind.
  eapply settles_mono; [|apply (settles_replies_logged (HandlerRespond _ _)),
    (serves_challenge (srv := KeyboardInteractiveServer))].
  intros r w2 ((_ & Hx2 & ->) & Hlog).
  set (c := challenge_of _ _ _) in *.
  assert (respond k c = Ok [SecretString_new "654321"]) as -> by by apply Hk.
  cbv beta iota. cbn [negb length challenge_prompts challenge_of fmap list_fmap Nat.eqb].
  apply settles_bind, settles_fmap.
  eapply settles_mono; [|apply (settles_replies_logged (KeyboardRespond _ _)),
    (serves_keyboard_respond (srv := KeyboardInteractiveServer) "alice" ""); by rewrite Hx2].
  intros r w3 ((_ & _ & a & -> & Ht) & Hlog3). change (a = KbSuccess) in Ht. subst a.
  apply settles_ret, (settles_ret (Ok tt)). split; [done|].
  eexists _, _. rewrite Hlog3, Hlog. apply elem_of_app. left. apply elem_of_app. right.
  apply elem_of_cons. right. by apply list_elem_of_singleton.
Qed.

(** The handler answers the challenge the closure of the test expects, and the flag is set
    once it has been called. *)
Lemma keyboard_interactive_passes {V : Serves (S := S) KeyboardInteractiveServer} port k load w :
  test_world w -> (0 < port)%N ->
  (forall challenge r, one_time_code challenge = Returned r ->
     respond (srv := KeyboardInteractiveServer) k challenge = r) ->
  (forall w', called k w' -> settles load w' (fun b w2 => b = true /\ w2 = w')) ->
  passes (keyboard_interactive_answers_server_challenges server_key port k load) w.
Proof.
  intros [Hst Hre Hkey Hv] Hp Hk Hload. apply settles_bind, settles_connect_with; [done..|].
  intros v Htr. apply settles_connect_new; [done..|]. intros tcpip streamlocal w1 ctx Hd Ha _.
  eapply settles_mono; [|apply settles_clock, (settles_login _ _ _ _ _ _ _ _ (fun r w' =>
    r = Ok tt /\ called k w'))];
    [|by apply alice_unhindered|intros w2 _; by apply settles_one_time_code].
  intros r w2 (Hn & Hc & r0 & -> & -> & Hcalled).
  apply settles_bind, settles_ret, settles_bind. eapply settles_mono; [|by apply Hload].
  intros b w3 [-> ->]. apply settles_bind, settles_ret.
  apply (disconnecting_passes KeyboardInteractiveServer port). split; [done..|].
  by eapply alive_clock.
Qed.

Lemma rsa_sha512_passes same expected {V : Serves (S := S) (PublicKeyServer same expected)} port client_key w :
  test_world w -> (0 < port)%N ->
  key_is_encrypted client_key = false -> algorithm_is_rsa (key_algorithm client_key) = true ->
  public_key_of (srv := PublicKeyServer same expected) client_key = expected ->
  same expected expected = true ->
  verifies (srv := PublicKeyServer same expected) expected (Some HashAlg_Sha512) = true ->
  passes (rsa_sha512_private_key_authenticates
            server_key port client_key) w.
Proof.
  intros Hw Hp He Hr Hpub Hsame Hver. apply one_method_passes; [done|done|]. cbn.
  unfold decrypt_private_key. rewrite He. cbn. unfold key_accepted, hash_candidates. rewrite Hr.
  cbn. unfold signature_verdict. rewrite Hpub, Hver. cbn. by rewrite Hsame.
Qed.

Lemma openssh_user_certificate_passes valid_principals
    {V : Serves (S := S) (CertificateServer valid_principals)}
    port client_key certificate w :
  test_world w -> (0 < port)%N ->
  key_is_encrypted client_key = false ->
  certificate_is_user certificate = true -> certificate_matches_key client_key certificate = true ->
  valid_principals certificate = ["alice"] ->
  passes (openssh_user_certificate_authenticates
            server_key port client_key certificate) w.
Proof.
  intros Hw Hp He Hu Hm Hv. apply one_method_passes; [done|done|]. cbn.
  unfold decrypt_private_key. rewrite He. cbn. by rewrite Hu, Hm, Hv.
Qed.

Lemma plan_falls_back_passes {V : Serves (S := S) PasswordServer} port w :
  test_world w -> (0 < port)%N ->
  passes (authentication_plan_falls_back_after_an_unavailable_agent
            server_key port) w.
Proof.
  intros Hw Hp. apply settles_test_session; [done|done| | |].
  - repeat constructor; by eexists.
  - by apply Exists_cons_tl, Exists_cons_hd.
  - intros s w'. apply disconnecting_passes.
Qed.

(** What the error of the last attempt of a one-password plan says. *)
Lemma settles_rejected_password (srv : Handler) {V : Serves (S := S) srv} fuel user pass w :
  auth_password srv user pass = Auth_reject ->
  settles (authenticate fuel peer user (plan_from_method (password pass))) w (fun r _ =>
    exists ms, advertised (srv := srv) MkPassword ms /\
      r = Err (authentication_failed (record_failure empty_observation KPassword
                 (server_auth_methods ms) false) None)).
Proof.
  intros Hr. apply settles_bind, settles_bind, settles_fmap.
  eapply settles_mono;
    [|apply (settles_replies (AuthenticatePassword _ _ _)), (serves_password (srv := srv))].
  intros r w' (_ & a & -> & Ht). cbn [as_str secret SecretString_new] in Ht. rewrite Hr in Ht.
  destruct Ht as (ms & -> & Hm). apply settles_ret, (settles_ret (Err _)).
  by exists ms.
Qed.

(** A server that offers public-key authentication still does after refusing a password. *)
Lemma failed_authentication_passes {V : Serves (S := S) PasswordServer} port w :
  test_world w -> (0 < port)%N ->
  (forall ms, advertised (srv := PasswordServer) MkPassword ms -> MkPublicKey ∈ ms) ->
  passes (failed_authentication_exposes_attempts_and_remaining_methods server_key port) w.
Proof.
  intros [Hst Hre Hk Hv] Hp Hadv. apply settles_bind, settles_connect_with; [done..|].
  intros v Htr. apply settles_connect_new; [done..|]. intros tcpip streamlocal w' ctx Hd Ha _.
  eapply settles_mono; [|apply (settles_login _ _ _ _ _ _ _ _ (fun r _ =>
    exists ms, advertised (srv := PasswordServer) MkPassword ms /\
      r = Err (authentication_failed (record_failure empty_observation KPassword
                 (server_auth_methods ms) false) None)))];
    [|by apply alice_unhindered|intros w2 _; by apply settles_rejected_password].
  intros r w2 (r0 & -> & ms & Hms & ->).
  apply settles_bind, (settles_ret (A := SshError)), settles_bind, settles_assert; [done|].
  apply settles_bind, (settles_ret (A := AuthenticationObservation)).
  apply settles_bind, settles_assert; [done|]. apply settles_bind, settles_assert; [done|].
  apply settles_assert; [|done]. apply bool_decide_eq_true. cbn.
  apply (list_elem_of_fmap_2 server_auth_method ms MkPublicKey). by apply Hadv.
Qed.

Lemma changed_key_passes {P : Peer (S := S)} key1 key2 w :
  is_ok (key_to_openssh key1) = true ->
  String.eqb (fingerprint_sha256 key1) (fingerprint_sha256 key2) = false ->
  starts_with "SHA256:" (fingerprint_sha256 key2) = true ->
  passes (changed_key_error_exposes_a_structured_observation key1 key2) w.
Proof.
  intros Hk Hne Hs. unfold changed_key_error_exposes_a_structured_observation.
  destruct (insert_key KnownHostKeyVerifier_new "server.example.com" 22 key1) as [v|] eqn:Hi.
  2: { unfold insert_key in Hi. by destruct (key_to_openssh key1). }
  pose proof (insert_key_pins v "server.example.com" 22 key1 eq_refl Hi) as Hpin.
  apply settles_bind, settles_ret.
  apply settles_bind, settles_queue. intros q1 w1 _ _ _.
  apply settles_bind, settles_queue. intros q2 w2 _ _ _.
  assert (decision (check_known v "server.example.com" 22 key2) = Changed) as Hc.
  { rewrite (pinned_check _ _ _ _ _ Hpin). by rewrite Hne. }
  unfold check_server_key, dyn_verify, dyn_check.
  cbn [verifier known_hosts_verifier dv_type dv_impl dv_state verify check
    known_host_key_verifier ch_host ch_port]. rewrite Hc.
  destruct (decide (Changed = Trusted)) as [|_]; [done|].
  cbn [snd refuse_server_key may_panic].
  apply settles_bind, settles_ret, settles_bind, (settles_ret (A := SshError)).
  apply settles_bind, (settles_ret (A := HostKeyObservation)).
  assert (hko_host (check_known v "server.example.com" 22 key2) = "server.example.com" /\
    length (expected_fingerprints (check_known v "server.example.com" 22 key2)) = 1 /\
    presented_fingerprint (check_known v "server.example.com" 22 key2) =
      fingerprint_sha256 key2) as (Hh & Hl & Hf).
  { rewrite check_known_unfold. cbn [hko_host expected_fingerprints presented_fingerprint].
    split_and!; [done| |done].
    unfold insert_key in Hi. destruct (key_to_openssh key1); [|done]. injection Hi as <-.
    reflexivity. }
  apply settles_bind, settles_assert; [done|].
  apply settles_bind, settles_assert; [cbn [set_decision hko_host]; by rewrite Hh|].
  apply settles_bind, settles_assert; [cbn [set_decision expected_fingerprints]; by rewrite Hl|].
  apply settles_assert; [|done]. cbn [set_decision presented_fingerprint]. by rewrite Hf.
Qed.

(** *** Channels *)

Section Echo.
Context (sent_back : S -> RawStream -> list byte).

(** A stream on which the server sends back what it is sent. *)
Definition echoes : Prop :=
  (forall stream data s, replies (IoWriteAll (SshIo stream) data) s (fun r s' =>
     r = Ok tt /\ sent_back s' stream = sent_back s stream ++ echo_bytes (echo_task [MsgData data]))) /\
  (forall stream n s, replies (IoRead (SshIo stream) n) s (fun r _ =>
     exists read, r = Ok read /\ proj1_sig read = take n (sent_back s stream))).

(** Writing and reading back on a channel whose stream echoes, and disconnecting. *)
Lemma echo_passes (srv : Handler) {V : Serves srv} port session data n raw ctx w :
  echoes -> session_with port session w -> alive ctx w ->
  (forall w' : world S, alive ctx w' -> alive (base_context session) w') ->
  sent_back (w_ext w) (into_raw_stream raw) = [] -> length data <= n ->
  passes
    (let stream := into_stream (from_inner raw ctx (duration_from_secs 30)) in
     r ← stream_write stream data;
     unwrap r;;
     r ← stream_read stream n;
     read ← unwrap r;
     assert (bool_decide (proj1_sig read = data));;
     r ← disconnect session;
     unwrap r) w.
Proof.
  intros [Hwr Hrd] Hs Ha Hback Hempty Hlen. cbv zeta.
  apply settles_bind, settles_default_context; [exact Ha|]. intros c1 Hc1 Hb1.
  eapply (settles_call c1 _ (IoWriteAll _ _)); [exact Hc1|apply Hwr|].
  intros a w1 Hw1 [-> He]. apply settles_bind, settles_ret. apply Hb1 in Hw1.
  apply settles_bind, settles_default_context; [exact Hw1|]. intros c2 Hc2 Hb2.
  eapply (settles_call c2 _ (IoRead _ _)); [exact Hc2|apply Hrd|].
  intros r w2 Hw2 (read & -> & Hr). apply Hb2 in Hw2.
  apply settles_bind, (settles_ret read), settles_bind, settles_assert.
  - apply bool_decide_eq_true. etransitivity; [exact Hr|]. rewrite He. cbn [st_inner into_stream inner from_inner].
    rewrite Hempty. cbn. by rewrite app_nil_r, take_ge.
  - apply (disconnecting_passes srv port).
    destruct Hs. split; [done..|by apply Hback].
Qed.

Lemma direct_tcpip_round_trips_passes {V : Serves (S := S) DirectTcpipServer} port w :
  echoes -> test_world w -> (0 < port)%N ->
  (forall host p orig orig_port s,
     replies (ChannelOpenDirectTcpip peer host p orig orig_port) s (fun r s' =>
       is_ok r = DirectTcpipServer_opens host p /\
       forall raw, r = Ok raw -> sent_back s' (into_raw_stream raw) = [])) ->
  passes (direct_tcpip_channel_round_trips_data server_key port) w.
Proof.
  intros He Hw Hp Ho. apply settles_test_session; [done|done| | |].
  - repeat constructor. by eexists.
  - by apply Exists_cons_hd.
  - intros session w1 Hs. pose proof Hs as [Hh Hc Hd Ha].
    apply settles_bind. unfold open_direct_tcpip, session_default_context. rewrite Hc.
    apply settles_default_context; [exact Ha|]. intros ctx Hctx Hback.
    apply settles_bind, settles_lift, settles_bind. unfold open_raw_direct_tcpip_with_context.
    rewrite Hh.
    eapply (settles_call ctx _ (ChannelOpenDirectTcpip _ _ _ _ _)); [exact Hctx|apply Ho|].
    intros [raw|e] w2 Hw2 [Hok Hempty]; [|done]. apply settles_ret, settles_bind, settles_ret.
    rewrite Hc. apply (echo_passes _ port); [done| |done|exact Hback|by apply Hempty|done].
    split; [done..|by apply Hback].
Qed.

Lemma direct_streamlocal_round_trips_passes {V : Serves (S := S) DirectStreamlocalServer} port path w :
  echoes -> test_world w -> (0 < port)%N ->
  trim path <> "" -> contains_char nul path = false ->
  (forall s, replies (ChannelOpenDirectStreamlocal peer path) s (fun r s' =>
     exists raw, r = Ok raw /\ sent_back s' (into_raw_stream raw) = [])) ->
  passes (direct_streamlocal_channel_round_trips_data server_key port path) w.
Proof.
  intros He Hw Hp Hpath Hnul Ho. apply settles_test_session; [done|done| | |].
  - repeat constructor. by eexists.
  - by apply Exists_cons_hd.
  - intros session w1 Hs. pose proof Hs as [Hh Hc Hd Ha].
    apply settles_bind. unfold open_direct_streamlocal, session_default_context. rewrite Hc.
    apply settles_default_context; [exact Ha|]. intros ctx Hctx Hback.
    apply settles_bind, settles_lift.
    rewrite (proj2 (validate_streamlocal_path_Ok path path)) by done.
    apply settles_bind. unfold open_raw_direct_streamlocal_with_context. rewrite Hh.
    eapply (settles_call ctx _ (ChannelOpenDirectStreamlocal _ _)); [exact Hctx|apply Ho|].
    intros r w2 Hw2 (raw & -> & Hempty). apply settles_ret, settles_bind, settles_ret.
    rewrite Hc. apply (echo_passes _ port); [done| |done|exact Hback|exact Hempty|done].
    split; [done..|by apply Hback].
Qed.

End Echo.

(** *** Jump hosts *)

(** Through a jump session whose host splices the channel to the target. *)
Lemma connects_through_a_jump_session_passes {V : Serves (S := S) PasswordServer} port jump w :
  startable w -> (0 < port)%N -> (forall v, keeps v w) ->
  is_ok (key_to_openssh server_key) = true ->
  jumps jump (alice port) ->
  (forall description language s,
     replies (HandleDisconnect (handle jump) description language) s (fun r _ => r = Ok tt)) ->
  alive (base_context jump) w ->
  Config.operation_timeout (config jump) = duration_from_secs 30 ->
  passes (connects_to_a_target_ssh_server_through_a_jump_session server_key port jump) w.
Proof.
  intros Hst Hp Hkeep Hk Hj Hdis Hja Hjt.
  apply settles_known_server; [done|done|]. intros v Htr.
  apply settles_bind, settles_alice_config, settles_bind.
  set (ctx := {| deadline := None; cancellation := w_next_token w |}).
  change (settles (connect_via_jump_with_context 0 jump (alice port) (known_hosts_verifier v)
    (plan_from_method (password "test-password")) ctx) (snd (fresh w))
    (fun r w' => passes
      (target_session ← unwrap r;
       assert (cfg_port (config target_session) =? port)%N;;
       closed ← is_closed target_session;
       assert (negb closed);;
       r ← disconnect target_session;
       unwrap r;;
       r ← disconnect jump;
       unwrap r) w')).
  assert (alive ctx (snd (fresh w))) as Ha.
  { split; [|apply Hst]. apply bool_decide_eq_false. apply Hst. }
  apply settles_connect_via_jump; [done|by apply alice_valid|by apply alice_unhindered| |done].
  intros tcpip streamlocal w1 Hn1 Hc1 _ _.
  assert (alive (base_context jump) w1) as Hja1 by by eapply (alive_clock _ (snd (fresh w))).
  eapply settles_mono; [|apply settles_clock, (settles_login_session PasswordServer);
    [done|by eapply alive_clock|repeat constructor; by eexists|by apply Exists_cons_hd]].
  intros r w2 (Hn2 & Hc2 & s & -> & Hs & _).
  assert (alive (base_context jump) w2) as Hja2 by by eapply alive_clock.
  pose proof Hs as [Hh Hc Hd Hal].
  apply settles_bind, settles_ret, settles_bind, settles_assert.
  { rewrite Hc. apply N.eqb_refl. }
  destruct (serves_open (srv := PasswordServer) (w_ext w2)) as (s' & Hq & _).
  apply settles_bind, (settles_ask (HandleIsClosed (handle s) : @query core_sig)).
  rewrite Hh, Hq. apply settles_bind, settles_ret. set (w3 := record_event _ _).
  assert (session_with port s w3) as Hs3 by by split.
  apply settles_bind.
  eapply settles_mono; [|apply settles_clock, (settles_disconnect PasswordServer port s w3
    (fun r _ => r = Ok tt)); done].
  intros r w4 (Hn4 & Hc4 & ->). apply settles_bind, settles_ret, settles_bind.
  unfold disconnect, operation_context. rewrite Hjt.
  assert (alive (base_context jump) w4) as Hja4 by by eapply (alive_clock _ w3).
  apply settles_default_context; [exact Hja4|]. intros c Hc' _.
  eapply (settles_call c _ (HandleDisconnect _ _ _)); [exact Hc'|apply Hdis|].
  intros r w5 _ ->. by apply settles_ret.
Qed.

(** *** Remote forwards *)

(** [RemoteForwardServer] on the other end: what it has queued for the client, and what the
    client finds on the channels it opened. *)
Record serves_forwards {P : Peer (S := S)} (queued : S -> option (string * granted_forward))
    (queued_path : S -> option (string * string)) (incoming : S -> RawStream -> list byte) : Prop := {
  sf_request : forall address port s,
    replies (TcpipForward peer address port) s (fun r s' =>
      match RemoteForwardServer_tcpip_forward address port with
      | Some granted => r = Ok (granted_port granted) /\ queued s' = Some (address, granted)
      | None => exists e, r = Err e
      end);
  sf_request_path : forall path s,
    replies (StreamlocalForward peer path) s (fun r s' =>
      match RemoteForwardServer_streamlocal_forward path with
      | Some data => r = Ok tt /\ queued_path s' = Some (path, data)
      | None => exists e, r = Err e
      end);
  sf_lock : forall q s, replies (LockReceiver q) s (fun _ s' =>
      queued s' = queued s /\ queued_path s' = queued_path s);
  sf_next : forall q s address granted, queued s = Some (address, granted) ->
    replies (RecvForwardedTcpip q) s (fun r s' => exists raw,
      r = Some {| pf_channel := raw; pf_connected_address := address;
                  pf_connected_port := granted_port granted;
                  pf_originator_address := fst (forwarded_from granted);
                  pf_originator_port := snd (forwarded_from granted) |} /\
      incoming s' (into_raw_stream raw) = list_byte_of_string (forwarded_data granted));
  sf_next_path : forall q s path data, queued_path s = Some (path, data) ->
    replies (RecvForwardedStreamlocal q) s (fun r s' => exists raw,
      r = Some {| ps_channel := raw; ps_socket_path := path |} /\
      incoming s' (into_raw_stream raw) = list_byte_of_string data);
  sf_read : forall stream n s, replies (IoRead (SshIo stream) n) s (fun r _ =>
      exists read, r = Ok read /\ proj1_sig read = take n (incoming s stream));
  sf_cancel : forall address port s, replies (CancelTcpipForward peer address port) s
      (fun r _ => r = Ok tt);
  sf_cancel_path : forall path s, replies (CancelStreamlocalForward peer path) s
      (fun r _ => r = Ok tt)
}.

(** Reading what came over a forwarded channel. *)
Lemma settles_read_incoming (incoming : S -> RawStream -> list byte) raw data n ctx w
    (f : result SshError {l : list byte | (length l <= n)%nat} -> fut unit) Q :
  (forall stream n s, replies (IoRead (SshIo stream) n) s (fun r _ =>
      exists read, r = Ok read /\ proj1_sig read = take n (incoming s stream))) ->
  alive ctx w -> incoming (w_ext w) (into_raw_stream raw) = data -> length data <= n ->
  (forall read w', alive ctx w' -> proj1_sig read = data -> settles (f (Ok read)) w' Q) ->
  settles (r ← stream_read (into_stream (from_inner raw ctx (duration_from_secs 30))) n; f r) w Q.
Proof.
  intros Hrd Ha Hi Hn Hf. apply settles_bind, settles_default_context; [exact Ha|].
  intros c Hc Hback. eapply (settles_call c _ (IoRead _ _)); [exact Hc|apply Hrd|].
  intros r w2 Hw2 (read & -> & Hr). apply Hf; [by apply Hback|]. etransitivity; [exact Hr|].
  cbn [st_inner into_stream inner from_inner]. rewrite Hi. by apply take_ge.
Qed.

(** A foreign call under the session's default context. *)
Lemma settles_session_call {X Y} session name (o : call) (k : call_answer o -> result SshError X)
    (g : result SshError X -> fut Y) (P : call_answer o -> S -> Prop) w Q :
  Config.operation_timeout (config session) = duration_from_secs 30 ->
  alive (base_context session) w -> replies o (w_ext w) P ->
  (forall a w', alive (base_context session) w' -> P a (w_ext w') ->
     settles (g (map_err (SshError.with_operation name) (k a))) w' Q) ->
  settles (ctx ← session_default_context session;
           r ← run ctx name (k <$> await (o : @op core_sig)); g r) w Q.
Proof.
  intros Ht Ha Hr HQ. unfold session_default_context. rewrite Ht.
  apply settles_default_context; [exact Ha|]. intros ctx Hctx Hback.
  apply settles_bind. eapply settles_call; [exact Hctx|exact Hr|].
  intros a w' Hw' Hp. apply HQ; [by apply Hback|exact Hp].
Qed.

Lemma settles_session_run {X} session name (o : call) (k : call_answer o -> result SshError X)
    (P : call_answer o -> S -> Prop) w Q :
  Config.operation_timeout (config session) = duration_from_secs 30 ->
  alive (base_context session) w -> replies o (w_ext w) P ->
  (forall a w', alive (base_context session) w' -> P a (w_ext w') ->
     Q (map_err (SshError.with_operation name) (k a)) w') ->
  settles (ctx ← session_default_context session; run ctx name (k <$> await (o : @op core_sig))) w Q.
Proof.
  intros Ht Ha Hr HQ. unfold session_default_context. rewrite Ht.
  apply settles_default_context; [exact Ha|]. intros ctx Hctx Hback.
  eapply settles_call; [exact Hctx|exact Hr|]. intros a w' Hw' Hp. apply HQ; [by apply Hback|exact Hp].
Qed.

(** Waiting for what the other end opens: the queue is locked, then read. *)
Lemma settles_next {X} session name q (o : call) (k : call_answer o -> result SshError X) w
    (P : unit -> S -> Prop) (P' : call_answer o -> S -> Prop) (Q : result SshError X -> world S -> Prop) :
  alive (base_context session) w -> replies (LockReceiver q) (w_ext w) P ->
  (forall s, P tt s -> replies o s P') ->
  (forall a w', alive (base_context session) w' -> P' a (w_ext w') ->
     Q (map_err (SshError.with_operation name) (k a)) w') ->
  settles (run (base_context session) name
    (_ ← await (LockReceiver q : @op core_sig);
     m ← await (o : @op core_sig); mret (k m))) w Q.
Proof.
  intros Ha Hl Hr HQ. apply settles_run; [apply Ha|]. pose proof (toss_clock w) as [Hn Hc].
  rewrite <-(w_ext_toss w) in Hl.
  apply settles_bind. eapply settles_mono;
    [|exact (settles_clock _ _ _ (settles_replies (LockReceiver q) _ _ Hl))].
  intros [] w1 (Hn1 & Hc1 & Hp). apply settles_bind. eapply settles_mono;
    [|exact (settles_clock _ _ _ (settles_replies o _ _ (Hr _ Hp)))].
  intros a w2 (Hn2 & Hc2 & Hp2). apply settles_ret, HQ; [|exact Hp2].
  eapply alive_clock; [| |exact Ha]; congruence.
Qed.

Section RemoteForwards.
Context {V : Serves (S := S) RemoteForwardServer} (port : N) (session : SshSession).
Context (queued : S -> option (string * granted_forward)) (queued_path : S -> option (string * string)).
Context (incoming : S -> RawStream -> list byte).
Hypothesis Hfw : serves_forwards queued queued_path incoming.
Hypothesis Hh : handle session = peer.
Hypothesis Ht : Config.operation_timeout (config session) = duration_from_secs 30.

Lemma settles_remote_tcpip_forward w (Q : unit -> world S -> Prop) :
  alive (base_context session) w ->
  (forall w', alive (base_context session) w' -> Q tt w') ->
  settles (remote_tcpip_forward_is_received session) w Q.
Proof.
  intros Ha HQ. destruct Hfw as [Hreq Hreqp Hlock Hnext Hnextp Hrd Hcan Hcanp].
  apply settles_bind. unfold request_remote_tcpip_forward, request_remote_tcpip_forward_with_context,
    request_raw_tcpip_forward_with_context. rewrite Hh.
  eapply (settles_session_call session _ (TcpipForward _ _ _)); [exact Ht|exact Ha|apply Hreq|].
  intros a w2 Ha2 [-> Hq]. apply settles_bind, settles_lift, settles_ret.
  apply settles_bind, settles_ret, settles_bind, settles_assert; [done|].
  apply settles_bind, settles_assert; [done|].
  apply settles_bind. unfold next_forwarded_tcpip, next_forwarded_tcpip_with_context,
    next_raw_forwarded_tcpip_with_context.
  eapply settles_bind, (settles_next session _ _ (RecvForwardedTcpip _)); [exact Ha2|
    apply Hlock|intros s [Hs _]; rewrite Hq in Hs; exact (Hnext _ _ _ _ Hs)|].
  intros a w3 Ha3 (raw & -> & Hin). apply settles_bind, settles_lift, settles_ret.
  apply settles_bind, settles_ret, settles_bind, settles_ret.
  do 4 (apply settles_bind, settles_assert; [done|]). unfold forwarded_into_stream.
  cbn [tcpip_channel]. rewrite Ht.
  eapply (settles_read_incoming incoming); [exact Hrd|exact Ha3|exact Hin|done|].
  intros read w4 Ha4 Hread. apply settles_bind, settles_ret, settles_bind, settles_assert.
  { by apply bool_decide_eq_true. }
  apply settles_bind. unfold cancel_remote_tcpip_forward,
    cancel_remote_tcpip_forward_with_context, cancel_raw_tcpip_forward_with_context. rewrite Hh.
  eapply (settles_session_run session _ (CancelTcpipForward _ _ _)); [exact Ht|exact Ha4|apply Hcan|].
  intros a w5 Ha5 ->. by apply (settles_ret tt), HQ.
Qed.

Lemma remote_streamlocal_forward_passes w :
  config session = alice port -> deadline (base_context session) = None ->
  alive (base_context session) w -> passes (remote_streamlocal_forward_is_received session) w.
Proof.
  intros Hc Hd Ha. destruct Hfw as [Hreq Hreqp Hlock Hnext Hnextp Hrd Hcan Hcanp].
  apply settles_bind. unfold request_remote_streamlocal_forward,
    request_remote_streamlocal_forward_with_context, request_raw_streamlocal_forward_with_context.
  rewrite Hh. unfold validate_streamlocal_path. cbn [lift].
  eapply (settles_session_call session _ (StreamlocalForward _ _)); [exact Ht|exact Ha|apply Hreqp|].
  intros a w6 Ha6 [-> Hqp]. apply settles_ret.
  apply settles_bind, settles_ret, settles_bind, settles_assert; [done|].
  apply settles_bind. unfold next_forwarded_streamlocal, next_forwarded_streamlocal_with_context,
    next_raw_forwarded_streamlocal_with_context.
  eapply settles_bind, (settles_next session _ _ (RecvForwardedStreamlocal _)); [exact Ha6|
    apply Hlock|intros s [_ Hs]; rewrite Hqp in Hs; exact (Hnextp _ _ _ _ Hs)|].
  intros a w7 Ha7 (raw2 & -> & Hin2). apply settles_ret.
  apply settles_bind, settles_ret, settles_bind, settles_ret.
  apply settles_bind, settles_assert; [done|]. unfold streamlocal_into_stream.
  cbn [streamlocal_channel]. rewrite Ht.
  eapply (settles_read_incoming incoming); [exact Hrd|exact Ha7|exact Hin2|done|].
  intros read2 w8 Ha8 Hread2. apply settles_bind, settles_ret, settles_bind, settles_assert.
  { by apply bool_decide_eq_true. }
  apply settles_bind. unfold cancel_remote_streamlocal_forward,
    cancel_remote_streamlocal_forward_with_context, cancel_raw_streamlocal_forward_with_context.
  rewrite Hh.
  eapply (settles_session_run session _ (CancelStreamlocalForward _ _));
    [exact Ht|exact Ha8|apply Hcanp|].
  intros a w9 Ha9 ->. apply settles_bind, settles_ret.
  apply (disconnecting_passes RemoteForwardServer port). by split.
Qed.

End RemoteForwards.

Lemma remote_forwards_pass {V : Serves (S := S) RemoteForwardServer} queued queued_path incoming port w :
  serves_forwards queued queued_path incoming -> test_world w -> (0 < port)%N ->
  passes (remote_tcpip_forward_receives_and_cancels_channels server_key port) w.
Proof.
  intros Hfw Hw Hp.
  apply settles_test_session; [done|done|repeat constructor; by eexists|by apply Exists_cons_hd|].
  intros session w1 [Hh Hc Hd Ha]. apply settles_bind.
  eapply settles_remote_tcpip_forward; [exact Hfw|exact Hh|by rewrite Hc|exact Ha|].
  intros w2 Ha2. by eapply remote_streamlocal_forward_passes; [..|by rewrite Hc| | |].
Qed.

End Results.
