(* ===== verification/AsyncTests.v ===== *)
(** * AsyncTests: the asynchronous unit tests of [src/core/operation.rs] and
    [src/core/socks5.rs], and two tests of [src/core/session.rs]: the one of the
    authentication timeout and the one of the SOCKS5 proxy. *)

From S2P Require Export SessionTests SocksService Phases.


(** ** [src/core/operation.rs] *)

Section OperationTests.
Context {Σ : Sig} {S : Type} {E : Env S}.

(** [tokio::time::sleep(Duration::from_secs(60))], a future that is not ready while the
    tests last. *)
Context (sleep : op).
Hypothesis sleeping : stuck (S := S) sleep.

Definition slept : fut (result SshError unit) := _ ← await sleep; mret (Ok tt).

(** The task the test spawns, and what it expects of the task's result. *)
Definition cancellation_interrupts_an_operation_task (token : token)
  : fut (result SshError unit) :=
  context ← OperationContext_new;
  run (with_cancellation token context) "test operation" slept.

Definition cancellation_interrupts_an_operation_expects (r : result SshError unit) : fut unit :=
  error ← unwrap_err r;
  assert (bool_decide (SshError.kind error = ErrorKind.Cancelled));;
  assert (bool_decide (SshError.operation error = Some "test operation")).

Definition duration_from_millis (n : N) : Duration := (n * 1000000)%N.

Definition deadline_interrupts_an_operation : fut unit :=
  context ← with_timeout (duration_from_millis 1);
  r ← run context "test operation" slept;
  error ← unwrap_err r;
  assert (bool_decide (SshError.kind error = ErrorKind.Timeout));;
  assert (SshError.is_retryable error).

Lemma cancellation_interrupts_an_operation_passes token turns (w : world S) :
  token ∈ w_cancelled w ∪ all_cancelled turns ->
  returns turns (cancellation_interrupts_an_operation_task token) w (fun r _ =>
    forall w2 : world S,
      settles (cancellation_interrupts_an_operation_expects r) w2 (fun _ _ => True)).
Proof.
  intros Hc. apply returns_after. apply (settles_mono _ _ (fun ctx w' =>
    deadline ctx = None /\ w_cancelled w' = w_cancelled w)); [|by eexists _, _].
  intros ctx w' [Hd Hw]. eapply returns_mono; [|apply exec_run_stuck; [exact sleeping|left; by rewrite Hw]].
  intros r w2 [[-> _]|[_ Hp]] w3; [by eexists _, _|].
  unfold deadline_passed in Hp. cbn in Hp. by rewrite Hd in Hp.
Qed.

(** The millisecond passes while the token the test made is not cancelled. *)
Lemma deadline_interrupts_an_operation_passes turns (w : world S) :
  (w_now w + duration_from_millis 1 <= INSTANT_MAX)%N ->
  (duration_from_millis 1 <= total_advance turns)%N ->
  w_next_token w ∉ w_cancelled w ∪ all_cancelled turns ->
  returns turns deadline_interrupts_an_operation w (fun _ _ => True).
Proof.
  intros Hn Ht Hc. apply returns_after. unfold with_timeout, OperationContext_new.
  apply settles_bind. eexists _, (snd (fresh w)). split; [reflexivity|].
  apply settles_with_timeout_from_now; [done|]. intros d Hd. cbn in Hd. subst d.
  apply returns_before. eapply returns_mono;
    [|eapply exec_run_times_out; [exact sleeping|done|cbn; lia|exact Hc]].
  intros r w' ->. by eexists _, _.
Qed.

End OperationTests.

(** ** The authentication timeout of [src/core/session.rs] *)

Section AuthenticationTimeout.
Context {K : SshKeys} {A : AuthKeys} {L : Libraries}.

Definition impatient_config (port : N) : fut SshConfig :=
  config ← alice_config port;
  mret {| cfg_host := cfg_host config; cfg_port := cfg_port config;
          cfg_username := cfg_username config; connect_timeout := connect_timeout config;
          authentication_timeout := duration_from_millis 10;
          Config.operation_timeout := Config.operation_timeout config;
          keepalive_interval := keepalive_interval config |}.

Definition authentication_honors_its_own_timeout (server_key : PublicKey) (port : N) : fut unit :=
  verifier ← known_server server_key port;
  config ← impatient_config port;
  r ← connect 0 config (known_hosts_verifier verifier) (plan_from_method (password "password"));
  error ← match r with
          | Ok _ => Panic "authentication unexpectedly succeeded"
          | Err error => mret error
          end;
  assert (bool_decide (SshError.kind error = ErrorKind.Timeout));;
  assert (bool_decide (SshError.operation error = Some "ssh authentication")).

Context {S : Type} {E : Env S} {P : Peer}.

(** A server that says nothing about a password costs the authentication timeout. *)
Lemma login_times_out fuel cfg pass ctx name tcpip streamlocal hd turns (w : world S) :
  stuck (S := S) (AuthenticatePassword hd (cfg_username cfg) (as_str pass) : @op core_sig) ->
  deadline ctx = None -> cancellation ctx ∉ w_cancelled w ∪ all_cancelled turns ->
  (w_now w + authentication_timeout cfg <= INSTANT_MAX)%N ->
  (authentication_timeout cfg <= total_advance turns)%N ->
  returns turns (login fuel cfg (plan_from_method (Password pass)) ctx name tcpip streamlocal hd) w
    (fun r _ => r = Err (with_endpoint_of cfg (timeout_error name))).
Proof.
  intros Ho Hd Hc Hn Ht. apply returns_after, settles_with_timeout_from_now; [done|].
  intros d Hd'. rewrite Hd in Hd'. subst d.
  assert (exists k, Session.authenticate fuel hd (cfg_username cfg) (plan_from_method (Password pass)) =
    await (AuthenticatePassword hd (cfg_username cfg) (as_str pass) : @op core_sig) ≫= k)
    as [k ->] by by eexists.
  apply returns_before, returns_before. eapply returns_mono;
    [|eapply exec_run_times_out; [exact Ho|done|cbn; lia|exact Hc]].
  intros r w' ->. apply (settles_ret (Err _)). by apply (settles_ret (Err _)).
Qed.

(** The test's server thinks about the password for longer than the test lasts. *)
Lemma authentication_honors_its_own_timeout_passes port turns w :
  test_world w -> (0 < port)%N ->
  stuck (S := S) (AuthenticatePassword peer "alice" "password" : @op core_sig) ->
  (duration_from_millis 10 <= total_advance turns)%N ->
  w_next_token w ∉ w_cancelled w ∪ all_cancelled turns ->
  returns turns (authentication_honors_its_own_timeout server_key port) w (fun _ _ => True).
Proof.
  intros [[Hn Ht] Hre Hk Hv] Hp Ho Hadv Hc. unfold duration_from_secs in Hn.
  apply returns_after. eapply settles_mono; [|by apply known_server_trusts].
  intros v w0 [-> Htr]. apply returns_after. apply settles_bind, settles_alice_config, settles_ret.
  set (cfg := Build_SshConfig _ _ _ _ _ _ _).
  set (ctx := {| deadline := None; cancellation := w_next_token w |}).
  assert (unhindered cfg ctx (snd (fresh w))) as Hu.
  { split; cbn; [unfold duration_from_secs, duration_from_millis; lia..|].
    by apply bool_decide_eq_false. }
  assert (valid_config cfg) as Hval by (destruct (alice_valid port Hp); by split).
  apply returns_before, returns_after. exists ctx, (snd (fresh w)). split; [done|].
  rewrite connect_reach. apply returns_after.
  eapply settles_mono; [|by apply settles_reach].
  intros [[[tcpip streamlocal] hd]|e] w1 (Hn1 & Hc1 & Hr); [|by destruct Hr].
  destruct Hr as [-> _]. eapply returns_mono; [|apply login_times_out].
  - intros r w2 ->. by eexists _, _.
  - exact Ho.
  - done.
  - by rewrite Hc1.
  - rewrite Hn1. apply Hu.
  - exact Hadv.
Qed.

End AuthenticationTimeout.

(** ** [src/core/socks5.rs]

    The stream is one end of a duplex pipe into which the client of the test has written:
    the environment [feed_env].  The test's client checks what it reads back, the bytes
    the server's task sent. *)

Section SocksTests.
Context {K : SshKeys} {A : AuthKeys} {L : Libraries}.
#[local] Existing Instance feed_env.

Definition pipe (bytes : list byte) : world (list byte) := World 0%N ∅ 0%N 0%N [] bytes [].

Definition username_password_authentication_is_negotiated_server (server : io)
  : fut (result SshError unit) :=
  context ← with_timeout (duration_from_secs 1);
  authenticate server (username_password "alice" "secret") context.

(** What the client writes, in order, and the two replies it reads. *)
Definition username_password_authentication_is_negotiated_writes : list (list byte) :=
  [[SOCKS5_VERSION; x01; SOCKS5_USER_PASSWORD]; [SOCKS5_USER_PASSWORD_VERSION; x05];
   as_bytes "alice"; [x06]; as_bytes "secret"].

Definition username_password_authentication_is_negotiated_reads : list (list byte) :=
  [[SOCKS5_VERSION; SOCKS5_USER_PASSWORD]; [SOCKS5_USER_PASSWORD_VERSION; x00]].

Lemma username_password_authentication_passes server :
  let run := poll (username_password_authentication_is_negotiated_server server)
               (pipe (concat username_password_authentication_is_negotiated_writes)) in
  snd run = Ret (Ok tt) /\
  sent (w_log (fst run)) = concat username_password_authentication_is_negotiated_reads.
Proof. split; reflexivity. Qed.

Definition domain_connect_requests_are_parsed_without_local_dns_server (server : io)
  : fut (result RequestError ConnectRequest) :=
  context ← with_timeout (duration_from_secs 1);
  read_connect_request server context.

Definition domain_connect_requests_are_parsed_without_local_dns_writes : list (list byte) :=
  [[SOCKS5_VERSION; SOCKS5_CONNECT; x00; SOCKS5_ATYP_DOMAIN; x0d]; as_bytes "echo.internal";
   [x00; x07]].

Lemma domain_connect_requests_pass server :
  let run := poll (domain_connect_requests_are_parsed_without_local_dns_server server)
               (pipe (concat domain_connect_requests_are_parsed_without_local_dns_writes)) in
  snd run = Ret (Ok {| req_host := "echo.internal"; req_port := 7; req_command := SOCKS5_CONNECT |}).
Proof. reflexivity. Qed.

End SocksTests.

(** ** The SOCKS5 test of [src/core/session.rs] *)

Section SocksOverSsh.
Context {K : SshKeys} {A : AuthKeys} {L : Libraries} {S : Type} {E : Env S}.

(** What the client writes until it is connected, and its checks of what it reads: the
    method, and the first bytes of the reply. *)
Definition socks5_proxy_relays_a_connect_request_over_ssh_writes : list (list byte) :=
  [[x05; x01; x00]; [x05; x01; x00; x03; x0d]; as_bytes "echo.internal"; [x00; x07]].

Definition socks5_proxy_relays_a_connect_request_over_ssh_checks (read : list byte) : bool :=
  bytes_eqb (take 2 read) [x05; x00] && (length (drop 2 read) =? 10) &&
  bytes_eqb (take 2 (drop 2 read)) [x05; x00].

(** The proxy's connection: the test's server opens the channel, so the checks pass, and
    the connection ends as the relay over that channel does. *)
Lemma socks5_proxy_relays_passes session listener stream ctx unread opened copied w :
  let proxy := from_listener session listener in
  let writes := concat socks5_proxy_relays_a_connect_request_over_ssh_writes in
  serves_tunnels (E := E) stream session unread opened copied ->
  (forall host port, is_ok (opened host port) = DirectTcpipServer_opens host port) ->
  (forall raw, is_ok (copied raw) = true) ->
  unread (w_ext w) = writes -> w_cancelled w = ∅ ->
  (w_now w + duration_from_secs 30 <= INSTANT_MAX)%N ->
  sent (w_log w) = [] ->
  settles (handle_connection stream (Socks5.session proxy) (Socks5.options proxy) ctx) w
    (fun r w' => r = Ok tt /\
       socks5_proxy_relays_a_connect_request_over_ssh_checks (sent (w_log w')) = true).
Proof.
  intros proxy writes Ht Ho Hcopy Hw Hc Hn Hs.
  assert (request_bytes ([x05; x01; x00; x03; x0d] ++ as_bytes "echo.internal" ++ [x00; x07])
    {| req_host := "echo.internal"; req_port := 7; req_command := SOCKS5_CONNECT |}) as Hreq.
  { apply (connect_request SOCKS5_CONNECT x03 (x0d :: as_bytes "echo.internal") "echo.internal"
      x00 x07); [|done]. by apply target_domain. }
  eapply settles_mono; [|apply (settles_handle_connection stream session (Socks5.options proxy)
    unread opened copied Ht ctx w [x05; x01; x00] [x05; x00] _ _ [] ltac:(by apply (auth_none x01 [x00]); [|constructor])
    Hreq); [exact Hw|exact Hc|exact Hn]].
  intros r w' (-> & _ & He). rewrite Hs in He. cbn [app] in He. rewrite He.
  specialize (Ho "echo.internal" 7%N). cbn in Ho. cbn [service fst snd req_command req_host req_port].
  unfold service. cbn [req_command req_host req_port].
  destruct (opened "echo.internal" 7%N) as [raw|e]; [|discriminate Ho]. specialize (Hcopy raw).
  destruct (copied raw); [split; reflexivity|discriminate Hcopy].
Qed.

End SocksOverSsh.
