(* ===== verification/RelayTests.v ===== *)
(** * RelayTests: the two relay tests of [src/core/session.rs].

    A relay's accept loop and tasks run while the test's client talks to it, so what the
    tests expect of the counters is shown for every interleaving in which one client was
    served: once the snapshot says that a connection is completed, the other numbers are
    the ones the tests expect. *)

From Stdlib Require Import Floats.SpecFloat.
From S2P Require Export Statistics RelayTunnels AsyncTests.

Section RelayTests.
Context {K : SshKeys} {A : AuthKeys} {L : Libraries}.

(** ** The tests *)

(** What the texts the tests parse are. *)
Definition v4 (a b c d : byte) : IpAddr := IpV4 [#a; b; c; d].

(** The relay of the first test, and its checks of the statistics. *)
Definition peers_from (ip : IpAddr) : ForwardingRelayOptions :=
  {| Relay.max_connections := Relay.max_connections Relay.default_options;
     connection_timeout := connection_timeout Relay.default_options;
     Relay.access_policy := allow_peer_ips [ip] |}.

Definition forwarding_relay_creates (session : SshSession) (relay_listener : TcpListener)
  : fut RelayRuntime :=
  target ← unwrap (target_tcp "echo.internal" 7);
  r ← Relay.from_tcp_listener session relay_listener target (peers_from (v4 x7f x00 x00 x01));
  unwrap r.

Definition forwarding_relay_tracks_stats (stats : ForwardingRelayStatsSnapshot) : fut unit :=
  assert (snap_accepted stats =? 1)%N;;
  assert (snap_rejected stats =? 0)%N;;
  assert (snap_completed stats =? 1)%N;;
  assert (snap_failed stats =? 0)%N;;
  assert (snap_active stats =? 0)%N;;
  assert (snap_local_to_remote stats =? 20)%N;;
  assert (snap_remote_to_local stats =? 20)%N;;
  assert (total_bytes stats =? 40)%N;;
  assert (SFltb f64_zero (bytes_per_second stats)).

(** Its second relay admits somebody else only. *)
Definition rejecting_relay_creates (session : SshSession) (address : BindAddress)
  : fut RelayRuntime :=
  target ← unwrap (target_tcp "echo.internal" 7);
  r ← Relay.bind_tcp session address target (peers_from (v4 x7f x00 x00 x02));
  unwrap r.

Definition rejecting_relay_tracks_stats (stats : ForwardingRelayStatsSnapshot) : fut unit :=
  assert (snap_accepted stats =? 1)%N.

(** What either test expects of [run] after the cancellation. *)
Definition relay_run_is_cancelled {T} (r : result SshError T) : fut unit :=
  error ← unwrap_err r;
  assert (bool_decide (SshError.kind error = ErrorKind.Cancelled)).

(** The relay of the Unix test, its check of the path and its checks of the counters. *)
Definition unix_forwarding_relay_creates (session : SshSession) (target_path listener_path : PathBuf)
  : fut RelayRuntime :=
  target ← unwrap (target_streamlocal target_path);
  r ← bind_unix session listener_path target Relay.default_options;
  relay ← unwrap r;
  path ← unwrap_some (relay_local_unix_path relay);
  assert (String.eqb path listener_path);;
  mret relay.

Definition unix_forwarding_relay_tracks_stats (payload : list byte)
    (stats : ForwardingRelayStatsSnapshot) : fut unit :=
  assert (snap_accepted stats =? 1)%N;;
  assert (snap_completed stats =? 1)%N;;
  assert (snap_failed stats =? 0)%N;;
  assert (snap_local_to_remote stats =? N.of_nat (length payload))%N;;
  assert (snap_remote_to_local stats =? N.of_nat (length payload))%N.

(** ** The relays are made *)

(** A relay with these parts, that has served nobody yet. *)
Record new_relay (r : RelayRuntime) (l : RelayListener) (t : ForwardingTarget)
    (o : ForwardingRelayOptions) (now : Instant) : Prop := {
  nr_listener : Relay.listener r = l;
  nr_target : target r = t;
  nr_options : Relay.options r = o;
  nr_counters : counters_before r = RelayStats_new now
}.

Lemma forwarding_relay_creates_passes session l {S : Type} {E : Env S} (w : world S) :
  settles (forwarding_relay_creates session l) w (fun r _ =>
    new_relay r (TcpListening l) (Tcp "echo.internal" 7) (peers_from (v4 x7f x00 x00 x01)) (w_now w)).
Proof. eexists _, _. split; [reflexivity|by split]. Qed.

Lemma rejecting_relay_creates_passes session address l {S : Type} {E : Env S} (w : world S) :
  replies (TcpBind address) (w_ext w) (fun a _ => a = Ok l) ->
  settles (rejecting_relay_creates session address) w (fun r _ =>
    new_relay r (TcpListening l) (Tcp "echo.internal" 7) (peers_from (v4 x7f x00 x00 x02)) (w_now w)).
Proof.
  intros Hb. apply settles_bind, settles_ret, settles_bind, settles_bind, settles_lift.
  apply settles_bind, settles_fmap. eapply settles_mono;
    [|apply settles_clock, (settles_replies (TcpBind address)), Hb].
  intros a w' (Hn & _ & ->).
  eexists _, _. split; [reflexivity|]. eexists _, _. split; [reflexivity|].
  split; [done..|]. by rewrite <-Hn.
Qed.

Lemma unix_forwarding_relay_creates_passes {S : Type} {E : Env S} session
    target_path listener_path l s (w : world S) :
  validate_socket_path target_path = Ok tt ->
  env_query (Env := E) (UnixBind listener_path : @query core_sig) (w_ext w) =
    (s, Ok l : result ForeignError UnixListener) ->
  settles (unix_forwarding_relay_creates session target_path listener_path) w (fun r _ =>
    new_relay r (UnixListening l listener_path) (Streamlocal target_path) Relay.default_options
      (w_now w)).
Proof.
  intros Hv Hb. unfold unix_forwarding_relay_creates, target_streamlocal, bind_unix.
  apply settles_bind. eapply (settles_unwrap _ (Streamlocal target_path)); [by rewrite Hv|].
  assert (validate_relay_inputs (Streamlocal target_path) Relay.default_options = Ok tt) as Hr
    by (cbn; by rewrite Hv).
  apply settles_bind, settles_bind, settles_lift. rewrite Hr.
  apply settles_bind, (settles_ask (UnixBind listener_path : @query core_sig)). rewrite Hb.
  apply settles_bind, settles_lift. cbn [map_err]. apply settles_bind, settles_lift. rewrite Hr.
  eexists _, _. split; [reflexivity|].
  apply settles_bind, settles_ret, settles_bind, settles_ret, settles_bind, settles_assert;
    [apply String.eqb_refl|]. by apply settles_ret.
Qed.

(** ** One client *)

Context {SL : SemaphoreLib}.

(** What happened to a relay that one client used, and that echoed [n] bytes to it. *)
Record one_client (ls : list label) (n : N) : Prop := {
  oc_accepted : occurrences Relay.is_accept ls = 1%N;
  oc_kept : occurrences is_unwind ls = 0%N;
  oc_served : occurrences is_failed_return ls = 0%N;
  oc_bytes : forall d, bytes_read d ls = n
}.

Record one_served (stats : ForwardingRelayStatsSnapshot) (n : N) : Prop := {
  os_accepted : snap_accepted stats = 1%N;
  os_rejected : snap_rejected stats = 0%N;
  os_completed : snap_completed stats = 1%N;
  os_failed : snap_failed stats = 0%N;
  os_active : snap_active stats = 0%N;
  os_local_to_remote : snap_local_to_remote stats = n;
  os_remote_to_local : snap_remote_to_local stats = n
}.

Lemma one_client_served r ctx now st0 ls st n t :
  Relay.initial r = Some st0 -> counters_before r = RelayStats_new now ->
  steps r ctx st0 ls st -> one_client ls n -> (n < u64_modulus)%N ->
  snap_completed (Relay.snapshot (stats st) t) = 1%N -> one_served (Relay.snapshot (stats st) t) n.
Proof.
  intros H0 Hn Hs [Ha Hu Hf Hb] Hlt Hcomp.
  pose proof (fun d => bytes_steps r ctx st0 now H0 Hn ls st d Hs) as Hbytes.
  destruct (accounts_steps r ctx st0 now H0 Hn ls st Hs)
    as [(rej & comp & failed & Hc & Hsum & Hfail & _) _ _].
  destruct Hc as [Hc1 Hc2 Hc3 Hc4 Hc5]. cbn in Hcomp. rewrite Ha, Hu in *. rewrite Hf in Hfail.
  pose proof (count_le running unrecorded (tasks st) ltac:(by intros [? []])) as Hle.
  assert (comp = 1%N) as ->.
  { destruct (N.eq_dec comp 0%N) as [->|]; [|lia]. rewrite Hc4 in Hcomp. discriminate Hcomp. }
  assert (rej = 0%N /\ failed = 0%N /\ count running (tasks st) = 0%N) as (-> & -> & Hrun) by lia.
  rewrite Hrun in Hc3.
  pose proof (Hbytes LocalToRemote) as Hl. pose proof (Hbytes RemoteToLocal) as Hr.
  rewrite Hb, N.mod_small in Hl, Hr by done.
  by split.
Qed.

Lemma forwarding_relay_tracks_stats_passes r ctx now st0 ls st t {S : Type} {E : Env S} w :
  Relay.initial r = Some st0 -> counters_before r = RelayStats_new now ->
  steps r ctx st0 ls st -> one_client ls 20 -> (now < t <= INSTANT_MAX)%N ->
  snap_completed (Relay.snapshot (stats st) t) = 1%N ->
  passes (forwarding_relay_tracks_stats (Relay.snapshot (stats st) t)) w.
Proof.
  intros H0 Hn Hs Ho Ht Hc.
  destruct (one_client_served r ctx now st0 ls st 20 t H0 Hn Hs Ho ltac:(done) Hc) as [].
  pose proof (oc_bytes _ _ Ho) as Hb.
  destruct (snapshot_rate r ctx now st0 ls st t H0 Hn Hs) as [He Htot]; [by rewrite !Hb|].
  rewrite !Hb in Htot. unfold forwarding_relay_tracks_stats.
  repeat (apply settles_bind, settles_assert; [by apply N.eqb_eq|]).
  apply settles_assert; [|done]. apply bytes_per_second_pos; rewrite ?He, ?Htot; [lia| |done].
  apply N.Div0.div_lt_upper_bound. unfold INSTANT_MAX in Ht. unfold u64_modulus. lia.
Qed.

Lemma unix_forwarding_relay_tracks_stats_passes r ctx now st0 ls st payload t {S : Type} {E : Env S} w :
  Relay.initial r = Some st0 -> counters_before r = RelayStats_new now ->
  steps r ctx st0 ls st -> one_client ls (N.of_nat (length payload)) ->
  (N.of_nat (length payload) < u64_modulus)%N ->
  snap_completed (Relay.snapshot (stats st) t) = 1%N ->
  passes (unix_forwarding_relay_tracks_stats payload (Relay.snapshot (stats st) t)) w.
Proof.
  intros H0 Hn Hs Ho Hlt Hc. destruct (one_client_served r ctx now st0 ls st _ t H0 Hn Hs Ho Hlt Hc) as [].
  unfold unix_forwarding_relay_tracks_stats.
  repeat (apply settles_bind, settles_assert; [by apply N.eqb_eq|]).
  apply settles_assert; [by apply N.eqb_eq|done].
Qed.

(** Such an execution exists, whatever the environment the client came from. *)
Lemma one_client_is_served r ctx now st0 stream ip n :
  Relay.initial r = Some st0 -> counters_before r = RelayStats_new now ->
  (0 < Relay.max_connections (Relay.options r))%N -> Relay.admitted (Relay.access_policy (Relay.options r)) ip ->
  accept_returns r ctx (Ok (stream, ip)) ->
  (let c := {| rc_local := stream; rc_session := Relay.session r; rc_target := target r;
               rc_options := Relay.options r; rc_context := ctx |} in
   connection_returns c (Ok tt)) ->
  exists ls st, steps r ctx st0 ls st /\ one_client ls n /\
    forall t, snap_completed (Relay.snapshot (stats st) t) = 1%N.
Proof.
  intros H0 Hn Hm Hip Hacc Hret. unfold Relay.initial in H0.
  set (c := Build_RelayConnection _ _ _ _ _) in Hret.
  destruct (sem_new _) as [s|] eqn:Hs; [|done]. injection H0 as <-.
  apply sem_new_available in Hs. apply allows_iff in Hip.
  destruct (sem_try_acquire s) as [s'|] eqn:Ht.
  2: { apply sem_try_acquire_None in Ht. rewrite Hs in Ht. lia. }
  eexists _, _. split; [|split].
  - eapply steps_snoc; [eapply steps_snoc; [eapply steps_snoc; [eapply steps_snoc;
      [eapply steps_snoc; [eapply steps_snoc; [apply steps_nil|]|]|]|]|]|].
    + apply step_accept; [done|exact Hacc].
    + apply (step_start _ _ _ 0%N c). unfold dispatch. rewrite Hip. cbn. rewrite Ht. cbn.
      apply lookup_insert_eq.
    + apply (step_read _ _ _ 0%N c LocalToRemote n). apply lookup_insert_eq.
    + apply (step_read _ _ _ 0%N c RemoteToLocal n). apply lookup_insert_eq.
    + eapply (step_return _ _ _ 0%N c); [apply lookup_insert_eq|exact Hret].
    + apply (step_record _ _ _ 0%N c). apply lookup_insert_eq.
  - split; [done..|]. intros []; cbn; lia.
  - intros t. cbn. unfold dispatch. rewrite Hip. cbn. rewrite Ht. cbn. by rewrite Hn.
Qed.

(** ** Nobody who is refused is served *)

(** Every client so far came from an address the policy does not list. *)
Definition all_refused (r : RelayRuntime) (ls : list label) : Prop :=
  Forall (fun l => match l with
                   | LAccept _ ip => allows (Relay.access_policy (Relay.options r)) ip = false
                   | _ => True
                   end) ls.

Lemma refused_clients r ctx now st0 ls st :
  Relay.initial r = Some st0 -> counters_before r = RelayStats_new now ->
  steps r ctx st0 ls st -> all_refused r ls ->
  tasks st = ∅ /\ rejected_connections (stats st) = accepted_connections (stats st).
Proof.
  intros H0 Hn. induction 1 as [|ls l st st' Hs IH Hl]; intros Hr.
  - unfold Relay.initial in H0. destruct (sem_new _) as [s|]; [|done].
    injection H0 as <-. cbn [tasks stats]. by rewrite Hn.
  - apply Forall_app in Hr as [Hr Hl']. apply Forall_cons_1 in Hl' as [Hl' _].
    destruct (IH Hr) as [Ht Hc].
    destruct Hl as [st stream ip|st e| | | | | | |]; try (by rewrite Ht in *).
    unfold dispatch. rewrite Hl'. cbn. by rewrite Hc.
Qed.

Lemma rejecting_relay_tracks_stats_passes r ctx now st0 ls st t {S : Type} {E : Env S} w :
  Relay.initial r = Some st0 -> counters_before r = RelayStats_new now ->
  steps r ctx st0 ls st -> all_refused r ls ->
  snap_rejected (Relay.snapshot (stats st) t) = 1%N ->
  passes (rejecting_relay_tracks_stats (Relay.snapshot (stats st) t)) w.
Proof.
  intros H0 Hn Hs Hr Hone. destruct (refused_clients r ctx now st0 ls st H0 Hn Hs Hr) as [_ Hc].
  apply settles_assert; [|done]. cbn in Hone |- *. rewrite <-Hc, Hone. done.
Qed.

(** The relay of the test refuses the client of the test. *)
Lemma rejecting_relay_refuses r :
  Relay.options r = peers_from (v4 x7f x00 x00 x02) ->
  allows (Relay.access_policy (Relay.options r)) (Some (v4 x7f x00 x00 x01)) = false.
Proof. by intros ->. Qed.

(** ** The end of a relay *)

(** The accept call of a relay nobody connects to. *)
Definition waits_for_clients {S} {E : Env S} (l : RelayListener) : Prop :=
  match l with
  | TcpListening l => stuck (S := S) (TcpAccept l : @op core_sig)
  | UnixListening l _ => stuck (S := S) (UnixAccept l : @op core_sig)
  end.

(** Once the token is cancelled the accept call ends, and with it the loop, with the error
    the tests expect. *)
Lemma cancelled_relay_stops r token {S : Type} {E : Env S} turns (w : world S) :
  waits_for_clients (Relay.listener r) -> token ∈ w_cancelled w ∪ all_cancelled turns ->
  returns turns (context ← relay_context token; Relay.accept_once r context) w (fun x _ =>
    forall w2 : world S, passes (relay_run_is_cancelled x) w2).
Proof.
  intros Hl Hc. apply returns_after.
  exists {| deadline := None; cancellation := token |}, (snd (fresh w)). split; [done|].
  eapply returns_mono.
  2: { unfold Relay.accept_once, Relay.accept. destruct (Relay.listener r) as [l|l path];
         unfold fmap, fut_fmap; rewrite fut_bind_assoc;
         (apply exec_run_stuck; [exact Hl|by left]). }
  intros x w' [[-> _]|[_ Hd]] w2; [by eexists _, _|done].
Qed.

End RelayTests.
