(* ===== verification/ServerTests.v ===== *)
(** * ServerTests: the servers of the tests of [src/core/session.rs], and whole tests.

    The other files take the integration tests from the point where a server is listening.
    Here is how the tests get there: the keys they draw, the task that accepts one
    connection and serves it, the methods of their handlers that open channels, and, with
    the rest of each test, the tests from their first line to their last.  Random keys, the
    SSH server library and sockets other than [tokio]'s listeners are parameters. *)

From S2P Require Export AsyncTests.

(** [SocketAddr::port]. *)
Definition socket_addr_port (a : SocketAddr) : N :=
  match a with SocketV4 _ port => port | SocketV6 _ port _ _ => port end.

Section Servers.
Context {K : SshKeys} {A : AuthKeys} {L : Libraries}.

(** [PrivateKey::random] of an Ed25519 key and the public half of a key. *)
Context (random_key : fut (result ForeignError PrivateKey)) (public_key : PrivateKey -> PublicKey).

(** The fields of [server::Config] the tests set. *)
Record ServerConfig := { keys : list PrivateKey; auth_rejection_time : option Duration }.

(** [server::run_stream]. *)
Context (run_stream : ServerConfig -> TcpStream -> Handler -> fut (result ForeignError unit)).

(** The text ["127.0.0.1:0"], a port of the system's choice. *)
Context (any_local_port : BindAddress).

(** ** A server *)

(** What the closure given to [tokio::spawn] captures, and what it does.  One test's server
    may be left before it is done: that one drops the result instead of unwrapping it. *)
Record serving := {
  sv_config : ServerConfig;
  sv_listener : TcpListener;
  sv_handler : Handler;
  sv_result_dropped : bool
}.

Definition serve_one (t : serving) : fut unit :=
  r ← await (TcpAccept (sv_listener t) : @op core_sig);
  accepted ← unwrap r;
  r ← run_stream (sv_config t) (fst accepted) (sv_handler t);
  if sv_result_dropped t then mret tt else unwrap r.

(** The start of the tests: the server's key, and the port its listener gets. *)
Definition serve_with_key (rejection_time : option Duration) (result_dropped : bool)
    (server_key : PrivateKey) (handler : Handler) : fut (PublicKey * N) :=
  let server_config := {| keys := [server_key]; auth_rejection_time := rejection_time |} in
  r ← await (TcpBind any_local_port : @op core_sig);
  listener ← unwrap r;
  r ← ask (TcpLocalAddr listener : @query core_sig);
  address ← unwrap r;
  _ ← ask (Spawn serving {| sv_config := server_config; sv_listener := listener;
                            sv_handler := handler; sv_result_dropped := result_dropped |}
           : @query core_sig);
  mret (public_key server_key, socket_addr_port address).

Definition draw_key : fut PrivateKey := r ← random_key; unwrap r.

Definition start_server (handler : Handler) : fut (PublicKey * N) :=
  server_key ← draw_key; serve_with_key None false server_key handler.

(** ** Handlers that open channels *)

(** [TcpStream::connect], [UnixStream::connect] and [tokio::time::sleep]. *)
Context (tcp_connect : string -> N -> fut (result ForeignError TcpStream))
        (unix_connect : string -> fut (result ForeignError UnixStream))
        (sleep : Duration -> fut unit).

(** The task that splices a channel and a socket. *)
Record splicing := { sp_channel : RawStream; sp_target : io }.

Definition splice (t : splicing) : fut unit :=
  _ ← await (CopyBidirectional (SshIo (sp_channel t)) (sp_target t) : @op core_sig);
  mret tt.

Definition JumpServer_channel_open_direct_tcpip (channel : RawChannel) (host_to_connect : string)
    (port_to_connect : N) : fut (result ForeignError bool) :=
  match u16_try_from port_to_connect with
  | None => mret (Ok false)
  | Some port =>
      target ←? tcp_connect host_to_connect port;
      let channel_stream := into_raw_stream channel in
      _ ← ask (Spawn splicing {| sp_channel := channel_stream; sp_target := TcpIo target |}
               : @query core_sig);
      mret (Ok true)
  end.

Definition DirectStreamlocalServer_channel_open_direct_streamlocal (channel : RawChannel)
    (socket_path : string) : fut (result ForeignError bool) :=
  target ←? unix_connect socket_path;
  let channel_stream := into_raw_stream channel in
  _ ← ask (Spawn splicing {| sp_channel := channel_stream; sp_target := UnixIo target |}
           : @query core_sig);
  mret (Ok true).

Definition SlowPasswordServer_auth_password (user password : string) : fut (result ForeignError Auth) :=
  _ ← sleep (duration_from_millis 100);
  mret (Ok Accept).

Definition SlowPasswordServer : Handler :=
  {| Loopback.auth_password _ _ := Accept;
     auth_publickey := auth_publickey rejecting;
     auth_openssh_certificate := auth_openssh_certificate rejecting;
     auth_keyboard_interactive := auth_keyboard_interactive rejecting |}.

(** [RemoteForwardServer::cancel_tcpip_forward] and [cancel_streamlocal_forward]. *)
Definition RemoteForwardServer_cancel_tcpip_forward (address : string) (port : N)
  : result ForeignError bool := Ok true.
Definition RemoteForwardServer_cancel_streamlocal_forward (socket_path : string)
  : result ForeignError bool := Ok true.

(** ** The tests, from their first line *)

(** The test's session with a server that takes alice's password. *)
Definition session_of (server : PublicKey * N) : fut SshSession :=
  r ← connect_with 0 (fst server) (snd server) (plan_from_method (password "test-password"));
  unwrap r.

Definition connects_verifies_host_key_and_authenticates_test : fut unit :=
  server ← start_server PasswordServer;
  first ← connects_verifies_host_key_and_authenticates (fst server) (snd server);
  sleep (duration_from_millis 1);;
  deadlines_move_and_session_disconnects (fst first) (snd first).

Definition direct_tcpip_channel_round_trips_data_test : fut unit :=
  server ← start_server DirectTcpipServer;
  direct_tcpip_channel_round_trips_data (fst server) (snd server).

(** The Unix socket on the far side (a stale file under its path is removed first): a task that copies what it reads back. *)
Record echoing := { ec_listener : UnixListener }.

Definition start_echo (socket_path : string) : fut unit :=
  r ← ask (UnixBind socket_path : @query core_sig);
  listener ← unwrap r;
  _ ← ask (Spawn echoing {| ec_listener := listener |} : @query core_sig);
  mret tt.

Definition direct_streamlocal_channel_round_trips_data_test (socket_path : string) : fut unit :=
  start_echo socket_path;;
  server ← start_server DirectStreamlocalServer;
  direct_streamlocal_channel_round_trips_data (fst server) (snd server) socket_path.

Definition forwarding_relay_session : fut SshSession :=
  server ← start_server DirectTcpipServer;
  session_of server.

Definition unix_forwarding_relay_session (target_path : string) : fut SshSession :=
  start_echo target_path;;
  server ← start_server DirectStreamlocalServer;
  session_of server.

(** The proxy, and the task that runs it until the test cancels its token. *)
Record proxying := { px_proxy : Socks5Proxy; px_cancellation : token }.

Definition socks5_proxy_session : fut (SshSession * Socks5Proxy * SocketAddr) :=
  server ← start_server DirectTcpipServer;
  session ← session_of server;
  r ← await (TcpBind any_local_port : @op core_sig);
  proxy_listener ← unwrap r;
  let proxy := from_listener session proxy_listener in
  r ← Socks5.local_addr proxy;
  proxy_address ← unwrap r;
  cancellation ← FreshToken mret;
  _ ← ask (Spawn proxying {| px_proxy := proxy; px_cancellation := cancellation |}
           : @query core_sig);
  mret (session, proxy, proxy_address).

Definition connects_to_a_target_ssh_server_through_a_jump_session_test : fut unit :=
  target ← start_server PasswordServer;
  jump ← start_server JumpServer;
  jump_session ← session_of jump;
  connects_to_a_target_ssh_server_through_a_jump_session (fst target) (snd target) jump_session.

Definition remote_tcpip_forward_receives_and_cancels_channels_test : fut unit :=
  server ← start_server RemoteForwardServer;
  remote_tcpip_forward_receives_and_cancels_channels (fst server) (snd server).

Definition changed_key_error_exposes_a_structured_observation_test : fut unit :=
  expected_key ← draw_key;
  presented_key ← draw_key;
  changed_key_error_exposes_a_structured_observation (public_key expected_key)
    (public_key presented_key).

(** Up to the disconnection; [tofu_records_the_server_key_passes] follows the verifier. *)
Definition tofu_accepts_and_records_the_first_server_key_test : fut unit :=
  server ← start_server PasswordServer;
  session ← tofu_accepts_and_records_the_first_server_key (snd server);
  r ← disconnect session;
  unwrap r.

Definition keyboard_interactive_answers_server_challenges_test
    (handler : KeyboardInteractiveHandler) (load_challenged : fut bool) : fut unit :=
  server ← start_server KeyboardInteractiveServer;
  keyboard_interactive_answers_server_challenges (fst server) (snd server) handler load_challenged.

(** [PrivateKey::from_openssh] of the text [TEST_RSA_PRIVATE_KEY]. *)
Context (test_rsa_private_key : result ForeignError PrivateKey).

Definition rsa_sha512_private_key_authenticates_test
    (same_key_data : PublicKey -> PublicKey -> bool) : fut unit :=
  server_key ← draw_key;
  client_key ← unwrap test_rsa_private_key;
  let expected := public_key client_key in
  server ← serve_with_key None false server_key (PublicKeyServer same_key_data expected);
  rsa_sha512_private_key_authenticates (fst server) (snd server) client_key.

(** [CertificateBuilder]: a certificate for alice, given the client's key and the one of
    the authority that signs it. *)
Context (build_certificate : PrivateKey -> PrivateKey -> result ForeignError Certificate).

Definition openssh_user_certificate_authenticates_test
    (valid_principals : Certificate -> list string) : fut unit :=
  server_key ← draw_key;
  ca_key ← draw_key;
  client_key ← draw_key;
  certificate ← unwrap (build_certificate client_key ca_key);
  server ← serve_with_key None false server_key (CertificateServer valid_principals);
  openssh_user_certificate_authenticates (fst server) (snd server) client_key certificate.

Definition authentication_plan_falls_back_after_an_unavailable_agent_test : fut unit :=
  server ← start_server PasswordServer;
  authentication_plan_falls_back_after_an_unavailable_agent (fst server) (snd server).

Definition failed_authentication_exposes_attempts_and_remaining_methods_test : fut unit :=
  server_key ← draw_key;
  server ← serve_with_key (Some (duration_from_millis 1)) true server_key PasswordServer;
  failed_authentication_exposes_attempts_and_remaining_methods (fst server) (snd server).

Definition authentication_honors_its_own_timeout_test : fut unit :=
  server ← start_server SlowPasswordServer;
  authentication_honors_its_own_timeout (fst server) (snd server).

(** ** Starting a server *)

Context {S : Type} {E : Env S}.

Section Starting.
Context {P : Peer (S := S)}.

(** Nothing the tests depend on has changed. *)
Record same_moment (w w' : world S) : Prop := {
  sm_now : w_now w' = w_now w;
  sm_cancelled : w_cancelled w' = w_cancelled w;
  sm_token : w_next_token w' = w_next_token w;
  sm_shared : shared (w_ext w') = shared (w_ext w)
}.

#[global] Instance same_moment_preorder : PreOrder same_moment.
Proof. split; [by intros w|]. intros w w1 w2 [] []. split; congruence. Qed.

Lemma test_world_moment w w' : same_moment w w' -> test_world w -> test_world w'.
Proof.
  intros [Hn Hc Ht Hs] [[Hst1 Hst2] Hre Hk Hv].
  split; [split; by rewrite ?Hn, ?Ht, ?Hc|done|done|]. intros v. unfold keeps. rewrite Hs. apply Hv.
Qed.

(** The key drawn next is the one the peer of the environment proves. *)
Definition draws_key (w : world S) : Prop :=
  settles random_key w (fun r w' =>
    same_moment w w' /\ exists key, r = Ok key /\ public_key key = server_key).

(** A listener for the server, and a runtime that takes its task. *)
Record hosts (listener : TcpListener) (address : SocketAddr) : Prop := {
  hosts_bind : forall s, replies (TcpBind any_local_port) s (fun r s' =>
    r = Ok listener /\ shared s' = shared s);
  hosts_address : forall s, exists s',
    env_query (Env := E) (TcpLocalAddr listener : @query core_sig) s =
      (s', Ok address : result ForeignError SocketAddr) /\ shared s' = shared s;
  hosts_tasks : forall T (t : T) s, exists s',
    env_query (Env := E) (Spawn T t : @query core_sig) s = (s', tt) /\ shared s' = shared s;
  hosts_port : (0 < socket_addr_port address)%N
}.

Lemma settles_query_moment (q : request) r w Q :
  (forall s, exists s', env_query (Env := E) (q : @query core_sig) s = (s', r) /\
                        shared s' = shared s) ->
  (forall w', same_moment w w' -> Q r w') -> settles (ask (q : @query core_sig)) w Q.
Proof.
  intros Hq HQ. apply settles_ask. destruct (Hq (w_ext w)) as (s' & -> & Hs). by apply HQ.
Qed.

Lemma settles_call_moment (o : call) (R : call_answer o -> Prop) w Q :
  (forall s, replies o s (fun r s' => R r /\ shared s' = shared s)) ->
  (forall r w', same_moment w w' -> R r -> Q r w') -> settles (await (o : @op core_sig)) w Q.
Proof.
  intros Ho HQ. destruct (Ho (w_ext w) (w_next_call w)) as (s' & a & He & Ha & Hs).
  eapply settles_await; [exact He|]. by apply HQ.
Qed.

Lemma settles_serve_with_key listener address time dropped key handler w Q :
  hosts listener address ->
  (forall w', same_moment w w' -> Q (public_key key, socket_addr_port address) w') ->
  settles (serve_with_key time dropped key handler) w Q.
Proof.
  intros [Hb Ha Ht _] HQ. unfold serve_with_key.
  apply settles_bind, (settles_call_moment (TcpBind _) _ _ _ Hb). intros r w1 H1 ->.
  apply settles_bind, settles_ret, settles_bind, (settles_query_moment (TcpLocalAddr _) _ _ _ (Ha)).
  intros w2 H2. apply settles_bind, settles_ret, settles_bind,
    (settles_query_moment (Spawn _ _) _ _ _ (Ht _ _)).
  intros w3 H3. apply settles_ret, HQ. by do 2 (etrans; [eassumption|]).
Qed.

Lemma settles_draw_key w Q :
  draws_key w ->
  (forall key w', same_moment w w' -> public_key key = server_key -> Q key w') ->
  settles draw_key w Q.
Proof.
  intros Hd HQ. apply settles_bind. eapply settles_mono; [|exact Hd].
  intros r w' (Hm & key & -> & Hk). by apply settles_ret, HQ.
Qed.

(** What a test does once its server is listening. *)
Lemma server_started listener address (Hosts : hosts listener address) {X} handler
    (f : PublicKey * N -> fut X) w Q :
  draws_key w -> test_world w ->
  (forall w', same_moment w w' -> test_world w' ->
     settles (f (server_key, socket_addr_port address)) w' Q) ->
  settles (server ← start_server handler; f server) w Q.
Proof.
  intros Hd Hw Hf. apply settles_bind, settles_bind, settles_draw_key; [done|].
  intros key w1 H1 Hk. apply (settles_serve_with_key listener address); [done|].
  intros w2 H2. rewrite Hk. assert (same_moment w w2) by by etrans.
  apply Hf; [done|by eapply test_world_moment].
Qed.

End Starting.

(** The task serves the one connection it accepts, with the configuration and the handler
    it was given. *)
Lemma settles_serve_one t socket from w :
  (forall s, replies (TcpAccept (sv_listener t)) s (fun r _ => r = Ok (socket, from))) ->
  (forall w', settles (run_stream (sv_config t) socket (sv_handler t)) w' (fun r _ =>
     sv_result_dropped t = true \/ is_ok r = true)) ->
  passes (serve_one t) w.
Proof.
  intros Ha Hr. apply settles_bind. eapply settles_mono;
    [|exact (settles_replies (TcpAccept _) _ _ (Ha _))].
  intros r w1 ->. apply settles_bind, settles_ret, settles_bind.
  eapply settles_mono; [|apply Hr]. intros r w2 Hd.
  destruct (sv_result_dropped t); [by apply settles_ret|].
  destruct Hd as [|Hd]; [done|]. by destruct r; [apply settles_ret|].
Qed.

(** ** Whole tests

    Each under what its own part needs of the server's side, for the key the test draws and
    the port it gets. *)

Lemma direct_tcpip_test_passes {V : Serves (S := S) DirectTcpipServer} sent_back listener address w :
  hosts listener address -> draws_key w -> test_world w -> echoes sent_back ->
  (forall host p orig orig_port s,
    replies (ChannelOpenDirectTcpip peer host p orig orig_port) s (fun r s' =>
      is_ok r = DirectTcpipServer_opens host p /\
      forall raw, r = Ok raw -> sent_back s' (into_raw_stream raw) = [])) ->
  passes direct_tcpip_channel_round_trips_data_test w.
Proof.
  intros Hh Hd Hw He Ho. apply (server_started listener address Hh); [done|done|].
  intros w' _ Hw'. eapply direct_tcpip_round_trips_passes; [exact He|exact Hw'|apply Hh|exact Ho].
Qed.

Lemma remote_forward_test_passes {V : Serves (S := S) RemoteForwardServer} queued queued_path incoming
    listener address w :
  hosts listener address -> draws_key w -> test_world w ->
  serves_forwards queued queued_path incoming ->
  passes remote_tcpip_forward_receives_and_cancels_channels_test w.
Proof.
  intros Hh Hd Hw Hf. apply (server_started listener address Hh); [done|done|].
  intros w' _ Hw'. eapply remote_forwards_pass; [exact Hf|exact Hw'|apply Hh].
Qed.

Lemma keyboard_interactive_test_passes {V : Serves (S := S) KeyboardInteractiveServer}
    listener address k load w :
  hosts listener address -> draws_key w -> test_world w ->
  (forall challenge r, one_time_code challenge = Returned r ->
     respond (srv := KeyboardInteractiveServer) k challenge = r) ->
  (forall w', called k w' -> settles load w' (fun b w2 => b = true /\ w2 = w')) ->
  passes (keyboard_interactive_answers_server_challenges_test k load) w.
Proof.
  intros Hh Hd Hw Hr Hl. apply (server_started listener address Hh); [done|done|].
  intros w' _ Hw'. apply keyboard_interactive_passes; [exact Hw'|apply Hh|exact Hr|exact Hl].
Qed.

Lemma plan_falls_back_test_passes {V : Serves (S := S) PasswordServer} listener address w :
  hosts listener address -> draws_key w -> test_world w ->
  passes authentication_plan_falls_back_after_an_unavailable_agent_test w.
Proof.
  intros Hh Hd Hw. apply (server_started listener address Hh); [done|done|].
  intros w' _ Hw'. apply plan_falls_back_passes; [exact Hw'|apply Hh].
Qed.

Lemma failed_authentication_test_passes {V : Serves (S := S) PasswordServer} listener address w :
  hosts listener address -> draws_key w -> test_world w ->
  (forall ms, advertised (srv := PasswordServer) MkPassword ms -> MkPublicKey ∈ ms) ->
  passes failed_authentication_exposes_attempts_and_remaining_methods_test w.
Proof.
  intros Hh Hd Hw Ha. apply settles_bind, settles_draw_key; [done|]. intros key w1 H1 Hk.
  apply settles_bind, (settles_serve_with_key listener address); [done|]. intros w2 H2.
  cbn [fst snd]. rewrite Hk. apply failed_authentication_passes; [|apply Hh|exact Ha].
  eapply test_world_moment; [|exact Hw]. by etrans.
Qed.

Lemma rsa_sha512_test_passes same client_key
    {V : Serves (S := S) (PublicKeyServer same (public_key client_key))} listener address w :
  hosts listener address -> draws_key w -> test_world w ->
  test_rsa_private_key = Ok client_key ->
  key_is_encrypted client_key = false -> algorithm_is_rsa (key_algorithm client_key) = true ->
  public_key_of (srv := PublicKeyServer same (public_key client_key)) client_key =
    public_key client_key ->
  same (public_key client_key) (public_key client_key) = true ->
  verifies (srv := PublicKeyServer same (public_key client_key)) (public_key client_key)
    (Some HashAlg_Sha512) = true ->
  passes (rsa_sha512_private_key_authenticates_test same) w.
Proof.
  intros Hh Hd Hw Hkey He Hr Hp Hs Hv. apply settles_bind, settles_draw_key; [done|].
  intros key w1 H1 Hk. apply settles_bind. eapply settles_unwrap; [exact Hkey|].
  apply settles_bind, (settles_serve_with_key listener address); [done|]. intros w2 H2.
  cbn [fst snd]. rewrite Hk. eapply rsa_sha512_passes; [|apply Hh|exact He|exact Hr|exact Hp|exact Hs|exact Hv].
  eapply test_world_moment; [|exact Hw]. by etrans.
Qed.

Lemma settles_start_echo {P : Peer (S := S)} path l listener address w Q :
  hosts listener address ->
  (forall s, exists s', env_query (Env := E) (UnixBind path : @query core_sig) s =
     (s', Ok l : result ForeignError UnixListener) /\ shared s' = shared s) ->
  (forall w', same_moment w w' -> Q tt w') -> settles (start_echo path) w Q.
Proof.
  intros [_ _ Ht _] Hb HQ. apply settles_bind, (settles_query_moment (UnixBind path) _ _ _ Hb).
  intros w1 H1. apply settles_bind, settles_ret, settles_bind,
    (settles_query_moment (Spawn _ _) _ _ _ (Ht _ _)).
  intros w2 H2. apply settles_ret, HQ. by etrans.
Qed.

Lemma direct_streamlocal_test_passes {V : Serves (S := S) DirectStreamlocalServer} sent_back
    listener address path l w :
  hosts listener address ->
  (forall s, exists s', env_query (Env := E) (UnixBind path : @query core_sig) s =
     (s', Ok l : result ForeignError UnixListener) /\ shared s' = shared s) ->
  (forall w', same_moment w w' -> draws_key w') -> test_world w -> echoes sent_back ->
  trim path <> "" -> contains_char nul path = false ->
  (forall s, replies (ChannelOpenDirectStreamlocal peer path) s (fun r s' =>
     exists raw, r = Ok raw /\ sent_back s' (into_raw_stream raw) = [])) ->
  passes (direct_streamlocal_channel_round_trips_data_test path) w.
Proof.
  intros Hh Hb Hd Hw He Hp Hn Ho. apply settles_bind, (settles_start_echo path l listener address); [done..|].
  intros w1 H1. apply (server_started listener address Hh);
    [by apply Hd|by eapply test_world_moment|].
  intros w2 _ Hw2. eapply direct_streamlocal_round_trips_passes;
    [exact He|exact Hw2|apply Hh|exact Hp|exact Hn|exact Ho].
Qed.

(** The test sleeps, during which the clock moves and the rest of the world may, too, as
    long as the session stays alive. *)
Lemma connects_test_passes {V : Serves (S := S) PasswordServer} listener address turns w :
  hosts listener address -> draws_key w -> test_world w ->
  (forall ctx w', alive ctx w' -> returns turns (sleep (duration_from_millis 1)) w' (fun _ w2 =>
     (w_now w' < w_now w2)%N /\ alive ctx w2)) ->
  returns turns connects_verifies_host_key_and_authenticates_test w (fun _ _ => True).
Proof.
  intros Hh Hd Hw Hsleep. apply returns_after. apply settles_bind, settles_draw_key; [done|].
  intros key w1 H1 Hk. apply (settles_serve_with_key listener address); [done|]. intros w2 H2.
  cbn [fst snd]. rewrite Hk. assert (test_world w2) as Hw2.
  { eapply test_world_moment; [|exact Hw]. by etrans. }
  apply returns_after. eapply settles_mono;
    [|apply connects_and_authenticates_passes; [exact Hw2|apply Hh]].
  intros [session deadline] w3 (_ & Ha & Hrest). apply returns_before.
  eapply returns_mono; [|apply Hsleep, Ha]. intros _ w4 [Hlt Ha4]. by apply Hrest.
Qed.

(** The slow server's test: it is [sleeping] as long as the test lasts. *)
Lemma authentication_timeout_test_passes {P : Peer (S := S)} listener address turns w :
  hosts listener address -> draws_key w -> test_world w ->
  stuck (S := S) (AuthenticatePassword peer "alice" "password" : @op core_sig) ->
  (duration_from_millis 10 <= total_advance turns)%N ->
  w_next_token w ∉ w_cancelled w ∪ all_cancelled turns ->
  returns turns authentication_honors_its_own_timeout_test w (fun _ _ => True).
Proof.
  intros Hh Hd Hw Ho Hadv Hc. apply returns_after. apply settles_bind, settles_draw_key; [done|].
  intros key w1 H1 Hk. apply (settles_serve_with_key listener address); [done|]. intros w2 H2.
  cbn [fst snd]. rewrite Hk. assert (same_moment w w2) as Hm by by etrans.
  apply authentication_honors_its_own_timeout_passes; [by eapply test_world_moment|apply Hh|exact Ho|exact Hadv|].
  by rewrite (sm_token _ _ Hm), (sm_cancelled _ _ Hm).
Qed.

(** ** The handlers *)

(** A channel to a port that is none is refused, every other one is spliced to the target
    the jump host reaches. *)
Lemma jump_server_opens {P : Peer (S := S)} listener address channel host port w :
  hosts listener address ->
  (forall p w', u16_try_from port = Some p ->
     settles (tcp_connect host p) w' (fun r _ => is_ok r = true)) ->
  settles (JumpServer_channel_open_direct_tcpip channel host port) w (fun r w' =>
    r = Ok (match u16_try_from port with Some _ => true | None => false end)).
Proof.
  intros [_ _ Ht _] Hc. unfold JumpServer_channel_open_direct_tcpip.
  destruct (u16_try_from port) as [p|]; [|by apply (settles_ret (Ok false))].
  apply settles_bind. eapply settles_mono; [|by apply Hc].
  intros [target|e] w1 Hr; [|done].
  apply settles_bind, (settles_query_moment (Spawn _ _) _ _ _ (Ht _ _)).
  intros w2 _. by apply (settles_ret (Ok true)).
Qed.

End Servers.
