(* ===== verification/Demo.v ===== *)
(** * Demo: the theorems at work on concrete inputs.

    A toy instance of every third-party interface, a few servers (one that
    answers, one that never does, one that refuses every password, one with a
    limited number of clients) and, for each theorem with hypotheses, an
    execution in which they hold. *)

From S2P Require Import Cancellation SecretMemory Timeouts TofuSpec Secrecy Pinning Forwarding Streams Statistics.
From S2P Require Import Relay RelayTunnels Socks5 SocksService Socks5Pool Sftp Terminal Channel Session.
Import HostKeyDemo.

(** ** Instances *)

(** A private key is its text; [enc:] marks an encrypted one. *)
#[export] Instance demo_auth_keys : AuthKeys := {
  PrivateKey := string;
  Certificate := bool * string;
  Algorithm := string;
  algorithm_is_rsa a := String.eqb a "rsa";
  algorithm_debug a := a;
  key_algorithm k := "rsa";
  public_key_algorithm k := "ed25519";
  key_is_encrypted k := starts_with "enc:" k;
  key_decrypt k p := if String.eqb p "open" then Ok "key" else Err "cryptographic error";
  certificate_is_user c := fst c;
  certificate_algorithm c := "rsa";
  certificate_key_id c := snd c;
  certificate_matches_key k c := String.eqb k (snd c);
  KeyboardInteractiveHandler := unit
}.

#[export] Instance demo_libraries : Libraries := {
  target_platform := Unix;
  Handle := N;
  RawChannel := N;
  RawStream := N;
  into_raw_stream c := c;
  HashAlg := bool;
  HashAlg_Sha256 := false;
  HashAlg_Sha512 := true;
  AgentClient := unit;
  Pty := N;
  SignalName := string;
  signal_debug s := s;
  ChannelOpenFailure := string;
  open_failure_debug s := s;
  ForeignError := string;
  error_to_string e := e;
  io_invalid_data e := e;
  TcpListener := unit;
  TcpStream := N;
  UnixListener := unit;
  UnixStream := N;
  BindAddress := string;
  RawSftp := N;
  SftpFile := N;
  Metadata := N;
  OpenFlags := N;
  DirEntry := string * N;
  entry_file_name := fst;
  entry_metadata := snd
}.

(** A semaphore is the number of its permits, at most 100. *)
#[export, refine] Instance demo_semaphore : SemaphoreLib := {
  Sem := N;
  sem_new n := if (n <=? 100)%N then Some n else None;
  sem_try_acquire s := if (s =? 0)%N then None else Some (s - 1)%N;
  sem_release s := (s + 1)%N;
  sem_available s := s
}.
Proof.
  - intros n s Hn. destruct (n <=? 100)%N; congruence.
  - intros s. destruct (N.eqb_spec s 0); split; congruence.
  - intros s s' Hs. destruct (N.eqb_spec s 0) as [|Hn]; [done|]. injection Hs as <-. lia.
  - done.
Defined.

(** ** Servers *)

(** Answers at once: the password is [secret], a forward asked on port 0 is given
    port 40022, connections queued by the peer come from port 5022. *)
Definition demo_answer (o : call) : option (call_answer o) :=
  match o return option (call_answer o) with
  | ClientConnect _ _ _ | ClientConnectStream _ _ _ => Some (Ok 1%N)
  | AuthenticatePassword _ _ pass =>
      Some (Ok (if String.eqb pass "secret" then AuthSuccess
                else AuthFailure [MkPassword] false))
  | KeyboardStart _ _ _ | KeyboardRespond _ _ => Some (Ok (KbInfoRequest "" "" []))
  | HandlerRespond _ _ => Some (Ok [])
  | BestSupportedRsaHash _ => Some (Ok (Some None))
  | ChannelOpenSession _ | ChannelOpenDirectTcpip _ _ _ _ _ => Some (Ok 7%N)
  | TcpipForward _ _ port => Some (Ok (if (port =? 0)%N then 40022%N else 0%N))
  | LockReceiver _ => Some tt
  | RecvForwardedTcpip _ =>
      Some (Some {| pf_channel := 9%N; pf_connected_address := "127.0.0.1";
                    pf_connected_port := 80%N; pf_originator_address := "10.0.0.1";
                    pf_originator_port := 5022%N |})
  | RequestPty _ _ _ _ _ _ _ _ | RequestShell _ _ | RequestSubsystem _ _ _ => Some (Ok tt)
  | SftpNew _ => Some (Ok 4%N)
  | SftpCanonicalize _ path => Some (Ok ("/home/" +:+ path))
  | SftpRead _ _ => Some (Err "no such file")
  | TcpAccept _ => Some (Ok (3%N, SocketV4 [#x7f; x00; x00; x01] 50000))
  | _ => None
  end.

Definition demo_reply (q : request) : request_reply q :=
  match q return request_reply q with
  | HandleIsClosed _ => false
  | MpscChannel _ => 5%N
  | TcpLocalAddr _ => Err "not bound"
  | UnixBind _ => Err "address in use"
  | SemaphoreNew _ => Some 0%N
  | TryAcquire _ => Some 0%N
  | Spawn _ _ => tt
  end.

Definition demo_server : Env unit := {|
  env_poll := fun (o : @op core_sig) _ s => (s, demo_answer o);
  env_query := fun (q : @query core_sig) s => (s, demo_reply q)
|}.

Definition silent_server : Env unit := {|
  env_poll := fun (o : @op core_sig) _ s => (s, None);
  env_query := fun (q : @query core_sig) s => (s, demo_reply q)
|}.

(** The beginning, and a turn in which time passes and tokens are cancelled. *)
Definition start : world unit := World 0%N ∅ 0%N 0%N [] tt [].
Definition passing (n : N) (cs : gset N) : turn (S := unit) := Turn n cs [] (fun s => s).

(** An execution from its result. *)
Lemma run_end {X Y : Type} (r : X * Y) y : snd r = y -> r = (fst r, y).
Proof. by destruct r; intros <-. Defined.

Definition demo_context : OperationContext := {| deadline := None; cancellation := 42%N |}.

Definition demo_config : SshConfig :=
  {| cfg_host := "db.example.com"; cfg_port := 2200; cfg_username := "alice";
     connect_timeout := 10; authentication_timeout := 10; operation_timeout := 10;
     keepalive_interval := None |}.

(** The verifier that knows [db.example.com:2200] under alice's key. *)
Definition demo_verifier : dyn_verifier :=
  DynVerifier _ known_host_key_verifier {| known_hosts := demo_store |}.

Definition demo_session : SshSession :=
  {| handle := 1%N; config := demo_config; operation_context_field := demo_context;
     forwarded_tcpip_receiver := 5%N; forwarded_streamlocal_receiver := 5%N |}.

(** ** Operation *)

Definition waiting : fut (result SshError unit) := channel_error <$> await (ChannelClose 1%N).
Definition opening : fut (result SshError RawChannel) :=
  channel_error <$> await (ChannelOpenSession 1%N).

Lemma run_returns_once_stopped_witness :
  is_pending (snd (poll (E := silent_server)
    (run demo_context "wait" waiting) start)) = true /\
  is_pending (snd (exec (E := silent_server) [passing 5 {[42%N]}]
    (run demo_context "wait" waiting) start)) = false.
Proof.
  split; [reflexivity|].
  apply (run_returns_once_stopped (E := silent_server)). left. set_solver.
Defined.

Lemma run_cancelled_before_start_witness :
  let w : world unit := World 0%N {[42%N]} 0%N 0%N [] tt [] in
  poll (E := demo_server) (run demo_context "wait" waiting) w =
    (w, Ret (Err (cancelled_error "wait"))).
Proof.
  exact (proj1 (run_cancelled_before_start (E := demo_server) demo_context "wait" 10%N
    (fun e => e) waiting waiting
    (World 0%N {[42%N]} 0%N 0%N [] tt []) eq_refl)).
Defined.

Definition opened_run := exec (E := demo_server) [] (run demo_context "open" opening) start.

Lemma run_result_classified_witness :
  opened_run = (fst opened_run, Ret (Ok 7%N)) /\
  (exists r0, Ok 7%N = map_err (SshError.with_operation "open") r0 /\
     forall Q, wp (F := any_budget) opening Q anything [] -> Q r0 (w_log (fst opened_run))).
Proof.
  split; [reflexivity|].
  destruct (proj1 (run_result_classified (F := any_budget) (E := demo_server) [] demo_context "open"
    opening start (fst opened_run) (Ok 7%N) eq_refl)) as [[H _]|[[H _]|H]];
    [discriminate H|discriminate H|exact H].
Defined.

Lemma run_with_timeout_bounded_witness :
  is_pending (snd (exec (E := silent_server) [passing 10 ∅]
    (run_with_timeout demo_context "wait" 10%N waiting) start)) = false.
Proof. apply (run_with_timeout_bounded (E := silent_server)). vm_compute. discriminate. Defined.

(** ** Authentication and sessions *)

Lemma auth_debug_redacted_witness :
  auth_method_debug (password "secret") = auth_method_debug (password "other").
Proof.
  exact (proj1 (auth_debug_redacted (password "secret") (password "other")
    (SecretString_new "a") (SecretString_new "b") (same_password _ _))).
Defined.

Definition demo_plan : AuthenticationPlan :=
  AuthenticationPlan_new [password "guess"; password "secret"].

Definition demo_connection : fut (result SshError SshSession) :=
  connect_with_context 3 demo_config demo_verifier demo_plan demo_context.

Lemma demo_connecting :
  connecting 3 demo_config demo_verifier demo_plan demo_context demo_connection.
Proof. by left. Defined.

Definition connected_run := exec (E := demo_server) [] demo_connection start.

Definition demo_handler : ClientHandler := client_handler demo_config demo_verifier 5%N 5%N.

Definition connection_log (handler : ClientHandler) : list event :=
  let c := ClientConnect (client_config demo_config) "db.example.com:2200" handler in
  let p1 := AuthenticatePassword 1%N "alice" "guess" in
  let p2 := AuthenticatePassword 1%N "alice" "secret" in
  [@Asked core_sig (MpscChannel 64) 5%N; @Asked core_sig (MpscChannel 64) 5%N;
   @Issued core_sig c; @Answered core_sig c (Ok 1%N);
   @Issued core_sig p1; @Answered core_sig p1 (Ok (AuthFailure [MkPassword] false));
   @Issued core_sig p2; @Answered core_sig p2 (Ok AuthSuccess)].

Definition connected_log : list event := connection_log demo_handler.

Lemma connected_run_log : w_log (fst connected_run) = connected_log.
Proof. reflexivity. Defined.

(** The key the server presented is the one [demo_store] knows. *)
Lemma connected_host_key_checked : host_key_checked connected_log.
Proof.
  intros e hd handler He Ho Hh.
  repeat (apply elem_of_cons in He as [->|He]; [try discriminate Ho|]); [|by apply elem_of_nil in He].
  injection Hh as <-. exists demo_verifier, alice.
  split; [constructor|vm_compute; reflexivity].
Defined.

Lemma connected_run_checked : host_key_checked (w_log (fst connected_run)).
Proof. rewrite connected_run_log. exact connected_host_key_checked. Qed.

Lemma connected_run_end : connected_run = (fst connected_run, Ret (Ok demo_session)).
Proof. apply run_end. reflexivity. Qed.

Lemma connect_checks_host_key_witness :
  snd connected_run = Ret (Ok demo_session) /\
  exists v' key, evolves demo_verifier v' /\
    snd (dyn_verify v' "db.example.com" 2200 key) = Returned (Ok Trusted) /\
    (forall kv, demo_verifier = DynVerifier _ known_host_key_verifier kv ->
       decision (check_known kv "db.example.com" 2200 key) = Trusted).
Proof.
  split; [reflexivity|].
  exact (proj2 (proj2 (proj2 (proj2 (proj2 (connect_checks_host_key (E := demo_server) 3 demo_config
    demo_verifier demo_plan demo_context demo_connection [] start (fst connected_run) demo_session
    demo_connecting connected_run_end connected_run_checked)))))).
Defined.

Lemma credentials_only_after_handshake_witness :
  exists l, w_log (fst connected_run) = [] ++ l /\ ordered l.
Proof.
  exact (credentials_only_after_handshake (E := demo_server) 3 demo_config demo_verifier demo_plan
    demo_context demo_connection [] start demo_connecting).
Defined.

(** Both guesses are wrong. *)
Definition guesses : AuthenticationPlan :=
  AuthenticationPlan_new [password "guess"; password "other"].
Definition refused_run :=
  exec (E := demo_server) [] (authenticate 3 1%N "alice" guesses) start.
Definition refusal : SshError :=
  match snd refused_run with Ret (Err e) => e | _ => empty_plan_error end.

Lemma authenticate_reports_attempts_witness :
  exists tried rest o last_error,
    into_methods guesses = tried ++ rest /\ refusal = authentication_failed o last_error /\
    SshError.authentication_observation refusal = Some o /\
    failure_report o (kind <$> tried) last_error /\
    (rest = [] \/
     list.last (w_log (fst refused_run)) = Some (@Asked core_sig (HandleIsClosed 1%N) true)).
Proof.
  exact (authenticate_reports_attempts (E := demo_server) 3 1%N "alice" guesses [] start
    (fst refused_run) refusal eq_refl eq_refl).
Defined.

Definition refused_connection_run :=
  exec (E := demo_server) [] (connect_with_context 3 demo_config demo_verifier guesses demo_context)
    start.
Definition refused_connection : SshError :=
  match snd refused_connection_run with Ret (Err e) => e | _ => empty_plan_error end.

Lemma refused_connection_end :
  refused_connection_run = (fst refused_connection_run, Ret (Err refused_connection)).
Proof. apply run_end. reflexivity. Qed.

Lemma connect_error_located_witness :
  snd refused_connection_run = Ret (Err refused_connection) /\
  (validate demo_config = Err refused_connection \/
   located demo_config connect_phases refused_connection).
Proof.
  split; [reflexivity|].
  exact (proj1 (connect_error_located (E := demo_server) 3 demo_session demo_config demo_verifier
    guesses demo_context [] start (fst refused_connection_run) refused_connection)
    refused_connection_end).
Defined.

Lemma connect_stops_with_context_witness :
  is_pending (snd (poll (E := silent_server) demo_connection start)) = true /\
  is_pending (snd (exec (E := silent_server) [passing 1 {[42%N]}] demo_connection start)) = false.
Proof.
  split; [reflexivity|].
  apply (connect_stops_with_context (E := silent_server) 3 demo_config demo_verifier demo_plan
    demo_context demo_connection [passing 1 {[42%N]}] start demo_connecting).
  left. set_solver.
Defined.

(** Ten for reaching the server, ten for authenticating. *)
Lemma connecting_takes_bounded_time_witness :
  is_pending (snd (exec (E := silent_server)
    [passing (connect_timeout demo_config) ∅; passing (authentication_timeout demo_config) ∅]
    (connect 3 demo_config demo_verifier demo_plan) start)) = false.
Proof.
  apply (connecting_takes_bounded_time (E := silent_server) 3 demo_config demo_verifier demo_plan
    demo_context (connect 3 demo_config demo_verifier demo_plan)
    [passing (connect_timeout demo_config) ∅] [passing (authentication_timeout demo_config) ∅]).
  - right. left. reflexivity.
  - vm_compute. discriminate.
  - vm_compute. discriminate.
Defined.

(** A server that keeps asking. *)
Abbreviation asking_run := (exec (E := demo_server) []
  (authenticate_keyboard_interactive 3 1%N "alice" None tt) start) (only parsing).

Lemma keyboard_interactive_terminates_witness :
  snd asking_run = OutOfFuel /\ 0 + 3 <= rounds (w_log (fst asking_run)).
Proof.
  split; [reflexivity|].
  exact (keyboard_interactive_terminates (E := demo_server) 3 1%N "alice" None tt [] start
    (fst asking_run) (run_end asking_run _ eq_refl)).
Defined.

Definition locked_key : PrivateKey := ("enc:k" : string).
Definition demo_rsa : Algorithm := ("rsa" : string).

Lemma unusable_keys_not_sent_witness :
  exists e, SshError.kind e = ErrorKind.Configuration /\
    poll (E := demo_server)
      (authenticate_method 3 1%N "alice" (MPrivateKey locked_key None Auto)) start =
      (start, Ret (Err e)).
Proof.
  destruct (proj1 (unusable_keys_not_sent (E := demo_server) 3 1%N "alice" locked_key None
    (true, "k") Auto start) eq_refl) as (e & He & Hp & _).
  exists e. exact (conj He Hp).
Defined.

Definition hashes_run :=
  exec (E := demo_server) [] (rsa_hash_candidates 1%N demo_rsa Auto) start.

Lemma sha1_only_on_request_witness :
  snd hashes_run = Ret (Ok [None]) /\
  (Auto = LegacySha1 \/
   (Auto = Auto /\ @eq (list (option HashAlg)) [None] [None] /\
    list.last (w_log (fst hashes_run)) =
      Some (@Answered core_sig (BestSupportedRsaHash 1%N) (Ok (Some None))))).
Proof.
  split; [reflexivity|].
  exact (sha1_only_on_request (E := demo_server) 1%N demo_rsa Auto [] start (fst hashes_run) [None]
    eq_refl eq_refl (list_elem_of_here None [])).
Defined.

(** [demo_server] refuses both first guesses and accepts the password after
    them. *)
Definition other_plan : AuthenticationPlan :=
  AuthenticationPlan_new [password "hunter2"; password "secret"].

Lemma plans_same_but_password :
  Forall2 (same_but_password (E := demo_server)) (methods demo_plan) (methods other_plan).
Proof. constructor; [by apply sbp_password|repeat constructor]. Defined.

Abbreviation secret_run := (exec (E := demo_server) []
  (attempt None 3 demo_config demo_verifier demo_plan demo_context) start) (only parsing).
Abbreviation other_run := (exec (E := demo_server) []
  (attempt None 3 demo_config demo_verifier other_plan demo_context) start) (only parsing).

Lemma passwords_stay_secret_witness :
  snd secret_run = Ret (Ok demo_session) /\ methods demo_plan <> methods other_plan /\
  let '(w1, t1) := secret_run in
  let '(w2, t2) := other_run in
  redact <$> w_log w2 = redact <$> w_log w1 /\ w_ext w2 = w_ext w1 /\
  is_pending t2 = is_pending t1 /\ (forall r, t1 = Ret r <-> t2 = Ret r).
Proof.
  split; [reflexivity|]. split; [discriminate|].
  exact (passwords_stay_secret (E := demo_server) None 3 demo_config demo_verifier demo_plan
    other_plan demo_context [] start plans_same_but_password).
Defined.

(** ** Trust on first use *)

Definition first_calls : list (string * N * PublicKey) :=
  [("new.org", 22%N, alice); ("db.example.com", 2200%N, alice); ("new.org", 22%N, mallory)].

Lemma first_calls_plain :
  Forall (fun '(h, p, k) => plain_token (host_token h p) = true /\ encodable k) first_calls.
Proof. repeat constructor. Defined.

(** The store knows [db.example.com]; [new.org] is pinned to the key it showed first. *)
Lemma tofu_refines_pins_witness :
  snd (verifier_run (TofuHostKeyVerifier_new {| known_hosts := demo_store |}) first_calls) =
    [Returned (Ok Trusted); Returned (Ok Trusted); Returned (Ok Changed)].
Proof.
  exact (proj1 (tofu_refines_pins {| known_hosts := demo_store |} first_calls "new.org" 22%N alice
    first_calls_plain eq_refl)).
Defined.

(** A host name is written into the store as a pattern, unescaped: the first key of a host
    called [*] is held against every other host. *)
Example wildcard_host_pins_every_host :
  let t := fst (verify (TofuHostKeyVerifier_new KnownHostKeyVerifier_new) "*" 22 alice) in
  snd (verify t "example.com" 22 mallory) = Returned (Ok Changed) /\
  snd (verify t "example.com" 22 alice) = Returned (Ok Trusted).
Proof. vm_compute. done. Qed.

(** A client that trusted alice's key first, and connects again. *)
Definition pinned_first : TofuHostKeyVerifier :=
  fst (verify (TofuHostKeyVerifier_new KnownHostKeyVerifier_new) "db.example.com" 2200 alice).

Definition reconnect : fut (result SshError SshSession) :=
  connect_with_context 3 demo_config (tofu_verifier pinned_first) demo_plan demo_context.

Lemma reconnecting :
  connecting 3 demo_config (tofu_verifier pinned_first) demo_plan demo_context reconnect.
Proof. by left. Defined.

Definition reconnected_run := exec (E := demo_server) [] reconnect start.

Lemma reconnected_run_end : reconnected_run = (fst reconnected_run, Ret (Ok demo_session)).
Proof. apply run_end. reflexivity. Qed.

(** The server behind the first handle holds alice's key, any other mallory's. *)
Definition demo_server_key (hd : Handle) : PublicKey := if (hd =? 1)%N then alice else mallory.

Lemma reconnected_run_checked :
  proved_keys_checked_among plain_host demo_server_key (w_log (fst reconnected_run)).
Proof.
  assert (w_log (fst reconnected_run) =
    connection_log (client_handler demo_config (tofu_verifier pinned_first) 5%N 5%N)) as -> by
    reflexivity.
  intros e hd handler He Ho Hh.
  repeat (apply elem_of_cons in He as [->|He]; [try discriminate Ho|]); [|by apply elem_of_nil in He].
  injection Hh as <-. injection Ho as <-. exists (tofu_verifier pinned_first).
  split; [constructor|vm_compute; reflexivity].
Qed.

Lemma sessions_pinned_to_first_key_witness :
  fingerprint_sha256 (demo_server_key (handle demo_session)) = fingerprint_sha256 alice /\
  (forall h key', verifier h = tofu_verifier pinned_first ->
     ch_host h = "db.example.com" -> ch_port h = 2200%N ->
     fingerprint_sha256 key' <> fingerprint_sha256 alice ->
     snd (check_server_key h key') <> Returned (Ok true)).
Proof.
  exact (sessions_pinned_to_first_key (E := demo_server) 3 demo_config demo_plan demo_context
    reconnect [] start (fst reconnected_run) demo_session
    (TofuHostKeyVerifier_new KnownHostKeyVerifier_new) pinned_first alice
    (tofu_verifier pinned_first) demo_server_key eq_refl eq_refl eq_refl (evolves_refl _ _)
    reconnecting reconnected_run_end reconnected_run_checked).
Defined.

(** ** Channels *)

(** Port 0 asks the server to choose. *)
Definition forward_run := exec (E := demo_server) []
  (request_remote_tcpip_forward_with_context demo_session "0.0.0.0" 0 demo_context) start.
Definition demo_forward : SshRemoteTcpipForward :=
  {| fwd_address := "0.0.0.0"; fwd_port := 40022 |}.

Lemma remote_forward_port_valid_witness :
  snd forward_run = Ret (Ok demo_forward) /\
  forward_result demo_session "0.0.0.0" 0 (Ok demo_forward) (w_log (fst forward_run)).
Proof.
  split; [reflexivity|].
  apply (remote_forward_port_valid (E := demo_server) demo_session "0.0.0.0" 0 demo_context []
    start (fst forward_run)); [lia|reflexivity].
Defined.

Definition forwarded_run := exec (E := demo_server) []
  (next_forwarded_tcpip_with_context demo_session demo_context) start.
Definition demo_forwarded : option SshForwardedTcpipChannel :=
  match snd forwarded_run with Ret (Ok c) => c | _ => None end.

Lemma forwarded_tcpip_delivery_witness :
  (connected_port <$> demo_forwarded) = Some 80%N /\
  delivery demo_session (Ok demo_forwarded) (w_log (fst forwarded_run)).
Proof.
  split; [reflexivity|].
  exact (forwarded_tcpip_delivery (E := demo_server) demo_session demo_context [] start
    (fst forwarded_run) (Ok demo_forwarded) eq_refl).
Defined.

Lemma direct_tcpip_validated_witness :
  exists e, SshError.kind e = ErrorKind.Configuration /\
    poll (E := demo_server)
      (open_direct_tcpip_from_with_context demo_session "db" 0 "127.0.0.1" 0 demo_context) start =
      (start, Ret (Err e)).
Proof.
  exact (proj1 (proj2 (direct_tcpip_validated (E := demo_server) demo_session "db" 0 "127.0.0.1" 0
    demo_context [] start)) (or_intror (or_introl eq_refl))).
Defined.

(** A queue of two places with the number 5; anything else is [demo_server]'s. *)
Definition queue_poll (o : call) (l : list PendingForwardedTcpip)
  : list PendingForwardedTcpip * option (call_answer o) :=
  match o return list PendingForwardedTcpip * option (call_answer o) with
  | SendForwardedTcpip _ m =>
      if (N.of_nat (length l) <? 2)%N then (l ++ [m], Some (Ok tt)) else (l, None)
  | RecvForwardedTcpip _ =>
      match l with m :: l => (l, Some (Some m)) | [] => ([], None) end
  | o => (l, demo_answer o)
  end.

Definition queue_env : Env (list PendingForwardedTcpip) := {|
  env_poll := fun (o : @op core_sig) _ l => queue_poll o l;
  env_query := fun (q : @query core_sig) l => (l, demo_reply q)
|}.

#[export] Instance demo_queue : MpscQueue queue_env 5%N 2%N.
Proof.
  refine {| queued := fun l : list PendingForwardedTcpip => l |}; intros.
  - exists (s ++ [m]). cbn. destruct (N.ltb_spec (N.of_nat (length s)) 2); [done|lia].
  - exists s. cbn. destruct (N.ltb_spec (N.of_nat (length s)) 2); [lia|done].
  - subst s. by exists l.
  - subst s. by exists [].
  - by exists s.
Defined.

(** Three connections are opened, the last when the queue is full and one of them from a
    port out of range, and three are asked for. *)
Definition pending_from (port : N) : PendingForwardedTcpip :=
  {| pf_channel := 9%N; pf_connected_address := "127.0.0.1"; pf_connected_port := 80%N;
     pf_originator_address := "10.0.0.1"; pf_originator_port := port |}.

Definition forward_ops : list forward_op :=
  [Opened (pending_from 5022); Opened (pending_from 70000); Opened (pending_from 22);
   Next; Next; Next].

Definition queue_start : world (list PendingForwardedTcpip) :=
  World 0%N ∅ 0%N 0%N [] [] [].

Abbreviation queue_run :=
  (run_ops (E := queue_env) demo_handler demo_session demo_context queue_start forward_ops)
  (only parsing).

Lemma forwarded_connections_fifo_witness :
  (exists c e, snd queue_run =
    [Queued; Queued; Waiting; Delivered (Ok (Some c)); Delivered (Err e); Waiting]) /\
  let '(w', results) := queue_run in
  exists rs, fifo_ops 2%N (queued (MpscQueue := demo_queue) (w_ext queue_start)) forward_ops =
      (queued (MpscQueue := demo_queue) (w_ext w'), rs) /\
    Forall2 (answers demo_session) rs results.
Proof.
  split; [do 2 eexists; vm_compute; reflexivity|].
  pose proof (forwarded_connections_fifo (E := queue_env) 5%N 2%N demo_handler demo_session
    demo_context forward_ops queue_start eq_refl eq_refl eq_refl eq_refl) as H.
  exact H.
Defined.

(** ** Terminal *)

Definition demo_terminal : TerminalOptions :=
  {| term := "xterm"; columns := 80; rows := 24; pixel_width := 0; pixel_height := 0;
     want_reply := true |}.

Definition terminal_run := exec (E := demo_server) []
  (open_with_context demo_session demo_terminal demo_context) start.

Lemma terminal_open_sequence_witness :
  is_pending (snd terminal_run) = false /\
  forall t, snd terminal_run = Ret (Ok t) ->
    issued (w_log (fst terminal_run)) = terminal_setup demo_session demo_terminal (Channel.inner (channel t)).
Proof.
  split; [reflexivity|]. intros t Ht.
  exact (proj2 (proj2 (proj2 (proj2 (terminal_open_sequence (E := demo_server) demo_session
    demo_terminal demo_context [] start (fst terminal_run) (snd terminal_run)
    (surjective_pairing terminal_run)) t Ht)))).
Defined.

(** ** SFTP *)

Definition demo_sftp : SftpClient :=
  {| sftp := 4%N; Sftp.context := demo_context; Sftp.operation_timeout := 10 |}.

Definition canonicalize_run := exec (E := demo_server) [] (canonicalize demo_sftp "a") start.

Lemma sftp_operation_outcome_witness :
  snd canonicalize_run = Ret (Ok "/home/a") /\
  exists a, w_log (fst canonicalize_run) =
      [@Issued core_sig (SftpCanonicalize 4%N "a");
       @Answered core_sig (SftpCanonicalize 4%N "a") a] /\ a = Ok "/home/a".
Proof.
  split; [reflexivity|].
  exact (sftp_operation_outcome (E := demo_server) demo_sftp _ _ _ _ _ _ [] start
    (fst canonicalize_run) (Ok "/home/a") (op_canonicalize demo_sftp "a") eq_refl).
Defined.

Lemma sftp_operation_bounded_witness :
  is_pending (snd (poll (E := silent_server) (canonicalize demo_sftp "a") start)) = true /\
  is_pending (snd (exec (E := silent_server) [passing 10 ∅] (canonicalize demo_sftp "a") start))
    = false.
Proof.
  split; [reflexivity|].
  apply (sftp_operation_bounded (E := silent_server) demo_sftp _ _ _ _ _ _ _ _
    (op_canonicalize demo_sftp "a")).
  left. vm_compute. discriminate.
Defined.

Abbreviation sftp_run_demo := (exec (E := demo_server) []
  (Sftp.connect_with_context demo_session demo_context) start) (only parsing).

Lemma sftp_connect_sequence_witness :
  snd sftp_run_demo = Ret (Ok demo_sftp) /\
  exists c, sftp_on demo_session demo_context demo_sftp c (w_log (fst sftp_run_demo)) /\
    issued (w_log (fst sftp_run_demo)) = setup demo_session sftp_requests c.
Proof.
  split; [reflexivity|].
  exact (proj2 (sftp_connect_sequence (E := demo_server) demo_session demo_context [] start
    (fst sftp_run_demo) (snd sftp_run_demo) (surjective_pairing sftp_run_demo)) demo_sftp eq_refl).
Defined.

(** ** SOCKS5 *)

Definition demo_stream : io := TcpIo (L := demo_libraries) 3%N.

Lemma socks_authentication_exact_witness :
  converses (E := feed_env) (fun unread => unread)
    (Socks5.authenticate demo_stream NoAuth demo_context) [x05; x01; x00] [x05; x00] (Ok tt).
Proof.
  apply (proj2 (socks_authentication_exact (E := feed_env) demo_stream NoAuth demo_context)
    (fun unread => unread) [x05; x01; x00] [x05; x00]); [apply feed_env_feeds|].
  apply (auth_none x01 [x00]); [reflexivity|constructor].
Defined.

(** [CONNECT] to [ab:80]. *)
Definition demo_request : list byte := [x05; x01; x00; x03; x02; x61; x62; x00; x50].

Lemma socks_request_exact_witness :
  converses (E := feed_env) (fun unread => unread)
    (read_connect_request demo_stream demo_context) demo_request []
    (Ok {| req_host := "ab"; req_port := 80; req_command := x01 |}).
Proof.
  apply (proj2 (socks_request_exact (E := feed_env) demo_stream demo_context)
    (fun unread => unread) demo_request); [apply feed_env_feeds|].
  apply (connect_request x01 x03 [x02; x61; x62] "ab" x00 x50); [|discriminate].
  apply (target_domain x02 [x61; x62]); [reflexivity|discriminate|reflexivity].
Defined.

(** A client's bytes, a server that opens every channel, relays that end. *)
Definition tunnel_poll (o : call) (s : list byte) : list byte * option (call_answer o) :=
  match o return list byte * option (call_answer o) with
  | ChannelOpenDirectTcpip h host port orig orig_port =>
      (s, demo_answer (ChannelOpenDirectTcpip h host port orig orig_port))
  | CopyBidirectional a b => (s, Some (Ok (5%N, 7%N)))
  | o => feed_poll o s
  end.

Definition tunnel_server : Env (list byte) := {|
  env_poll := fun (o : @op core_sig) _ s => tunnel_poll o s;
  env_query := fun (q : @query core_sig) s => (s, feed_query q)
|}.

Definition tunnel_opened (host : string) (port : N) : result ForeignError RawChannel :=
  match demo_answer (ChannelOpenDirectTcpip (Session.handle demo_session) host port "127.0.0.1" 0) with
  | Some r => r
  | None => Err (io_invalid_data "unanswered")
  end.

Lemma tunnel_serves :
  serves_tunnels (E := tunnel_server) demo_stream demo_session (fun unread => unread)
    tunnel_opened (fun _ => Ok (5%N, 7%N)).
Proof.
  split.
  - split.
    + intros n v rest s Hs id. cbn. rewrite Hs, take_vec_app. by eexists _, _.
    + intros data s id. by eexists _, _.
  - intros host port s id. by eexists _, _.
  - intros raw s id. by eexists _, _.
Qed.

Definition demo_client : world (list byte) :=
  World 0%N ∅ 0%N 0%N [] ([x05; x01; x00] ++ demo_request) [].

Lemma socks_clients_served_witness :
  service tunnel_opened (fun _ => Ok (5%N, 7%N))
    {| req_host := "ab"; req_port := 80; req_command := x01 |} = (Ok tt, Succeeded) /\
  exists w', poll (E := tunnel_server) (handle_connection demo_stream demo_session
      Socks5.default_options demo_context) demo_client =
    (w', Ret (Ok tt)) /\ sent (w_log w') = [x05; x00] ++ reply_message Succeeded.
Proof.
  split; [reflexivity|].
  destruct (socks_clients_served (E := tunnel_server) demo_stream demo_session
    Socks5.default_options (fun unread => unread) tunnel_opened (fun _ => Ok (5%N, 7%N))
    demo_context demo_client [x05; x01; x00] [x05; x00] demo_request
    {| req_host := "ab"; req_port := 80; req_command := x01 |} [])
    as (w' & Hp & _ & Hs).
  - exact tunnel_serves.
  - apply (auth_none x01 [x00]); [reflexivity|constructor].
  - apply (connect_request x01 x03 [x02; x61; x62] "ab" x00 x50); [|discriminate].
    apply (target_domain x02 [x61; x62]); [reflexivity|discriminate|reflexivity].
  - reflexivity.
  - reflexivity.
  - discriminate.
  - exists w'. split; [exact Hp|exact Hs].
Defined.

Definition demo_proxy : Socks5Proxy :=
  {| Socks5.listener := tt; Socks5.session := demo_session; Socks5.options := Socks5.default_options |}.

Definition serve_run := exec (E := demo_server) [] (serve 2 demo_proxy 0 demo_context) start.

Lemma socks_serve_permits_witness :
  snd serve_run = OutOfFuel /\ connections (w_log start) + 2 <= connections (w_log (fst serve_run)).
Proof.
  split; [reflexivity|].
  exact (proj2 (proj2 (socks_serve_permits (E := demo_server) 2 demo_proxy 0 demo_context [] start
    (fst serve_run) (snd serve_run) (surjective_pairing serve_run))) eq_refl).
Defined.

(** A proxy with one permit, and clients that come while any are left. *)
Definition small_proxy : Socks5Proxy :=
  {| Socks5.listener := tt; Socks5.session := demo_session;
     Socks5.options := {| Socks5.max_connections := 1; handshake_timeout := 10;
                          authentication := NoAuth |} |}.

Definition clients_answer (o : call) (clients : nat) : nat * option (call_answer o) :=
  match o return nat * option (call_answer o) with
  | TcpAccept l =>
      match clients with
      | 0 => (0, None)
      | Datatypes.S n => (n, demo_answer (TcpAccept l))
      end
  | o => (clients, demo_answer o)
  end.

Definition clients_server : Env nat := {|
  env_poll := fun (o : @op core_sig) _ s => clients_answer o s;
  env_query := fun (q : @query core_sig) s => (s, demo_reply q)
|}.

Definition pool_start : world (pool (S0 := nat)) :=
  World 0%N ∅ 0%N 0%N [] {| semaphore := None; spawned := 0; ended := 0; others := 2 |} [].

(** The running connection ends, and another client comes. *)
Definition one_ends : turn (S := pool (S0 := nat)) :=
  Turn 1 ∅ [] (fun s => task_ends (with_others 1 s)).

Lemma one_ends_meanwhile :
  Forall (fun u => forall s, meanwhile s (t_env u s)) [one_ends].
Proof. constructor; [intros s; apply mw_ends, mw_none|constructor]. Defined.

Abbreviation pool_run := (exec (E := pool_env (E0 := clients_server)) [one_ends]
  (run_with_context 9 small_proxy demo_context) pool_start) (only parsing).

(** Of three clients one was dropped, one is over and one is being served. *)
Lemma socks_connections_bounded_witness :
  spawned (w_ext (fst pool_run)) = 2%N /\ ended (w_ext (fst pool_run)) = 1%N /\
  (running_tasks (w_ext (fst pool_run)) <= 1)%N.
Proof.
  split; [reflexivity|]. split; [reflexivity|].
  exact (proj1 (socks_connections_bounded (E0 := clients_server) 9 small_proxy demo_context
    [one_ends] pool_start eq_refl eq_refl eq_refl eq_refl one_ends_meanwhile)).
Defined.

(** Options that [validate] accepts, with more permits than the semaphore can hold. *)
Definition crowded_options : Socks5ProxyOptions :=
  {| Socks5.max_connections := 101; handshake_timeout := 10; authentication := NoAuth |}.

Example validated_options_panic :
  Socks5.validate crowded_options = Ok tt /\
  snd (poll (E := pool_env (E0 := clients_server)) (run_with_context 9
    {| Socks5.listener := tt; Socks5.session := demo_session; Socks5.options := crowded_options |}
    demo_context) pool_start) = Panic "a semaphore may not have more than MAX_PERMITS permits".
Proof. split; reflexivity. Qed.

(** ** Relay *)

(** A relay whose context is cancelled, when both streams can be shut down at once: which
    branch of the two [select!]s is polled first decides whether they are. *)
Definition shutdown_answer (o : call) : option (call_answer o) :=
  match o return option (call_answer o) with
  | IoShutdown _ => Some (Ok tt)
  | _ => None
  end.

Definition shutdown_server : Env unit := {|
  env_poll := fun (o : @op core_sig) _ s => (s, shutdown_answer o);
  env_query := fun (q : @query core_sig) s => (s, demo_reply q)
|}.

Definition stopped_relay (coin : bool) : world unit * fut (result SshError unit) :=
  exec (E := shutdown_server) [Turn 1 {[42%N]} [coin] (fun s => s)]
    (relay_streams demo_context "relay" (TcpIo 3%N) (SshIo 7%N) "stopped" "failed") start.

Example relay_shutdown_skipped :
  snd (stopped_relay true) = Ret (Err (cancelled_error "relay")) /\
  issued (w_log (fst (stopped_relay true))) = [CopyBidirectional (TcpIo 3%N) (SshIo 7%N)] /\
  snd (stopped_relay false) =
    Ret (Err (SshError.with_operation "relay" (SshError.cancelled "stopped"))) /\
  issued (w_log (fst (stopped_relay false))) =
    [CopyBidirectional (TcpIo 3%N) (SshIo 7%N); IoShutdown (TcpIo 3%N); IoShutdown (SshIo 7%N)].
Proof. split_and!; reflexivity. Qed.

Definition demo_relay : RelayRuntime :=
  {| Relay.listener := TcpListening tt; Relay.session := demo_session; Relay.target := Tcp "db" 5432;
     Relay.options := {| Relay.max_connections := 2; connection_timeout := 10; access_policy := allow_all |};
     Relay.counters_before := RelayStats_new 0 |}.

Definition relay_start : relay_state :=
  match Relay.initial demo_relay with
  | Some st => st
  | None => {| stats := RelayStats_new 0; permits := 0%N; tasks := ∅; next_task := 0;
               returned := None |}
  end.

Definition demo_peer : io * option IpAddr := (demo_stream, Some (IpV4 [#x7f; x00; x00; x01])).

(** A connection is accepted, its task starts and relays ten bytes. *)
Definition relay_accepted : relay_state :=
  dispatch demo_relay demo_context (fst demo_peer) (snd demo_peer) relay_start.
Definition demo_relay_connection : RelayConnection :=
  {| rc_local := fst demo_peer; rc_session := demo_session; rc_target := Tcp "db" 5432;
     rc_options := Relay.options demo_relay; rc_context := demo_context |}.
Definition relay_running : relay_state :=
  with_stats (record_read LocalToRemote 10)
    (with_stats start_connection
      (with_task 0 demo_relay_connection Running relay_accepted)).

Definition relay_labels : list label :=
  [LAccept (fst demo_peer) (snd demo_peer); LStart 0; LRead 0 LocalToRemote 10].

Lemma demo_accepts : accept_returns demo_relay demo_context (Ok demo_peer).
Proof. exists unit, demo_server, [], start. eexists. reflexivity. Defined.

Lemma demo_relay_steps : steps demo_relay demo_context relay_start relay_labels relay_running.
Proof.
  apply (steps_snoc _ _ _ [LAccept (fst demo_peer) (snd demo_peer); LStart 0]
    (LRead 0 LocalToRemote 10) (with_stats start_connection
      (with_task 0 demo_relay_connection Running relay_accepted))).
  - apply (steps_snoc _ _ _ [LAccept (fst demo_peer) (snd demo_peer)] (LStart 0) relay_accepted).
    + apply (steps_snoc _ _ _ [] (LAccept (fst demo_peer) (snd demo_peer)) relay_start); [apply steps_nil|].
      apply step_accept; [reflexivity|exact demo_accepts].
    + apply step_start. reflexivity.
  - eapply step_read. reflexivity.
Defined.

Lemma relay_accounting_witness :
  (sem_available (permits relay_running) = 1)%N /\
  active_connections (stats relay_running) = count running (tasks relay_running).
Proof.
  split; [reflexivity|].
  exact (proj1 (proj2 (proj2 (relay_accounting demo_relay demo_context 0 relay_start relay_labels
    relay_running eq_refl eq_refl demo_relay_steps eq_refl)))).
Defined.

(** Ten bytes in two seconds. *)
Lemma throughput_accurate_witness :
  exists q, f64_value (bytes_per_second (Relay.snapshot (stats relay_running) 2000000000)) = Some q /\
    near (QArith_base.Qmake 1 (2 ^ 47)) q (QArith_base.Qmake 5 1).
Proof.
  destruct (throughput_accurate demo_relay demo_context 0 relay_start relay_labels relay_running
    2000000000 eq_refl eq_refl demo_relay_steps) as (q & Hq & Hn & _);
    [by vm_compute|by vm_compute|].
  exists q. split; [exact Hq|].
  refine (proj1 (near_proper _ _ (QArith_base.Qeq_refl _) _ _ (QArith_base.Qeq_refl _) _ _ _) Hn).
  reflexivity.
Defined.

Lemma relay_tunnels_only_admitted_witness :
  initial demo_relay = Some relay_start /\
  forall turns (w : world unit) o, w_log w = [] ->
    hd_error (w_log (fst (exec (E := demo_server) turns (run_connection demo_relay_connection) w))) =
      Some (@Issued core_sig o) ->
    o = ChannelOpenDirectTcpip (Session.handle demo_session) "db" 5432 "127.0.0.1" 0.
Proof.
  split; [reflexivity|].
  destruct (relay_tunnels_only_admitted demo_relay demo_context relay_start relay_labels
    relay_running eq_refl demo_relay_steps) as (origin & _ & Ho).
  destruct (Ho 0%N demo_relay_connection Running eq_refl) as [_ Hr].
  intros turns w o Hw. destruct (Hr unit demo_server turns w) as (l & -> & Hl). rewrite Hw.
  destruct l as [|e l]; cbn [hd_error app]; [discriminate|]. intros [= ->].
  specialize (Hl [] (@Issued core_sig o) l eq_refl).
  destruct o; cbn in Hl; try exact (proj1 Hl);
    [destruct Hl as (raw & _ & Hl)|destruct Hl as (_ & raw & _ & Hl)];
    rewrite Hw in Hl; destruct Hl as ([|] & Heq & e & He & _); try discriminate Heq;
    by apply elem_of_nil in He.
Defined.

Lemma relay_dispatch_decision_witness :
  stats relay_accepted = record_accepted (stats relay_start) /\
  sem_available (permits relay_accepted) = 1%N.
Proof.
  split; [|reflexivity].
  destruct (relay_dispatch_decision demo_relay demo_context (fst demo_peer) (snd demo_peer)
    relay_start) as [(_ & _ & s & c & _ & _ & _ & _ & _ & H)|([H|H] & _)]; [exact H| |discriminate H].
  destruct H. left. reflexivity.
Defined.

Lemma relay_start_typed : stats_typed (stats relay_start).
Proof. exact (stats_new_typed 0). Defined.

Lemma relay_statistics_typed_witness :
  total_bytes (Relay.snapshot (stats relay_running) 0) = 10%N /\
  bytes_per_second (Relay.snapshot (stats relay_running) 0) = f64_zero.
Proof.
  split; [reflexivity|].
  exact (proj2 (proj2 (proj2 (relay_statistics_typed demo_relay demo_context relay_start relay_labels
    relay_running 0 relay_start_typed demo_relay_steps))) eq_refl).
Defined.

(** ** A secret in memory

    A password is cloned and its original dropped; the clone is still owned. *)
Instance demo_zeroize : ZeroizeLib := fun b =>
  {| text := ""; spare := replicate (length (capacity_bytes b)) x00 |}.

Instance demo_zeroizes : Zeroizes.
Proof. intros b. reflexivity. Defined.

Definition demo_secret_ops : list secret_op :=
  [NewSecret (Owned {| text := "hunter2"; spare := [x41] |}); CloneSecret 0; DropSecret 0;
   ReadSecret 1].

Definition demo_memory : memory :=
  match run_secrets exec_op demo_secret_ops no_memory with
  | Some (_, m) => m
  | None => no_memory
  end.

Lemma secrets_refined_and_cleared_witness :
  run_secrets exec_op demo_secret_ops no_memory =
    Some ([Made 0; Made 1; Dropped; Text "hunter2"], demo_memory) /\
  exists n b, cells demo_memory !! 0%N = Some b /\ capacity_bytes b = replicate n x00.
Proof.
  split; [reflexivity|].
  destruct (secrets_refined_and_cleared demo_secret_ops) as (m & Hm & _ & _ & Hz).
  assert (demo_memory = m) as -> by (unfold demo_memory; rewrite Hm; reflexivity).
  destruct (Hz 0%N) as (b & n & Hb & Hn); [| |by exists n, b];
    injection Hm as <-; [reflexivity|].
  intros Hin. vm_compute in Hin. discriminate Hin.
Defined.
