(* ===== verification/LoopbackDemo.v ===== *)
(** * LoopbackDemo: a server that keeps the laws of [Loopback].

    Over the toy libraries of [Demo]: a server with any handler, whose key is alice's, and
    a client that sends what it is asked for.  The property of [Loopback] is applied to it,
    and so are the laws the tests of [SessionTests] take for granted. *)

From S2P Require Import Demo SessionTests.
Import HostKeyDemo.

(** What the server remembers: the state its client's verifier was left in, and the
    keyboard-interactive exchange. *)
Record link := { cell : option dyn_verifier; talk : option (string * string) }.

Definition told (a : Auth) : AuthResult :=
  match a with
  | Accept => AuthSuccess
  | Reject (Some ms) partial => AuthFailure ms partial
  | Reject None partial => AuthFailure [MkPublicKey] partial
  | Partial _ _ _ => AuthFailure [] true
  end.

Definition told_kb (a : Auth) : KeyboardInteractiveAuthResponse :=
  match a with
  | Accept => KbSuccess
  | Reject (Some ms) partial => KbFailure ms partial
  | Reject None partial => KbFailure [MkPublicKey] partial
  | Partial name instructions prompts => KbInfoRequest name instructions prompts
  end.

Definition current (s : link) (v : dyn_verifier) : dyn_verifier := default v (cell s).

Definition shake (s : link) (h : ClientHandler) : link * option (result SshError Handle) :=
  let checked := check_server_key (with_verifier h (current s (verifier h))) alice in
  ({| cell := Some (verifier (fst checked)); talk := talk s |},
   Some (match snd checked with
         | Returned (Ok true) => Ok 1%N
         | Returned (Err e) => Err e
         | _ => Err (SshError.channel "unknown key")
         end)).

Section Server.
Context (srv : Handler).

(** Every signature is good. *)
Definition good_signature (key : PublicKey) (hash : option HashAlg) : bool := true.

Definition link_poll (o : call) (s : link) : link * option (call_answer o) :=
  match o return link * option (call_answer o) with
  | ClientConnect _ _ h => shake s h
  | ClientConnectStream _ _ h => shake s h
  | AuthenticatePassword _ user pass => (s, Some (Ok (told (auth_password srv user pass))))
  | AuthenticatePublickey _ user key hash =>
      (s, Some (Ok (told (signature_verdict srv good_signature user key hash))))
  | AuthenticateCert _ user _ cert => (s, Some (Ok (told (auth_openssh_certificate srv user cert))))
  | AuthenticatePublickeyWith _ user key hash _ =>
      (s, Some (Ok (told (signature_verdict srv good_signature user key hash))))
  | KeyboardStart _ user submethods =>
      ({| cell := cell s; talk := Some (user, default "" submethods) |},
       Some (Ok (told_kb (auth_keyboard_interactive srv user (default "" submethods) None))))
  | KeyboardRespond _ responses =>
      (s, match talk s with
          | Some (user, submethods) =>
              Some (Ok (told_kb (auth_keyboard_interactive srv user submethods (Some responses))))
          | None => None
          end)
  | BestSupportedRsaHash _ => (s, Some (Ok None))
  | HandlerRespond _ _ => (s, Some (Ok [SecretString_new "654321"]))
  | AgentConnectUds _ => (s, Some (Err "no agent"))
  | AgentConnectEnv => (s, Some (Err "no agent"))
  | AgentRequestIdentities _ => (s, Some (Ok []))
  | HandleDisconnect _ _ _ => (s, Some (Ok tt))
  | ChannelOpenDirectTcpip _ _ _ _ _ => (s, Some (Ok 7%N))
  | _ => (s, None)
  end.

#[export] Instance link_env : Env link := {
  env_poll := fun (o : @op core_sig) _ s => link_poll o s;
  env_query := fun (q : @query core_sig) s => (s, demo_reply q)
}.

#[export, refine] Instance link_peer : Peer (S := link) := {
  server_key := alice;
  peer := 1%N;
  reached via := True;
  shared := current
}.
Proof.
  - assert (forall h s, exists s' a, shake s h = (s', Some a) /\
      handshake_reply (1%N : Handle)
        (snd (check_server_key (with_verifier h (current s (verifier h))) alice)) a /\
      current s' (verifier h) =
        verifier (fst (check_server_key (with_verifier h (current s (verifier h))) alice))) as Hs.
    { intros h s. eexists _, _. split; [reflexivity|]. split; [|reflexivity].
      unfold handshake_reply. destruct (snd _) as [[[|]|e]|]; by eauto. }
    intros [stream|] cfg address h s _ checked Q n; exact (Hs h s).
  - intros capacity s. by exists s, 5%N.
Defined.

Lemma told_tells (P : MethodSet -> Prop) a : P [MkPublicKey] -> tells P a (told a).
Proof. intros HP. destruct a as [|[ms|] p|]; cbn; eauto. Defined.

Lemma told_kb_tells (P : MethodSet -> Prop) a : P [MkPublicKey] -> tells_kb P a (told_kb a).
Proof. intros HP. destruct a as [|[ms|] p|]; cbn; eauto. Defined.

#[export, refine] Instance link_serves : Serves (S := link) srv := {
  advertised _ ms := MkPublicKey ∈ ms;
  public_key_of k := k;
  verifies := good_signature;
  announced := None;
  respond _ _ := Ok [SecretString_new "654321"];
  agent_at _ := Err "no agent";
  identities _ := Ok [];
  exchange := talk
}.
Proof.
  all: intros; try (intros n; cbn; eexists _, _; split; [reflexivity|]; split; [reflexivity|];
    first [reflexivity | eexists; split; [reflexivity|]; apply told_tells; set_solver
          | split; [reflexivity|]; eexists; split; [reflexivity|]; apply told_kb_tells; set_solver]).
  - intros n. cbn. rewrite H. eexists _, _. split; [reflexivity|]. split; [reflexivity|].
    split; [by symmetry|]. eexists. split; [reflexivity|]. apply told_kb_tells. set_solver.
  - intros n. by eexists _, _.
  - cbn. destruct socket; intros n; by eexists _, _.
  - by exists s.
Defined.

End Server.

(** ** The property at work *)

(** The server takes the password [secret]; the plan guesses wrong once. *)
Definition secret_server : Handler :=
  {| auth_password user pass := if String.eqb pass "secret" then Accept else Auth_reject;
     auth_publickey := auth_publickey rejecting;
     auth_openssh_certificate := auth_openssh_certificate rejecting;
     auth_keyboard_interactive := auth_keyboard_interactive rejecting |}.

Definition link_start : world link := World 0%N ∅ 0%N 0%N [] {| cell := None; talk := None |} [].

Lemma link_reached srv : reached (E := link_env srv) None.
Proof. exact I. Defined.

Lemma link_unhindered : unhindered demo_config demo_context link_start.
Proof. split; [by vm_compute|by vm_compute|reflexivity]. Defined.

Lemma link_within : within_fuel (E := link_env secret_server) secret_server 0 "alice" demo_plan.
Proof. repeat constructor; by eexists. Defined.

Lemma link_admitted : exists m, m ∈ methods demo_plan /\
  accepts (E := link_env secret_server) secret_server 0 "alice" m = Some true.
Proof. exists (password "secret"). split; [apply elem_of_cons; right; by constructor|reflexivity]. Defined.

Lemma demo_config_valid : valid_config demo_config.
Proof. by apply validate_Ok_iff. Defined.

Lemma connect_succeeds_exactly_witness :
  exists w' r, exec (E := link_env secret_server) []
    (connect_with_context 0 demo_config demo_verifier demo_plan demo_context) link_start = (w', Ret r) /\
  exists s, r = Ok s.
Proof.
  destruct (connect_succeeds_exactly (E := link_env secret_server) (V := link_serves secret_server)
    secret_server 0 demo_config
    demo_verifier demo_plan demo_context
    (connect_with_context 0 demo_config demo_verifier demo_plan demo_context) [] link_start
    (or_introl (conj eq_refl (link_reached _))) demo_config_valid link_unhindered link_within)
    as (w' & r & He & [_ Hok] & _).
  exists w', r. split; [exact He|]. apply Hok. split; [vm_compute; reflexivity|exact link_admitted].
Defined.

(** The tests start in such a world. *)
Lemma link_test_world : test_world (E := link_env PasswordServer) link_start.
Proof.
  split; [|exact I|reflexivity|by intros v].
  split; [by vm_compute|]. apply not_elem_of_empty.
Defined.

Lemma plan_falls_back_example :
  passes (E := link_env PasswordServer)
    (authentication_plan_falls_back_after_an_unavailable_agent alice 2200) link_start.
Proof. exact (plan_falls_back_passes (V := link_serves _) 2200 link_start link_test_world eq_refl). Qed.
